(** * Animation export of the Blender-to-Godot exporter

    A shallow embedding of [io_scene_godot/converters/animation.py] and the
    properties of its track serialisation, resource assembly, player lookup,
    transform reconstruction and action dispatch.

    Conventions of the embedding:
    - Python [int] frames are [Z]; Python floats are exact rationals [Q]
      (a time is [frame / fps]); [fps] is the scene frame rate, a positive
      integer;
    - a Python exception ([IndexError], [AttributeError], [KeyError],
      [ValueError]) is the result [None];
    - Python's [==] on the values of a track is a parameter: on floats it
      is exact, on the matrices and colours of [mathutils] it holds up to
      one unit in the last place of each component and is not transitive;
    - Python objects compared by identity (actions, nodes) are named by an
      identifier, and the mutable data they carry lives in a store;
    - functions of [bpy], [bpy_extras], [mathutils] and of the sibling module
      [structures] are parameters of the Sections that use them. *)

From Stdlib Require Import Ascii QArith Qabs Qminmax.
From stdpp Require Import gmap strings list fin_maps pretty.

Local Open Scope Z_scope.

(** ** Constants of the module *)

Definition NEAREST_INTERPOLATION : Z := 0.
Definition LINEAR_INTERPOLATION : Z := 1.

Definition CONVERT_AS_BOOL : Z := 0.
Definition CONVERT_AS_FLOAT : Z := 1.
Definition CONVERT_AS_MULTI_VALUE : Z := 2.

Definition BAKING_SUFFIX : string := "--being-baking".

(** [frame / bpy.context.scene.render.fps] *)
Definition frame_time (fps : positive) (frame : Z) : Q := Qmake frame fps.

(** A vector of three components and a quaternion of [mathutils]: what
    [to_translation()], [to_scale()] and [to_quaternion()] return. *)
Record Vector := mkVector { vec_x : Q; vec_y : Q; vec_z : Q }.
Record Quaternion := mkQuat { quat_w : Q; quat_x : Q; quat_y : Q; quat_z : Q }.

(** ** Track serialisation: [value_frames_to_keys], [transform_frames_to_keys] *)

Section Keys.
(** Values of a track are not strictly typed in the source (matrix, float,
    bool, colour); [V] stands for them and [veq] for Python's [==]. *)
Context {V : Type}.
Variable veq : V → V → bool.
Variable fps : positive.

(** The three parallel arrays [value_frames_to_keys] fills, then stores in
    the keys map under "times", "transitions" and "values" (with
    "update" = 0). *)
Record KeysMap := mkKeys {
  times : list Q;
  transitions : list Q;
  update : Z;
  values : list V
}.

(** The guard of both loops:
    [interp == LINEAR_INTERPOLATION and index > 0 and
     value_list[index] == value_list[index - 1]];
    [None] is the [IndexError] of an index past [value_list]. *)
Definition same_as_previous (value_list : list V) (interp : Z) (index : nat)
  : option bool :=
  if (interp =? LINEAR_INTERPOLATION) && (0 <? index)%nat then
    cur ← value_list !! index;
    prev ← value_list !! (index - 1)%nat;
    Some (veq cur prev)
  else Some false.

(** The body of [for index, frame in enumerate(frame_list)], from [index]
    on, with the three arrays as accumulators. *)
Fixpoint value_keys_loop (value_list : list V) (interp : Z) (index : nat)
    (frame_list : list Z) (tm tr : list Q) (vs : list V)
  : option (list Q * list Q * list V) :=
  match frame_list with
  | [] => Some (tm, tr, vs)
  | frame :: rest =>
      skip ← same_as_previous value_list interp index;
      if skip : bool then
        value_keys_loop value_list interp (S index) rest tm tr vs
      else
        v ← value_list !! index;
        value_keys_loop value_list interp (S index) rest
          (tm ++ [frame_time fps frame]) (tr ++ [1%Q]) (vs ++ [v])
  end.

Definition value_frames_to_keys (frame_list : list Z) (value_list : list V)
    (interp : Z) : option KeysMap :=
  '(tm, tr, vs) ← value_keys_loop value_list interp 0 frame_list [] [] [];
  Some (mkKeys tm tr 0 vs).

(** [fix_matrix(mat)] of [structures] taken apart by [mathutils]:
    [transform_components mat] is the triple of
    [transform_mat.to_translation()], [transform_mat.to_quaternion()] and
    [transform_mat.to_scale()] for [transform_mat = fix_matrix(mat)]. *)
Variable transform_components : V → Vector * Quaternion * Vector.

(** The twelve numbers [transform_frames_to_keys] appends for a retained
    frame: the time, the transition 1.0, the translation (x, y, z), the
    quaternion (x, y, z, w) and the scale (x, y, z). *)
Definition transform_key (frame : Z) (mat : V) : list Q :=
  let '(location, quaternion, scale) := transform_components mat in
  [frame_time fps frame; 1%Q;
   vec_x location; vec_y location; vec_z location;
   quat_x quaternion; quat_y quaternion; quat_z quaternion; quat_w quaternion;
   vec_x scale; vec_y scale; vec_z scale].

Fixpoint transform_keys_loop (value_list : list V) (interp : Z)
    (index : nat) (frame_list : list Z) (array : list Q)
  : option (list Q) :=
  match frame_list with
  | [] => Some array
  | frame :: rest =>
      skip ← same_as_previous value_list interp index;
      if skip : bool then
        transform_keys_loop value_list interp (S index) rest array
      else
        mat ← value_list !! index;
        transform_keys_loop value_list interp (S index) rest
          (array ++ transform_key frame mat)
  end.

Definition transform_frames_to_keys (frame_list : list Z)
    (value_list : list V) (interp : Z) : option (list Q) :=
  transform_keys_loop value_list interp 0 frame_list [].

(** *** What the loops keep *)

(** The keyframes retained from position [index] on, given the value
    [prev] that precedes them in the input ([None] at the start). *)
Fixpoint retained_from (interp : Z) (prev : option V)
    (pairs : list (Z * V)) : list (Z * V) :=
  match pairs with
  | [] => []
  | (frame, v) :: rest =>
      let tail := retained_from interp (Some v) rest in
      match prev with
      | Some p =>
          if (interp =? LINEAR_INTERPOLATION) && veq v p then tail
          else (frame, v) :: tail
      | None => (frame, v) :: tail
      end
  end.

Definition retained (interp : Z) (pairs : list (Z * V)) : list (Z * V) :=
  retained_from interp None pairs.

(** The pairs [(frame_list[i], value_list[i])] of a track. *)
Definition track_pairs (frame_list : list Z) (value_list : list V)
  : list (Z * V) := zip frame_list value_list.

(** No two neighbours of the list are equal for [veq]. *)
Fixpoint adjacent_distinct (l : list V) : Prop :=
  match l with
  | a :: (b :: _) as tl => veq b a = false ∧ adjacent_distinct tl
  | _ => True
  end.

(** Position [index] of the input survives the linear-mode filter: it is
    the first one, or its value differs from the input value before it. *)
Definition keep_index (value_list : list V) (index : nat) : bool :=
  (index =? 0)%nat ||
  match value_list !! index, value_list !! (index - 1)%nat with
  | Some cur, Some prev => negb (veq cur prev)
  | _, _ => false
  end.

(** The pairs at the positions that satisfy [keep]. *)
Definition select_positions (keep : nat → bool) (pairs : list (Z * V))
  : list (Z * V) :=
  omap (λ i, if keep i then pairs !! i else None) (seq 0 (length pairs)).

(** The value that precedes position [index] in the input. *)
Definition prev_at (value_list : list V) (index : nat) : option V :=
  match index with
  | O => None
  | S i => value_list !! i
  end.

(** The flat transform array that holds exactly the keyframes [kept]. *)
Definition array_of (kept : list (Z * V)) : list Q :=
  concat (map (λ p, transform_key p.1 p.2) kept).

End Keys.

(** ** Tracks and animation resources: [Track], [AnimationResource] *)

(** The double-quote character of the Python literals in [add_track] and
    in the bone pattern of [blender_path_to_bone_name]. *)
Definition dquote : string := String (Ascii.ascii_of_nat 34) EmptyString.

Section Resource.
Context {V NodePath : Type}.
Variable veq : V → V → bool.
Variable fps : positive.
Variable transform_components : V → Vector * Quaternion * Vector.

(** class [Track]; [interp] defaults to linear in [__init__]. *)
Record Track := mkTrack {
  track_type : string;
  track_path : NodePath;
  track_interp : Z;
  track_frames : list Z;
  track_values : list V
}.

Definition Track_new (type : string) (path : NodePath)
    (frames : list Z) (values : list V) : Track :=
  mkTrack type path LINEAR_INTERPOLATION frames values.

Definition add_frame_data (frame : Z) (value : V) (t : Track) : Track :=
  mkTrack (track_type t) (track_path t) (track_interp t)
          (track_frames t ++ [frame]) (track_values t ++ [value]).

Definition set_interp (interp : Z) (t : Track) : Track :=
  mkTrack (track_type t) (track_path t) interp
          (track_frames t) (track_values t).

(** [if not self.frames: return 0; return self.frames[-1]] *)
Definition frame_end (t : Track) : Z :=
  match last (track_frames t) with
  | None => 0
  | Some frame => frame
  end.

(** [if not self.frames: return 0; return self.frames[0]] *)
Definition frame_begin (t : Track) : Z :=
  match head (track_frames t) with
  | None => 0
  | Some frame => frame
  end.

(** What an entry of the resource dictionary can hold. *)
Inductive PropValue :=
| PReal (q : Q)
| PInt (z : Z)
| PStr (s : string)
| PPath (p : NodePath)
| PKeys (k : @KeysMap V)
| PArray (a : list Q).

(** class [AnimationResource]: the dictionary of the internal resource
    ([self[...]]) and the attribute [track_count]. *)
Record AnimationResource := mkResource {
  res_name : string;
  res_contents : gmap string PropValue;
  track_count : nat
}.

(** [__init__]: [self['step'] = 0.1], [self['length'] = 0],
    [self.track_count = 0]. *)
Definition AnimationResource_new (name : string) : AnimationResource :=
  mkResource name
    (<["length" := PReal 0]> (<["step" := PReal (1 # 10)]> ∅)) 0.

Definition res_set (key : string) (v : PropValue) (r : AnimationResource)
  : AnimationResource :=
  mkResource (res_name r) (<[key := v]> (res_contents r)) (track_count r).

(** [self['length']], a number. *)
Definition res_length (r : AnimationResource) : option Q :=
  match res_contents r !! "length" with
  | Some (PReal q) => Some q
  | Some (PInt z) => Some (inject_Z z)
  | _ => None
  end.

(** [a > b] on numbers. *)
Definition Qgt_bool (a b : Q) : bool := negb (Qle_bool a b).

(** The keys entry of [add_track]: by track type, nothing for a type that
    is neither 'transform' nor 'value'. *)
Definition track_keys (t : Track) : option (option PropValue) :=
  if String.eqb (track_type t) "transform" then
    keys ← transform_frames_to_keys veq fps transform_components
              (track_frames t) (track_values t) (track_interp t);
    Some (Some (PArray keys))
  else if String.eqb (track_type t) "value" then
    keys ← value_frames_to_keys veq fps
              (track_frames t) (track_values t) (track_interp t);
    Some (Some (PKeys keys))
  else Some None.

Definition add_track (t : Track) (r : AnimationResource)
  : option AnimationResource :=
  let track_length := frame_time fps (frame_end t) in
  length ← res_length r;
  let r := if Qgt_bool track_length length
           then res_set "length" (PReal track_length) r else r in
  let track_id_str := "tracks/" +:+ pretty (track_count r) in
  let r := mkResource (res_name r) (res_contents r) (S (track_count r)) in
  let r := res_set (track_id_str +:+ "/type")
             (PStr (dquote +:+ track_type t +:+ dquote)) r in
  let r := res_set (track_id_str +:+ "/path") (PPath (track_path t)) r in
  let r := res_set (track_id_str +:+ "/interp") (PInt (track_interp t)) r in
  keys ← track_keys t;
  match keys with
  | Some k => Some (res_set (track_id_str +:+ "/keys") k r)
  | None => Some r
  end.

(** A sequence of [add_track] calls on one resource. *)
Fixpoint add_tracks (ts : list Track) (r : AnimationResource)
  : option AnimationResource :=
  match ts with
  | [] => Some r
  | t :: rest => r' ← add_track t r; add_tracks rest r'
  end.

(** A track [add_track] serialises without an [IndexError]: a value for
    every frame. *)
Definition well_formed (t : Track) : Prop :=
  (length (track_frames t) ≤ length (track_values t))%nat.

(** The largest last frame among the tracks, and 0 when there is none or
    all are negative. *)
Definition longest_frame (ts : list Track) : Z :=
  foldr Z.max 0 (map frame_end ts).

(** The largest last frame among the tracks [t :: ts]. *)
Definition max_frame_end (t : Track) (ts : list Track) : Z :=
  foldr Z.max (frame_end t) (map frame_end ts).
End Resource.

(** ** The Godot scene tree and [get_animation_player]

    [NodeTemplate] and the file object come from the sibling module
    [structures], which is not part of this file's source; what the code
    here relies on is modelled: a node has a type, children and (through
    its position) a parent, and constructing a node under a parent makes
    it the last child of that parent. The uniquifying of node names done
    by the constructor is left out. *)

(** A node of the scene tree. For an AnimationPlayer, [node_default] is its
    attribute [default_animation] (a resource of the file, by index) and
    [node_anims] its entries ['anims/<name>']. *)
#[warnings="-register-all"]
Inductive GodotNode := mkNode {
  node_name : string;
  node_type : string;
  node_default : option nat;
  node_anims : gmap string nat;
  node_children : list GodotNode
}.

(** A node object is named by its position: the child indices from the
    node up to the root, nearest first. The root is [[]], and the parent
    of [i :: up] is [up]. *)
Definition NodeRef := list nat.

Definition node_parent (ref : NodeRef) : option NodeRef :=
  match ref with
  | [] => None
  | _ :: up => Some up
  end.

Fixpoint get_node (root : GodotNode) (ref : NodeRef) : option GodotNode :=
  match ref with
  | [] => Some root
  | i :: up =>
      match get_node root up with
      | Some parent => node_children parent !! i
      | None => None
      end
  end.

Definition set_children (children : list GodotNode) (n : GodotNode)
  : GodotNode :=
  mkNode (node_name n) (node_type n) (node_default n) (node_anims n) children.

(** In-place change of the node at [ref]. *)
Fixpoint update_node (f : GodotNode → GodotNode) (ref : NodeRef)
    (root : GodotNode) : GodotNode :=
  match ref with
  | [] => f root
  | i :: up =>
      update_node (λ parent, set_children (alter f i (node_children parent))
                                          parent)
                  up root
  end.

(** [for child in node.children: if child.get_type() == 'AnimationPlayer':
    animation_player = child; break] : the index of the first such child. *)
Definition find_player_child (children : list GodotNode) : option nat :=
  fst <$> list_find (λ child, node_type child = "AnimationPlayer") children.

(** [while node_ptr.parent is not None: node_ptr = node_ptr.parent] *)
Fixpoint walk_to_root (node_ptr : NodeRef) : NodeRef :=
  match node_ptr with
  | [] => node_ptr
  | _ :: up => walk_to_root up
  end.

(** The loop of the SQUASHED_ACTIONS branch: the first AnimationPlayer
    child met on the way from [node_ptr] up to the root, [Some None] when
    there is none. *)
Fixpoint nearest_player (root : GodotNode) (node_ptr : NodeRef)
  : option (option NodeRef) :=
  match get_node root node_ptr with
  | None => None
  | Some node =>
      match find_player_child (node_children node) with
      | Some i => Some (Some (i :: node_ptr))
      | None =>
          match node_ptr with
          | [] => Some None
          | _ :: up => nearest_player root up
          end
      end
  end.

(** [AnimationPlayer(name='AnimationPlayer', parent=...)] as a node value;
    [default_animation] starts as [None]. *)
Definition AnimationPlayer_node : GodotNode :=
  mkNode "AnimationPlayer" "AnimationPlayer" None ∅ [].

(** Constructing [node] under [parent]: it becomes the last child. *)
Definition new_child (node : GodotNode) (parent : NodeRef) (root : GodotNode)
  : option (NodeRef * GodotNode) :=
  match get_node root parent with
  | None => None
  | Some p =>
      Some (length (node_children p) :: parent,
            update_node (λ p, set_children (node_children p ++ [node]) p)
                        parent root)
  end.

Section Document.
Context {V NodePath : Type}.

(** The scene under export: the tree, the nodes handed to
    [escn_file.add_node] and the resources handed to
    [escn_file.force_add_internal_resource], both in call order. *)
Record Document := mkDocument {
  doc_root : GodotNode;
  doc_nodes : list NodeRef;
  doc_resources : list (@AnimationResource V NodePath)
}.

Definition get_animation_player (animation_modes : string)
    (godot_node : NodeRef) (d : Document) : option (NodeRef * Document) :=
  '(animation_player, animation_base) ←
    (if String.eqb animation_modes "ACTIONS" then
       Some (None, godot_node)
     else if String.eqb animation_modes "SCENE_ANIMATION" then
       let scene_root := walk_to_root godot_node in
       root ← get_node (doc_root d) scene_root;
       Some ((λ i, i :: scene_root) <$>
               find_player_child (node_children root), scene_root)
     else
       found ← nearest_player (doc_root d) godot_node;
       Some (found, godot_node));
  match animation_player with
  | Some player => Some (player, d)
  | None =>
      '(player, root) ← new_child AnimationPlayer_node animation_base
                          (doc_root d);
      Some (player,
            mkDocument root (doc_nodes d ++ [player]) (doc_resources d))
  end.

(** The node is an AnimationPlayer of the tree. *)
Definition is_player (d : Document) (ref : NodeRef) : Prop :=
  node_type <$> get_node (doc_root d) ref = Some "AnimationPlayer".

(** The node has an AnimationPlayer among its children. *)
Definition has_player_child (d : Document) (ref : NodeRef) : Prop :=
  ∃ i, is_player d (i :: ref).
End Document.

(** The node and its ancestors, nearest first. *)
Fixpoint ancestors (ref : NodeRef) : list NodeRef :=
  ref :: match ref with
         | [] => []
         | _ :: up => ancestors up
         end.

(** The nodes whose children a mode searches for an AnimationPlayer: none
    for ACTIONS, the scene root for SCENE_ANIMATION, the node and its
    ancestors for SQUASHED_ACTIONS (any other mode). *)
Definition search_path (animation_modes : string) (godot_node : NodeRef)
  : list NodeRef :=
  if String.eqb animation_modes "ACTIONS" then []
  else if String.eqb animation_modes "SCENE_ANIMATION"
       then [walk_to_root godot_node]
       else ancestors godot_node.

(** The node under which a mode creates a player ([animation_base]): the
    scene root for SCENE_ANIMATION, the node itself otherwise. *)
Definition creation_base (animation_modes : string) (godot_node : NodeRef)
  : NodeRef :=
  if String.eqb animation_modes "SCENE_ANIMATION" then [] else godot_node.

(** What a node carries besides its children. *)
Definition node_label (n : GodotNode)
  : string * string * option nat * gmap string nat :=
  (node_name n, node_type n, node_default n, node_anims n).

(** [d'] is [d] with exactly one node more: [player], a new
    AnimationPlayer without children, the last child of [base] and the
    last node handed to [add_node]. Every other position of the tree
    holds a node iff it did in [d], with the same name, type and entries,
    and the resources are those of [d]. *)
Definition player_created {V NodePath : Type} (base player : NodeRef)
    (d d' : @Document V NodePath) : Prop :=
  ∃ base_node,
    get_node (doc_root d) base = Some base_node ∧
    player = length (node_children base_node) :: base ∧
    get_node (doc_root d) player = None ∧
    get_node (doc_root d') player = Some AnimationPlayer_node ∧
    get_node (doc_root d') base
      = Some (set_children
                (node_children base_node ++ [AnimationPlayer_node])
                base_node) ∧
    (∀ ref, ref ≠ player →
       node_label <$> get_node (doc_root d') ref
       = node_label <$> get_node (doc_root d) ref) ∧
    doc_nodes d' = doc_nodes d ++ [player] ∧
    doc_resources d' = doc_resources d.

(** ** Curve paths: [split_fcurve_data_path], [blender_path_to_bone_name] *)

(** [s.rsplit(sep, 1)] when [sep] occurs in [s]: the text before the last
    occurrence and the text after it; [None] when it does not occur. *)
Fixpoint rsplit_once (sep : Ascii.ascii) (s : string) : option (string * string) :=
  match s with
  | EmptyString => None
  | String c rest =>
      match rsplit_once sep rest with
      | Some (before, after) => Some (String c before, after)
      | None => if Ascii.eqb c sep then Some (EmptyString, rest) else None
      end
  end.

(** The pair (object path, attribute name) of a curve's data path. *)
Definition split_fcurve_data_path (data_path : string) : string * string :=
  match rsplit_once "."%char data_path with
  | None => ("", data_path)
  | Some (object_path, attribute) => (object_path, attribute)
  end.

(** [s] without its prefix [p], when it has it. *)
Fixpoint strip_prefix (p s : string) : option string :=
  match p, s with
  | EmptyString, _ => Some s
  | String a p', String b s' =>
      if Ascii.eqb a b then strip_prefix p' s' else None
  | String _ _, EmptyString => None
  end.

(** The longest prefix of [s] free of double quotes, and the rest. *)
Fixpoint span_unquoted (s : string) : string * string :=
  match s with
  | EmptyString => (EmptyString, EmptyString)
  | String c rest =>
      if Ascii.eqb c (Ascii.ascii_of_nat 34) then (EmptyString, s)
      else let '(name, tail) := span_unquoted rest in (String c name, tail)
  end.

(** A match of the pattern of [blender_path_to_bone_name] at the start of
    [s]: the text pose, any character but a newline, the text bones and an
    opening bracket, then a non-empty quoted name and a closing bracket.
    The result is the name (group 1). *)
Definition match_bone_pattern (s : string) : option string :=
  s1 ← strip_prefix "pose" s;
  match s1 with
  | EmptyString => None
  | String c s2 =>
      if Ascii.eqb c (Ascii.ascii_of_nat 10) then None
      else
        s3 ← strip_prefix ("bones[" +:+ dquote) s2;
        let '(name, s4) := span_unquoted s3 in
        match name with
        | EmptyString => None
        | _ => _ ← strip_prefix (dquote +:+ "]") s4; Some name
        end
  end.

(** [re.search(pattern, s)]: the leftmost position with a match. *)
Fixpoint search_bone_pattern (s : string) : option string :=
  match match_bone_pattern s with
  | Some name => Some name
  | None =>
      match s with
      | EmptyString => None
      | String _ rest => search_bone_pattern rest
      end
  end.

(** [None] is the [AttributeError] of [.group(1)] on a failed search. *)
Definition blender_path_to_bone_name (blender_object_path : string)
  : option string :=
  search_bone_pattern blender_object_path.

(** The data path [pose.bones["<bone>"]] of a pose bone. *)
Definition pose_bone_path (bone : string) : string :=
  "pose.bones[" +:+ dquote +:+ bone +:+ dquote +:+ "]".

(** ** Vectors and matrices of [mathutils]

    Euler triples with their order, rows of four numbers, and 3x3 and 4x4
    matrices by rows (vectors and quaternions are declared above; the
    components of a quaternion are indexed in the order w, x, y, z).
    [Matrix.Translation], [to_4x4] and [*] (the matrix product,
    as in the [mathutils] of Blender 2.7x that the module is written for)
    are spelled out; the conversions between rotations and matrices are
    parameters of the Sections that use them. *)

Record Euler := mkEuler { eul_x : Q; eul_y : Q; eul_z : Q; eul_order : string }.
Record Row4 := mkRow4 { e0 : Q; e1 : Q; e2 : Q; e3 : Q }.
Record Matrix3 := mkMatrix3 { m3_row0 : Vector; m3_row1 : Vector; m3_row2 : Vector }.
Record Matrix := mkMatrix { row0 : Row4; row1 : Row4; row2 : Row4; row3 : Row4 }.

(** [v[i] = value]; [None] is the [IndexError] of an index past the end. *)
Definition Vector_set (i : nat) (value : Q) (v : Vector) : option Vector :=
  match i with
  | 0%nat => Some (mkVector value (vec_y v) (vec_z v))
  | 1%nat => Some (mkVector (vec_x v) value (vec_z v))
  | 2%nat => Some (mkVector (vec_x v) (vec_y v) value)
  | _ => None
  end.

Definition Quaternion_set (i : nat) (value : Q) (q : Quaternion)
  : option Quaternion :=
  match i with
  | 0%nat => Some (mkQuat value (quat_x q) (quat_y q) (quat_z q))
  | 1%nat => Some (mkQuat (quat_w q) value (quat_y q) (quat_z q))
  | 2%nat => Some (mkQuat (quat_w q) (quat_x q) value (quat_z q))
  | 3%nat => Some (mkQuat (quat_w q) (quat_x q) (quat_y q) value)
  | _ => None
  end.

Definition Euler_set (i : nat) (value : Q) (e : Euler) : option Euler :=
  match i with
  | 0%nat => Some (mkEuler value (eul_y e) (eul_z e) (eul_order e))
  | 1%nat => Some (mkEuler (eul_x e) value (eul_z e) (eul_order e))
  | 2%nat => Some (mkEuler (eul_x e) (eul_y e) value (eul_order e))
  | _ => None
  end.

(** [mathutils.Matrix.Translation(v)] *)
Definition Matrix_Translation (v : Vector) : Matrix :=
  mkMatrix (mkRow4 1 0 0 (vec_x v)) (mkRow4 0 1 0 (vec_y v))
           (mkRow4 0 0 1 (vec_z v)) (mkRow4 0 0 0 1).

(** [m.to_4x4()] of a 3x3 matrix *)
Definition to_4x4 (m : Matrix3) : Matrix :=
  let ext (r : Vector) := mkRow4 (vec_x r) (vec_y r) (vec_z r) 0 in
  mkMatrix (ext (m3_row0 m)) (ext (m3_row1 m)) (ext (m3_row2 m))
           (mkRow4 0 0 0 1).

Definition dot4 (a b : Row4) : Q :=
  (e0 a * e0 b + e1 a * e1 b + e2 a * e2 b + e3 a * e3 b)%Q.

Definition column (j : Row4 → Q) (m : Matrix) : Row4 :=
  mkRow4 (j (row0 m)) (j (row1 m)) (j (row2 m)) (j (row3 m)).

Definition row_times (r : Row4) (m : Matrix) : Row4 :=
  mkRow4 (dot4 r (column e0 m)) (dot4 r (column e1 m))
         (dot4 r (column e2 m)) (dot4 r (column e3 m)).

(** [a * b] *)
Definition Matrix_mul (a b : Matrix) : Matrix :=
  mkMatrix (row_times (row0 a) b) (row_times (row1 a) b)
           (row_times (row2 a) b) (row_times (row3 a) b).

(** [m * v] for a point in homogeneous coordinates. *)
Definition Matrix_apply (m : Matrix) (v : Row4) : Row4 :=
  mkRow4 (dot4 (row0 m) v) (dot4 (row1 m) v) (dot4 (row2 m) v)
         (dot4 (row3 m) v).

Definition Row4_equiv (a b : Row4) : Prop :=
  (e0 a == e0 b ∧ e1 a == e1 b ∧ e2 a == e2 b ∧ e3 a == e3 b)%Q.

Definition Matrix_equiv (a b : Matrix) : Prop :=
  Row4_equiv (row0 a) (row0 b) ∧ Row4_equiv (row1 a) (row1 b) ∧
  Row4_equiv (row2 a) (row2 b) ∧ Row4_equiv (row3 a) (row3 b).

(** ** Data of the authoring tool *)

(** An action is a Python object compared by identity: it is named by an
    identifier, and its data lives in the store of actions of the state. *)
Definition ActionId := positive.

(** A keyframe curve: its data path, its component index and its
    evaluation at a frame. *)
Record FCurve := mkFCurve {
  data_path : string;
  array_index : nat;
  evaluate : Z → Q
}.

Record Action := mkAction {
  action_name : string;
  action_frame_range : Q * Q;
  action_fcurves : list FCurve
}.

Record PoseBone := mkPoseBone {
  bone_name : string;
  bone_constraints : list string;
  bone_matrix_basis : Matrix;
  bone_rotation_mode : string
}.

(** [animation_data]: the active action and, per NLA track, the actions of
    its strips ([None] for a strip without action). *)
Record AnimData := mkAnimData {
  ad_action : option ActionId;
  ad_nla_tracks : list (list (option ActionId))
}.

(** The object under export. [ob_is_object] is
    [isinstance(blender_object, bpy.types.Object)] and [ob_is_armature] is
    [isinstance(blender_object.data, bpy.types.Armature)]. *)
Record BlenderObject := mkObject {
  ob_name : string;
  ob_is_object : bool;
  ob_is_armature : bool;
  ob_constraints : list string;
  ob_pose_bones : list PoseBone;
  ob_matrix_basis : Matrix;
  ob_matrix_parent_inverse : Matrix;
  ob_rotation_mode : string;
  ob_animation_data : option AnimData
}.

(** [int(x)] on a float: truncation toward zero. *)
Definition py_int (x : Q) : Z := Z.quot (Qnum x) (Zpos (Qden x)).

(** [range(first, last)] *)
Definition py_range (first last : Z) : list Z :=
  map (λ i, first + Z.of_nat i) (seq 0 (Z.to_nat (last - first))).

(** [l[i]] with Python's negative indices; [None] is the [IndexError]. *)
Definition py_index {A} (l : list A) (i : Z) : option A :=
  if 0 <=? i then l !! Z.to_nat i
  else if 0 <=? i + Z.of_nat (length l)
       then l !! Z.to_nat (i + Z.of_nat (length l))
       else None.

(** [s[:-n]]: [s] without its last [n] characters ([n > 0]). *)
Definition drop_last (n : nat) (s : string) : string :=
  String.substring 0 (String.length s - n) s.

(** [blender_object.pose.bones.find(name)]: the index, or -1. *)
Definition bones_find (name : string) (bones : list PoseBone) : Z :=
  match list_find (λ b, bone_name b = name) bones with
  | Some (i, _) => Z.of_nat i
  | None => -1
  end.

(** [get_action_frame_range]: the last frame is included in Blender,
    here plus one to make it excluded. *)
Definition get_action_frame_range (action : Action) : Z * Z :=
  (py_int (action_frame_range action).1,
   py_int (action_frame_range action).2 + 1).

(** [has_object_constraint] *)
Definition has_object_constraint (blender_object : BlenderObject) : bool :=
  if ob_is_object blender_object then
    match ob_constraints blender_object with
    | [] => false
    | _ => true
    end
  else false.

(** [has_pose_constraint] *)
Definition has_pose_constraint (blender_object : BlenderObject) : bool :=
  if ob_is_object blender_object && ob_is_armature blender_object then
    existsb (λ pose_bone, match bone_constraints pose_bone with
                          | [] => false
                          | _ => true
                          end)
            (ob_pose_bones blender_object)
  else false.

(** ** Insertion-ordered dictionaries ([collections.OrderedDict]) *)

Section OrderedDict.
Context {A : Type}.

Fixpoint od_lookup (key : string) (m : list (string * A)) : option A :=
  match m with
  | [] => None
  | (k, v) :: rest => if String.eqb k key then Some v else od_lookup key rest
  end.

(** [m[key] = v]: in place when the key is there, at the end otherwise. *)
Fixpoint od_set (key : string) (v : A) (m : list (string * A))
  : list (string * A) :=
  match m with
  | [] => [(key, v)]
  | (k, old) :: rest =>
      if String.eqb k key then (k, v) :: rest
      else (k, old) :: od_set key v rest
  end.

Definition od_mem (key : string) (m : list (string * A)) : bool :=
  match od_lookup key m with
  | Some _ => true
  | None => false
  end.
End OrderedDict.

(** [NodePath(from_here, to_there)] and [NodePath(from_here, to_there,
    attribute)], with the path strings as given by [get_path()]. *)
Record NodePath := mkNodePath {
  np_from : string;
  np_to : string;
  np_attribute : option string
}.

(** What [export_transform_action] reads of the target node: its type,
    its path, the type of its parent ([None] when it has no parent), and
    the bone lookups of a Skeleton node. *)
Record TargetNode := mkTargetNode {
  gn_type : string;
  gn_path : string;
  gn_parent_type : option string;
  gn_find_bone_id : string → Z;
  gn_find_bone_name : string → string
}.

(** ** Transform export: [export_transform_action] *)

Section Transform.
(** Conversions of [mathutils]: a matrix to its translation, scale,
    quaternion and Euler angles (in a given order), and a rotation to its
    3x3 matrix. [to_euler m order] is [None] when [m.to_euler(order)]
    raises: a [ValueError] for an [order] that is none of the six Euler
    orders, such as the rotation mode 'AXIS_ANGLE'. *)
Variable to_translation : Matrix → Vector.
Variable to_scale : Matrix → Vector.
Variable to_quaternion : Matrix → Quaternion.
Variable to_euler : Matrix → string → option Euler.
Variable quaternion_to_matrix : Quaternion → Matrix3.
Variable euler_to_matrix : Euler → Matrix3.
(** [structures.fix_directional_transform]; [a == b] on two matrices,
    which [mathutils] decides entry by entry up to one unit in the last
    place, so that it need not be transitive; and the parts that
    [transform_frames_to_keys] takes from [fix_matrix(mat)]. *)
Variable fix_directional_transform : Matrix → Matrix.
Variable matrix_eq : Matrix → Matrix → bool.
Variable transform_components : Matrix → Vector * Quaternion * Vector.
Variable fps : positive.

(** class [TransformFrame] *)
Record TransformFrame := mkTransformFrame {
  tf_location : Vector;
  tf_scale : Vector;
  tf_rotation_mode : string;
  tf_rotation_quaternion : Quaternion;
  tf_rotation_euler : Euler
}.

Definition TransformFrame_ATTRIBUTES : list string :=
  ["location"; "scale"; "rotation_quaternion"; "rotation_euler"].

(** [__init__]; [to_euler()] without argument uses the order XYZ. The
    result is [None] when [to_euler] raises. *)
Definition TransformFrame_new (default_transform : Matrix)
    (rotation_mode : string) : option TransformFrame :=
  let location := to_translation default_transform in
  let scale := to_scale default_transform in
  let rotation_quaternion := to_quaternion default_transform in
  rotation_euler ←
    (if String.eqb rotation_mode "QUATERNION"
     then to_euler default_transform "XYZ"
     else to_euler default_transform rotation_mode);
  Some (mkTransformFrame location scale rotation_mode rotation_quaternion
          rotation_euler).

(** [update]: one component of one attribute; any other attribute
    leaves the frame as it is. *)
Definition TransformFrame_update (attribute : string) (index : nat)
    (value : Q) (f : TransformFrame) : option TransformFrame :=
  if String.eqb attribute "location" then
    v ← Vector_set index value (tf_location f);
    Some (mkTransformFrame v (tf_scale f) (tf_rotation_mode f)
            (tf_rotation_quaternion f) (tf_rotation_euler f))
  else if String.eqb attribute "scale" then
    v ← Vector_set index value (tf_scale f);
    Some (mkTransformFrame (tf_location f) v (tf_rotation_mode f)
            (tf_rotation_quaternion f) (tf_rotation_euler f))
  else if String.eqb attribute "rotation_quaternion" then
    q ← Quaternion_set index value (tf_rotation_quaternion f);
    Some (mkTransformFrame (tf_location f) (tf_scale f)
            (tf_rotation_mode f) q (tf_rotation_euler f))
  else if String.eqb attribute "rotation_euler" then
    e ← Euler_set index value (tf_rotation_euler f);
    Some (mkTransformFrame (tf_location f) (tf_scale f)
            (tf_rotation_mode f) (tf_rotation_quaternion f) e)
  else Some f.

(** [to_matrix] *)
Definition TransformFrame_to_matrix (f : TransformFrame) : Matrix :=
  let rot_mat :=
    if String.eqb (tf_rotation_mode f) "QUATERNION"
    then to_4x4 (quaternion_to_matrix (tf_rotation_quaternion f))
    else to_4x4 (euler_to_matrix (tf_rotation_euler f)) in
  let loc_mat := Matrix_Translation (tf_location f) in
  let sca_mat :=
    to_4x4 (mkMatrix3 (mkVector (vec_x (tf_scale f)) 0 0)
                      (mkVector 0 (vec_y (tf_scale f)) 0)
                      (mkVector 0 0 (vec_z (tf_scale f)))) in
  Matrix_mul (Matrix_mul loc_mat rot_mat) sca_mat.

(** The 3x3 rotation matrix [to_matrix] uses. *)
Definition frame_rotation (f : TransformFrame) : Matrix3 :=
  if String.eqb (tf_rotation_mode f) "QUATERNION"
  then quaternion_to_matrix (tf_rotation_quaternion f)
  else euler_to_matrix (tf_rotation_euler f).

Definition bone_warning (object_name : string) : string :=
  "Skip a bone fcurve in a non-armature object '" +:+ object_name +:+ "'".

(** [init_transform_frame_values]: the list of frames, or Python's [None]
    for a curve that is skipped, together with the warnings logged.
    The outer [None] is an exception. *)
Definition init_transform_frame_values (object_path : string)
    (blender_object : BlenderObject) (godot_node : TargetNode)
    (first_frame last_frame : Z)
  : option (option (list TransformFrame) * list string) :=
  let count := Z.to_nat (last_frame - first_frame) in
  if String.prefix "pose" object_path then
    bone_name ← blender_path_to_bone_name object_path;
    if negb (String.eqb (gn_type godot_node) "Skeleton") then
      Some (None, [bone_warning (ob_name blender_object)])
    else if gn_find_bone_id godot_node bone_name =? -1 then
      Some (None, [])
    else
      pose_bone ← py_index (ob_pose_bones blender_object)
                    (bones_find bone_name (ob_pose_bones blender_object));
      default_frame ←
        TransformFrame_new (bone_matrix_basis pose_bone)
                           (bone_rotation_mode pose_bone);
      Some (Some (replicate count default_frame), [])
  else
    default_frame ←
      TransformFrame_new (ob_matrix_basis blender_object)
                         (ob_rotation_mode blender_object);
    Some (Some (replicate count default_frame), []).

(** [transform_frame_values_map]: frames per object path, in insertion
    order. *)
Definition FrameMap := list (string * list TransformFrame).

(** [for frame in range(first_frame, last_frame):
     map[object_path][frame - first_frame].update(attribute,
       fcurve.array_index, fcurve.evaluate(frame))] *)
Fixpoint update_frames (object_path attribute : string) (fcurve : FCurve)
    (first_frame : Z) (frames : list Z) (m : FrameMap) : option FrameMap :=
  match frames with
  | [] => Some m
  | frame :: rest =>
      frame_values ← od_lookup object_path m;
      f ← py_index frame_values (frame - first_frame);
      f' ← TransformFrame_update attribute (array_index fcurve)
             (evaluate fcurve frame) f;
      let i := if 0 <=? frame - first_frame
               then Z.to_nat (frame - first_frame)
               else Z.to_nat (frame - first_frame
                              + Z.of_nat (length frame_values)) in
      update_frames object_path attribute fcurve first_frame rest
        (od_set object_path (<[i := f']> frame_values) m)
  end.

(** The body of [for fcurve in action.fcurves], on the map and the
    log of warnings. *)
Definition collect_fcurve (blender_object : BlenderObject)
    (godot_node : TargetNode) (first_frame last_frame : Z)
    (fcurve : FCurve) (st : FrameMap * list string)
  : option (FrameMap * list string) :=
  let '(m, log) := st in
  let '(object_path, attribute) :=
    split_fcurve_data_path (data_path fcurve) in
  let is_transform :=
    bool_decide (attribute ∈ TransformFrame_ATTRIBUTES) in
  initialised ←
    (if negb (od_mem object_path m) && is_transform then
       '(frame_values, warnings) ←
         init_transform_frame_values object_path blender_object
           godot_node first_frame last_frame;
       match frame_values with
       | Some (f :: fs) =>
           Some (Some (od_set object_path (f :: fs) m), log ++ warnings)
       | _ => Some (None, log ++ warnings)
       end
     else Some (Some m, log));
  match initialised with
  | (None, log) => Some (m, log)
  | (Some m, log) =>
      if is_transform then
        m' ← update_frames object_path attribute fcurve first_frame
               (py_range first_frame last_frame) m;
        Some (m', log)
      else Some (m, log)
  end.

Fixpoint collect_fcurves (blender_object : BlenderObject)
    (godot_node : TargetNode) (first_frame last_frame : Z)
    (fcurves : list FCurve) (st : FrameMap * list string)
  : option (FrameMap * list string) :=
  match fcurves with
  | [] => Some st
  | fcurve :: rest =>
      st' ← collect_fcurve blender_object godot_node first_frame
              last_frame fcurve st;
      collect_fcurves blender_object godot_node first_frame last_frame
        rest st'
  end.

Local Abbreviation Resource := (@AnimationResource Matrix NodePath).

(** The body of [for object_path, frame_value_list in map.items()].
    [bound] holds [track_path] and [transform_mtx_list] as the previous
    iteration left them: a path that is neither empty nor a pose path
    assigns neither, so the call of [add_track] reads the old values,
    and fails on unbound names in the first iteration. *)
Definition emit_track (player_parent_path : string)
    (blender_object : BlenderObject) (godot_node : TargetNode)
    (first_frame last_frame : Z)
    (item : string * list TransformFrame)
    (st : Resource * option (NodePath * list Matrix))
  : option (Resource * option (NodePath * list Matrix)) :=
  let '(object_path, frame_value_list) := item in
  let '(animation_resource, bound) := st in
  '(track_path, transform_mtx_list) ←
    (if String.eqb object_path "" then
       parent_type ← gn_parent_type godot_node;
       mtx ←
         (if String.eqb parent_type "BoneAttachment" then
            (* [matrix_parent_inverse * x.to_matrix]: the method is not
               called, and a matrix times a method is a TypeError *)
            match frame_value_list with
            | [] => Some []
            | _ => None
            end
          else
            Some (map (λ x, Matrix_mul
                              (ob_matrix_parent_inverse blender_object)
                              (TransformFrame_to_matrix x))
                      frame_value_list));
       let mtx :=
         if bool_decide (gn_type godot_node
                           ∈ ["SpotLight"; "DirectionalLight"; "Camera"])
         then map fix_directional_transform mtx else mtx in
       Some (mkNodePath player_parent_path (gn_path godot_node) None, mtx)
     else if String.prefix "pose" object_path then
       bone ← blender_path_to_bone_name object_path;
       Some (mkNodePath player_parent_path (gn_path godot_node)
               (Some (gn_find_bone_name godot_node bone)),
             map TransformFrame_to_matrix frame_value_list)
     else bound);
  r ← add_track matrix_eq fps transform_components
        (Track_new "transform" track_path
           (py_range first_frame last_frame) transform_mtx_list)
        animation_resource;
  Some (r, Some (track_path, transform_mtx_list)).

Fixpoint emit_tracks (player_parent_path : string)
    (blender_object : BlenderObject) (godot_node : TargetNode)
    (first_frame last_frame : Z)
    (items : FrameMap)
    (st : Resource * option (NodePath * list Matrix))
  : option (Resource * option (NodePath * list Matrix)) :=
  match items with
  | [] => Some st
  | item :: rest =>
      st' ← emit_track player_parent_path blender_object godot_node
              first_frame last_frame item st;
      emit_tracks player_parent_path blender_object godot_node
        first_frame last_frame rest st'
  end.

(** [export_transform_action]: the resource with the new tracks, and the
    warnings logged. [player_parent_path] is
    [animation_player.parent.get_path()]. *)
Definition export_transform_action (godot_node : TargetNode)
    (player_parent_path : string) (blender_object : BlenderObject)
    (action : Action) (animation_resource : Resource)
  : option (Resource * list string) :=
  let '(first_frame, last_frame) := get_action_frame_range action in
  '(transform_frame_values_map, log) ←
    collect_fcurves blender_object godot_node first_frame last_frame
      (action_fcurves action) ([], []);
  '(r, _) ← emit_tracks player_parent_path blender_object godot_node
              first_frame last_frame transform_frame_values_map
              (animation_resource, None);
  Some (r, log).

(** A curve of a pose bone that the target cannot take: the target is
    not a Skeleton, or the bone is absent from it. *)
Definition unsupported_bone_path (godot_node : TargetNode)
    (object_path : string) : Prop :=
  String.prefix "pose" object_path = true ∧
  ∃ bone, blender_path_to_bone_name object_path = Some bone ∧
          (gn_type godot_node ≠ "Skeleton" ∨
           gn_find_bone_id godot_node bone = -1).
End Transform.

(** ** Baking and dispatch: [bake_constraint_to_action],
    [export_animation_data] *)

(** The state of the authoring tool that the dispatcher reads and writes:
    the object under export (its [animation_data] holds the active action),
    the stored actions ([bpy.data.actions]) and the active object of the
    scene ([bpy.context.scene.objects.active], by name). *)
Record Blender := mkBlender {
  bl_object : BlenderObject;
  bl_actions : gmap ActionId Action;
  bl_active_object : option string
}.

(** The keyword arguments of [bpy_extras.anim_utils.bake_action]; [ba_obj]
    is the [obj] argument of the newer interface, absent in the older. *)
Record BakeArgs := mkBakeArgs {
  ba_obj : option string;
  ba_frame_start : Z;
  ba_frame_end : Z;
  ba_frame_step : Z;
  ba_only_selected : bool;
  ba_action : option ActionId;
  ba_do_pose : bool;
  ba_do_object : bool;
  ba_do_visual_keying : bool
}.

(** A call of [bake_action] as it happened: its arguments and the active
    action of the object at that moment ([None] without animation data).
    The calls are logged in order; the log is not part of the program. *)
Record BakeCall := mkBakeCall {
  call_args : BakeArgs;
  call_active_action : option (option ActionId)
}.

Record ExportSettings := mkSettings {
  use_export_animation : bool;
  animation_modes : string
}.

(** [blender_object.animation_data.action], [None] without animation
    data. *)
Definition active_action_of (b : Blender) : option (option ActionId) :=
  ad_action <$> ob_animation_data (bl_object b).

Definition with_animation_data (ad : option AnimData) (o : BlenderObject)
  : BlenderObject :=
  mkObject (ob_name o) (ob_is_object o) (ob_is_armature o)
    (ob_constraints o) (ob_pose_bones o) (ob_matrix_basis o)
    (ob_matrix_parent_inverse o) (ob_rotation_mode o) ad.

(** [blender_object.animation_data.action = action]; [None] is the
    [AttributeError] of an object without animation data. *)
Definition set_active_action (action : option ActionId) (b : Blender)
  : option Blender :=
  ad ← ob_animation_data (bl_object b);
  Some (mkBlender
          (with_animation_data
             (Some (mkAnimData action (ad_nla_tracks ad))) (bl_object b))
          (bl_actions b) (bl_active_object b)).

(** [action.name], and [action.name = name]; [None] when the action is
    not stored any more. *)
Definition get_action_name (action : ActionId) (b : Blender)
  : option string :=
  action_name <$> bl_actions b !! action.

Definition set_action_name (action : ActionId) (name : string) (b : Blender)
  : option Blender :=
  act ← bl_actions b !! action;
  Some (mkBlender (bl_object b)
          (<[action := mkAction name (action_frame_range act)
                         (action_fcurves act)]> (bl_actions b))
          (bl_active_object b)).

Definition set_active_object (name : option string) (b : Blender) : Blender :=
  mkBlender (bl_object b) (bl_actions b) name.

Section Dispatch.
Context {V : Type}.
Local Abbreviation Resource := (@AnimationResource V NodePath).
Local Abbreviation Document := (@Document V NodePath).

(** [bpy_extras.anim_utils.bake_action] and [bpy.data.actions.remove];
    [None] when they raise. [legacy_interface] is
    [bpy.app.version <= (2, 79, 0)]. *)
Variable bake_action : BakeArgs → Blender → option (ActionId * Blender).
Variable actions_remove : ActionId → Blender → option Blender.
Variable legacy_interface : bool.

(** An exporter of [ACTION_EXPORTER_MAP], called as
    [exporter_func(godot_node, animation_player, blender_object, action,
    animation_resource)]: it fills the resource. *)
Definition Exporter : Type :=
  NodeRef → NodeRef → Blender → ActionId → Resource → option Resource.

Variable export_transform_action_ : Exporter.
Variable export_shapekey_action : Exporter.
Variable export_light_action : Exporter.
Variable export_camera_action : Exporter.

Definition ACTION_EXPORTER_MAP : gmap string Exporter :=
  <["transform" := export_transform_action_]>
  (<["shapekey" := export_shapekey_action]>
  (<["light" := export_light_action]>
  (<["camera" := export_camera_action]> ∅))).

(** The call of [bake_action] in either interface, logged. In the older
    one the object is made the active object of the scene for the call. *)
Definition call_bake_action (args : BakeArgs) (st : Blender * list BakeCall)
  : option (ActionId * (Blender * list BakeCall)) :=
  let '(b, calls) := st in
  if legacy_interface then
    let active_obj_backup := bl_active_object b in
    let b := set_active_object (Some (ob_name (bl_object b))) b in
    let args := mkBakeArgs None (ba_frame_start args) (ba_frame_end args)
                  (ba_frame_step args) (ba_only_selected args)
                  (ba_action args) (ba_do_pose args) (ba_do_object args)
                  (ba_do_visual_keying args) in
    '(baked_action, b') ← bake_action args b;
    Some (baked_action,
          (set_active_object active_obj_backup b',
           calls ++ [mkBakeCall args (active_action_of b)]))
  else
    '(baked_action, b') ← bake_action args b;
    Some (baked_action, (b', calls ++ [mkBakeCall args (active_action_of b)])).

(** [bake_constraint_to_action]. The result is the returned action;
    Python's [None] is returned when baking in place on no action. *)
Definition bake_constraint_to_action (base_action : option ActionId)
    (bake_type : string) (in_place : bool) (st : Blender * list BakeCall)
  : option (option ActionId * (Blender * list BakeCall)) :=
  let '(b, calls) := st in
  '(b, frame_range) ←
    match base_action with
    | Some base =>
        b ← set_active_action (Some base) b;
        act ← bl_actions b !! base;
        Some (b, get_action_frame_range act)
    | None => Some (b, (1, 250))
    end;
  let action_bake_into := if in_place then base_action else None in
  let do_pose := String.eqb bake_type "POSE" in
  let do_object := negb do_pose in
  '(baked_action, (b, calls)) ←
    call_bake_action
      (mkBakeArgs (Some (ob_name (bl_object b))) frame_range.1 frame_range.2
         1 false action_bake_into do_pose do_object true)
      (b, calls);
  if in_place then Some (action_bake_into, (b, calls))
  else
    name ← match base_action with
           | Some base =>
               drop_last (String.length BAKING_SUFFIX)
                 <$> get_action_name base b
           | None => Some (ob_name (bl_object b) +:+ "Action")
           end;
    b ← set_action_name baked_action name b;
    Some (Some baked_action, (b, calls)).

(** [action_baker], with the two flags it reads from the enclosing call.
    [None] in the last case is the unbound [ret]. *)
Definition action_baker (has_obj_cst has_pose_cst : bool)
    (action_to_bake : option ActionId) (st : Blender * list BakeCall)
  : option (option ActionId * (Blender * list BakeCall)) :=
  if has_obj_cst && has_pose_cst then
    '(tmp, st) ← bake_constraint_to_action action_to_bake "OBJECT" false st;
    bake_constraint_to_action tmp "POSE" true st
  else if has_pose_cst then
    bake_constraint_to_action action_to_bake "POSE" false st
  else if has_obj_cst then
    bake_constraint_to_action action_to_bake "POSE" false st
  else None.

(** The state threaded through [export_animation_data]: the authoring
    tool, the log of bake calls and the document under construction. *)
Record Session := mkSession {
  ss_blender : Blender;
  ss_calls : list BakeCall;
  ss_doc : Document
}.

(** [AnimationPlayer.create_animation_resource]: a new resource named
    after the action, added to the file without looking for an equal one,
    and entered in the player under ['anims/<name>']. The result is the
    resource, by its index in the file. *)
Definition create_animation_resource (player : NodeRef)
    (action : option ActionId) (s : Session) : option (nat * Session) :=
  a ← action;
  resource_name ← get_action_name a (ss_blender s);
  let d := ss_doc s in
  let resource := length (doc_resources d) in
  let root :=
    update_node
      (λ n, mkNode (node_name n) (node_type n) (node_default n)
                   (<[resource_name := resource]> (node_anims n))
                   (node_children n))
      player (doc_root d) in
  Some (resource,
        mkSession (ss_blender s) (ss_calls s)
          (mkDocument root (doc_nodes d)
             (doc_resources d ++ [AnimationResource_new resource_name]))).

(** [AnimationPlayer.add_default_animation_resource] *)
Definition add_default_animation_resource (player : NodeRef)
    (action : option ActionId) (s : Session) : option Session :=
  '(resource, s) ← create_animation_resource player action s;
  let d := ss_doc s in
  Some (mkSession (ss_blender s) (ss_calls s)
          (mkDocument
             (update_node
                (λ n, mkNode (node_name n) (node_type n) (Some resource)
                             (node_anims n) (node_children n))
                player (doc_root d))
             (doc_nodes d) (doc_resources d))).

(** [exporter_func(godot_node, animation_player, blender_object, action,
    resource)] on the resource of the file at index [resource]. *)
Definition run_exporter (exporter_func : Exporter)
    (godot_node player : NodeRef) (action : option ActionId)
    (resource : nat) (s : Session) : option Session :=
  a ← action;
  r ← doc_resources (ss_doc s) !! resource;
  r' ← exporter_func godot_node player (ss_blender s) a r;
  Some (mkSession (ss_blender s) (ss_calls s)
          (mkDocument (doc_root (ss_doc s)) (doc_nodes (ss_doc s))
             (<[resource := r']> (doc_resources (ss_doc s))))).

(** A step on the authoring tool and the log, inside a session. *)
Definition on_blender {A} (f : Blender * list BakeCall →
                                option (A * (Blender * list BakeCall)))
    (s : Session) : option (A * Session) :=
  '(x, (b, calls)) ← f (ss_blender s, ss_calls s);
  Some (x, mkSession b calls (ss_doc s)).

Definition update_blender (f : Blender → option Blender) (s : Session)
  : option Session :=
  b ← f (ss_blender s);
  Some (mkSession b (ss_calls s) (ss_doc s)).

(** [action.name = action.name + BAKING_SUFFIX] *)
Definition add_baking_suffix (action : ActionId) (b : Blender)
  : option Blender :=
  name ← get_action_name action b;
  set_action_name action (name +:+ BAKING_SUFFIX) b.

(** [action.name = action.name[:-len(BAKING_SUFFIX)]] *)
Definition drop_baking_suffix (action : ActionId) (b : Blender)
  : option Blender :=
  name ← get_action_name action b;
  set_action_name action (drop_last (String.length BAKING_SUFFIX) name) b.

(** [export_active_action], with the variables of the enclosing call it
    uses; [exported_actions] is threaded. *)
Definition export_active_action (need_bake has_obj_cst has_pose_cst : bool)
    (exporter_func : Exporter) (godot_node player : NodeRef)
    (active_action : option ActionId)
    (st : gset ActionId * Session) : option (gset ActionId * Session) :=
  let '(exported_actions, s) := st in
  '(action_active_to_export, exported_actions, s) ←
    (if need_bake then
       '(exported_actions, s) ←
         match active_action with
         | Some a =>
             s ← update_blender (add_baking_suffix a) s;
             Some ({[a]} ∪ exported_actions, s)
         | None => Some (exported_actions, s)
         end;
       '(baked, s) ← on_blender (action_baker has_obj_cst has_pose_cst
                                   active_action) s;
       Some (baked, exported_actions, s)
     else Some (active_action, exported_actions, s));
  player_node ← get_node (doc_root (ss_doc s)) player;
  s ← match node_default player_node with
      | None => add_default_animation_resource player
                  action_active_to_export s
      | Some _ => Some s
      end;
  player_node ← get_node (doc_root (ss_doc s)) player;
  default_animation ← node_default player_node;
  s ← run_exporter exporter_func godot_node player action_active_to_export
        default_animation s;
  s ← (if need_bake then
         baked ← action_active_to_export;
         s ← update_blender (actions_remove baked) s;
         match active_action with
         | Some a => update_blender (drop_baking_suffix a) s
         | None => Some s
         end
       else Some s);
  Some (exported_actions, s).

(** [export_nla_action] *)
Definition export_nla_action (need_bake has_obj_cst has_pose_cst : bool)
    (exporter_func : Exporter) (godot_node player : NodeRef)
    (nla_action : ActionId)
    (st : gset ActionId * Session) : option (gset ActionId * Session) :=
  let '(exported_actions, s) := st in
  let exported_actions := {[nla_action]} ∪ exported_actions in
  '(nla_action_to_export, s) ←
    (if need_bake then
       s ← update_blender (add_baking_suffix nla_action) s;
       on_blender (action_baker has_obj_cst has_pose_cst (Some nla_action)) s
     else Some (Some nla_action, s));
  '(anim_resource, s) ←
    create_animation_resource player nla_action_to_export s;
  s ← run_exporter exporter_func godot_node player nla_action_to_export
        anim_resource s;
  s ← (if need_bake then
         baked ← nla_action_to_export;
         s ← update_blender (actions_remove baked) s;
         update_blender (drop_baking_suffix nla_action) s
       else Some s);
  Some (exported_actions, s).

(** [for nla_strip in nla_track.strips], on the actions of the strips. *)
Fixpoint export_nla_strips (need_bake has_obj_cst has_pose_cst : bool)
    (exporter_func : Exporter) (godot_node player : NodeRef)
    (strips : list (option ActionId))
    (st : gset ActionId * Session) : option (gset ActionId * Session) :=
  match strips with
  | [] => Some st
  | strip_action :: rest =>
      st ← match strip_action with
           | Some a =>
               if bool_decide (a ∉ st.1)
               then export_nla_action need_bake has_obj_cst has_pose_cst
                      exporter_func godot_node player a st
               else Some st
           | None => Some st
           end;
      export_nla_strips need_bake has_obj_cst has_pose_cst exporter_func
        godot_node player rest st
  end.

(** [for nla_track in blender_object.animation_data.nla_tracks] *)
Fixpoint export_nla_tracks (need_bake has_obj_cst has_pose_cst : bool)
    (exporter_func : Exporter) (godot_node player : NodeRef)
    (nla_tracks : list (list (option ActionId)))
    (st : gset ActionId * Session) : option (gset ActionId * Session) :=
  match nla_tracks with
  | [] => Some st
  | strips :: rest =>
      st ← export_nla_strips need_bake has_obj_cst has_pose_cst
             exporter_func godot_node player strips st;
      export_nla_tracks need_bake has_obj_cst has_pose_cst exporter_func
        godot_node player rest st
  end.

(** [export_animation_data(escn_file, export_settings, godot_node,
    blender_object, action_type)]. The NLA tracks are read once, when the
    loop over them starts. *)
Definition export_animation_data (export_settings : ExportSettings)
    (godot_node : NodeRef) (action_type : string) (s : Session)
  : option Session :=
  if negb (use_export_animation export_settings) then Some s else
  let blender_object := bl_object (ss_blender s) in
  let has_obj_cst := has_object_constraint blender_object in
  let has_pose_cst := has_pose_constraint blender_object in
  let need_bake :=
    String.eqb action_type "transform" && (has_obj_cst || has_pose_cst) in
  let no_animation_data :=
    match ob_animation_data blender_object with
    | None => true
    | Some _ => false
    end in
  if no_animation_data && negb need_bake then Some s else
  '(animation_player, d) ←
    get_animation_player (animation_modes export_settings) godot_node
      (ss_doc s);
  let s := mkSession (ss_blender s) (ss_calls s) d in
  exporter_func ← ACTION_EXPORTER_MAP !! action_type;
  let exported_actions : gset ActionId := ∅ in
  let active_action :=
    match ob_animation_data blender_object with
    | Some ad => ad_action ad
    | None => None
    end in
  '(exported_actions, s) ←
    (if bool_decide (active_action ≠ None) || (no_animation_data && need_bake)
     then export_active_action need_bake has_obj_cst has_pose_cst
            exporter_func godot_node animation_player active_action
            (exported_actions, s)
     else Some (exported_actions, s));
  animation_data ← ob_animation_data (bl_object (ss_blender s));
  '(exported_actions, s) ←
    export_nla_tracks need_bake has_obj_cst has_pose_cst exporter_func
      godot_node animation_player (ad_nla_tracks animation_data)
      (exported_actions, s);
  match active_action with
  | Some a => update_blender (set_active_action (Some a)) s
  | None => Some s
  end.

(** The actions for which the loop over [strips] calls
    [export_nla_action], in order, given the set recorded so far. *)
Fixpoint strips_to_export (exported_actions : gset ActionId)
    (strips : list (option ActionId)) : list ActionId :=
  match strips with
  | [] => []
  | None :: rest => strips_to_export exported_actions rest
  | Some a :: rest =>
      if bool_decide (a ∉ exported_actions)
      then a :: strips_to_export ({[a]} ∪ exported_actions) rest
      else strips_to_export exported_actions rest
  end.

(** [export_nla_action] for each action of a list, in order. *)
Fixpoint export_nla_actions (need_bake has_obj_cst has_pose_cst : bool)
    (exporter_func : Exporter) (godot_node player : NodeRef)
    (actions : list ActionId)
    (st : gset ActionId * Session) : option (gset ActionId * Session) :=
  match actions with
  | [] => Some st
  | a :: rest =>
      st ← export_nla_action need_bake has_obj_cst has_pose_cst
             exporter_func godot_node player a st;
      export_nla_actions need_bake has_obj_cst has_pose_cst exporter_func
        godot_node player rest st
  end.
End Dispatch.

(** ** What the properties ask of the authoring tool

    [bake_action] and [bpy.data.actions.remove] are not part of this
    program. The properties of the dispatcher that depend on them say so
    through the conditions below. *)

(** Every stored action of [b] is stored in [b'] under the same name. *)
Definition names_kept (b b' : Blender) : Prop :=
  ∀ id act, bl_actions b !! id = Some act →
    ∃ act', bl_actions b' !! id = Some act' ∧
            action_name act' = action_name act.

(** Baking renames no stored action and removes none. *)
Definition bake_keeps_names
    (bake_action : BakeArgs → Blender → option (ActionId * Blender)) : Prop :=
  ∀ args b baked b', bake_action args b = Some (baked, b') → names_kept b b'.

(** Baking without a target action returns an action that was not stored
    before (it creates a new one). *)
Definition bake_creates_action
    (bake_action : BakeArgs → Blender → option (ActionId * Blender)) : Prop :=
  ∀ args b baked b',
    bake_action args b = Some (baked, b') → ba_action args = None →
    bl_actions b !! baked = None.

(** Removing an action renames no other action and removes no other. *)
Definition remove_keeps_names
    (actions_remove : ActionId → Blender → option Blender) : Prop :=
  ∀ a b b', actions_remove a b = Some b' →
    ∀ id act, id ≠ a → bl_actions b !! id = Some act →
      ∃ act', bl_actions b' !! id = Some act' ∧
              action_name act' = action_name act.

(** Baking into a stored target, or into no target, does not raise: it
    returns a stored action, keeps the stored actions stored and keeps the
    animation data of the object when there is one. *)
Definition bake_succeeds
    (bake_action : BakeArgs → Blender → option (ActionId * Blender)) : Prop :=
  ∀ args b,
    (∀ target, ba_action args = Some target →
               is_Some (bl_actions b !! target)) →
    ∃ baked b',
      bake_action args b = Some (baked, b') ∧
      is_Some (bl_actions b' !! baked) ∧
      (is_Some (ob_animation_data (bl_object b)) →
       is_Some (ob_animation_data (bl_object b'))) ∧
      ∀ id, is_Some (bl_actions b !! id) → is_Some (bl_actions b' !! id).

(** Baking leaves the action it baked into as the active action of the
    object ([bake_action] ends with [atd.action = action]) and returns it:
    the target when one was given. *)
Definition bake_makes_active
    (bake_action : BakeArgs → Blender → option (ActionId * Blender)) : Prop :=
  ∀ args b baked b',
    bake_action args b = Some (baked, b') →
    active_action_of b' = Some (Some baked) ∧
    ∀ target, ba_action args = Some target → baked = target.

(** Removing the active action of the object leaves the object without
    active action. *)
Definition remove_unlinks
    (actions_remove : ActionId → Blender → option Blender) : Prop :=
  ∀ a b b', actions_remove a b = Some b' →
    active_action_of b = Some (Some a) → active_action_of b' = Some None.

(** The value [export_animation_data] backs up as [active_action]:
    [blender_object.animation_data.action], or [None] without animation
    data. *)
Definition current_action (b : Blender) : option ActionId :=
  match ob_animation_data (bl_object b) with
  | Some ad => ad_action ad
  | None => None
  end.

(** What [bake_constraint_to_action] needs of a base action: the object
    has animation data, and the action is stored. *)
Definition bake_ready (base_action : option ActionId) (b : Blender) : Prop :=
  match base_action with
  | Some base => is_Some (ob_animation_data (bl_object b)) ∧
                 is_Some (bl_actions b !! base)
  | None => True
  end.

(** ** Sample comparisons and conversions

    Stand-ins for [mathutils] in the runs on concrete data. *)

(** [a == b] as [mathutils] decides it on two entries: equal up to one
    unit in the last place of a 32-bit float. Between 1 and 2 such floats
    are 2^-23 apart; the entries that the samples vary lie there. *)
Definition float_close (a b : Q) : bool :=
  Qle_bool (Qabs (a - b)) (1 # 8388608).

Definition Row4_close (a b : Row4) : bool :=
  float_close (e0 a) (e0 b) && float_close (e1 a) (e1 b) &&
  float_close (e2 a) (e2 b) && float_close (e3 a) (e3 b).

(** [a == b] on two sample matrices: every entry is [float_close]. *)
Definition Matrix_close (a b : Matrix) : bool :=
  Row4_close (row0 a) (row0 b) && Row4_close (row1 a) (row1 b) &&
  Row4_close (row2 a) (row2 b) && Row4_close (row3 a) (row3 b).

(** The translation along x to [x], and the parts of a matrix that is a
    translation: its last column, no rotation, scale 1. *)
Definition moved_to (x : Q) : Matrix :=
  Matrix_Translation (mkVector x 0 0).

Definition translation_components (mat : Matrix)
  : Vector * Quaternion * Vector :=
  (mkVector (e3 (row0 mat)) (e3 (row1 mat)) (e3 (row2 mat)),
   mkQuat 1 0 0 0, mkVector 1 1 1).

(** The parts of the identity transform, for values that are no
    matrices. *)
Definition sample_components {V : Type} (mat : V)
  : Vector * Quaternion * Vector :=
  (mkVector 0 0 0, mkQuat 1 0 0 0, mkVector 1 1 1).

(** [to_euler]: no rotation, in the six Euler orders; a [ValueError] for
    any other order. *)
Definition sample_to_euler (m : Matrix) (order : string) : option Euler :=
  if bool_decide (order ∈ ["XYZ"; "XZY"; "YXZ"; "YZX"; "ZXY"; "ZYX"])
  then Some (mkEuler 0 0 0 order) else None.

(** ** Sample tracks

    Value tracks over integers, at 24 frames per second, used to run the
    resource assembly on concrete data. *)

Definition walk_track : @Track Z string :=
  Track_new "value" "Cube:visible" [0; 5; 10] [1; 1; 0].

Definition short_track : @Track Z string :=
  Track_new "value" "Cube:energy" [0; 4] [2; 3].

Definition empty_track : @Track Z string :=
  Track_new "value" "Cube:fov" [] [].

(** A track whose keyframes all lie before frame 0. *)
Definition early_track : @Track Z string :=
  Track_new "value" "Cube:visible" [-7; -3] [1; 0].

Definition sample_add_tracks (ts : list (@Track Z string))
  : option (@AnimationResource Z string) :=
  add_tracks Z.eqb 24 sample_components ts (AnimationResource_new "Walk").

(** ** Sample scenes *)

Definition spatial (name : string) (children : list GodotNode) : GodotNode :=
  mkNode name "Spatial" None ∅ children.

(** A root with one child, [Cube], which has one child, [Lamp]. *)
Definition sample_scene : @Document Z NodePath :=
  mkDocument (spatial "Scene" [spatial "Cube" [spatial "Lamp" []]]) [] [].

Definition sample_cube : NodeRef := [0%nat].
Definition sample_lamp : NodeRef := [0%nat; 0%nat].

(** ** Sample armature

    An armature with the bones Spine and Hand, exported to a Skeleton that
    keeps only Spine, or to a node that is no Skeleton; the conversions of
    [mathutils] are replaced by the values of the identity transform. *)

Definition identity3 : Matrix3 :=
  mkMatrix3 (mkVector 1 0 0) (mkVector 0 1 0) (mkVector 0 0 1).

Definition sample_export : TargetNode → string → BlenderObject → Action →
    @AnimationResource Matrix NodePath →
    option (@AnimationResource Matrix NodePath * list string) :=
  export_transform_action
    (λ m, mkVector (e3 (row0 m)) (e3 (row1 m)) (e3 (row2 m)))
    (λ _, mkVector 1 1 1)
    (λ _, mkQuat 1 0 0 0)
    sample_to_euler
    (λ _, identity3) (λ _, identity3)
    (λ m, m) Matrix_close sample_components 24.

Definition sample_armature : BlenderObject :=
  mkObject "Armature" true true []
    [mkPoseBone "Spine" [] (to_4x4 identity3) "QUATERNION";
     mkPoseBone "Hand" [] (to_4x4 identity3) "QUATERNION"]
    (to_4x4 identity3) (to_4x4 identity3) "XYZ" None.

Definition sample_skeleton : TargetNode :=
  mkTargetNode "Skeleton" "Armature" (Some "Spatial")
    (λ bone, if String.eqb bone "Spine" then 0 else -1) (λ bone, bone).

Definition sample_mesh_node : TargetNode :=
  mkTargetNode "MeshInstance" "Cube" (Some "Spatial") (λ _, -1) (λ bone, bone).

(** A curve on the x location of the bone Hand. *)
Definition hand_curve : FCurve :=
  mkFCurve (pose_bone_path "Hand" +:+ ".location") 0 (λ frame, inject_Z frame).

Definition hand_action : Action :=
  mkAction "ArmatureAction" (1, 3)%Q [hand_curve].

(** ** Sample authoring tool

    A stand-in for the two functions of the authoring tool. Baking into
    no target stores a new, empty action over the baked frames; baking
    into a stored target keeps the store; either way the action baked into
    becomes the active action of the object, whose animation data is
    created when missing, and is returned. Removing an action takes it out
    of the store and, when it is the active action, leaves the object
    without active action. *)

(** [atd = obj.animation_data_create(); atd.action = action] *)
Definition sample_activate (action : ActionId) (b : Blender) : Blender :=
  let nla_tracks :=
    match ob_animation_data (bl_object b) with
    | Some ad => ad_nla_tracks ad
    | None => []
    end in
  mkBlender
    (with_animation_data (Some (mkAnimData (Some action) nla_tracks))
       (bl_object b))
    (bl_actions b) (bl_active_object b).

Definition sample_bake_action (args : BakeArgs) (b : Blender)
  : option (ActionId * Blender) :=
  match ba_action args with
  | Some target =>
      if bool_decide (is_Some (bl_actions b !! target))
      then Some (target, sample_activate target b) else None
  | None =>
      let baked := fresh (dom (bl_actions b)) in
      Some (baked,
            sample_activate baked
              (mkBlender (bl_object b)
                 (<[baked := mkAction "Action"
                               (inject_Z (ba_frame_start args),
                                inject_Z (ba_frame_end args)) []]>
                    (bl_actions b))
                 (bl_active_object b)))
  end.

Definition sample_actions_remove (a : ActionId) (b : Blender)
  : option Blender :=
  let blender_object :=
    match ob_animation_data (bl_object b) with
    | Some ad =>
        if bool_decide (ad_action ad = Some a)
        then with_animation_data (Some (mkAnimData None (ad_nla_tracks ad)))
               (bl_object b)
        else bl_object b
    | None => bl_object b
    end in
  Some (mkBlender blender_object (delete a (bl_actions b))
          (bl_active_object b)).

(** An exporter that adds nothing to the resource. *)
Definition sample_exporter : @Exporter Z :=
  λ _ _ _ _ resource, Some resource.

Definition sample_export_animation_data
  : ExportSettings → NodeRef → string → @Session Z → option (@Session Z) :=
  export_animation_data sample_bake_action sample_actions_remove false
    sample_exporter sample_exporter sample_exporter sample_exporter.

(** A cube with the stored actions Walk (1) and Run (2). *)
Definition sample_actions : gmap ActionId Action :=
  <[1%positive := mkAction "Walk" (1, 20)%Q []]>
  (<[2%positive := mkAction "Run" (5, 9)%Q []]> ∅).

Definition sample_object (constraints : list string)
    (animation_data : option AnimData) : BlenderObject :=
  mkObject "Cube" true false constraints [] (to_4x4 identity3)
    (to_4x4 identity3) "XYZ" animation_data.

Definition sample_session (constraints : list string)
    (animation_data : option AnimData) : @Session Z :=
  mkSession
    (mkBlender (sample_object constraints animation_data) sample_actions None)
    [] sample_scene.

Definition sample_settings : ExportSettings :=
  mkSettings true "SQUASHED_ACTIONS".

(** The frame range a bake of [base_action] is to sample: the range of the
    action, half-open, or frames 1 to 250 without an action. *)
Definition bake_range (base_action : option ActionId) (b : Blender)
  : option (Z * Z) :=
  match base_action with
  | Some base => get_action_frame_range <$> bl_actions b !! base
  | None => Some (1, 250)
  end.

(** The name [bake_constraint_to_action] gives to a new baked action. *)
Definition baked_name (base_action : option ActionId) (b : Blender)
  : option string :=
  match base_action with
  | Some base =>
      drop_last (String.length BAKING_SUFFIX) <$> get_action_name base b
  | None => Some (ob_name (bl_object b) +:+ "Action")
  end.

(** ** More of the module: helpers of the added properties *)

(** The character [c] occurs in [s]. *)
Fixpoint has_char (c : Ascii.ascii) (s : string) : bool :=
  match s with
  | EmptyString => false
  | String c' rest => Ascii.eqb c' c || has_char c rest
  end.

(** The number of components of a transform attribute: an index from
    there on is out of range. *)
Definition attribute_size (attribute : string) : nat :=
  if String.eqb attribute "rotation_quaternion" then 4 else 3.

(** The frame of an animated object at [frame]: the default frame updated
    by every curve in turn, each with its attribute, its component and its
    value at [frame]. *)
Definition sample_curves (curves : list FCurve) (frame : Z)
    (default_frame : TransformFrame) : option TransformFrame :=
  foldl (λ acc fcurve,
           f ← acc;
           TransformFrame_update
             (split_fcurve_data_path (data_path fcurve)).2
             (array_index fcurve) (evaluate fcurve frame) f)
        (Some default_frame) curves.

(** [fs] updated frame by frame by one curve, from [frame] on: the frame
    at position k takes the value of the curve at [frame + k]. *)
Fixpoint update_each (attribute : string) (fcurve : FCurve) (frame : Z)
    (fs : list TransformFrame) : option (list TransformFrame) :=
  match fs with
  | [] => Some []
  | f :: rest =>
      f' ← TransformFrame_update attribute (array_index fcurve)
             (evaluate fcurve frame) f;
      rest' ← update_each attribute fcurve (frame + 1) rest;
      Some (f' :: rest')
  end.

(** A transform curve of the object itself: its data path is one of the
    transform attributes, without an object path, and its component index
    is in range. *)
Definition object_curve (fcurve : FCurve) : Prop :=
  data_path fcurve ∈ TransformFrame_ATTRIBUTES ∧
  (array_index fcurve < attribute_size (data_path fcurve))%nat.

(** An action that moves a cube along x over the frames 1 to 3. *)
Definition slide_action : Action :=
  mkAction "CubeAction" (1, 3)%Q
    [mkFCurve "location" 0 (λ frame, inject_Z frame)].

(** A node whose parent is a BoneAttachment. *)
Definition sample_attached_node : TargetNode :=
  mkTargetNode "MeshInstance" "Sword" (Some "BoneAttachment") (λ _, -1)
    (λ bone, bone).

(** The frames of an object after the curves [curves]: one per frame of
    the range, each the sample of the curves at its frame. *)
Definition sampled (default_frame : TransformFrame) (first last : Z)
    (curves : list FCurve) (frame_values : list TransformFrame) : Prop :=
  length frame_values = Z.to_nat (last - first) ∧
  ∀ k f, frame_values !! k = Some f →
    sample_curves curves (first + Z.of_nat k) default_frame = Some f.

(** The authoring tool of the sample session with constraints on the
    cube and Walk as active action. *)
Definition sample_blender : Blender :=
  ss_blender (sample_session ["Track To"]
                (Some (mkAnimData (Some 1%positive) [])) : @Session Z).

(** A scene whose root has the children [Cube] and an AnimationPlayer,
    and a session on it for a cube with the given constraints, with Walk
    as active action. *)
Definition scene_with_player : @Document Z NodePath :=
  mkDocument (spatial "Scene" [spatial "Cube" []; AnimationPlayer_node])
    [[1%nat]] [].

Definition sample_player : NodeRef := [1%nat].

Definition sample_player_session (constraints : list string) : @Session Z :=
  mkSession
    (mkBlender
       (sample_object constraints (Some (mkAnimData (Some 1%positive) [])))
       sample_actions None)
    [] scene_with_player.

(** ** Value tracks: [build_const_interp_value_track],
    [build_linear_interp_value_track], [add_simple_value_track],
    [add_track_via_attr_mapping] and the exporters of shape keys, lights
    and cameras *)

(** The values of a value track: a float, a bool, an int, or a colour
    ([mathutils.Color], its three components). *)
Inductive TrackValue :=
| VFloat (x : Q)
| VBool (b : bool)
| VInt (z : Z)
| VColor (c : Vector).

(** A curve with what the value exporters read of it besides its
    evaluation: the points [keyframe.co] of [keyframe_points], as pairs
    (frame, value), and [fcurve.range()]. *)
Record ValueCurve := mkValueCurve {
  vc_curve : FCurve;
  keyframe_points : list (Q * Q);
  fcurve_range : Q * Q
}.

(** An action with such curves. *)
Record ValueAction := mkValueAction {
  va_name : string;
  va_frame_range : Q * Q;
  va_fcurves : list ValueCurve
}.

Definition plain_action (action : ValueAction) : Action :=
  mkAction (va_name action) (va_frame_range action)
    (map vc_curve (va_fcurves action)).

(** [AttributeConvertInfo]: bl_name, gd_name, converter_function,
    attribute_type. *)
Record AttributeConvertInfo := mkConvertInfo {
  bl_name : string;
  gd_name : string;
  converter_function : option (Q → TrackValue);
  attribute_type : Z
}.

(** What [export_camera_action] reads of the camera. *)
Record Camera := mkCamera {
  cam_lens : Q;
  cam_sensor_width : Q
}.

(** [node_path.new_copy(attribute)]: the same path with that attribute. *)
Definition new_copy (attribute : string) (p : NodePath) : NodePath :=
  mkNodePath (np_from p) (np_to p) (Some attribute).

(** [get_fcurve_frame_range] *)
Definition get_fcurve_frame_range (fcurve : ValueCurve) : Z * Z :=
  (py_int (fcurve_range fcurve).1, py_int (fcurve_range fcurve).2 + 1).

(** [fcurves.find(data_path)]: the first curve with that data path and
    the array index 0, the default of the argument [index]. *)
Definition fcurves_find (path : string) (fcurves : list ValueCurve)
  : option ValueCurve :=
  snd <$> list_find (λ fcurve, data_path (vc_curve fcurve) = path ∧
                               array_index (vc_curve fcurve) = 0%nat)
                    fcurves.

(** The pattern of [export_shapekey_action] at the start of [s]: the text
    key_blocks, an opening bracket, a non-empty quoted name and a closing
    bracket. The result is the name (group 1). *)
Definition match_key_block_pattern (s : string) : option string :=
  s1 ← strip_prefix ("key_blocks[" +:+ dquote) s;
  let '(name, s2) := span_unquoted s1 in
  match name with
  | EmptyString => None
  | _ => _ ← strip_prefix (dquote +:+ "]") s2; Some name
  end.

(** [re.search(pattern, s).group(1)]; [None] is the [AttributeError] on
    a failed search. *)
Fixpoint search_key_block_pattern (s : string) : option string :=
  match match_key_block_pattern s with
  | Some name => Some name
  | None =>
      match s with
      | EmptyString => None
      | String _ rest => search_key_block_pattern rest
      end
  end.

(** The data path key_blocks["<name>"] of a shape key. *)
Definition key_block_path (name : string) : string :=
  "key_blocks[" +:+ dquote +:+ name +:+ dquote +:+ "]".

(** [color_list[frame - first_frame][fcurve.array_index] =
    fcurve.evaluate(frame)] for the frames of the range, on the list of
    colours of one attribute. *)
Fixpoint update_colors (fcurve : FCurve) (first_frame : Z)
    (frames : list Z) (color_list : list Vector) : option (list Vector) :=
  match frames with
  | [] => Some color_list
  | frame :: rest =>
      c ← py_index color_list (frame - first_frame);
      c' ← Vector_set (array_index fcurve) (evaluate fcurve frame) c;
      let i := if 0 <=? frame - first_frame
               then Z.to_nat (frame - first_frame)
               else Z.to_nat (frame - first_frame
                              + Z.of_nat (length color_list)) in
      update_colors fcurve first_frame rest (<[i := c']> color_list)
  end.

(** [color_frame_values_map] : colours per attribute, in insertion
    order. *)
Definition ColorMap := list (string * list Vector).

(** The body of the loop over the curves in [export_light_action]. *)
Definition collect_color (first_frame last_frame : Z) (fcurve : FCurve)
    (m : ColorMap) : option ColorMap :=
  let '(_, attribute) := split_fcurve_data_path (data_path fcurve) in
  if bool_decide (attribute ∈ ["color"; "shadow_color"]) then
    let m :=
      if negb (od_mem attribute m)
      then od_set attribute
             (replicate (Z.to_nat (last_frame - first_frame))
                        (mkVector 0 0 0)) m
      else m in
    color_list ← od_lookup attribute m;
    color_list ← update_colors fcurve first_frame
                   (py_range first_frame last_frame) color_list;
    Some (od_set attribute color_list m)
  else Some m.

Fixpoint collect_colors (first_frame last_frame : Z)
    (fcurves : list FCurve) (m : ColorMap) : option ColorMap :=
  match fcurves with
  | [] => Some m
  | fcurve :: rest =>
      m ← collect_color first_frame last_frame fcurve m;
      collect_colors first_frame last_frame rest m
  end.

Section ValueTracks.
Variable veq : TrackValue → TrackValue → bool.
Variable fps : positive.
Variable transform_components : TrackValue → Vector * Quaternion * Vector.
(** [2 * math.degrees(math.atan(x))] *)
Variable fov_of_ratio : Q → Q.

Local Abbreviation Track := (@Track TrackValue NodePath).
Local Abbreviation Resource := (@AnimationResource TrackValue NodePath).

(** [build_const_interp_value_track]: a key at every keyframe point. *)
Definition build_const_interp_value_track (track_path : NodePath)
    (map_func : option (Q → TrackValue)) (fcurve : ValueCurve) : Track :=
  let track :=
    set_interp NEAREST_INTERPOLATION (Track_new "value" track_path [] []) in
  match map_func with
  | None =>
      foldl (λ track keyframe,
               add_frame_data (py_int keyframe.1) (VFloat keyframe.2) track)
            track (keyframe_points fcurve)
  | Some map_func =>
      foldl (λ track keyframe,
               add_frame_data (py_int keyframe.1) (map_func keyframe.2) track)
            track (keyframe_points fcurve)
  end.

(** [build_linear_interp_value_track]: the curve evaluated at every
    frame of its range. *)
Definition build_linear_interp_value_track (track_path : NodePath)
    (map_func : option (Q → TrackValue)) (fcurve : ValueCurve) : Track :=
  let track := Track_new "value" track_path [] [] in
  let frame_range := get_fcurve_frame_range fcurve in
  match map_func with
  | None =>
      foldl (λ track frame,
               add_frame_data frame
                 (VFloat (evaluate (vc_curve fcurve) frame)) track)
            track (py_range frame_range.1 frame_range.2)
  | Some map_func =>
      foldl (λ track frame,
               add_frame_data frame
                 (map_func (evaluate (vc_curve fcurve) frame)) track)
            track (py_range frame_range.1 frame_range.2)
  end.

(** [AnimationResource.add_simple_value_track] *)
Definition add_simple_value_track (fcurves : list ValueCurve)
    (fcurve_data_path : string) (fcurve_to_track_func : ValueCurve → Track)
    (r : Resource) : option Resource :=
  match fcurves_find fcurve_data_path fcurves with
  | Some fcurve =>
      add_track veq fps transform_components (fcurve_to_track_func fcurve) r
  | None => Some r
  end.

(** [AnimationResource.add_track_via_attr_mapping] *)
Fixpoint add_track_via_attr_mapping (fcurves : list ValueCurve)
    (conv_quad_tuple_list : list AttributeConvertInfo)
    (base_node_path : NodePath) (r : Resource) : option Resource :=
  match conv_quad_tuple_list with
  | [] => Some r
  | item :: rest =>
      r ← (if (attribute_type item =? CONVERT_AS_FLOAT)
              || (attribute_type item =? CONVERT_AS_BOOL) then
             let track_builder :=
               if attribute_type item =? CONVERT_AS_FLOAT
               then build_linear_interp_value_track
               else build_const_interp_value_track in
             add_simple_value_track fcurves (bl_name item)
               (track_builder (new_copy (gd_name item) base_node_path)
                              (converter_function item)) r
           else Some r);
      add_track_via_attr_mapping fcurves rest base_node_path r
  end.

(** The body of the loop over the curves in [export_shapekey_action]. *)
Definition export_shapekey_curve (godot_node : TargetNode)
    (player_parent_path : string) (first_frame last_frame : Z)
    (fcurve : FCurve) (r : Resource) : option Resource :=
  let '(object_path, attribute) :=
    split_fcurve_data_path (data_path fcurve) in
  if String.eqb attribute "value" then
    shapekey_name ← search_key_block_pattern object_path;
    let track_path :=
      mkNodePath player_parent_path (gn_path godot_node)
        (Some ("blend_shapes/" +:+ shapekey_name)) in
    let value_track :=
      foldl (λ track frame,
               add_frame_data frame (VFloat (evaluate fcurve frame)) track)
            (Track_new "value" track_path [] [])
            (py_range first_frame last_frame) in
    add_track veq fps transform_components value_track r
  else Some r.

Fixpoint export_shapekey_curves (godot_node : TargetNode)
    (player_parent_path : string) (first_frame last_frame : Z)
    (fcurves : list FCurve) (r : Resource) : option Resource :=
  match fcurves with
  | [] => Some r
  | fcurve :: rest =>
      r ← export_shapekey_curve godot_node player_parent_path first_frame
            last_frame fcurve r;
      export_shapekey_curves godot_node player_parent_path first_frame
        last_frame rest r
  end.

(** [export_shapekey_action] *)
Definition export_shapekey_action (godot_node : TargetNode)
    (player_parent_path : string) (action : Action) (r : Resource)
  : option Resource :=
  let '(first_frame, last_frame) := get_action_frame_range action in
  export_shapekey_curves godot_node player_parent_path first_frame
    last_frame (action_fcurves action) r.

(** The loop over the items of [color_frame_values_map]. *)
Fixpoint emit_color_tracks (base_node_path : NodePath)
    (first_frame last_frame : Z) (items : ColorMap) (r : Resource)
  : option Resource :=
  match items with
  | [] => Some r
  | (attribute, frame_value_list) :: rest =>
      let track_path :=
        if String.eqb attribute "color"
        then new_copy "light_color" base_node_path
        else new_copy "shadow_color" base_node_path in
      r ← add_track veq fps transform_components
            (Track_new "value" track_path
               (py_range first_frame last_frame)
               (map VColor frame_value_list)) r;
      emit_color_tracks base_node_path first_frame last_frame rest r
  end.

(** [export_light_action]; [attribute_conversion] is
    [light_node.attribute_conversion]. *)
Definition export_light_action (light_node : TargetNode)
    (attribute_conversion : list AttributeConvertInfo)
    (player_parent_path : string) (action : ValueAction) (r : Resource)
  : option Resource :=
  let '(first_frame, last_frame) :=
    get_action_frame_range (plain_action action) in
  let base_node_path :=
    mkNodePath player_parent_path (gn_path light_node) None in
  r ← add_simple_value_track (va_fcurves action) "use_negative"
        (build_const_interp_value_track
           (new_copy "light_negative" base_node_path)
           (Some (λ x, VBool (Qgt_bool x 0)))) r;
  r ← add_track_via_attr_mapping (va_fcurves action) attribute_conversion
        base_node_path r;
  color_frame_values_map ←
    collect_colors first_frame last_frame
      (map vc_curve (va_fcurves action)) [];
  emit_color_tracks base_node_path first_frame last_frame
    color_frame_values_map r.

(** The loop [for index, flen in enumerate(focal_len_list)], from
    [index] on; dividing by a focal length of zero raises. *)
Fixpoint fov_values (sensor_size_list : list Q) (index : nat)
    (focal_len_list : list Q) : option (list Q) :=
  match focal_len_list with
  | [] => Some []
  | flen :: rest =>
      sensor_size ← sensor_size_list !! index;
      if Qeq_bool flen 0 then None
      else
        fov_list ← fov_values sensor_size_list (S index) rest;
        Some (fov_of_ratio (sensor_size / 2 / flen) :: fov_list)
  end.

(** [export_camera_action]; [attribute_conversion] is
    [camera_node.attribute_conversion]. *)
Definition export_camera_action (camera_node : TargetNode)
    (attribute_conversion : list AttributeConvertInfo)
    (player_parent_path : string) (blender_cam : Camera)
    (action : ValueAction) (r : Resource) : option Resource :=
  let '(first_frame, last_frame) :=
    get_action_frame_range (plain_action action) in
  let base_node_path :=
    mkNodePath player_parent_path (gn_path camera_node) None in
  r ← add_track_via_attr_mapping (va_fcurves action) attribute_conversion
        base_node_path r;
  r ← add_simple_value_track (va_fcurves action) "type"
        (build_const_interp_value_track
           (new_copy "projection" base_node_path)
           (Some (λ x, VInt (if Qeq_bool x 0 then 0 else 1)))) r;
  let frames := py_range first_frame last_frame in
  let lens := fcurves_find "lens" (va_fcurves action) in
  let sensor_width := fcurves_find "sensor_width" (va_fcurves action) in
  let focal_len_list :=
    match lens with
    | Some fcurve => map (evaluate (vc_curve fcurve)) frames
    | None => []
    end in
  let sensor_size_list :=
    match sensor_width with
    | Some fcurve => map (evaluate (vc_curve fcurve)) frames
    | None => []
    end in
  let fov_animated :=
    match lens, sensor_width with
    | None, None => false
    | _, _ => true
    end in
  if fov_animated then
    let focal_len_list :=
      match focal_len_list with
      | [] => map (λ _, cam_lens blender_cam) frames
      | _ => focal_len_list
      end in
    let sensor_size_list :=
      match sensor_size_list with
      | [] => map (λ _, cam_sensor_width blender_cam) frames
      | _ => sensor_size_list
      end in
    fov_list ← fov_values sensor_size_list 0 focal_len_list;
    add_track veq fps transform_components
      (Track_new "value" (new_copy "fov" base_node_path) frames
         (map VFloat fov_list)) r
  else Some r.
End ValueTracks.

(** [map_func(x)], and [x] itself when [map_func] is None. *)
Definition converted (map_func : option (Q → TrackValue)) (x : Q)
  : TrackValue :=
  match map_func with
  | Some map_func => map_func x
  | None => VFloat x
  end.

(** The track an item of an attribute mapping stands for: none unless
    the item is a float or a bool and a curve has its name. *)
Definition mapped_track (fcurves : list ValueCurve)
    (base_node_path : NodePath) (item : AttributeConvertInfo)
  : option (@Track TrackValue NodePath) :=
  if attribute_type item =? CONVERT_AS_FLOAT then
    build_linear_interp_value_track
      (new_copy (gd_name item) base_node_path) (converter_function item)
    <$> fcurves_find (bl_name item) fcurves
  else if attribute_type item =? CONVERT_AS_BOOL then
    build_const_interp_value_track
      (new_copy (gd_name item) base_node_path) (converter_function item)
    <$> fcurves_find (bl_name item) fcurves
  else None.

(** A curve of the energy of a lamp with three keyframe points, and the
    attribute mapping of a lamp with an item of each kind. *)
Definition energy_curve : ValueCurve :=
  mkValueCurve (mkFCurve "energy" 0 (λ frame, inject_Z frame))
    [(1, 1); (2 # 1, 2 # 1); (3, 3)]%Q (1, 3)%Q.

Definition shadow_curve : ValueCurve :=
  mkValueCurve (mkFCurve "use_shadow" 0 (λ frame, 1%Q))
    [(1, 1); (3, 1)]%Q (1, 3)%Q.

Definition sample_conversion : list AttributeConvertInfo :=
  [mkConvertInfo "energy" "light_energy" None CONVERT_AS_FLOAT;
   mkConvertInfo "use_shadow" "shadow_enabled"
     (Some (λ x, VBool (Qgt_bool x 0))) CONVERT_AS_BOOL;
   mkConvertInfo "color" "light_color" None CONVERT_AS_MULTI_VALUE;
   mkConvertInfo "distance" "omni_range" None CONVERT_AS_FLOAT].

(** [==] on the values of the sample tracks. *)
Definition sample_veq (a b : TrackValue) : bool :=
  match a, b with
  | VFloat x, VFloat y => Qeq_bool x y
  | VBool x, VBool y => Bool.eqb x y
  | VInt x, VInt y => x =? y
  | VColor x, VColor y =>
      Qeq_bool (vec_x x) (vec_x y) && Qeq_bool (vec_y x) (vec_y y)
      && Qeq_bool (vec_z x) (vec_z y)
  | _, _ => false
  end.

(** The track of a shape key curve: the value of the curve at every
    frame of the action, for the blend shape its object path names. None
    for a curve that is no value curve or names no key block. *)
Definition shapekey_track (godot_node : TargetNode)
    (player_parent_path : string) (first_frame last_frame : Z)
    (fcurve : FCurve) : option (@Track TrackValue NodePath) :=
  let '(object_path, attribute) :=
    split_fcurve_data_path (data_path fcurve) in
  if String.eqb attribute "value" then
    shapekey_name ← search_key_block_pattern object_path;
    Some (mkTrack "value"
            (mkNodePath player_parent_path (gn_path godot_node)
               (Some ("blend_shapes/" +:+ shapekey_name)))
            LINEAR_INTERPOLATION
            (py_range first_frame last_frame)
            (map (λ frame, VFloat (evaluate fcurve frame))
                 (py_range first_frame last_frame)))
  else None.

(** A value curve whose object path names no key block. *)
Definition unnamed_value_curve (fcurve : FCurve) : Prop :=
  (split_fcurve_data_path (data_path fcurve)).2 = "value" ∧
  search_key_block_pattern (split_fcurve_data_path (data_path fcurve)).1
  = None.

(** The focal length and the sensor width of the camera at a frame: the
    value of the curve when there is one, the setting of the camera
    otherwise. *)
Definition lens_at (blender_cam : Camera) (fcurves : list ValueCurve)
    (frame : Z) : Q :=
  match fcurves_find "lens" fcurves with
  | Some fcurve => evaluate (vc_curve fcurve) frame
  | None => cam_lens blender_cam
  end.

Definition sensor_width_at (blender_cam : Camera)
    (fcurves : list ValueCurve) (frame : Z) : Q :=
  match fcurves_find "sensor_width" fcurves with
  | Some fcurve => evaluate (vc_curve fcurve) frame
  | None => cam_sensor_width blender_cam
  end.

(** A shape key action with a curve of the key block Smile and a curve
    that is no value curve. *)
Definition smile_action : Action :=
  mkAction "KeyAction" (1, 2)%Q
    [mkFCurve (key_block_path "Smile" +:+ ".value") 0
       (λ frame, inject_Z frame);
     mkFCurve "eval_time" 0 (λ frame, 0%Q)].

(** A camera action that animates the focal length only. *)
Definition zoom_action : ValueAction :=
  mkValueAction "CameraAction" (1, 2)%Q
    [mkValueCurve (mkFCurve "lens" 0 (λ frame, inject_Z (35 + frame)))
       [(1, 36); (2 # 1, 37)]%Q (1, 2)%Q].

Definition sample_camera : Camera := mkCamera 35 32.

Definition sample_camera_node : TargetNode :=
  mkTargetNode "Camera" "Camera" (Some "Spatial") (λ _, -1) (λ bone, bone).

(** The colour attribute a curve animates, if any. *)
Definition color_attribute (fcurve : FCurve) : option string :=
  let attribute := (split_fcurve_data_path (data_path fcurve)).2 in
  if bool_decide (attribute ∈ ["color"; "shadow_color"])
  then Some attribute else None.

(** The texts of a list in the order of their first occurrence. *)
Definition first_seen (l : list string) : list string :=
  foldl (λ seen a, if bool_decide (a ∈ seen) then seen else seen ++ [a])
        [] l.

(** The colour of an attribute at [frame]: black, with the components
    that the curves of the attribute set, in the order of the curves. *)
Definition colour_at (attribute : string) (curves : list FCurve)
    (frame : Z) : option Vector :=
  foldl (λ acc fcurve,
           c ← acc;
           if bool_decide (color_attribute fcurve = Some attribute)
           then Vector_set (array_index fcurve) (evaluate fcurve frame) c
           else Some c)
        (Some (mkVector 0 0 0)) curves.

(** The track of an item of the colour map. *)
Definition color_track (base_node_path : NodePath) (frames : list Z)
    (item : string * list Vector) : @Track TrackValue NodePath :=
  Track_new "value"
    (if String.eqb item.1 "color"
     then new_copy "light_color" base_node_path
     else new_copy "shadow_color" base_node_path)
    frames (map VColor item.2).

(** What the loop over the curves of a light action has made of the
    colour map after the curves [curves]: the attributes in the order in
    which they were met, each with a colour for every frame. *)
Definition colours_sampled (first_frame last_frame : Z)
    (curves : list FCurve) (m : ColorMap) : Prop :=
  m.*1 = first_seen (omap color_attribute curves) ∧
  ∀ attribute color_list,
    od_lookup attribute m = Some color_list →
    length color_list = Z.to_nat (last_frame - first_frame) ∧
    ∀ k c, color_list !! k = Some c →
           colour_at attribute curves (first_frame + Z.of_nat k) = Some c.

(** A light action that animates the red component of the colour. *)
Definition redden_action : ValueAction :=
  mkValueAction "LampAction" (1, 2)%Q
    [mkValueCurve (mkFCurve "color" 0 (λ frame, Qmake frame 2))
       [(1, 1 # 2); (2 # 1, 1)]%Q (1, 2)%Q].

Definition sample_lamp_node : TargetNode :=
  mkTargetNode "OmniLight" "Lamp" (Some "Spatial") (λ _, -1) (λ bone, bone).

(** A transform curve of the pose bone [bone]: its data path is the pose
    path of the bone, a dot and a transform attribute, and its component
    index is in range. *)
Definition bone_curve (bone : string) (fcurve : FCurve) : Prop :=
  ∃ attribute,
    data_path fcurve = pose_bone_path bone +:+ "." +:+ attribute ∧
    attribute ∈ TransformFrame_ATTRIBUTES ∧
    (array_index fcurve < attribute_size attribute)%nat.

(** A transform curve under the object path [object_path]. *)
Definition keyed_curve (object_path : string) (fcurve : FCurve) : Prop :=
  ∃ attribute,
    split_fcurve_data_path (data_path fcurve) = (object_path, attribute) ∧
    attribute ∈ TransformFrame_ATTRIBUTES ∧
    (array_index fcurve < attribute_size attribute)%nat.

(** An action that moves the bone Spine along x over the frames 1 to 3. *)
Definition spine_action : Action :=
  mkAction "ArmatureAction" (1, 3)%Q
    [mkFCurve (pose_bone_path "Spine" +:+ ".location") 0
       (λ frame, inject_Z frame)].

(** A scene with two players: one under the root, one under [Cube], whose
    second child it is, after [Lamp]. *)
Definition scene_with_two_players : @Document Z NodePath :=
  mkDocument
    (spatial "Scene"
       [spatial "Cube" [spatial "Lamp" []; AnimationPlayer_node];
        AnimationPlayer_node])
    [] [].

(** A transform curve under an object path that is neither the object
    itself nor a pose bone. *)
Definition foreign_curve (object_path : string) (fcurve : FCurve) : Prop :=
  ∃ attribute,
    split_fcurve_data_path (data_path fcurve) = (object_path, attribute) ∧
    attribute ∈ TransformFrame_ATTRIBUTES ∧
    object_path ≠ "" ∧ String.prefix "pose" object_path = false.

(** The object path of the first item of the map. *)
Definition first_path (m : FrameMap) : option string := fst <$> head m.

(** An action with a curve of the object and a curve under the path of
    a constraint. *)
Definition stray_curve : FCurve :=
  mkFCurve "constraints[0].scale" 1 (λ frame, 2%Q).

Definition stray_action : Action :=
  mkAction "CubeAction" (1, 3)%Q
    [mkFCurve "location" 0 (λ frame, inject_Z frame); stray_curve].

Definition stray_first_action : Action :=
  mkAction "CubeAction" (1, 3)%Q
    [stray_curve; mkFCurve "location" 0 (λ frame, inject_Z frame)].

(** The cube in the rotation mode 'AXIS_ANGLE', which is no Euler
    order. *)
Definition axis_angle_object : BlenderObject :=
  mkObject "Cube" true false [] [] (to_4x4 identity3) (to_4x4 identity3)
    "AXIS_ANGLE" None.

(** The armature with the bone Spine in the rotation mode
    'AXIS_ANGLE'. *)
Definition axis_angle_armature : BlenderObject :=
  mkObject "Armature" true true []
    [mkPoseBone "Spine" [] (to_4x4 identity3) "AXIS_ANGLE";
     mkPoseBone "Hand" [] (to_4x4 identity3) "QUATERNION"]
    (to_4x4 identity3) (to_4x4 identity3) "XYZ" None.

(** * Properties *)

(** ** Track serialisation *)

Section KeysFacts.
Context {V : Type}.
Variable veq : V → V → bool.
Variable fps : positive.
Variable transform_components : V → Vector * Quaternion * Vector.

Lemma same_as_previous_prev_at value_list interp index cur :
  value_list !! index = Some cur →
  same_as_previous veq value_list interp index =
    Some (match prev_at value_list index with
          | Some p => (interp =? LINEAR_INTERPOLATION) && veq cur p
          | None => false
          end).
Proof.
  intros Hcur. unfold same_as_previous.
  destruct index as [|i]; simpl.
  - by rewrite andb_false_r.
  - rewrite Nat.sub_0_r.
    assert (is_Some (value_list !! i)) as [p Hp].
    { apply lookup_lt_is_Some. apply lookup_lt_Some in Hcur. lia. }
    rewrite Hp. destruct (interp =? LINEAR_INTERPOLATION); simpl; [|done].
    by rewrite Hcur.
Qed.

Lemma value_keys_loop_retained value_list interp frame_list :
  ∀ index tm tr vs,
    (index + length frame_list ≤ length value_list)%nat →
    value_keys_loop veq fps value_list interp index frame_list tm tr vs =
      let kept := retained_from veq interp (prev_at value_list index)
                    (zip frame_list (drop index value_list)) in
      Some (tm ++ map (λ p, frame_time fps p.1) kept,
            tr ++ map (λ _, 1%Q) kept,
            vs ++ kept.*2).
Proof.
  induction frame_list as [|frame rest IH]; intros index tm tr vs Hlen.
  - simpl. by rewrite !app_nil_r.
  - simpl in Hlen.
    assert (is_Some (value_list !! index)) as [cur Hcur].
    { apply lookup_lt_is_Some. lia. }
    cbn [value_keys_loop].
    rewrite (same_as_previous_prev_at _ _ _ _ Hcur).
    rewrite (drop_S _ _ _ Hcur). cbn [zip zip_with retained_from mbind option_bind].
    specialize (IH (S index)). cbn [prev_at] in IH. rewrite Hcur in IH.
    destruct (prev_at value_list index) as [p|] eqn:Hp.
    + destruct ((interp =? LINEAR_INTERPOLATION) && veq cur p).
      * apply IH. lia.
      * rewrite Hcur. cbn [mbind option_bind]. rewrite IH by lia.
        cbn. by rewrite <- !app_assoc.
    + rewrite Hcur. cbn [mbind option_bind]. rewrite IH by lia.
      cbn. by rewrite <- !app_assoc.
Qed.

Lemma transform_keys_loop_retained value_list interp frame_list :
  ∀ index array,
    (index + length frame_list ≤ length value_list)%nat →
    transform_keys_loop veq fps transform_components value_list interp
        index frame_list array =
      Some (array ++ array_of fps transform_components
              (retained_from veq interp (prev_at value_list index)
                 (zip frame_list (drop index value_list)))).
Proof.
  induction frame_list as [|frame rest IH]; intros index array Hlen.
  - simpl. unfold array_of. simpl. by rewrite app_nil_r.
  - simpl in Hlen.
    assert (is_Some (value_list !! index)) as [cur Hcur].
    { apply lookup_lt_is_Some. lia. }
    cbn [transform_keys_loop].
    rewrite (same_as_previous_prev_at _ _ _ _ Hcur).
    rewrite (drop_S _ _ _ Hcur). cbn [zip zip_with retained_from mbind option_bind].
    specialize (IH (S index)). cbn [prev_at] in IH. rewrite Hcur in IH.
    destruct (prev_at value_list index) as [p|] eqn:Hp.
    + destruct ((interp =? LINEAR_INTERPOLATION) && veq cur p).
      * apply IH. lia.
      * rewrite Hcur. cbn [mbind option_bind]. rewrite IH by lia.
        unfold array_of. cbn [map concat fst snd].
        by rewrite <- !app_assoc.
    + rewrite Hcur. cbn [mbind option_bind]. rewrite IH by lia.
      unfold array_of. cbn [map concat fst snd].
      by rewrite <- !app_assoc.
Qed.

(** In nearest mode nothing is dropped. *)
Lemma retained_from_nearest interp prev pairs :
  interp ≠ LINEAR_INTERPOLATION →
  retained_from veq interp prev pairs = pairs.
Proof.
  intros Hne. apply Z.eqb_neq in Hne.
  revert prev. induction pairs as [|[frame v] rest IH]; intros prev; [done|].
  simpl. rewrite Hne. simpl. rewrite IH. by destruct prev.
Qed.

(** In linear mode the retained keyframes are those at the positions
    [keep_index] accepts. *)
Lemma retained_from_select value_list pairs :
  (∀ j, (j < length pairs)%nat → value_list !! j = snd <$> pairs !! j) →
  ∀ n i, length pairs = (i + n)%nat →
    retained_from veq LINEAR_INTERPOLATION (prev_at value_list i)
        (drop i pairs) =
      omap (λ j, if keep_index veq value_list j then pairs !! j else None)
           (seq i n).
Proof.
  intros Hval. induction n as [|n IH]; intros i Hlen.
  - rewrite drop_ge by lia. done.
  - assert (is_Some (pairs !! i)) as [[frame v] Hi].
    { apply lookup_lt_is_Some. lia. }
    rewrite (drop_S _ _ _ Hi). cbn [seq retained_from].
    change (omap ?f (i :: ?l)) with
      (match f i with Some y => y :: omap f l | None => omap f l end).
    cbv beta.
    assert (value_list !! i = Some v) as Hv.
    { rewrite Hval by lia. by rewrite Hi. }
    specialize (IH (S i)). cbn [prev_at] in IH. rewrite Hv in IH.
    rewrite IH by lia. set (tl := omap _ (seq (S i) n)). clearbody tl.
    unfold keep_index. rewrite Hv.
    destruct i as [|i']; cbn [prev_at Nat.eqb orb]; [by rewrite Hi|].
    replace (S i' - 1)%nat with i' by lia.
    assert (is_Some (value_list !! i')) as [p Hp].
    { apply lookup_lt_is_Some. apply lookup_lt_Some in Hv. lia. }
    rewrite Hp. cbn. destruct (veq v p); cbn; [done|by rewrite Hi].
Qed.

Lemma retained_select frame_list value_list :
  (length frame_list ≤ length value_list)%nat →
  retained veq LINEAR_INTERPOLATION (track_pairs frame_list value_list) =
    select_positions (keep_index veq value_list)
      (track_pairs frame_list value_list).
Proof.
  intros Hlen. unfold retained, select_positions.
  assert (∀ j, (j < length (track_pairs frame_list value_list))%nat →
            value_list !! j = snd <$> track_pairs frame_list value_list !! j)
    as Hval.
  { intros j Hj. unfold track_pairs in *. rewrite length_zip_with in Hj.
    rewrite lookup_zip_with.
    assert (is_Some (frame_list !! j)) as [f ->].
    { apply lookup_lt_is_Some. lia. }
    cbn. by destruct (value_list !! j). }
  by rewrite <- (retained_from_select value_list _ Hval
                   (length (track_pairs frame_list value_list)) 0%nat).
Qed.

Section Equivalence.
(** Python's [==] taken symmetric and transitive on the values of the
    track. *)
Hypothesis veq_sym : ∀ a b, veq a b = true → veq b a = true.
Hypothesis veq_trans :
  ∀ a b c, veq a b = true → veq b c = true → veq a c = true.

Lemma adjacent_retained_from pairs :
  ∀ p k, p = k ∨ veq p k = true →
    adjacent_distinct veq
      (k :: (retained_from veq LINEAR_INTERPOLATION (Some p) pairs).*2).
Proof.
  induction pairs as [|[frame v] rest IH]; intros p k Hpk; [done|].
  cbn [retained_from]. change (LINEAR_INTERPOLATION =? LINEAR_INTERPOLATION)
    with true. cbn [andb].
  destruct (veq v p) eqn:Hvp.
  - apply IH. right. destruct Hpk as [->|Hpk]; [done|]. eauto.
  - cbn [fmap list_fmap snd adjacent_distinct]. split.
    + destruct Hpk as [->|Hpk]; [done|].
      destruct (veq v k) eqn:Hvk; [|done].
      rewrite <- Hvp. symmetry. eauto.
    + apply IH. by left.
Qed.

Lemma adjacent_retained pairs :
  adjacent_distinct veq (retained veq LINEAR_INTERPOLATION pairs).*2.
Proof.
  destruct pairs as [|[frame v] rest]; [done|].
  unfold retained. cbn [retained_from fmap list_fmap snd].
  apply adjacent_retained_from. by left.
Qed.
End Equivalence.

(** C1 (as amended). Linear tracks, value and transform alike: the
    keyframe at a position is emitted iff the position is the first one or
    its value differs, for [==], from the input value just before it
    ([keep_index]). An emitted value key is its time, the transition 1 and
    its value; an emitted transform key is twelve numbers: the time, the
    transition 1.0, the translation (x, y, z), the quaternion (x, y, z, w)
    and the scale (x, y, z) of [fix_matrix] of the value. Neighbouring
    emitted keyframes carry unequal values when [==] is symmetric and
    transitive on the values of the track. Tracks of any other
    interpolation mode (nearest): every (frame, value) pair is emitted.
    The track is well formed (a value for every frame). *)
Theorem keyframes_coalesced (frame_list : list Z) (value_list : list V)
    (Hlen : (length frame_list ≤ length value_list)%nat) :
  let pairs := track_pairs frame_list value_list in
  let kept := select_positions (keep_index veq value_list) pairs in
  let value_keys (emitted : list (Z * V)) :=
    mkKeys (map (λ p, frame_time fps p.1) emitted)
           (map (λ _, 1%Q) emitted) 0 (map snd emitted) in
  let transform_keys (emitted : list (Z * V)) :=
    concat (map (λ p, let '(location, quaternion, scale) :=
                        transform_components p.2 in
                      [frame_time fps p.1; 1%Q;
                       vec_x location; vec_y location; vec_z location;
                       quat_x quaternion; quat_y quaternion;
                       quat_z quaternion; quat_w quaternion;
                       vec_x scale; vec_y scale; vec_z scale])
                emitted) in
  value_frames_to_keys veq fps frame_list value_list LINEAR_INTERPOLATION
    = Some (value_keys kept)
  ∧ transform_frames_to_keys veq fps transform_components
      frame_list value_list LINEAR_INTERPOLATION
    = Some (transform_keys kept)
  ∧ ((∀ a b, veq a b = true → veq b a = true) →
     (∀ a b c, veq a b = true → veq b c = true → veq a c = true) →
     adjacent_distinct veq (map snd kept))
  ∧ ∀ interp, interp ≠ LINEAR_INTERPOLATION →
      value_frames_to_keys veq fps frame_list value_list interp
        = Some (value_keys pairs)
      ∧ transform_frames_to_keys veq fps transform_components
          frame_list value_list interp
        = Some (transform_keys pairs).
Proof.
  intros pairs kept value_keys transform_keys.
  assert (kept = retained veq LINEAR_INTERPOLATION pairs) as Hkept.
  { subst kept pairs. symmetry. by apply retained_select. }
  assert (∀ interp,
    value_frames_to_keys veq fps frame_list value_list interp
      = Some (value_keys (retained veq interp pairs))
    ∧ transform_frames_to_keys veq fps transform_components
        frame_list value_list interp
      = Some (transform_keys (retained veq interp pairs)))
    as Hrun.
  { intros interp. unfold value_frames_to_keys, transform_frames_to_keys.
    rewrite value_keys_loop_retained, transform_keys_loop_retained
      by (simpl; lia).
    by rewrite drop_0. }
  repeat split.
  - rewrite Hkept. apply Hrun.
  - rewrite Hkept. apply Hrun.
  - intros veq_sym veq_trans. rewrite Hkept. by apply adjacent_retained.
  - rewrite <- (retained_from_nearest interp None pairs) by done.
    apply Hrun.
  - rewrite <- (retained_from_nearest interp None pairs) by done.
    apply Hrun.
Qed.
End KeysFacts.

Lemma keyframes_coalesced_witness :
  (value_frames_to_keys Z.eqb 24 [0; 1; 2; 3] [5; 5; 7; 5]
     LINEAR_INTERPOLATION
   = Some (mkKeys [0 # 24; 2 # 24; 3 # 24]%Q [1; 1; 1]%Q 0 [5; 7; 5])
   ∧ value_frames_to_keys Z.eqb 24 [0; 1; 2; 3] [5; 5; 7; 5]
       NEAREST_INTERPOLATION
     = Some (mkKeys [0 # 24; 1 # 24; 2 # 24; 3 # 24]%Q [1; 1; 1; 1]%Q 0
               [5; 5; 7; 5]))
  ∧ transform_frames_to_keys Matrix_close 24 translation_components
      [0; 1; 2] [moved_to 4; moved_to 4; moved_to 6] LINEAR_INTERPOLATION
    = Some [0 # 24; 1; 4; 0; 0; 0; 0; 0; 1; 1; 1; 1;
            2 # 24; 1; 6; 0; 0; 0; 0; 0; 1; 1; 1; 1]%Q.
Proof.
  destruct (keyframes_coalesced Z.eqb 24 sample_components
              [0; 1; 2; 3] [5; 5; 7; 5] ltac:(simpl; lia))
    as (Hlin & _ & _ & Hnear).
  destruct (keyframes_coalesced Matrix_close 24 translation_components
              [0; 1; 2] [moved_to 4; moved_to 4; moved_to 6]
              ltac:(simpl; lia)) as (_ & Harray & _).
  split; [|exact Harray].
  split; [exact Hlin|].
  exact (proj1 (Hnear NEAREST_INTERPOLATION ltac:(done))).
Defined.

(** C1 as stated fails for a [==] that is not transitive, as the one of
    [mathutils] on matrices: with translations along x to 1 + 2^-23, to 1
    and to 1 + 2^-22, the second keyframe equals the first and is dropped,
    the third differs from the second and is emitted, and the two emitted
    keyframes, the first and the third, are equal. The same happens in a
    value track whose values are compared in that way. *)
Lemma tolerant_equality_keeps_equal_neighbours :
  let x0 := (8388609 # 8388608)%Q in
  let x1 := 1%Q in
  let x2 := (8388610 # 8388608)%Q in
  Matrix_close (moved_to x1) (moved_to x0) = true
  ∧ Matrix_close (moved_to x2) (moved_to x1) = false
  ∧ Matrix_close (moved_to x2) (moved_to x0) = true
  ∧ transform_frames_to_keys Matrix_close 24 translation_components
      [0; 1; 2] [moved_to x0; moved_to x1; moved_to x2] LINEAR_INTERPOLATION
    = Some [0 # 24; 1; x0; 0; 0; 0; 0; 0; 1; 1; 1; 1;
            2 # 24; 1; x2; 0; 0; 0; 0; 0; 1; 1; 1; 1]%Q
  ∧ value_frames_to_keys float_close 24 [0; 1; 2] [x0; x1; x2]
      LINEAR_INTERPOLATION
    = Some (mkKeys [0 # 24; 2 # 24]%Q [1; 1]%Q 0 [x0; x2])
  ∧ ¬ adjacent_distinct float_close [x0; x2]
  ∧ ¬ adjacent_distinct Matrix_close [moved_to x0; moved_to x2].
Proof.
  intros x0 x1 x2. repeat split; try (by vm_compute).
  - intros [H _]. by vm_compute in H.
  - intros [H _]. by vm_compute in H.
Qed.

(** ** Animation resources *)

Section ResourceFacts.
Context {V NodePath : Type}.
Variable veq : V → V → bool.
Variable fps : positive.
Variable transform_components : V → Vector * Quaternion * Vector.

Local Abbreviation Track := (@Track V NodePath).
Local Abbreviation AnimationResource := (@AnimationResource V NodePath).
Local Abbreviation add_track := (add_track veq fps transform_components).
Local Abbreviation add_tracks := (add_tracks veq fps transform_components).

Lemma frame_time_le a b :
  (frame_time fps a <= frame_time fps b)%Q ↔ a ≤ b.
Proof.
  unfold frame_time, Qle. simpl. split; intros H; nia.
Qed.

Lemma Qgt_bool_frame_time a l m :
  (l == frame_time fps m)%Q →
  Qgt_bool (frame_time fps a) l = bool_decide (m < a).
Proof.
  intros Hl. unfold Qgt_bool. case_bool_decide as Hlt.
  - apply negb_true_iff, not_true_is_false. rewrite Qle_bool_iff, Hl.
    rewrite frame_time_le. lia.
  - apply negb_false_iff. rewrite Qle_bool_iff, Hl.
    rewrite frame_time_le. lia.
Qed.

Lemma res_length_set key v (r : AnimationResource) :
  key ≠ "length" → res_length (res_set key v r) = res_length r.
Proof.
  intros Hne. unfold res_length, res_set. simpl.
  by rewrite lookup_insert_ne.
Qed.

Lemma res_length_set_length q (r : AnimationResource) :
  res_length (res_set "length" (PReal q) r) = Some q.
Proof. unfold res_length, res_set. simpl. by rewrite lookup_insert_eq. Qed.

(** A well-formed track always has keys. *)
Lemma track_keys_total (t : Track) :
  well_formed t → is_Some (track_keys veq fps transform_components t).
Proof.
  intros Hwf. unfold track_keys, transform_frames_to_keys,
    value_frames_to_keys.
  rewrite value_keys_loop_retained, transform_keys_loop_retained
    by (simpl; apply Hwf).
  repeat case_match; simpl; eauto.
Qed.

(** One call: the new length is the larger of the old one and the time of
    the last frame of the track; the counter advances by one. *)
Lemma add_track_effect (t : Track) (r r' : AnimationResource) :
  add_track t r = Some r' →
  ∃ l, res_length r = Some l ∧
       res_length r' =
         Some (if Qgt_bool (frame_time fps (frame_end t)) l
               then frame_time fps (frame_end t) else l) ∧
       track_count r' = S (track_count r).
Proof.
  unfold add_track. intros Hadd.
  destruct (res_length r) as [l|] eqn:Hl; [|done]. simpl in Hadd.
  exists l. split; [done|].
  destruct (track_keys veq fps transform_components t) as [keys|]; [|done].
  simpl in Hadd.
  assert (res_length
            (if Qgt_bool (frame_time fps (frame_end t)) l
             then res_set "length" (PReal (frame_time fps (frame_end t))) r
             else r) =
          Some (if Qgt_bool (frame_time fps (frame_end t)) l
                then frame_time fps (frame_end t) else l)) as Hnew.
  { destruct (Qgt_bool _ l); [apply res_length_set_length|done]. }
  destruct keys as [k|]; simplify_eq; split; try done;
    rewrite ?res_length_set by done; try (by destruct (Qgt_bool _ l)).
Qed.

Lemma add_track_total (t : Track) (r : AnimationResource) :
  well_formed t → is_Some (res_length r) → is_Some (add_track t r).
Proof.
  intros Hwf [l Hl]. unfold add_track. rewrite Hl. simpl.
  destruct (track_keys_total t Hwf) as [keys ->]. simpl.
  destruct keys; eauto.
Qed.

Lemma foldr_max_shift (m e : Z) (xs : list Z) :
  foldr Z.max (Z.max m e) xs = Z.max e (foldr Z.max m xs).
Proof. induction xs as [|x xs IH]; simpl; lia. Qed.

(** The length after a sequence of calls, started from a length equal to
    the time of frame [m]. *)
Lemma add_tracks_length (ts : list Track) :
  ∀ (r : AnimationResource) l m,
    Forall well_formed ts →
    res_length r = Some l → (l == frame_time fps m)%Q →
    ∃ r' l', add_tracks ts r = Some r' ∧ res_length r' = Some l' ∧
             (l' == frame_time fps (foldr Z.max m (map frame_end ts)))%Q ∧
             track_count r' = (track_count r + length ts)%nat.
Proof.
  induction ts as [|t rest IH]; intros r l m Hwf Hl Hlm.
  - exists r, l. simpl. repeat split; auto with lia.
  - apply Forall_cons in Hwf as [Hwf Hrest].
    destruct (add_track_total t r Hwf)
      as [r1 Hr1]; [by eexists|].
    destruct (add_track_effect _ _ _ Hr1) as (l0 & Hl0 & Hl1 & Hcount).
    rewrite Hl in Hl0. injection Hl0 as <-.
    rewrite (Qgt_bool_frame_time _ _ _ Hlm) in Hl1.
    destruct (IH r1 _ (Z.max m (frame_end t)) Hrest Hl1)
      as (r' & l' & Hrun & Hl' & Heq & Hcnt).
    { case_bool_decide.
      - by replace (Z.max m (frame_end t)) with (frame_end t) by lia.
      - by replace (Z.max m (frame_end t)) with m by lia. }
    exists r', l'. cbn [add_tracks]. rewrite Hr1. cbn.
    repeat split; try done.
    + rewrite Heq. cbn [map foldr]. by rewrite foldr_max_shift.
    + rewrite Hcnt, Hcount. simpl. lia.
Qed.

(** C3 (as amended). After any sequence of [add_track] calls on a new
    resource, 'length' is the largest last-frame time among the added
    tracks, and 0 when that is negative; and one call never decreases
    'length'. *)
Theorem resource_length_is_max (name : string) (ts : list Track)
    (Hwf : Forall well_formed ts) :
  (∃ r l, add_tracks ts (AnimationResource_new name) = Some r ∧
          res_length r = Some l ∧
          (l == frame_time fps (longest_frame ts))%Q) ∧
  (∀ t (r r' : AnimationResource), add_track t r = Some r' →
     ∃ l l', res_length r = Some l ∧ res_length r' = Some l' ∧
             (l <= l')%Q ∧
             ((frame_time fps (frame_end t) <= l)%Q → l' = l)).
Proof.
  split.
  - destruct (add_tracks_length ts (AnimationResource_new name) 0 0 Hwf)
      as (r & l & Hrun & Hl & Heq & _); [done|done|].
    by exists r, l.
  - intros t r r' Hadd.
    destruct (add_track_effect _ _ _ Hadd) as (l & Hl & Hl' & _).
    exists l, (if Qgt_bool (frame_time fps (frame_end t)) l
               then frame_time fps (frame_end t) else l).
    split; [done|]. split; [done|]. split.
    + unfold Qgt_bool. destruct (Qle_bool _ l) eqn:Hle; simpl.
      * apply Qle_refl.
      * apply Qlt_le_weak, Qnot_le_lt. intros H.
        apply Qle_bool_iff in H. congruence.
    + intros Hle. apply Qle_bool_iff in Hle. unfold Qgt_bool.
      by rewrite Hle.
Qed.

(** C10. A track without frames has [frame_end() = frame_begin() = 0];
    added to a resource built by [add_track] calls, it leaves 'length' as
    it is and takes the next track index. *)
Theorem empty_track_adds_no_length (name : string) (ts : list Track)
    (r : AnimationResource) (t : Track)
    (Hwf : Forall well_formed ts)
    (Hr : add_tracks ts (AnimationResource_new name) = Some r)
    (Hempty : track_frames t = []) :
  frame_end t = 0 ∧ frame_begin t = 0 ∧
  (frame_time fps (frame_end t) == 0)%Q ∧
  ∃ r', add_track t r = Some r' ∧
        res_length r' = res_length r ∧
        track_count r' = S (track_count r).
Proof.
  assert (frame_end t = 0) as Hend by (unfold frame_end; by rewrite Hempty).
  assert (frame_begin t = 0) as Hbegin
    by (unfold frame_begin; by rewrite Hempty).
  repeat split; try done.
  { rewrite Hend. done. }
  destruct (add_tracks_length ts (AnimationResource_new name) 0 0 Hwf)
    as (r0 & l & Hrun & Hl & Heq & _); [done|done|].
  rewrite Hr in Hrun. injection Hrun as <-.
  destruct (add_track_total t r) as [r' Hr'].
  { unfold well_formed. rewrite Hempty. simpl. lia. }
  { by eexists. }
  exists r'. split; [done|].
  destruct (add_track_effect _ _ _ Hr') as (l0 & Hl0 & Hl' & Hcount).
  split; [|done].
  rewrite Hl', Hl0. f_equal.
  rewrite Hl in Hl0. injection Hl0 as <-.
  rewrite (Qgt_bool_frame_time _ _ _ Heq), Hend.
  case_bool_decide as Hneg; [|done].
  exfalso. revert Hneg. unfold longest_frame.
  generalize (map frame_end ts). intros xs. induction xs; simpl; lia.
Qed.
End ResourceFacts.

Lemma sample_tracks_well_formed :
  Forall well_formed [walk_track; short_track].
Proof. repeat constructor; unfold well_formed; simpl; lia. Qed.

Lemma resource_length_is_max_witness :
  ∃ r l, sample_add_tracks [walk_track; short_track] = Some r ∧
         res_length r = Some l ∧ (l == 10 # 24)%Q.
Proof.
  destruct (resource_length_is_max Z.eqb 24 sample_components "Walk"
              [walk_track; short_track] sample_tracks_well_formed)
    as [H _].
  exact H.
Defined.

(** C3 as stated fails when every added track ends before frame 0: the
    single track [early_track] ends at frame -3, so the largest
    last-frame time is -3/24, yet 'length' stays at its initial 0. *)
Lemma resource_length_not_max_of_negative :
  sample_add_tracks [early_track] ≫= res_length = Some 0%Q ∧
  frame_time 24 (max_frame_end early_track []) = (-3 # 24)%Q ∧
  ¬ (0 == frame_time 24 (max_frame_end early_track []))%Q.
Proof.
  split; [by vm_compute|]. split; [by vm_compute|].
  by vm_compute.
Qed.

Lemma empty_track_adds_no_length_witness :
  ∃ r r', sample_add_tracks [walk_track; short_track] = Some r ∧
          add_track Z.eqb 24 sample_components empty_track r = Some r' ∧
          res_length r' = res_length r ∧
          track_count r' = S (track_count r).
Proof.
  destruct (sample_add_tracks [walk_track; short_track]) as [r|] eqn:Hr;
    [|vm_compute in Hr; discriminate].
  destruct (empty_track_adds_no_length Z.eqb 24 sample_components "Walk"
              [walk_track; short_track] r empty_track
              sample_tracks_well_formed Hr eq_refl)
    as (_ & _ & _ & r' & H).
  by exists r, r'.
Defined.

(** ** The scene tree and the player lookup *)

Lemma get_node_update_node (ref : NodeRef) :
  ∀ f root, get_node (update_node f ref root) ref = f <$> get_node root ref.
Proof.
  induction ref as [|i up IH]; intros f root; [done|].
  cbn [update_node get_node]. rewrite IH.
  destruct (get_node root up) as [parent|]; [|done].
  cbn. by rewrite list_lookup_alter_eq.
Qed.

Lemma find_player_child_Some (children : list GodotNode) i :
  find_player_child children = Some i →
  ∃ child, children !! i = Some child ∧
           node_type child = "AnimationPlayer".
Proof.
  unfold find_player_child. intros H.
  apply fmap_Some in H as ([j child] & Hfind & ->).
  apply list_find_Some in Hfind as (? & ? & _). eauto.
Qed.

Lemma find_player_child_None (children : list GodotNode) :
  find_player_child children = None ↔
  ∀ i child, children !! i = Some child →
             node_type child ≠ "AnimationPlayer".
Proof.
  unfold find_player_child. rewrite fmap_None, list_find_None, Forall_lookup.
  done.
Qed.

Lemma find_player_child_snoc (children : list GodotNode) :
  find_player_child children = None →
  find_player_child (children ++ [AnimationPlayer_node])
    = Some (length children).
Proof.
  unfold find_player_child. rewrite fmap_None. intros Hnone.
  rewrite list_find_app_r by done. cbn. by rewrite decide_True.
Qed.

Lemma walk_to_root_nil (ref : NodeRef) : walk_to_root ref = [].
Proof. induction ref; simpl; auto. Qed.

Lemma new_child_lookup node parent root player root' :
  new_child node parent root = Some (player, root') →
  ∃ p, get_node root parent = Some p ∧
       player = length (node_children p) :: parent ∧
       get_node root' parent
         = Some (set_children (node_children p ++ [node]) p) ∧
       get_node root' player = Some node ∧
       get_node root player = None.
Proof.
  unfold new_child. intros H.
  destruct (get_node root parent) as [p|] eqn:Hp; [|done].
  injection H as <- <-. exists p.
  assert (get_node
            (update_node (λ p, set_children (node_children p ++ [node]) p)
               parent root) parent
          = Some (set_children (node_children p ++ [node]) p)) as Hnew.
  { by rewrite get_node_update_node, Hp. }
  repeat split; try done.
  - cbn [get_node]. rewrite Hnew. cbn.
    by rewrite lookup_app_r, Nat.sub_diag.
  - cbn [get_node]. rewrite Hp. apply lookup_ge_None. lia.
Qed.

Lemma get_node_parent root i up :
  is_Some (get_node root (i :: up)) → is_Some (get_node root up).
Proof. cbn [get_node]. destruct (get_node root up); [eauto|by intros []]. Qed.

Lemma nearest_player_total root (node_ptr : NodeRef) :
  is_Some (get_node root node_ptr) → is_Some (nearest_player root node_ptr).
Proof.
  induction node_ptr as [|i up IH]; intros Hvalid.
  - cbn. destruct (find_player_child _); eauto.
  - pose proof (get_node_parent _ _ _ Hvalid) as Hup.
    destruct Hvalid as [n Hn]. cbn [nearest_player]. rewrite Hn.
    destruct (find_player_child _); eauto.
Qed.

Lemma nearest_player_found root (node_ptr player : NodeRef) :
  nearest_player root node_ptr = Some (Some player) →
  ∃ i ref, player = i :: ref ∧ ref ∈ ancestors node_ptr ∧
           node_type <$> get_node root player = Some "AnimationPlayer".
Proof.
  induction node_ptr as [|j up IH]; cbn [nearest_player]; intros H.
  - cbn [get_node] in H.
    destruct (find_player_child _) as [i|] eqn:Hfind; [|done].
    injection H as <-. exists i, []. split; [done|].
    split; [apply list_elem_of_here|].
    apply find_player_child_Some in Hfind as (child & Hchild & Htype).
    cbn [get_node]. rewrite Hchild. cbn. by rewrite Htype.
  - destruct (get_node root (j :: up)) as [n|] eqn:Hn; [|done].
    destruct (find_player_child _) as [i|] eqn:Hfind.
    + injection H as <-. exists i, (j :: up). split; [done|].
      split; [apply list_elem_of_here|].
      apply find_player_child_Some in Hfind as (child & Hchild & Htype).
      change (get_node root (i :: j :: up)) with
        (match get_node root (j :: up) with
         | Some parent => node_children parent !! i
         | None => None
         end).
      rewrite Hn, Hchild. cbn. by rewrite Htype.
    + destruct (IH H) as (i & ref & -> & Hin & Htype).
      exists i, ref. split; [done|].
      split; [by apply list_elem_of_further|done].
Qed.

Lemma nearest_player_none root (node_ptr : NodeRef) :
  nearest_player root node_ptr = Some None →
  ∀ ref i, ref ∈ ancestors node_ptr →
           node_type <$> get_node root (i :: ref) ≠ Some "AnimationPlayer".
Proof.
  assert (∀ ref n, get_node root ref = Some n →
            find_player_child (node_children n) = None →
            ∀ i, node_type <$> get_node root (i :: ref)
                   ≠ Some "AnimationPlayer") as Hstep.
  { intros ref n Hn Hfind i. cbn [get_node]. rewrite Hn.
    destruct (node_children n !! i) as [child|] eqn:Hchild; [|done].
    cbn. intros [= Htype].
    by eapply find_player_child_None in Hfind. }
  induction node_ptr as [|j up IH]; cbn [nearest_player]; intros H ref i Hin.
  - cbn [get_node] in H.
    destruct (find_player_child _) eqn:Hfind; [done|].
    cbn in Hin. apply list_elem_of_singleton in Hin as ->.
    by apply (Hstep [] root).
  - destruct (get_node root (j :: up)) as [n|] eqn:Hn; [|done].
    destruct (find_player_child _) eqn:Hfind; [done|].
    cbn [ancestors] in Hin. apply elem_of_cons in Hin as [->|Hin]; eauto.
Qed.

Lemma get_node_app root (l base : NodeRef) :
  get_node root (l ++ base) = get_node root base ≫= λ n, get_node n l.
Proof.
  induction l as [|i l IH]; cbn [app get_node].
  - by destruct (get_node root base).
  - rewrite IH. by destruct (get_node root base).
Qed.

Lemma get_node_update_node_below f (base l : NodeRef) root :
  get_node (update_node f base root) (l ++ base)
  = get_node root base ≫= λ n, get_node (f n) l.
Proof.
  rewrite get_node_app, get_node_update_node.
  by destruct (get_node root base).
Qed.

(** A change at [base] that keeps the label of the node keeps the labels
    of all the nodes that are neither [base] nor below it. *)
Lemma get_node_update_node_label (base : NodeRef) :
  ∀ f root ref,
    (∀ n, node_label (f n) = node_label n) →
    ¬ base `suffix_of` ref →
    node_label <$> get_node (update_node f base root) ref
    = node_label <$> get_node root ref.
Proof.
  induction base as [|i up IH]; intros f root ref Hlabel Hnot.
  - destruct Hnot. exists ref. by rewrite app_nil_r.
  - cbn [update_node].
    destruct (decide (up `suffix_of` ref)) as [[l ->]|Hup].
    + rewrite get_node_update_node_below, get_node_app.
      destruct (get_node root up) as [n|]; [|done]. cbn [mbind option_bind].
      destruct l as [|j l _] using rev_ind; [done|].
      rewrite !get_node_app. cbn [get_node set_children node_children].
      assert (i ≠ j) as Hne.
      { intros ->. apply Hnot. exists l. by rewrite <- app_assoc. }
      by rewrite list_lookup_alter_ne.
    + apply IH; [done|done].
Qed.

Lemma get_node_leaf n (l : NodeRef) :
  node_children n = [] → l ≠ [] → get_node n l = None.
Proof.
  intros Hleaf Hl. destruct l as [|j l _] using rev_ind; [done|].
  rewrite get_node_app. cbn [get_node]. by rewrite Hleaf.
Qed.

(** A new child without children changes no label and adds no other
    position to the tree. *)
Lemma new_child_frame node parent root player root' :
  node_children node = [] →
  new_child node parent root = Some (player, root') →
  ∀ ref, ref ≠ player →
    node_label <$> get_node root' ref = node_label <$> get_node root ref.
Proof.
  unfold new_child. intros Hleaf H.
  destruct (get_node root parent) as [p|] eqn:Hp; [|done].
  injection H as <- <-. intros ref Hne.
  destruct (decide (parent `suffix_of` ref)) as [[l ->]|Hnot].
  - rewrite get_node_update_node_below, get_node_app, Hp.
    cbn [mbind option_bind].
    destruct l as [|j l _] using rev_ind; [done|].
    rewrite !get_node_app. cbn [get_node set_children node_children].
    destruct (decide (j < length (node_children p))%nat) as [Hlt|Hge].
    + by rewrite lookup_app_l.
    + rewrite (proj2 (lookup_ge_None (node_children p) j)) by lia.
      cbn [mbind option_bind].
      destruct (decide (j = length (node_children p))) as [->|Hgt].
      * rewrite lookup_app_r, Nat.sub_diag by lia.
        change ([node] !! 0%nat) with (Some node). cbn [mbind option_bind].
        rewrite get_node_leaf; [done|done|].
        intros ->. by apply Hne.
      * rewrite (proj2 (lookup_ge_None _ j)); [done|].
        rewrite length_app. cbn. lia.
  - by apply get_node_update_node_label.
Qed.

Section PlayerLookup.
Context {V NodePath : Type}.
Local Abbreviation Document := (@Document V NodePath).

(** Constructing an AnimationPlayer under [base] and registering it. *)
Lemma new_player_created (base : NodeRef) (d : Document) player root' :
  new_child AnimationPlayer_node base (doc_root d) = Some (player, root') →
  player_created base player d
    (mkDocument root' (doc_nodes d ++ [player]) (doc_resources d)).
Proof.
  intros Hnew.
  pose proof (new_child_frame AnimationPlayer_node _ _ _ _ eq_refl Hnew)
    as Hframe.
  apply new_child_lookup in Hnew as (p & Hp & -> & Hbase & Hplayer & Hfresh).
  exists p. by repeat split.
Qed.

(** The search of a mode that searches, in one statement: either it finds
    a player, which is a child of a node of the search path, or it finds
    none, no node of the search path has one, and a player created under
    the base is what the same search finds afterwards. *)
Lemma search_player (mode : string) (godot_node : NodeRef) (d : Document) :
  mode ≠ "ACTIONS" →
  is_Some (get_node (doc_root d) godot_node) →
  (∃ player, get_animation_player mode godot_node d = Some (player, d) ∧
             is_player d player ∧
             (∃ i ref, player = i :: ref ∧
                       ref ∈ search_path mode godot_node) ∧
             Exists (has_player_child d) (search_path mode godot_node)) ∨
  (∃ player root',
      get_animation_player mode godot_node d
        = Some (player, mkDocument root' (doc_nodes d ++ [player])
                                   (doc_resources d)) ∧
      get_node root' player = Some AnimationPlayer_node ∧
      player_created (creation_base mode godot_node) player d
        (mkDocument root' (doc_nodes d ++ [player]) (doc_resources d)) ∧
      ¬ Exists (has_player_child d) (search_path mode godot_node) ∧
      ∀ nodes, get_animation_player mode godot_node
                 (mkDocument root' nodes (doc_resources d))
               = Some (player, mkDocument root' nodes (doc_resources d))).
Proof.
  intros Hmode Hvalid. unfold get_animation_player, search_path, creation_base.
  apply String.eqb_neq in Hmode. rewrite Hmode.
  destruct (String.eqb mode "SCENE_ANIMATION").
  - rewrite walk_to_root_nil. cbn [get_node mbind option_bind].
    destruct (find_player_child (node_children (doc_root d)))
      as [i|] eqn:Hfind.
    + left. exists [i]. cbn. split; [done|].
      apply find_player_child_Some in Hfind as (child & Hchild & Htype).
      assert (is_player d [i]) as Hplayer.
      { unfold is_player. cbn. rewrite Hchild. cbn. by rewrite Htype. }
      split; [done|]. split.
      { exists i, []. split; [done|]. apply list_elem_of_here. }
      apply Exists_cons_hd. by exists i.
    + right. cbn [fmap option_fmap option_map].
      destruct (new_child AnimationPlayer_node [] (doc_root d))
        as [[player root']|] eqn:Hnew; [|done].
      exists player, root'. split; [done|].
      pose proof (new_player_created _ _ _ _ Hnew) as Hcreated.
      apply new_child_lookup in Hnew
        as (p & [= <-] & -> & Hbase & Hplayer & Hfresh).
      repeat split; try done.
      * intros Hex. apply Exists_cons in Hex as [[i Hi]|Hex];
          [|by apply Exists_nil in Hex].
        unfold is_player in Hi. cbn in Hi.
        destruct (node_children (doc_root d) !! i) as [child|] eqn:Hchild;
          [|done].
        injection Hi as Htype.
        by eapply find_player_child_None in Hfind.
      * intros nodes. cbn [get_node] in Hbase. injection Hbase as ->.
        cbn [doc_root get_node node_children set_children
             mbind option_bind].
        by rewrite (find_player_child_snoc _ Hfind).
  - destruct (nearest_player_total _ _ Hvalid) as [found Hfound].
    rewrite Hfound. cbn [mbind option_bind].
    destruct found as [player|].
    + left. exists player. split; [done|].
      apply nearest_player_found in Hfound as (i & ref & -> & Hin & Htype).
      split; [done|]. split; [by exists i, ref|].
      apply Exists_exists. exists ref. split; [done|].
      by exists i.
    + right.
      destruct (new_child AnimationPlayer_node godot_node (doc_root d))
        as [[player root']|] eqn:Hnew.
      2:{ unfold new_child in Hnew. destruct Hvalid as [n Hn].
          by rewrite Hn in Hnew. }
      exists player, root'. split; [done|].
      pose proof (new_player_created _ _ _ _ Hnew) as Hcreated.
      pose proof Hnew as Hnew'.
      apply new_child_lookup in Hnew'
        as (p & Hp & -> & Hbase & Hplayer & Hfresh).
      repeat split; try done.
      * intros Hex. apply Exists_exists in Hex as (ref & Hin & i & Hi).
        by eapply nearest_player_none in Hi.
      * intros nodes. cbn [doc_root].
        assert (find_player_child (node_children p) = None) as Hnone.
        { destruct godot_node; cbn [nearest_player] in Hfound;
            rewrite Hp in Hfound;
            by destruct (find_player_child (node_children p)). }
        assert (nearest_player root' godot_node
                = Some (Some (length (node_children p) :: godot_node)))
          as ->.
        { destruct godot_node; cbn [nearest_player]; rewrite Hbase;
            cbn [node_children set_children];
            by rewrite (find_player_child_snoc _ Hnone). }
        done.
Qed.

Lemma get_animation_player_actions (godot_node : NodeRef) (d : Document) :
  get_animation_player "ACTIONS" godot_node d =
    new_child AnimationPlayer_node godot_node (doc_root d)
    ≫= λ '(player, root),
         Some (player, mkDocument root (doc_nodes d ++ [player])
                                  (doc_resources d)).
Proof. reflexivity. Qed.

(** C6 (as amended). In the modes that search (SCENE_ANIMATION, and
    SQUASHED_ACTIONS as the fallback): an AnimationPlayer found along the
    search path, a child of one of its nodes, is returned and nothing is
    created or changed; when there is none, exactly one is created, as the
    last child of the search base (the scene root, or the node), and
    registered, and the rest of the scene is as it was; and a repeated
    call for the same node returns the same player and creates nothing.
    In mode ACTIONS nothing is searched: every call creates and registers
    one new player as the last child of the node. *)
Theorem player_reused_when_searched (mode : string) (godot_node : NodeRef)
    (d : Document)
    (Hvalid : is_Some (get_node (doc_root d) godot_node)) :
  ∃ player d',
    get_animation_player mode godot_node d = Some (player, d') ∧
    is_player d' player ∧
    (mode ≠ "ACTIONS" →
       (Exists (has_player_child d) (search_path mode godot_node) →
          d' = d ∧
          ∃ i ref, player = i :: ref ∧ ref ∈ search_path mode godot_node) ∧
       (¬ Exists (has_player_child d) (search_path mode godot_node) →
          player_created (creation_base mode godot_node) player d d' ∧
          node_parent player = Some (creation_base mode godot_node)) ∧
       get_animation_player mode godot_node d' = Some (player, d')) ∧
    (mode = "ACTIONS" →
       player_created godot_node player d d' ∧
       node_parent player = Some godot_node).
Proof.
  destruct (decide (mode = "ACTIONS")) as [->|Hmode].
  - rewrite get_animation_player_actions.
    destruct (new_child AnimationPlayer_node godot_node (doc_root d))
      as [[player root']|] eqn:Hnew.
    2:{ unfold new_child in Hnew. destruct Hvalid as [n Hn].
        by rewrite Hn in Hnew. }
    pose proof (new_player_created _ _ _ _ Hnew) as Hcreated.
    apply new_child_lookup in Hnew as (p & Hp & -> & _ & Hplayer & Hfresh).
    eexists _, _. split; [done|]. split.
    { unfold is_player. cbn [doc_root]. by rewrite Hplayer. }
    split; [done|]. done.
  - destruct (search_player mode godot_node d Hmode Hvalid)
      as [(player & Hrun & Hplayer & Hpath & Hex)
         |(player & root' & Hrun & Hplayer & Hcreated & Hnex & Hagain)].
    + exists player, d. split; [done|]. split; [done|].
      split; [|done]. intros _. split; [done|]. split; [done|]. done.
    + eexists player, _. split; [exact Hrun|]. split.
      { unfold is_player. cbn [doc_root]. by rewrite Hplayer. }
      split; [|done]. intros _. split; [done|]. split; [|apply Hagain].
      intros _. split; [done|].
      destruct Hcreated as (base_node & _ & -> & _). done.
Qed.
End PlayerLookup.

Lemma player_reused_when_searched_witness :
  ∃ player d',
    get_animation_player "SQUASHED_ACTIONS" sample_lamp sample_scene
      = Some (player, d') ∧
    player = (0%nat :: sample_lamp) ∧
    get_animation_player "SQUASHED_ACTIONS" sample_lamp d'
      = Some (player, d').
Proof.
  destruct (player_reused_when_searched "SQUASHED_ACTIONS" sample_lamp
              sample_scene ltac:(by eexists))
    as (player & d' & Hrun & _ & Hsearch & _).
  exists player, d'. split; [done|].
  split; [by vm_compute in Hrun; injection Hrun as <- _|].
  by apply Hsearch.
Defined.

(** C6 as stated fails in mode ACTIONS: two calls for the same node
    [Cube] return two different AnimationPlayer nodes, both children of
    [Cube] afterwards. *)
Lemma actions_mode_duplicates_player :
  ∃ d1 d2,
    get_animation_player "ACTIONS" sample_cube sample_scene
      = Some (1%nat :: sample_cube, d1) ∧
    get_animation_player "ACTIONS" sample_cube d1
      = Some (2%nat :: sample_cube, d2) ∧
    is_player d1 (1%nat :: sample_cube) ∧
    is_player d2 (1%nat :: sample_cube) ∧
    is_player d2 (2%nat :: sample_cube) ∧
    doc_nodes d2 = [1%nat :: sample_cube; 2%nat :: sample_cube].
Proof.
  eexists _, _. split; [vm_compute; reflexivity|].
  split; [vm_compute; reflexivity|]. by vm_compute.
Qed.

(** ** Ordered dictionaries *)

Section OrderedDictFacts.
Context {A : Type}.
Implicit Types m : list (string * A).

Lemma od_mem_set key key' (v : A) m :
  od_mem key' (od_set key v m) = String.eqb key key' || od_mem key' m.
Proof.
  unfold od_mem. induction m as [|[k old] rest IH]; cbn [od_set od_lookup].
  - destruct (String.eqb key key'); done.
  - destruct (String.eqb k key) eqn:Hk; cbn [od_lookup].
    + apply String.eqb_eq in Hk as ->.
      destruct (String.eqb key key'); done.
    + destruct (String.eqb k key') eqn:Hk'.
      * by rewrite orb_true_r.
      * apply IH.
Qed.

Lemma od_mem_lookup key m :
  od_mem key m = true ↔ is_Some (od_lookup key m).
Proof.
  unfold od_mem. destruct (od_lookup key m) as [v|].
  - split; eauto.
  - split; [done|]. by intros [v Hv].
Qed.
End OrderedDictFacts.

(** ** Transform frames and the transform export *)

Section TransformFacts.
Variable to_translation : Matrix → Vector.
Variable to_scale : Matrix → Vector.
Variable to_quaternion : Matrix → Quaternion.
Variable to_euler : Matrix → string → option Euler.
Variable quaternion_to_matrix : Quaternion → Matrix3.
Variable euler_to_matrix : Euler → Matrix3.
Variable fix_directional_transform : Matrix → Matrix.
Variable matrix_eq : Matrix → Matrix → bool.
Variable transform_components : Matrix → Vector * Quaternion * Vector.
Variable fps : positive.

Local Abbreviation to_matrix :=
  (TransformFrame_to_matrix quaternion_to_matrix euler_to_matrix).
Local Abbreviation rotation :=
  (frame_rotation quaternion_to_matrix euler_to_matrix).

(** C9. [to_matrix] is the product translation x rotation x scale in
    that order; the rotation is the quaternion's when the rotation mode
    is 'QUATERNION' and the Euler rotation's otherwise; the scale matrix
    is the diagonal of the three scale components. Entry by entry: the
    columns of the rotation are scaled, the translation is the last
    column, so that a point is scaled first, then rotated, then moved. *)
Theorem to_matrix_translation_rotation_scale (f : TransformFrame) :
  let R := rotation f in
  let L := tf_location f in
  let S := tf_scale f in
  to_matrix f =
    Matrix_mul
      (Matrix_mul (Matrix_Translation L) (to_4x4 R))
      (to_4x4 (mkMatrix3 (mkVector (vec_x S) 0 0) (mkVector 0 (vec_y S) 0)
                         (mkVector 0 0 (vec_z S))))
  ∧ R = (if bool_decide (tf_rotation_mode f = "QUATERNION")
         then quaternion_to_matrix (tf_rotation_quaternion f)
         else euler_to_matrix (tf_rotation_euler f))
  ∧ Matrix_equiv (to_matrix f)
      (mkMatrix
         (mkRow4 (vec_x (m3_row0 R) * vec_x S) (vec_y (m3_row0 R) * vec_y S)
                 (vec_z (m3_row0 R) * vec_z S) (vec_x L))
         (mkRow4 (vec_x (m3_row1 R) * vec_x S) (vec_y (m3_row1 R) * vec_y S)
                 (vec_z (m3_row1 R) * vec_z S) (vec_y L))
         (mkRow4 (vec_x (m3_row2 R) * vec_x S) (vec_y (m3_row2 R) * vec_y S)
                 (vec_z (m3_row2 R) * vec_z S) (vec_z L))
         (mkRow4 0 0 0 1))
  ∧ ∀ x y z,
      Row4_equiv (Matrix_apply (to_matrix f) (mkRow4 x y z 1))
        (Matrix_apply (Matrix_Translation L)
           (Matrix_apply (to_4x4 R)
              (mkRow4 (vec_x S * x) (vec_y S * y) (vec_z S * z) 1))).
Proof.
  intros R L S. subst R L S.
  assert (to_matrix f =
          Matrix_mul
            (Matrix_mul (Matrix_Translation (tf_location f))
                        (to_4x4 (rotation f)))
            (to_4x4 (mkMatrix3 (mkVector (vec_x (tf_scale f)) 0 0)
                               (mkVector 0 (vec_y (tf_scale f)) 0)
                               (mkVector 0 0 (vec_z (tf_scale f))))))
    as Hprod.
  { unfold TransformFrame_to_matrix, frame_rotation.
    by destruct (String.eqb (tf_rotation_mode f) "QUATERNION"). }
  split; [exact Hprod|]. split.
  { unfold frame_rotation. case_bool_decide as Hmode.
    - by rewrite Hmode.
    - apply String.eqb_neq in Hmode. by rewrite Hmode. }
  rewrite Hprod.
  destruct (rotation f) as [[a b c] [d e g] [h i j]].
  destruct (tf_location f) as [lx ly lz], (tf_scale f) as [sx sy sz].
  split; [|intros x y z];
    cbv [Matrix_equiv Row4_equiv Matrix_mul Matrix_apply row_times dot4
         column to_4x4 Matrix_Translation row0 row1 row2 row3 e0 e1 e2 e3
         vec_x vec_y vec_z m3_row0 m3_row1 m3_row2];
    repeat split; ring.
Qed.

Local Abbreviation init_frames :=
  (init_transform_frame_values to_translation to_scale to_quaternion
     to_euler).
Local Abbreviation collect_one :=
  (collect_fcurve to_translation to_scale to_quaternion to_euler).
Local Abbreviation collect_all :=
  (collect_fcurves to_translation to_scale to_quaternion to_euler).
Local Abbreviation emit_all :=
  (emit_tracks quaternion_to_matrix euler_to_matrix
     fix_directional_transform matrix_eq transform_components fps).
Local Abbreviation export :=
  (export_transform_action to_translation to_scale to_quaternion to_euler
     quaternion_to_matrix euler_to_matrix fix_directional_transform matrix_eq
     transform_components fps).

(** The initialisation of an unsupported bone path gives no frames, and
    a warning exactly when the target is not a Skeleton. *)
Lemma init_unsupported object_path blender_object godot_node first last :
  unsupported_bone_path godot_node object_path →
  init_frames object_path blender_object godot_node first last =
    Some (None,
          if String.eqb (gn_type godot_node) "Skeleton" then []
          else [bone_warning (ob_name blender_object)]).
Proof.
  intros (Hpose & bone & Hbone & Hcase).
  unfold init_transform_frame_values. rewrite Hpose, Hbone.
  cbn [mbind option_bind].
  destruct (String.eqb (gn_type godot_node) "Skeleton") eqn:Htype;
    cbn [negb]; [|done].
  apply String.eqb_eq in Htype.
  destruct Hcase as [Hne| ->]; [done|]. done.
Qed.

Lemma init_warnings_skeleton object_path blender_object godot_node
    first last frames warnings :
  gn_type godot_node = "Skeleton" →
  init_frames object_path blender_object godot_node first last
    = Some (frames, warnings) →
  warnings = [].
Proof.
  intros Htype. unfold init_transform_frame_values.
  rewrite Htype. change (String.eqb "Skeleton" "Skeleton") with true.
  cbn [negb]. intros H.
  repeat (case_match; simplify_option_eq); done.
Qed.

(** The frames of a path that is in the map stay in the map. *)
Lemma update_frames_keys object_path attribute fcurve first frames :
  ∀ m m' key,
    update_frames object_path attribute fcurve first frames m = Some m' →
    od_mem key m' = od_mem key m.
Proof.
  induction frames as [|frame rest IH]; intros m m' key; cbn [update_frames].
  - by intros [= ->].
  - destruct (od_lookup object_path m) as [frame_values|] eqn:Hlook;
      [|done]. cbn [mbind option_bind].
    destruct (py_index frame_values (frame - first)) as [f|]; [|done].
    cbn [mbind option_bind].
    destruct (TransformFrame_update _ _ _ f) as [f'|]; [|done].
    cbn [mbind option_bind]. intros Hrest.
    rewrite (IH _ _ _ Hrest), od_mem_set.
    destruct (String.eqb object_path key) eqn:Hkey; [|done].
    apply String.eqb_eq in Hkey as <-. cbn.
    symmetry. apply od_mem_lookup. by eexists.
Qed.

(** One curve of an unsupported bone path: no exception, the map is left
    as it is, and the log grows by one warning exactly when the curve
    is a transform curve and the target is not a Skeleton. *)
Lemma collect_unsupported blender_object godot_node first last
    fcurve m log object_path attribute :
  split_fcurve_data_path (data_path fcurve) = (object_path, attribute) →
  unsupported_bone_path godot_node object_path →
  od_mem object_path m = false →
  collect_one blender_object godot_node first last fcurve (m, log) =
    Some (m, log ++
             if bool_decide (attribute ∈ TransformFrame_ATTRIBUTES)
                && negb (String.eqb (gn_type godot_node) "Skeleton")
             then [bone_warning (ob_name blender_object)] else []).
Proof.
  intros Hsplit Hbad Hnew. unfold collect_fcurve. rewrite Hsplit, Hnew.
  cbn [negb andb].
  destruct (bool_decide (attribute ∈ TransformFrame_ATTRIBUTES)).
  - rewrite init_unsupported by done. cbn.
    by destruct (String.eqb (gn_type godot_node) "Skeleton").
  - cbn. by rewrite app_nil_r.
Qed.

(** One curve adds at most its own path to the map, and only when the
    initialisation gave frames. *)
Lemma collect_keys blender_object godot_node first last fcurve m log
    m' log' key :
  collect_one blender_object godot_node first last fcurve (m, log)
    = Some (m', log') →
  od_mem key m' = true →
  od_mem key m = true ∨ ¬ unsupported_bone_path godot_node key.
Proof.
  unfold collect_fcurve.
  destruct (split_fcurve_data_path (data_path fcurve))
    as [object_path attribute].
  destruct (negb (od_mem object_path m)
            && bool_decide (attribute ∈ TransformFrame_ATTRIBUTES))
    eqn:Hinit.
  - apply andb_true_iff in Hinit as [_ ->].
    destruct (init_frames object_path blender_object godot_node first last)
      as [[frames warnings]|] eqn:Hframes; [|done].
    cbn [mbind option_bind].
    destruct frames as [[|f fs]|]; cbn [mbind option_bind];
      try (intros [= <- <-]; by left).
    destruct (update_frames _ _ _ _ _ _) as [m1|] eqn:Hupd; [|done].
    cbn [mbind option_bind]. intros [= <- <-] Hkey.
    rewrite (update_frames_keys _ _ _ _ _ _ _ _ Hupd), od_mem_set in Hkey.
    apply orb_true_iff in Hkey as [Hkey|Hkey]; [|by left].
    apply String.eqb_eq in Hkey as <-. right. intros Hbad.
    rewrite (init_unsupported _ blender_object _ first last Hbad)
      in Hframes.
    done.
  - cbn [mbind option_bind].
    destruct (bool_decide (attribute ∈ TransformFrame_ATTRIBUTES)).
    + destruct (update_frames _ _ _ _ _ _) as [m1|] eqn:Hupd; [|done].
      cbn [mbind option_bind]. intros [= <- <-] Hkey. left.
      by rewrite (update_frames_keys _ _ _ _ _ _ _ _ Hupd) in Hkey.
    + intros [= <- <-]. by left.
Qed.

Lemma collect_log_skeleton blender_object godot_node first last fcurve
    m log m' log' :
  gn_type godot_node = "Skeleton" →
  collect_one blender_object godot_node first last fcurve (m, log)
    = Some (m', log') →
  log' = log.
Proof.
  intros Htype. unfold collect_fcurve.
  destruct (split_fcurve_data_path (data_path fcurve))
    as [object_path attribute].
  destruct (negb (od_mem object_path m)
            && bool_decide (attribute ∈ TransformFrame_ATTRIBUTES)).
  - destruct (init_frames object_path blender_object godot_node first last)
      as [[frames warnings]|] eqn:Hframes; [|done].
    apply init_warnings_skeleton in Hframes as ->; [|done].
    cbn [mbind option_bind]. rewrite app_nil_r.
    destruct frames as [[|f fs]|]; cbn [mbind option_bind];
      try (by intros [= <- <-]).
    intros H. repeat case_match; simplify_option_eq; done.
  - cbn [mbind option_bind]. intros H.
    repeat case_match; simplify_option_eq; done.
Qed.

Lemma collect_all_unsupported blender_object godot_node first last
    fcurves :
  ∀ m log m' log',
    collect_all blender_object godot_node first last fcurves (m, log)
      = Some (m', log') →
    (∀ key, unsupported_bone_path godot_node key → od_mem key m = false) →
    (∀ key, unsupported_bone_path godot_node key → od_mem key m' = false) ∧
    (gn_type godot_node = "Skeleton" → log' = log).
Proof.
  induction fcurves as [|fcurve rest IH]; intros m log m' log';
    cbn [collect_fcurves].
  - by intros [= <- <-] Hm.
  - destruct (collect_one _ _ _ _ fcurve (m, log)) as [[m1 log1]|] eqn:Hone;
      [|done].
    cbn [mbind option_bind]. intros Hrest Hm.
    destruct (IH _ _ _ _ Hrest) as [Hkeys Hlog].
    + intros key Hbad. destruct (od_mem key m1) eqn:Hmem; [|done].
      destruct (collect_keys _ _ _ _ _ _ _ _ _ _ Hone Hmem) as [Hold|Hok].
      * by rewrite Hm in Hold.
      * done.
    + split; [done|]. intros Htype. rewrite Hlog by done.
      by eapply collect_log_skeleton.
Qed.

Lemma emit_all_count player_parent_path blender_object godot_node
    first last items :
  ∀ r bound r' bound',
    emit_all player_parent_path blender_object godot_node first last
      items (r, bound) = Some (r', bound') →
    track_count r' = (track_count r + length items)%nat.
Proof.
  induction items as [|[object_path frames] rest IH];
    intros r bound r' bound'; cbn [emit_tracks].
  - intros [= <- <-]. simpl. lia.
  - destruct (emit_track _ _ _ _ _ _ _ _ _ _ _ _ (r, bound))
      as [[r1 bound1]|] eqn:Hone; [|done].
    cbn [mbind option_bind]. intros Hrest.
    rewrite (IH _ _ _ _ Hrest). cbn [length].
    enough (track_count r1 = S (track_count r)) as -> by lia.
    unfold emit_track in Hone.
    repeat (case_match; simplify_option_eq);
      match goal with
      | H : add_track _ _ _ _ _ = Some _ |- _ =>
          by destruct (add_track_effect _ _ _ _ _ _ H) as (? & ? & ? & ?)
      end.
Qed.

(** C7 (as amended). A curve whose path names a pose bone is excluded in
    both unsupported cases, the target not being a Skeleton and the bone
    being absent from the Skeleton ([find_bone_id] gives -1): handling it
    raises nothing and initialises no frame list, and a whole export has
    no frame list, hence no track, for such a path. A warning is logged
    only in the first case, once per transform curve met; with a
    Skeleton target the export logs nothing at all. *)
Theorem unsupported_bone_curves_excluded (blender_object : BlenderObject)
    (godot_node : TargetNode) :
  (∀ first last fcurve m log object_path attribute,
     split_fcurve_data_path (data_path fcurve) = (object_path, attribute) →
     unsupported_bone_path godot_node object_path →
     od_mem object_path m = false →
     collect_one blender_object godot_node first last fcurve (m, log) =
       Some (m, log ++
                if bool_decide (attribute ∈ TransformFrame_ATTRIBUTES)
                   && negb (String.eqb (gn_type godot_node) "Skeleton")
                then [bone_warning (ob_name blender_object)] else [])) ∧
  (∀ player_parent_path action r r' log,
     export godot_node player_parent_path blender_object action r
       = Some (r', log) →
     ∃ frame_map,
       collect_all blender_object godot_node
         (get_action_frame_range action).1
         (get_action_frame_range action).2
         (action_fcurves action) ([], []) = Some (frame_map, log) ∧
       (∀ object_path, unsupported_bone_path godot_node object_path →
                       od_mem object_path frame_map = false) ∧
       track_count r' = (track_count r + length frame_map)%nat ∧
       (gn_type godot_node = "Skeleton" → log = [])).
Proof.
  split.
  - intros first last fcurve m log object_path attribute Hsplit Hbad Hnew.
    by eapply collect_unsupported.
  - intros player_parent_path action r r' log.
    unfold export_transform_action.
    destruct (get_action_frame_range action) as [first last].
    destruct (collect_all _ _ first last _ _) as [[frame_map log0]|]
      eqn:Hcollect; [|done].
    cbn [mbind option_bind].
    destruct (emit_all _ _ _ first last _ _) as [[r1 bound]|] eqn:Hemit;
      [|done].
    cbn [mbind option_bind]. intros [= <- <-].
    exists frame_map. split; [done|].
    destruct (collect_all_unsupported _ _ _ _ _ _ _ _ _ Hcollect)
      as [Hkeys Hlog]; [done|].
    split; [done|]. split; [|done].
    by eapply emit_all_count.
Qed.
End TransformFacts.

Lemma hand_path_unsupported (godot_node : TargetNode) :
  gn_type godot_node ≠ "Skeleton" ∨ gn_find_bone_id godot_node "Hand" = -1 →
  unsupported_bone_path godot_node (pose_bone_path "Hand").
Proof. intros H. split; [done|]. by exists "Hand". Qed.

Lemma unsupported_bone_curves_excluded_witness :
  sample_export sample_mesh_node "." sample_armature hand_action
      (AnimationResource_new "ArmatureAction")
    = Some (AnimationResource_new "ArmatureAction",
            [bone_warning "Armature"]) ∧
  ∀ r' log,
    sample_export sample_skeleton "." sample_armature hand_action
        (AnimationResource_new "ArmatureAction") = Some (r', log) →
    track_count r' = 0%nat ∧ log = [].
Proof.
  split; [by vm_compute|]. intros r' log Hrun.
  unfold sample_export in Hrun.
  destruct (proj2 (unsupported_bone_curves_excluded _ _ _ _ _ _ _ _ _ _
                     sample_armature sample_skeleton) _ _ _ _ _ Hrun)
    as (frame_map & Hmap & _ & Hcount & Hlog).
  vm_compute in Hmap. injection Hmap as <- _.
  split; [exact Hcount|]. by apply Hlog.
Defined.

(** C7 as stated fails for a bone absent from the Skeleton: the curve of
    the bone Hand is dropped, the resource is left as it was, and no
    warning is logged. *)
Lemma absent_bone_logs_no_warning :
  gn_type sample_skeleton = "Skeleton" ∧
  gn_find_bone_id sample_skeleton "Hand" = -1 ∧
  split_fcurve_data_path (data_path hand_curve)
    = (pose_bone_path "Hand", "location") ∧
  sample_export sample_skeleton "." sample_armature hand_action
      (AnimationResource_new "ArmatureAction")
    = Some (AnimationResource_new "ArmatureAction", []).
Proof. repeat split; by vm_compute. Qed.

(** ** Names with the baking suffix *)

Lemma string_length_app (s t : string) :
  String.length (s +:+ t) = (String.length s + String.length t)%nat.
Proof. induction s as [|c s IH]; simpl; [done|]. by rewrite IH. Qed.

Lemma substring_prefix (s t : string) :
  String.substring 0 (String.length s) (s +:+ t) = s.
Proof.
  induction s as [|c s IH]; simpl.
  - by destruct t.
  - by rewrite IH.
Qed.

(** [(name + BAKING_SUFFIX)[:-len(BAKING_SUFFIX)] == name] *)
Lemma drop_last_suffix (name suffix : string) :
  drop_last (String.length suffix) (name +:+ suffix) = name.
Proof.
  unfold drop_last. rewrite string_length_app.
  replace (String.length name + String.length suffix - String.length suffix)%nat
    with (String.length name) by lia.
  apply substring_prefix.
Qed.

(** ** The store of actions *)

Lemma names_kept_refl b : names_kept b b.
Proof. intros id act H. eauto. Qed.

Lemma names_kept_trans b1 b2 b3 :
  names_kept b1 b2 → names_kept b2 b3 → names_kept b1 b3.
Proof.
  intros H12 H23 id act H1.
  destruct (H12 _ _ H1) as (act2 & H2 & Hn2).
  destruct (H23 _ _ H2) as (act3 & H3 & Hn3).
  exists act3. split; [done|]. congruence.
Qed.

Lemma set_active_action_actions action b b' :
  set_active_action action b = Some b' →
  bl_actions b' = bl_actions b ∧
  active_action_of b' = Some action ∧
  is_Some (ob_animation_data (bl_object b)).
Proof.
  unfold set_active_action, active_action_of. intros H.
  destruct (ob_animation_data (bl_object b)) as [ad|]; [|done].
  injection H as <-. simpl. eauto.
Qed.

Lemma set_action_name_lookup a name b b' :
  set_action_name a name b = Some b' →
  (∃ act', bl_actions b' !! a = Some act' ∧ action_name act' = name) ∧
  is_Some (bl_actions b !! a) ∧
  bl_object b' = bl_object b ∧
  ∀ id, id ≠ a → bl_actions b' !! id = bl_actions b !! id.
Proof.
  unfold set_action_name. intros H.
  destruct (bl_actions b !! a) as [act|] eqn:Ha; [|done].
  injection H as <-. simpl. split.
  - eexists. by rewrite lookup_insert_eq.
  - split; [eauto|]. split; [done|].
    intros id Hne. by rewrite lookup_insert_ne.
Qed.

(** Renaming an action that is not stored in [b0] keeps the names of
    [b0]. *)
Lemma set_action_name_fresh a name b0 b b' :
  bl_actions b0 !! a = None → names_kept b0 b →
  set_action_name a name b = Some b' → names_kept b0 b'.
Proof.
  intros Hfresh Hkept Hset id act Hid.
  apply set_action_name_lookup in Hset as (_ & _ & _ & Hother).
  rewrite Hother; [by apply Hkept|]. intros ->. congruence.
Qed.

(** ** Baking *)

(** One step of a chain of calls that returned: name the result of the
    first call and the equation that gives it. *)
Tactic Notation "bind_step" hyp(H) "as" simple_intropattern(pat) ident(E) :=
  match type of H with
  | (?m ≫= _) = Some _ =>
      destruct m as [pat|] eqn:E;
      [cbn [mbind option_bind] in H|discriminate H]
  | (match ?m with _ => _ end) = Some _ =>
      destruct m as [pat|] eqn:E; [|discriminate H]
  end.

Section BakeFacts.
Variable bake_action : BakeArgs → Blender → option (ActionId * Blender).
Variable legacy_interface : bool.

Local Abbreviation call_bake := (call_bake_action bake_action legacy_interface).
Local Abbreviation bake_constraint :=
  (bake_constraint_to_action bake_action legacy_interface).
Local Abbreviation baker := (action_baker bake_action legacy_interface).

(** A logged call passes on the arguments it was given, but for [obj]. *)
Lemma call_bake_action_inv args b calls baked b' calls' :
  call_bake args (b, calls) = Some (baked, (b', calls')) →
  ∃ args' b_in b_out,
    bake_action args' b_in = Some (baked, b_out) ∧
    calls' = calls ++ [mkBakeCall args' (active_action_of b)] ∧
    bl_actions b_in = bl_actions b ∧ bl_object b_in = bl_object b ∧
    bl_actions b' = bl_actions b_out ∧ bl_object b' = bl_object b_out ∧
    ba_frame_start args' = ba_frame_start args ∧
    ba_frame_end args' = ba_frame_end args ∧
    ba_frame_step args' = ba_frame_step args ∧
    ba_action args' = ba_action args ∧
    ba_do_pose args' = ba_do_pose args ∧
    ba_do_object args' = ba_do_object args.
Proof.
  unfold call_bake_action. destruct legacy_interface.
  - set (args' := mkBakeArgs None _ _ _ _ _ _ _ _).
    set (b_in := set_active_object _ b).
    destruct (bake_action args' b_in) as [[baked0 b_out]|] eqn:Hbake;
      [|done].
    cbn [mbind option_bind]. intros [= <- <- <-].
    exists args', b_in, b_out. by repeat split.
  - destruct (bake_action args b) as [[baked0 b_out]|] eqn:Hbake; [|done].
    cbn [mbind option_bind]. intros [= <- <- <-].
    exists args, b, b_out. by repeat split.
Qed.

(** What a returning call of [bake_constraint_to_action] did: one call of
    [bake_action], after the base action was made active, over the frame
    range of the base action; then, unless in place, the naming of the
    baked action. *)
Lemma bake_constraint_to_action_inv base_action bake_type in_place
    b calls ret b' calls' :
  bake_constraint base_action bake_type in_place (b, calls)
    = Some (ret, (b', calls')) →
  ∃ args b_in baked b_out,
    bake_action args b_in = Some (baked, b_out) ∧
    calls' = calls ++ [mkBakeCall args
                         (match base_action with
                          | Some base => Some (Some base)
                          | None => active_action_of b
                          end)] ∧
    bl_actions b_in = bl_actions b ∧
    bake_ready base_action b ∧
    bake_range base_action b
      = Some (ba_frame_start args, ba_frame_end args) ∧
    ba_frame_step args = 1 ∧
    ba_action args = (if in_place then base_action else None) ∧
    ba_do_pose args = String.eqb bake_type "POSE" ∧
    ba_do_object args = negb (String.eqb bake_type "POSE") ∧
    ret = (if in_place then base_action else Some baked) ∧
    (if in_place then bl_actions b' = bl_actions b_out
     else ∃ name b_named,
            baked_name base_action b_named = Some name ∧
            bl_actions b_named = bl_actions b_out ∧
            set_action_name baked name b_named = Some b').
Proof.
  unfold bake_constraint_to_action.
  destruct (match base_action with
            | Some base =>
                set_active_action (Some base) b
                ≫= λ b0, bl_actions b0 !! base
                ≫= λ act, Some (b0, get_action_frame_range act)
            | None => Some (b, (1, 250))
            end) as [[b1 frame_range]|] eqn:Hprep; [|done].
  cbn [mbind option_bind].
  assert (bl_actions b1 = bl_actions b ∧ bake_ready base_action b ∧
          bake_range base_action b = Some frame_range ∧
          active_action_of b1 = match base_action with
                                | Some base => Some (Some base)
                                | None => active_action_of b
                                end) as (Hact1 & Hready & Hrange & Hactive).
  { destruct base_action as [base|]; [|by injection Hprep as <- <-].
    destruct (set_active_action (Some base) b) as [b0|] eqn:Hset; [|done].
    cbn [mbind option_bind] in Hprep.
    apply set_active_action_actions in Hset as (Hact0 & Hactive0 & Had).
    destruct (bl_actions b0 !! base) as [act|] eqn:Hbase; [|done].
    injection Hprep as <- <-. rewrite Hact0 in Hbase.
    repeat split; try done; cbn; by rewrite Hbase. }
  destruct (call_bake _ (b1, calls)) as [[baked [b2 calls2]]|] eqn:Hcall;
    [|done].
  cbn [mbind option_bind].
  apply call_bake_action_inv in Hcall
    as (args & b_in & b_out & Hbake & Hcalls & Hin & _ & Hout & Hobj
        & Hstart & Hend & Hstep & Htarget & Hpose & Hobject).
  cbn in Hstart, Hend, Hstep, Htarget, Hpose, Hobject.
  intros Hrest. exists args, b_in, baked, b_out.
  split; [done|].
  assert (calls2 = calls ++ [mkBakeCall args
                               (match base_action with
                                | Some base => Some (Some base)
                                | None => active_action_of b
                                end)]) as Hlog by (by rewrite <- Hactive).
  destruct in_place.
  - injection Hrest as <- <- <-.
    repeat split; try done; try congruence.
    destruct frame_range. cbn in Hstart, Hend. congruence.
  - destruct (match base_action with
              | Some base => _
              | None => _
              end) as [name|] eqn:Hname in Hrest; [|done].
    cbn [mbind option_bind] in Hrest.
    destruct (set_action_name baked name b2) as [b3|] eqn:Hset; [|done].
    injection Hrest as <- <- <-.
    repeat split; try done; try congruence.
    + destruct frame_range. cbn in Hstart, Hend. congruence.
    + by exists name, b2.
Qed.

Lemma call_bake_action_total args b calls :
  bake_succeeds bake_action →
  (∀ target, ba_action args = Some target →
             is_Some (bl_actions b !! target)) →
  ∃ baked b' calls',
    call_bake args (b, calls) = Some (baked, (b', calls')) ∧
    is_Some (bl_actions b' !! baked) ∧
    (is_Some (ob_animation_data (bl_object b)) →
     is_Some (ob_animation_data (bl_object b'))) ∧
    ∀ id, is_Some (bl_actions b !! id) → is_Some (bl_actions b' !! id).
Proof.
  intros Hext Htarget. unfold call_bake_action. destruct legacy_interface.
  - set (args' := mkBakeArgs None _ _ _ _ _ _ _ _).
    set (b_in := set_active_object _ b).
    destruct (Hext args' b_in) as (baked & b_out & -> & Hbaked & Had & Hkeep);
      [done|].
    cbn [mbind option_bind]. by eexists _, _, _.
  - destruct (Hext args b) as (baked & b_out & -> & Hbaked & Had & Hkeep);
      [done|].
    cbn [mbind option_bind]. by eexists _, _, _.
Qed.

(** With a base action that is ready (or none) and a bake that does not
    raise, [bake_constraint_to_action] returns. *)
Lemma bake_constraint_to_action_total base_action bake_type in_place
    b calls :
  bake_succeeds bake_action →
  bake_ready base_action b →
  ∃ ret b' calls',
    bake_constraint base_action bake_type in_place (b, calls)
      = Some (ret, (b', calls')) ∧
    (in_place = false →
     ∃ baked, ret = Some baked ∧ is_Some (bl_actions b' !! baked)) ∧
    (is_Some (ob_animation_data (bl_object b)) →
     is_Some (ob_animation_data (bl_object b'))) ∧
    ∀ id, is_Some (bl_actions b !! id) → is_Some (bl_actions b' !! id).
Proof.
  intros Hext Hready. unfold bake_constraint_to_action.
  assert (∃ b1 frame_range,
            match base_action with
            | Some base =>
                set_active_action (Some base) b
                ≫= λ b0, bl_actions b0 !! base
                ≫= λ act, Some (b0, get_action_frame_range act)
            | None => Some (b, (1, 250))
            end = Some (b1, frame_range) ∧
            bl_actions b1 = bl_actions b ∧
            ob_name (bl_object b1) = ob_name (bl_object b) ∧
            (is_Some (ob_animation_data (bl_object b)) →
             is_Some (ob_animation_data (bl_object b1))))
    as (b1 & frame_range & -> & Hact1 & Hname1 & Had1).
  { destruct base_action as [base|]; [|by eexists _, _].
    destruct Hready as [[ad Had] [act Hact]].
    unfold set_active_action. rewrite Had. cbn. rewrite Hact. cbn.
    eexists _, _. repeat split; eauto. }
  cbn [mbind option_bind].
  edestruct (call_bake_action_total) as
    (baked & b2 & calls2 & -> & Hbaked & Had2 & Hkeep2); [done| |].
  { cbn. intros target Htarget. rewrite Hact1.
    destruct in_place; [|done]. subst base_action. apply Hready. }
  cbn [mbind option_bind].
  destruct in_place.
  - eexists _, _, _. split; [done|]. split; [done|].
    split; [by auto|]. intros id Hid. apply Hkeep2. by rewrite Hact1.
  - assert (∃ name, match base_action with
                    | Some base =>
                        drop_last (String.length BAKING_SUFFIX)
                          <$> get_action_name base b2
                    | None => Some (ob_name (bl_object b2) +:+ "Action")
                    end = Some name) as [name ->].
    { destruct base_action as [base|]; [|by eexists].
      destruct Hready as [_ Hbase]. rewrite <- Hact1 in Hbase.
      apply Hkeep2 in Hbase as [act Hact]. unfold get_action_name.
      rewrite Hact. by eexists. }
    cbn [mbind option_bind]. unfold set_action_name.
    destruct Hbaked as [act Hact]. rewrite Hact. cbn.
    eexists _, _, _. split; [done|]. split.
    { intros _. exists baked. split; [done|]. cbn.
      by rewrite lookup_insert_eq. }
    split; [by auto|]. intros id Hid. rewrite <- Hact1 in Hid.
    apply Hkeep2 in Hid. cbn.
    destruct (decide (id = baked)) as [->|Hne].
    + by rewrite lookup_insert_eq.
    + by rewrite lookup_insert_ne.
Qed.

Lemma set_active_action_frame action b b' :
  set_active_action action b = Some b' →
  ob_name (bl_object b') = ob_name (bl_object b) ∧
  bl_active_object b' = bl_active_object b.
Proof.
  unfold set_active_action. intros H.
  destruct (ob_animation_data (bl_object b)) as [ad|]; [|done].
  by injection H as <-.
Qed.

(** A returning call of [bake_constraint_to_action], step by step: the
    base action is made active ([b_active]); [bake_action] is called once,
    on that state, through the interface in use; then, unless in place,
    the baked action is named. *)
Lemma bake_constraint_to_action_run base_action bake_type in_place
    b calls ret b' calls' :
  bake_constraint base_action bake_type in_place (b, calls)
    = Some (ret, (b', calls')) →
  ∃ b_active first last baked b_out,
    match base_action with
    | None => b_active = b ∧ first = 1 ∧ last = 250
    | Some base =>
        ∃ act, bl_actions b !! base = Some act ∧
               set_active_action (Some base) b = Some b_active ∧
               active_action_of b_active = Some (Some base) ∧
               first = py_int (action_frame_range act).1 ∧
               last = py_int (action_frame_range act).2 + 1
    end ∧
    let args :=
      mkBakeArgs
        (if legacy_interface then None
         else Some (ob_name (bl_object b_active)))
        first last 1 false (if in_place then base_action else None)
        (String.eqb bake_type "POSE") (negb (String.eqb bake_type "POSE"))
        true in
    let b_back :=
      if legacy_interface
      then set_active_object (bl_active_object b_active) b_out
      else b_out in
    bake_action args
      (if legacy_interface
       then set_active_object (Some (ob_name (bl_object b_active))) b_active
       else b_active)
      = Some (baked, b_out) ∧
    calls' = calls ++ [mkBakeCall args (active_action_of b_active)] ∧
    if in_place then ret = base_action ∧ b' = b_back
    else ret = Some baked ∧
         ∃ name, baked_name base_action b_back = Some name ∧
                 set_action_name baked name b_back = Some b'.
Proof.
  unfold bake_constraint_to_action. intros Hrun.
  bind_step Hrun as [b_active [first last]] Hprep.
  bind_step Hrun as [baked [b_back calls1]] Hcall.
  assert (match base_action with
          | None => b_active = b ∧ first = 1 ∧ last = 250
          | Some base =>
              ∃ act, bl_actions b !! base = Some act ∧
                     set_active_action (Some base) b = Some b_active ∧
                     active_action_of b_active = Some (Some base) ∧
                     first = py_int (action_frame_range act).1 ∧
                     last = py_int (action_frame_range act).2 + 1
          end) as Hbase.
  { destruct base_action as [base|]; [|by injection Hprep as <- <- <-].
    bind_step Hprep as b0 Hset. bind_step Hprep as act Hact.
    injection Hprep as <- <- <-.
    destruct (set_active_action_actions _ _ _ Hset) as (Hacts & Hactive & _).
    exists act. rewrite <- Hacts. by repeat split. }
  unfold call_bake_action in Hcall. cbn [fst snd] in Hcall.
  assert (∃ b_out,
    bake_action
      (mkBakeArgs
         (if legacy_interface then None
          else Some (ob_name (bl_object b_active)))
         first last 1 false (if in_place then base_action else None)
         (String.eqb bake_type "POSE") (negb (String.eqb bake_type "POSE"))
         true)
      (if legacy_interface
       then set_active_object (Some (ob_name (bl_object b_active))) b_active
       else b_active)
      = Some (baked, b_out) ∧
    b_back = (if legacy_interface
              then set_active_object (bl_active_object b_active) b_out
              else b_out) ∧
    calls1 = calls ++
      [mkBakeCall
         (mkBakeArgs
            (if legacy_interface then None
             else Some (ob_name (bl_object b_active)))
            first last 1 false (if in_place then base_action else None)
            (String.eqb bake_type "POSE")
            (negb (String.eqb bake_type "POSE")) true)
         (active_action_of b_active)]) as (b_out & Hbake & -> & ->).
  { destruct legacy_interface.
    - bind_step Hcall as [baked0 b_out] Hbake.
      injection Hcall as <- <- <-. by exists b_out.
    - bind_step Hcall as [baked0 b_out] Hbake.
      injection Hcall as <- <- <-. by exists b_out. }
  exists b_active, first, last, baked, b_out.
  split; [exact Hbase|]. cbv zeta. split; [exact Hbake|].
  destruct in_place.
  - by injection Hrun as <- <- <-.
  - bind_step Hrun as name Hname. bind_step Hrun as b3 Hset.
    injection Hrun as <- <- <-. split; [done|]. split; [done|].
    by exists name.
Qed.

(** The same, with the object and the active object of the scene read
    in the state the call started from. *)
Lemma bake_constraint_to_action_steps base_action bake_type in_place
    b calls ret b' calls' :
  bake_constraint base_action bake_type in_place (b, calls)
    = Some (ret, (b', calls')) →
     ∃ b_active first last baked b_out,
       match base_action with
       | None => b_active = b ∧ first = 1 ∧ last = 250
       | Some base =>
           ∃ act, bl_actions b !! base = Some act ∧
                  set_active_action (Some base) b = Some b_active ∧
                  active_action_of b_active = Some (Some base) ∧
                  first = py_int (action_frame_range act).1 ∧
                  last = py_int (action_frame_range act).2 + 1
       end ∧
       let args :=
         mkBakeArgs
           (if legacy_interface then None
            else Some (ob_name (bl_object b)))
           first last 1 false (if in_place then base_action else None)
           (String.eqb bake_type "POSE")
           (negb (String.eqb bake_type "POSE")) true in
       let b_back :=
         if legacy_interface
         then set_active_object (bl_active_object b) b_out
         else b_out in
       bake_action args
         (if legacy_interface
          then set_active_object (Some (ob_name (bl_object b))) b_active
          else b_active)
         = Some (baked, b_out) ∧
       calls' = calls ++ [mkBakeCall args (active_action_of b_active)] ∧
       if in_place then ret = base_action ∧ b' = b_back
       else ret = Some baked ∧
            ∃ name, baked_name base_action b_back = Some name ∧
                    set_action_name baked name b_back = Some b'.
Proof.
  intros Hrun.
  apply bake_constraint_to_action_run in Hrun
    as (b_active & first & last & baked & b_out & Hbase & Hrest).
  assert (ob_name (bl_object b_active) = ob_name (bl_object b) ∧
          bl_active_object b_active = bl_active_object b) as [Hname Hobj].
  { destruct base_action as [base|]; [|by destruct Hbase as (-> & _)].
    destruct Hbase as (act & _ & Hset & _).
    by apply set_active_action_frame in Hset. }
  rewrite Hname, Hobj in Hrest.
  by exists b_active, first, last, baked, b_out.
Qed.

(** C8. A bake on no base action samples frames 1 to 250. A bake on a
    base action first makes that action the active one, then samples the
    declared frame range of the action as the half-open integer range
    from [int(first)] to [int(last) + 1]. In both cases [bake_action] is
    called once, with step 1, on the state in which the base action is
    active; the state that results is the one the bake left, with the
    baked action named unless the bake is in place. The call returns
    whenever the base action is ready and baking does not raise. *)
Theorem bake_frame_range (base_action : option ActionId)
    (bake_type : string) (in_place : bool) (b : Blender)
    (calls : list BakeCall) :
  (∀ ret b' calls',
     bake_constraint base_action bake_type in_place (b, calls)
       = Some (ret, (b', calls')) →
     ∃ b_active first last baked b_out,
       match base_action with
       | None => b_active = b ∧ first = 1 ∧ last = 250
       | Some base =>
           ∃ act, bl_actions b !! base = Some act ∧
                  set_active_action (Some base) b = Some b_active ∧
                  active_action_of b_active = Some (Some base) ∧
                  first = py_int (action_frame_range act).1 ∧
                  last = py_int (action_frame_range act).2 + 1
       end ∧
       let args :=
         mkBakeArgs
           (if legacy_interface then None
            else Some (ob_name (bl_object b)))
           first last 1 false (if in_place then base_action else None)
           (String.eqb bake_type "POSE")
           (negb (String.eqb bake_type "POSE")) true in
       let b_back :=
         if legacy_interface
         then set_active_object (bl_active_object b) b_out
         else b_out in
       bake_action args
         (if legacy_interface
          then set_active_object (Some (ob_name (bl_object b))) b_active
          else b_active)
         = Some (baked, b_out) ∧
       calls' = calls ++ [mkBakeCall args (active_action_of b_active)] ∧
       if in_place then ret = base_action ∧ b' = b_back
       else ret = Some baked ∧
            ∃ name, baked_name base_action b_back = Some name ∧
                    set_action_name baked name b_back = Some b') ∧
  (bake_succeeds bake_action → bake_ready base_action b →
   is_Some (bake_constraint base_action bake_type in_place (b, calls))).
Proof.
  split.
  - intros ret b' calls'. apply bake_constraint_to_action_steps.
  - intros Hext Hready.
    destruct (bake_constraint_to_action_total base_action bake_type in_place
                b calls Hext Hready) as (ret & b' & calls' & -> & _).
    by eexists.
Qed.

(** C5. With an object constraint and a pose constraint, [action_baker]
    bakes twice. First the object (do_object, not do_pose) with no target
    action, after the action to bake was made active: [bake_action]
    returns a new action, the intermediate, which is then named. Then the
    pose (do_pose, not do_object) with the intermediate as target, on the
    state the first bake and the naming left, after the intermediate was
    made active, and over the frame range of the intermediate. The state
    that results is the one the second bake left, and the intermediate is
    returned. [action_baker] returns whenever the action to bake is ready,
    the object has animation data and baking does not raise. *)
Theorem object_bake_then_pose_bake (action_to_bake : option ActionId)
    (b : Blender) (calls : list BakeCall) :
  (∀ ret b' calls',
     baker true true action_to_bake (b, calls) = Some (ret, (b', calls')) →
     let obj (x : Blender) :=
       if legacy_interface then None else Some (ob_name (bl_object x)) in
     let enter (x : Blender) :=
       if legacy_interface
       then set_active_object (Some (ob_name (bl_object x))) x else x in
     let leave (before x : Blender) :=
       if legacy_interface
       then set_active_object (bl_active_object before) x else x in
     ∃ b_active first last tmp b_out name b_named
       act_tmp b_active2 returned b_out2,
       match action_to_bake with
       | None => b_active = b ∧ first = 1 ∧ last = 250
       | Some base =>
           ∃ act, bl_actions b !! base = Some act ∧
                  set_active_action (Some base) b = Some b_active ∧
                  active_action_of b_active = Some (Some base) ∧
                  first = py_int (action_frame_range act).1 ∧
                  last = py_int (action_frame_range act).2 + 1
       end ∧
       let args1 :=
         mkBakeArgs (obj b_active) first last 1 false None
           false true true in
       let args2 :=
         mkBakeArgs (obj b_active2)
           (py_int (action_frame_range act_tmp).1)
           (py_int (action_frame_range act_tmp).2 + 1) 1 false (Some tmp)
           true false true in
       bake_action args1 (enter b_active) = Some (tmp, b_out) ∧
       baked_name action_to_bake (leave b_active b_out) = Some name ∧
       set_action_name tmp name (leave b_active b_out) = Some b_named ∧
       bl_actions b_named !! tmp = Some act_tmp ∧
       set_active_action (Some tmp) b_named = Some b_active2 ∧
       active_action_of b_active2 = Some (Some tmp) ∧
       bake_action args2 (enter b_active2) = Some (returned, b_out2) ∧
       b' = leave b_active2 b_out2 ∧
       ret = Some tmp ∧
       calls' = calls ++ [mkBakeCall args1 (active_action_of b_active);
                          mkBakeCall args2 (Some (Some tmp))]) ∧
  (bake_succeeds bake_action → bake_ready action_to_bake b →
   is_Some (ob_animation_data (bl_object b)) →
   is_Some (baker true true action_to_bake (b, calls))).
Proof.
  unfold action_baker. cbn [andb]. split.
  - intros ret b' calls' Hrun. cbv zeta.
    bind_step Hrun as [tmp0 [b1 calls1]] Hfirst.
    apply bake_constraint_to_action_run in Hfirst
      as (b_active & first & last & tmp & b_out & Hbase & Hbake1 & ->
          & -> & name & Hname & Hset).
    apply bake_constraint_to_action_run in Hrun
      as (b_active2 & first2 & last2 & returned & b_out2
          & (act_tmp & Hact & Hset2 & Hactive2 & -> & ->) & Hbake2 & ->
          & -> & ->).
    exists b_active, first, last, tmp, b_out, name, b1, act_tmp, b_active2,
      returned, b_out2.
    rewrite <- app_assoc, <- Hactive2. by repeat split.
  - intros Hext Hready Had.
    destruct (bake_constraint_to_action_total action_to_bake "OBJECT" false
                b calls Hext Hready)
      as (ret & b1 & calls1 & -> & Hret & Had1 & _).
    destruct (Hret eq_refl) as (tmp & -> & Htmp).
    cbn [mbind option_bind].
    destruct (bake_constraint_to_action_total (Some tmp) "POSE" true
                b1 calls1 Hext) as (ret & b2 & calls2 & -> & _).
    { split; [by apply Had1|done]. }
    by eexists.
Qed.
End BakeFacts.

Lemma sample_bake_succeeds : bake_succeeds sample_bake_action.
Proof.
  intros args b Htarget. unfold sample_bake_action.
  destruct (ba_action args) as [target|].
  - rewrite bool_decide_true by eauto.
    eexists target, _. split; [done|]. cbn.
    split; [by eauto|]. split; [by eauto|]. done.
  - eexists _, _. split; [done|]. cbn. split.
    { by rewrite lookup_insert_eq. }
    split; [by eauto|]. intros id Hid.
    destruct (decide (id = fresh (dom (bl_actions b)))) as [->|Hne].
    + by rewrite lookup_insert_eq.
    + by rewrite lookup_insert_ne.
Qed.

Lemma sample_blender_ready :
  bake_ready (Some 1%positive)
    (ss_blender (sample_session ["Track To"] (Some (mkAnimData None [])))).
Proof. split; by eexists. Qed.

Lemma bake_frame_range_witness :
  ∃ ret b' args active,
    bake_constraint_to_action sample_bake_action false (Some 1%positive)
        "POSE" false
        (ss_blender (sample_session ["Track To"] (Some (mkAnimData None []))),
         [])
      = Some (ret, (b', [mkBakeCall args active])) ∧
    ba_frame_start args = 1 ∧
    ba_frame_end args = 21 ∧
    active = Some (Some 1%positive).
Proof.
  destruct (bake_frame_range sample_bake_action false (Some 1%positive)
              "POSE" false
              (ss_blender
                 (sample_session ["Track To"] (Some (mkAnimData None []))))
              []) as [Hlog Htotal].
  destruct (Htotal sample_bake_succeeds sample_blender_ready)
    as [[ret [b' calls']] Hrun].
  destruct (Hlog _ _ _ Hrun)
    as (b_active & first & last & baked & b_out
        & (act & Hact & _ & Hactive & -> & ->) & _ & -> & _).
  eexists ret, b', _, _. split; [exact Hrun|].
  vm_compute in Hact. injection Hact as <-. by repeat split.
Defined.

Lemma object_bake_then_pose_bake_witness :
  ∃ tmp b' call1 call2,
    action_baker sample_bake_action false true true (Some 1%positive)
        (ss_blender (sample_session ["Track To"] (Some (mkAnimData None []))),
         [])
      = Some (Some tmp, (b', [call1; call2])) ∧
    ba_action (call_args call1) = None ∧
    ba_action (call_args call2) = Some tmp ∧
    ba_do_object (call_args call1) = true ∧
    ba_do_pose (call_args call2) = true ∧
    is_Some (bl_actions b' !! tmp).
Proof.
  destruct (object_bake_then_pose_bake sample_bake_action false
              (Some 1%positive)
              (ss_blender
                 (sample_session ["Track To"] (Some (mkAnimData None []))))
              []) as [Hlog Htotal].
  destruct (Htotal sample_bake_succeeds sample_blender_ready
              ltac:(by eexists)) as [[ret [b' calls']] Hrun].
  destruct (Hlog _ _ _ Hrun)
    as (b_active & first & last & tmp & b_out & name & b_named & act_tmp
        & b_active2 & returned & b_out2 & _ & _ & _ & _ & _ & _ & _ & _
        & _ & -> & ->).
  eexists tmp, b', _, _. split; [exact Hrun|].
  repeat split. vm_compute in Hrun. injection Hrun as <- <-. by eexists.
Defined.

(** ** The strips chosen for export *)

Lemma strips_to_export_elem (strips : list (option ActionId)) :
  ∀ (exported : gset ActionId) a,
    a ∈ strips_to_export exported strips ↔ Some a ∈ strips ∧ a ∉ exported.
Proof.
  induction strips as [|[a'|] rest IH]; intros exported a;
    cbn [strips_to_export].
  - split; [by intros ?%elem_of_nil|]. by intros [?%elem_of_nil _].
  - case_bool_decide as Hnew.
    + rewrite !elem_of_cons, IH, not_elem_of_union, elem_of_singleton.
      split.
      * intros [->|[Hin [_ Hnot]]]; auto.
      * intros [[[= ->]|Hin] Hnot]; [by left|].
        destruct (decide (a = a')) as [->|Hne]; [by left|]. by right.
    + rewrite elem_of_cons, IH. split.
      * intros [Hin Hnot]. auto.
      * intros [[[= ->]|Hin] Hnot]; [by destruct (Hnot Hnew)|]. by split.
  - rewrite elem_of_cons, IH. split.
    + intros [Hin Hnot]. auto.
    + intros [[?|?] ?]; [done|]. by split.
Qed.

Lemma strips_to_export_NoDup (strips : list (option ActionId)) :
  ∀ exported : gset ActionId, NoDup (strips_to_export exported strips).
Proof.
  induction strips as [|[a|] rest IH]; intros exported;
    cbn [strips_to_export]; [constructor| |done].
  case_bool_decide; [|done]. constructor; [|done].
  rewrite strips_to_export_elem, not_elem_of_union, elem_of_singleton.
  intros (_ & Hne & _). done.
Qed.

Lemma strips_to_export_app (l1 l2 : list (option ActionId)) :
  ∀ exported : gset ActionId,
    strips_to_export exported (l1 ++ l2) =
      strips_to_export exported l1 ++
      strips_to_export
        (list_to_set (strips_to_export exported l1) ∪ exported) l2.
Proof.
  induction l1 as [|[a|] rest IH]; intros exported;
    cbn [app strips_to_export].
  - cbn. f_equal. by rewrite (left_id_L ∅ (∪)).
  - case_bool_decide.
    + cbn [app]. f_equal. rewrite IH. f_equal. f_equal.
      rewrite list_to_set_cons.
      by rewrite (assoc_L (∪)), (comm_L (∪) (list_to_set _) {[a]}).
    + apply IH.
  - apply IH.
Qed.

(** The strip after [l1] that carries a new action [a] is the one place
    where [a] is chosen. *)
Lemma strips_to_export_first (l1 l2 : list (option ActionId)) a
    (exported : gset ActionId) :
  a ∉ exported → Some a ∉ l1 →
  ∃ rest,
    strips_to_export exported (l1 ++ Some a :: l2)
      = strips_to_export exported l1 ++ a :: rest ∧
    (a ∉ strips_to_export exported l1) ∧ a ∉ rest.
Proof.
  intros Hnew Hfirst. rewrite strips_to_export_app. cbn [strips_to_export].
  assert (a ∉ strips_to_export exported l1) as Hbefore.
  { rewrite strips_to_export_elem. tauto. }
  rewrite bool_decide_true.
  2:{ rewrite elem_of_union, elem_of_list_to_set. tauto. }
  eexists. split; [done|]. split; [done|].
  rewrite strips_to_export_elem, !not_elem_of_union, elem_of_singleton.
  intros (_ & Hne & _). done.
Qed.

(** ** The dispatcher *)

Section DispatchFacts.
Context {V : Type}.
Variable bake_action : BakeArgs → Blender → option (ActionId * Blender).
Variable actions_remove : ActionId → Blender → option Blender.
Variable legacy_interface : bool.

Local Abbreviation Session := (@Session V).
Local Abbreviation Exporter := (@Exporter V).
Local Abbreviation baker := (action_baker bake_action legacy_interface).
Local Abbreviation nla_action :=
  (export_nla_action bake_action actions_remove legacy_interface).
Local Abbreviation nla_actions :=
  (export_nla_actions bake_action actions_remove legacy_interface).
Local Abbreviation nla_strips :=
  (export_nla_strips bake_action actions_remove legacy_interface).
Local Abbreviation nla_tracks :=
  (export_nla_tracks bake_action actions_remove legacy_interface).
Local Abbreviation active_export :=
  (export_active_action bake_action actions_remove legacy_interface).

Lemma update_blender_inv f (s s' : Session) :
  update_blender f s = Some s' →
  ∃ b', f (ss_blender s) = Some b' ∧
        s' = mkSession b' (ss_calls s) (ss_doc s).
Proof.
  unfold update_blender. intros H. bind_step H as b' Hb.
  injection H as <-. eauto.
Qed.

Lemma on_blender_inv {A} f (s s' : Session) (x : A) :
  on_blender f s = Some (x, s') →
  ∃ b' calls', f (ss_blender s, ss_calls s) = Some (x, (b', calls')) ∧
               s' = mkSession b' calls' (ss_doc s).
Proof.
  unfold on_blender. intros H. bind_step H as [x0 [b' calls']] Hf.
  injection H as <- <-. eauto.
Qed.

Lemma create_animation_resource_inv player action (s s' : Session) r :
  create_animation_resource player action s = Some (r, s') →
  ss_blender s' = ss_blender s ∧ ss_calls s' = ss_calls s ∧
  r = length (doc_resources (ss_doc s)) ∧
  ∃ a name, action = Some a ∧
            get_action_name a (ss_blender s) = Some name ∧
            doc_resources (ss_doc s')
              = doc_resources (ss_doc s) ++ [AnimationResource_new name].
Proof.
  unfold create_animation_resource. intros H.
  destruct action as [a|]; [|done]. cbn [mbind option_bind] in H.
  bind_step H as name Hname. injection H as <- <-. cbn. eauto 10.
Qed.

Lemma run_exporter_inv (exporter_func : Exporter) godot_node player action
    resource (s s' : Session) :
  run_exporter exporter_func godot_node player action resource s = Some s' →
  ss_blender s' = ss_blender s ∧ ss_calls s' = ss_calls s ∧
  length (doc_resources (ss_doc s')) = length (doc_resources (ss_doc s)).
Proof.
  unfold run_exporter. intros H.
  destruct action as [a|]; [|done]. cbn [mbind option_bind] in H.
  bind_step H as r Hr. bind_step H as r' Hr'. injection H as <-. cbn.
  by rewrite length_insert.
Qed.

(** A returning [export_nla_action]: the action is recorded, one resource
    is added, and the authoring tool went through suffix, bake, removal
    of the baked action and suffix removal when baking is needed, and
    through nothing otherwise. *)
Lemma export_nla_action_inv need_bake has_obj_cst has_pose_cst
    (exporter_func : Exporter) godot_node player a exported
    (s : Session) exported' (s' : Session) :
  nla_action need_bake has_obj_cst has_pose_cst exporter_func godot_node
    player a (exported, s) = Some (exported', s') →
  exported' = {[a]} ∪ exported ∧
  length (doc_resources (ss_doc s'))
    = S (length (doc_resources (ss_doc s))) ∧
  if need_bake then
    ∃ b1 baked b2 calls2 b3,
      add_baking_suffix a (ss_blender s) = Some b1 ∧
      baker has_obj_cst has_pose_cst (Some a) (b1, ss_calls s)
        = Some (Some baked, (b2, calls2)) ∧
      actions_remove baked b2 = Some b3 ∧
      drop_baking_suffix a b3 = Some (ss_blender s')
  else ss_blender s' = ss_blender s ∧ ss_calls s' = ss_calls s.
Proof.
  unfold export_nla_action. intros H.
  destruct need_bake.
  - bind_step H as [to_export s2] Hbake.
    bind_step Hbake as s1 Hsuffix.
    apply update_blender_inv in Hsuffix as (b1 & Hsuffix & ->).
    apply on_blender_inv in Hbake as (b2 & calls2 & Hbake & ->).
    cbn [ss_blender ss_calls] in Hbake.
    bind_step H as [resource s3] Hcreate.
    apply create_animation_resource_inv in Hcreate
      as (Hb3 & Hc3 & _ & baked & name & -> & _ & Hres3).
    bind_step H as s4 Hexport.
    apply run_exporter_inv in Hexport as (Hb4 & Hc4 & Hlen4).
    bind_step H as s6 Hclean. cbn [mbind option_bind] in Hclean.
    bind_step Hclean as s5 Hremove.
    apply update_blender_inv in Hremove as (b3 & Hremove & ->).
    apply update_blender_inv in Hclean as (b4 & Hdrop & ->).
    injection H as <- <-. cbn. split; [done|]. split.
    { rewrite Hlen4, Hres3, length_app. cbn. lia. }
    exists b1, baked, b2, calls2, b3. rewrite Hb4, Hb3 in Hremove.
    by repeat split.
  - cbn [mbind option_bind] in H.
    bind_step H as [resource s3] Hcreate.
    apply create_animation_resource_inv in Hcreate
      as (Hb3 & Hc3 & _ & a' & name & _ & _ & Hres3).
    bind_step H as s4 Hexport.
    apply run_exporter_inv in Hexport as (Hb4 & Hc4 & Hlen4).
    cbn [mbind option_bind] in H. injection H as <- <-.
    split; [done|]. split.
    { rewrite Hlen4, Hres3, length_app. cbn. lia. }
    split; congruence.
Qed.

(** A returning [export_active_action]: with baking, the active action
    is recorded and renamed for the time of the bake; without, nothing is
    recorded and the authoring tool is left alone. *)
Lemma export_active_action_inv need_bake has_obj_cst has_pose_cst
    (exporter_func : Exporter) godot_node player active_action exported
    (s : Session) exported' (s' : Session) :
  active_export need_bake has_obj_cst has_pose_cst exporter_func godot_node
    player active_action (exported, s) = Some (exported', s') →
  if need_bake then
    exported' = match active_action with
                | Some a => {[a]} ∪ exported
                | None => exported
                end ∧
    ∃ b1 baked b2 calls2 b3,
      match active_action with
      | Some a => add_baking_suffix a (ss_blender s) = Some b1
      | None => b1 = ss_blender s
      end ∧
      baker has_obj_cst has_pose_cst active_action (b1, ss_calls s)
        = Some (Some baked, (b2, calls2)) ∧
      actions_remove baked b2 = Some b3 ∧
      match active_action with
      | Some a => drop_baking_suffix a b3 = Some (ss_blender s')
      | None => ss_blender s' = b3
      end
  else exported' = exported ∧
       ss_blender s' = ss_blender s ∧ ss_calls s' = ss_calls s.
Proof.
  unfold export_active_action. intros H.
  bind_step H as [[to_export exported1] s1] Hbake.
  bind_step H as player_node Hplayer.
  bind_step H as s2 Hdefault.
  assert (ss_blender s2 = ss_blender s1 ∧ ss_calls s2 = ss_calls s1)
    as [Hb2 Hc2].
  { destruct (node_default player_node); [by injection Hdefault as <-|].
    unfold add_default_animation_resource in Hdefault.
    bind_step Hdefault as [resource s3] Hcreate.
    apply create_animation_resource_inv in Hcreate as (Hb3 & Hc3 & _).
    injection Hdefault as <-. cbn. by split. }
  bind_step H as player_node2 Hplayer2.
  bind_step H as default_animation Hdefault2.
  bind_step H as s4 Hexport.
  apply run_exporter_inv in Hexport as (Hb4 & Hc4 & _).
  bind_step H as s6 Hclean. injection H as <- <-.
  destruct need_bake.
  - bind_step Hbake as [exported2 s3] Hsuffix.
    bind_step Hbake as [baked s5] Hbaker.
    injection Hbake as <- <- <-.
    apply on_blender_inv in Hbaker as (b2 & calls2 & Hbake & ->).
    destruct baked as [baked|]; [|done]. cbn [mbind option_bind] in Hclean.
    bind_step Hclean as s7 Hremove.
    apply update_blender_inv in Hremove as (b3 & Hremove & ->).
    rewrite Hb4, Hb2 in Hremove. cbn [ss_blender] in Hremove.
    destruct active_action as [a|].
    + bind_step Hsuffix as s8 Hsuffix'. injection Hsuffix as <- <-.
      apply update_blender_inv in Hsuffix' as (b1 & Hsuffix & ->).
      apply update_blender_inv in Hclean as (b4 & Hdrop & ->).
      split; [done|]. by exists b1, baked, b2, calls2, b3.
    + injection Hsuffix as <- <-. injection Hclean as <-.
      split; [done|]. by exists (ss_blender s), baked, b2, calls2, b3.
  - injection Hbake as <- <- <-. injection Hclean as <-.
    split; [done|]. split; congruence.
Qed.
(** The loop over strips is [export_nla_action] on the chosen actions. *)
Lemma export_nla_strips_chosen need_bake has_obj_cst has_pose_cst
    (exporter_func : Exporter) godot_node player strips :
  ∀ exported (s : Session),
    nla_strips need_bake has_obj_cst has_pose_cst exporter_func godot_node
      player strips (exported, s) =
    nla_actions need_bake has_obj_cst has_pose_cst exporter_func godot_node
      player (strips_to_export exported strips) (exported, s).
Proof.
  induction strips as [|[a|] rest IH]; intros exported s;
    cbn [export_nla_strips strips_to_export export_nla_actions fst];
    [done| |apply IH].
  case_bool_decide as Hnew.
  - cbn [export_nla_actions].
    destruct (nla_action _ _ _ _ _ _ a (exported, s))
      as [[exported1 s1]|] eqn:Hone; [|done].
    cbn [mbind option_bind].
    apply export_nla_action_inv in Hone as (-> & _). apply IH.
  - cbn [mbind option_bind]. apply IH.
Qed.

Lemma export_nla_strips_app need_bake has_obj_cst has_pose_cst
    (exporter_func : Exporter) godot_node player l1 l2 :
  ∀ st : gset ActionId * Session,
    nla_strips need_bake has_obj_cst has_pose_cst exporter_func godot_node
      player (l1 ++ l2) st =
    nla_strips need_bake has_obj_cst has_pose_cst exporter_func godot_node
      player l1 st
    ≫= nla_strips need_bake has_obj_cst has_pose_cst exporter_func
         godot_node player l2.
Proof.
  induction l1 as [|strip rest IH]; intros st; [done|].
  cbn [app export_nla_strips].
  destruct (match strip with
            | Some a => _
            | None => _
            end) as [st1|]; [|done].
  cbn [mbind option_bind]. apply IH.
Qed.

(** The loop over tracks is the loop over all their strips in order. *)
Lemma export_nla_tracks_concat need_bake has_obj_cst has_pose_cst
    (exporter_func : Exporter) godot_node player tracks :
  ∀ st : gset ActionId * Session,
    nla_tracks need_bake has_obj_cst has_pose_cst exporter_func godot_node
      player tracks st =
    nla_strips need_bake has_obj_cst has_pose_cst exporter_func godot_node
      player (concat tracks) st.
Proof.
  induction tracks as [|strips rest IH]; intros st; [done|].
  cbn [export_nla_tracks concat]. rewrite export_nla_strips_app.
  destruct (nla_strips _ _ _ _ _ _ strips st) as [st1|]; [|done].
  cbn [mbind option_bind]. apply IH.
Qed.

Lemma export_nla_actions_effect need_bake has_obj_cst has_pose_cst
    (exporter_func : Exporter) godot_node player actions :
  ∀ exported (s : Session) exported' (s' : Session),
    nla_actions need_bake has_obj_cst has_pose_cst exporter_func godot_node
      player actions (exported, s) = Some (exported', s') →
    exported' = list_to_set actions ∪ exported ∧
    length (doc_resources (ss_doc s'))
      = (length (doc_resources (ss_doc s)) + length actions)%nat.
Proof.
  induction actions as [|a rest IH]; intros exported s exported' s';
    cbn [export_nla_actions].
  - intros [= <- <-].
    split; [by rewrite list_to_set_nil, (left_id_L ∅ (∪))|]. cbn. lia.
  - intros H. bind_step H as [exported1 s1] Hone.
    apply export_nla_action_inv in Hone as (-> & Hlen & _).
    apply IH in H as [-> Hlen']. split.
    + rewrite list_to_set_cons.
      by rewrite (assoc_L (∪)), (comm_L (∪) (list_to_set _) {[a]}).
    + rewrite Hlen', Hlen. cbn. lia.
Qed.

(** C4 (as amended). The loop over the NLA strips calls
    [export_nla_action], and so creates a resource, exactly once for each
    action that some strip references and that is not recorded as
    exported when the loop starts: at the first strip that references it.
    Every other strip that references the action is skipped, as is every
    strip whose action was recorded before the loop. *)
Theorem nla_action_exported_once need_bake has_obj_cst has_pose_cst
    (exporter_func : Exporter) (godot_node player : NodeRef)
    (tracks : list (list (option ActionId)))
    (exported : gset ActionId) (s : Session)
    (exported' : gset ActionId) (s' : Session)
    (Hrun : nla_tracks need_bake has_obj_cst has_pose_cst exporter_func
              godot_node player tracks (exported, s)
            = Some (exported', s')) :
  let strips := concat tracks in
  let chosen := strips_to_export exported strips in
  nla_actions need_bake has_obj_cst has_pose_cst exporter_func godot_node
    player chosen (exported, s) = Some (exported', s') ∧
  NoDup chosen ∧
  (∀ a, a ∈ chosen ↔ Some a ∈ strips ∧ a ∉ exported) ∧
  (∀ l1 a l2, strips = l1 ++ Some a :: l2 → a ∉ exported → Some a ∉ l1 →
     ∃ rest, chosen = strips_to_export exported l1 ++ a :: rest ∧
             (a ∉ strips_to_export exported l1) ∧ a ∉ rest) ∧
  length (doc_resources (ss_doc s'))
    = (length (doc_resources (ss_doc s)) + length chosen)%nat ∧
  exported' = list_to_set chosen ∪ exported.
Proof.
  intros strips chosen.
  rewrite export_nla_tracks_concat, export_nla_strips_chosen in Hrun.
  fold strips in Hrun. fold chosen in Hrun.
  destruct (export_nla_actions_effect _ _ _ _ _ _ _ _ _ _ _ Hrun)
    as [Hexp Hlen].
  split; [done|]. split; [apply strips_to_export_NoDup|].
  split; [apply strips_to_export_elem|].
  split; [|done].
  intros l1 a l2 Hsplit Hnew Hfirst. subst chosen. rewrite Hsplit.
  by apply strips_to_export_first.
Qed.

(** *** Names of the stored actions *)

Lemma names_kept_actions b1 b1' b2 b2' :
  bl_actions b1 = bl_actions b1' → bl_actions b2 = bl_actions b2' →
  names_kept b1 b2 → names_kept b1' b2'.
Proof. unfold names_kept. intros <- <-. done. Qed.

(** A bake keeps the names of the stored actions; not in place, the
    action it returns was not stored before. *)
Lemma bake_constraint_names base_action bake_type in_place b calls
    ret b' calls' :
  bake_keeps_names bake_action → bake_creates_action bake_action →
  bake_constraint_to_action bake_action legacy_interface base_action
    bake_type in_place (b, calls) = Some (ret, (b', calls')) →
  names_kept b b' ∧
  if in_place then ret = base_action
  else ∃ baked, ret = Some baked ∧ bl_actions b !! baked = None.
Proof.
  intros Hkeep Hnew Hrun.
  apply bake_constraint_to_action_inv in Hrun
    as (args & b_in & baked & b_out & Hbake & _ & Hin & _ & _ & _
        & Htarget & _ & _ & -> & Hname).
  pose proof (Hkeep _ _ _ _ Hbake) as Hkept.
  destruct in_place.
  - split; [|done]. by eapply names_kept_actions.
  - destruct Hname as (name & b_named & _ & Hnamed & Hset).
    assert (bl_actions b !! baked = None) as Hfresh.
    { rewrite <- Hin. by eapply Hnew. }
    split; [|by exists baked].
    eapply set_action_name_fresh; [exact Hfresh| |exact Hset].
    by eapply names_kept_actions.
Qed.

Lemma action_baker_names has_obj_cst has_pose_cst action_to_bake b calls
    ret b' calls' :
  bake_keeps_names bake_action → bake_creates_action bake_action →
  baker has_obj_cst has_pose_cst action_to_bake (b, calls)
    = Some (ret, (b', calls')) →
  names_kept b b' ∧ ∃ baked, ret = Some baked ∧ bl_actions b !! baked = None.
Proof.
  intros Hkeep Hnew. unfold action_baker.
  destruct (has_obj_cst && has_pose_cst).
  - intros H. bind_step H as [tmp [b1 calls1]] Hfirst.
    apply bake_constraint_names in Hfirst
      as (Hkept1 & baked & -> & Hfresh); [|done..].
    apply bake_constraint_names in H as (Hkept2 & ->); [|done..].
    split; [by eapply names_kept_trans|]. by exists baked.
  - destruct has_pose_cst; [by apply bake_constraint_names|].
    destruct has_obj_cst; [by apply bake_constraint_names|done].
Qed.

Lemma remove_names b1 b2 b3 baked :
  remove_keeps_names actions_remove →
  names_kept b1 b2 → bl_actions b1 !! baked = None →
  actions_remove baked b2 = Some b3 → names_kept b1 b3.
Proof.
  intros Hremove Hkept Hfresh Hrun id act Hid.
  destruct (Hkept _ _ Hid) as (act2 & Hid2 & Hname2).
  destruct (Hremove _ _ _ Hrun id act2) as (act3 & Hid3 & Hname3);
    [congruence|done|].
  exists act3. split; [done|]. congruence.
Qed.

(** The suffix put on a name before a bake and taken off after it leaves
    the name as it was, when what happens in between keeps the names. *)
Lemma suffix_round_trip a b b1 b3 b4 :
  add_baking_suffix a b = Some b1 → names_kept b1 b3 →
  drop_baking_suffix a b3 = Some b4 → names_kept b b4.
Proof.
  unfold add_baking_suffix, drop_baking_suffix, get_action_name.
  intros Hadd Hkept Hdrop id act Hid.
  destruct (bl_actions b !! a) as [act_a|] eqn:Ha; [|done].
  cbn in Hadd.
  apply set_action_name_lookup in Hadd
    as ((act1 & Ha1 & Hname1) & _ & _ & Hother1).
  destruct (Hkept _ _ Ha1) as (act3 & Ha3 & Hname3).
  rewrite Ha3 in Hdrop. cbn in Hdrop.
  apply set_action_name_lookup in Hdrop
    as ((act4 & Ha4 & Hname4) & _ & _ & Hother4).
  destruct (decide (id = a)) as [->|Hne].
  - exists act4. split; [done|].
    rewrite Hname4, Hname3, Hname1.
    assert (act = act_a) as -> by congruence.
    exact (drop_last_suffix _ BAKING_SUFFIX).
  - rewrite Hother4 by done. apply Hkept. by rewrite Hother1.
Qed.

Section NamesKept.
Hypothesis bake_keeps : bake_keeps_names bake_action.
Hypothesis bake_creates : bake_creates_action bake_action.
Hypothesis remove_keeps : remove_keeps_names actions_remove.

Lemma export_nla_action_names need_bake has_obj_cst has_pose_cst
    (exporter_func : Exporter) godot_node player a exported
    (s : Session) exported' (s' : Session) :
  nla_action need_bake has_obj_cst has_pose_cst exporter_func godot_node
    player a (exported, s) = Some (exported', s') →
  names_kept (ss_blender s) (ss_blender s').
Proof.
  intros Hrun. apply export_nla_action_inv in Hrun as (_ & _ & Hrun).
  destruct need_bake.
  - destruct Hrun as (b1 & baked & b2 & calls2 & b3 & Hadd & Hbake
                      & Hremove & Hdrop).
    apply action_baker_names in Hbake
      as (Hkept & baked' & [= <-] & Hfresh); [|done..].
    eapply suffix_round_trip; [exact Hadd| |exact Hdrop].
    by eapply remove_names.
  - destruct Hrun as [-> _]. apply names_kept_refl.
Qed.

Lemma export_active_action_names need_bake has_obj_cst has_pose_cst
    (exporter_func : Exporter) godot_node player active_action exported
    (s : Session) exported' (s' : Session) :
  active_export need_bake has_obj_cst has_pose_cst exporter_func godot_node
    player active_action (exported, s) = Some (exported', s') →
  names_kept (ss_blender s) (ss_blender s').
Proof.
  intros Hrun. apply export_active_action_inv in Hrun.
  destruct need_bake.
  - destruct Hrun as (_ & b1 & baked & b2 & calls2 & b3 & Hadd & Hbake
                      & Hremove & Hdrop).
    apply action_baker_names in Hbake
      as (Hkept & baked' & [= <-] & Hfresh); [|done..].
    pose proof (remove_names _ _ _ _ remove_keeps Hkept Hfresh Hremove)
      as Hkept3.
    destruct active_action as [a|].
    + by eapply suffix_round_trip.
    + by subst.
  - destruct Hrun as (_ & -> & _). apply names_kept_refl.
Qed.

Lemma export_nla_strips_names need_bake has_obj_cst has_pose_cst
    (exporter_func : Exporter) godot_node player strips :
  ∀ exported (s : Session) exported' (s' : Session),
    nla_strips need_bake has_obj_cst has_pose_cst exporter_func godot_node
      player strips (exported, s) = Some (exported', s') →
    names_kept (ss_blender s) (ss_blender s').
Proof.
  induction strips as [|strip rest IH]; intros exported s exported' s';
    cbn [export_nla_strips].
  - intros [= <- <-]. apply names_kept_refl.
  - intros H. bind_step H as [exported1 s1] Hone.
    eapply names_kept_trans; [|by eapply IH].
    destruct strip as [a|]; [|injection Hone as <- <-; apply names_kept_refl].
    cbn [fst] in Hone. case_bool_decide.
    + by eapply export_nla_action_names.
    + injection Hone as <- <-. apply names_kept_refl.
Qed.

Lemma export_nla_tracks_names need_bake has_obj_cst has_pose_cst
    (exporter_func : Exporter) godot_node player tracks exported
    (s : Session) exported' (s' : Session) :
  nla_tracks need_bake has_obj_cst has_pose_cst exporter_func godot_node
    player tracks (exported, s) = Some (exported', s') →
  names_kept (ss_blender s) (ss_blender s').
Proof.
  rewrite export_nla_tracks_concat. apply export_nla_strips_names.
Qed.
End NamesKept.

(** *** The active action across the bakes *)

Lemma active_action_of_object b b' :
  bl_object b' = bl_object b → active_action_of b' = active_action_of b.
Proof. unfold active_action_of. by intros ->. Qed.

Lemma current_action_of b action :
  active_action_of b = Some action → current_action b = action.
Proof.
  unfold active_action_of, current_action.
  destruct (ob_animation_data (bl_object b)); [|done]. by intros [= <-].
Qed.

Lemma drop_baking_suffix_active a b b' :
  drop_baking_suffix a b = Some b' →
  active_action_of b' = active_action_of b.
Proof.
  unfold drop_baking_suffix. intros H. bind_step H as name Hname.
  apply set_action_name_lookup in H as (_ & _ & Hobj & _).
  by apply active_action_of_object.
Qed.

Section ActiveAction.
Hypothesis bake_active : bake_makes_active bake_action.
Hypothesis remove_unlink : remove_unlinks actions_remove.

(** After a bake the action returned is the active action. *)
Lemma bake_constraint_active base_action bake_type in_place b calls
    ret b' calls' :
  bake_constraint_to_action bake_action legacy_interface base_action
    bake_type in_place (b, calls) = Some (ret, (b', calls')) →
  (in_place = true → is_Some base_action) →
  ∃ x, ret = Some x ∧ active_action_of b' = Some (Some x).
Proof.
  intros Hrun Hplace.
  apply bake_constraint_to_action_run in Hrun
    as (b_active & first & last & baked & b_out & _ & Hbake & _ & Hret).
  apply bake_active in Hbake as [Hactive Htarget].
  cbn [ba_action] in Htarget.
  assert (active_action_of
            (if legacy_interface
             then set_active_object (bl_active_object b_active) b_out
             else b_out) = Some (Some baked)) as Hback.
  { by destruct legacy_interface. }
  destruct in_place.
  - destruct Hret as [-> ->]. destruct (Hplace eq_refl) as [base ->].
    exists base. split; [done|]. by rewrite (Htarget base eq_refl) in Hback.
  - destruct Hret as (-> & name & _ & Hset). exists baked. split; [done|].
    apply set_action_name_lookup in Hset as (_ & _ & Hobj & _).
    by rewrite (active_action_of_object _ _ Hobj).
Qed.

Lemma action_baker_active has_obj_cst has_pose_cst action_to_bake b calls
    ret b' calls' :
  baker has_obj_cst has_pose_cst action_to_bake (b, calls)
    = Some (ret, (b', calls')) →
  ∃ x, ret = Some x ∧ active_action_of b' = Some (Some x).
Proof.
  unfold action_baker. destruct (has_obj_cst && has_pose_cst).
  - intros H. bind_step H as [tmp [b1 calls1]] Hfirst.
    apply bake_constraint_active in Hfirst as (x & -> & _); [|done].
    apply bake_constraint_active in H; [done|]. by eexists.
  - destruct has_pose_cst;
      [intros H; by apply bake_constraint_active in H|].
    destruct has_obj_cst;
      [intros H; by apply bake_constraint_active in H|done].
Qed.

(** With baking, an exported action leaves the object without active
    action: the baked action was the active one when it was removed. *)
Lemma export_nla_action_active has_obj_cst has_pose_cst
    (exporter_func : Exporter) godot_node player a exported
    (s : Session) exported' (s' : Session) :
  nla_action true has_obj_cst has_pose_cst exporter_func godot_node
    player a (exported, s) = Some (exported', s') →
  active_action_of (ss_blender s') = Some None.
Proof.
  intros Hrun. apply export_nla_action_inv in Hrun
    as (_ & _ & b1 & baked & b2 & calls2 & b3 & _ & Hbake & Hremove & Hdrop).
  apply action_baker_active in Hbake as (x & [= <-] & Hactive).
  rewrite (drop_baking_suffix_active _ _ _ Hdrop).
  by eapply remove_unlink.
Qed.

Lemma export_active_action_active has_obj_cst has_pose_cst
    (exporter_func : Exporter) godot_node player active_action exported
    (s : Session) exported' (s' : Session) :
  active_export true has_obj_cst has_pose_cst exporter_func godot_node
    player active_action (exported, s) = Some (exported', s') →
  active_action_of (ss_blender s') = Some None.
Proof.
  intros Hrun. apply export_active_action_inv in Hrun
    as (_ & b1 & baked & b2 & calls2 & b3 & _ & Hbake & Hremove & Hdrop).
  apply action_baker_active in Hbake as (x & [= <-] & Hactive).
  pose proof (remove_unlink _ _ _ Hremove Hactive) as Hnone.
  destruct active_action as [a|]; [|by rewrite Hdrop].
  by rewrite (drop_baking_suffix_active _ _ _ Hdrop).
Qed.

(** The loop over the strips leaves the active action as it was, or
    leaves none. *)
Lemma export_nla_strips_active need_bake has_obj_cst has_pose_cst
    (exporter_func : Exporter) godot_node player strips :
  ∀ exported (s : Session) exported' (s' : Session),
    nla_strips need_bake has_obj_cst has_pose_cst exporter_func godot_node
      player strips (exported, s) = Some (exported', s') →
    active_action_of (ss_blender s') = active_action_of (ss_blender s) ∨
    active_action_of (ss_blender s') = Some None.
Proof.
  induction strips as [|strip rest IH]; intros exported s exported' s';
    cbn [export_nla_strips].
  - intros [= <- <-]. by left.
  - intros H. bind_step H as [exported1 s1] Hone.
    assert (active_action_of (ss_blender s1) = active_action_of (ss_blender s)
            ∨ active_action_of (ss_blender s1) = Some None) as Hfirst.
    { destruct strip as [a|]; [|injection Hone as <- <-; by left].
      cbn [fst] in Hone. case_bool_decide.
      - destruct need_bake.
        + right. by eapply export_nla_action_active.
        + left. apply export_nla_action_inv in Hone as (_ & _ & -> & _).
          done.
      - injection Hone as <- <-. by left. }
    destruct (IH _ _ _ _ H) as [Hrest|Hrest]; [|by right].
    rewrite Hrest. exact Hfirst.
Qed.
End ActiveAction.

Section ExportAnimationData.
Variable export_transform_action_ : Exporter.
Variable export_shapekey_action : Exporter.
Variable export_light_action : Exporter.
Variable export_camera_action : Exporter.

Local Abbreviation export_data :=
  (export_animation_data bake_action actions_remove legacy_interface
     export_transform_action_ export_shapekey_action export_light_action
     export_camera_action).

(** C2. After a call of [export_animation_data] that returns:
    - when the object had an active action before the call, that action
      is its active action again, whatever baking and removal do in the
      authoring tool;
    - the value of [blender_object.animation_data.action] is what it was
      before the call, also when it was [None] and baking made other
      actions active in between, given that [bake_action] leaves the
      action it baked into as the active one and that removing the active
      action leaves the object without one;
    - every action stored before the call is stored under the name it
      had, so no name keeps the baking suffix, given that baking and
      removal rename no stored action and that baking without a target
      creates its action. *)
Theorem active_action_restored (export_settings : ExportSettings)
    (godot_node : NodeRef) (action_type : string) (s s' : Session)
    (Hrun : export_data export_settings godot_node action_type s = Some s') :
  (∀ a, active_action_of (ss_blender s) = Some (Some a) →
        active_action_of (ss_blender s') = Some (Some a)) ∧
  (bake_makes_active bake_action → remove_unlinks actions_remove →
   current_action (ss_blender s') = current_action (ss_blender s)) ∧
  (bake_keeps_names bake_action → bake_creates_action bake_action →
   remove_keeps_names actions_remove →
   names_kept (ss_blender s) (ss_blender s')).
Proof.
  unfold export_animation_data in Hrun.
  destruct (negb (use_export_animation export_settings));
    [injection Hrun as <-;
     split; [done|split; [done|intros; apply names_kept_refl]]|].
  destruct (_ && negb _) eqn:Hearly in Hrun;
    [injection Hrun as <-;
     split; [done|split; [done|intros; apply names_kept_refl]]|].
  bind_step Hrun as [animation_player d] Hplayer.
  bind_step Hrun as exporter_func Hexporter.
  bind_step Hrun as [exported1 s1] Hactive.
  bind_step Hrun as animation_data Hdata.
  bind_step Hrun as [exported2 s2] Hnla.
  split; [|split].
  - intros a Ha. unfold active_action_of in Ha.
    destruct (ob_animation_data (bl_object (ss_blender s))) as [ad|];
      [|done].
    injection Ha as Ha. rewrite Ha in Hrun.
    apply update_blender_inv in Hrun as (b' & Hset & ->).
    by apply set_active_action_actions in Hset as (_ & Hactive' & _).
  - intros Hbake Hunlink.
    rewrite export_nla_tracks_concat in Hnla.
    apply (export_nla_strips_active Hbake Hunlink) in Hnla.
    unfold current_action at 2.
    destruct (ob_animation_data (bl_object (ss_blender s)))
      as [[[a|] tracks]|] eqn:Had; cbn [ad_action] in Hrun, Hactive |- *.
    + apply update_blender_inv in Hrun as (b' & Hset & ->).
      apply set_active_action_actions in Hset as (_ & Hactive' & _).
      by apply current_action_of.
    + injection Hrun as <-. cbn [andb orb] in Hactive.
      rewrite bool_decide_false in Hactive by (by intros []).
      injection Hactive as <- <-. cbn [ss_blender] in Hnla.
      apply current_action_of.
      destruct Hnla as [->| ->]; [|done].
      unfold active_action_of. by rewrite Had.
    + injection Hrun as <-. cbn [andb] in Hearly.
      apply negb_false_iff in Hearly. rewrite Hearly in Hactive.
      rewrite orb_true_r in Hactive.
      apply (export_active_action_active Hbake Hunlink) in Hactive.
      apply current_action_of.
      destruct Hnla as [->| ->]; done.
  - intros Hkeep Hnew Hremove.
    assert (names_kept (ss_blender s) (ss_blender s1)) as Hkept1.
    { destruct (_ || _) in Hactive.
      - by apply export_active_action_names in Hactive.
      - injection Hactive as <- <-. apply names_kept_refl. }
    assert (names_kept (ss_blender s1) (ss_blender s2)) as Hkept2
      by (by eapply export_nla_tracks_names).
    eapply names_kept_trans; [exact Hkept1|].
    eapply names_kept_trans; [exact Hkept2|].
    destruct (match ob_animation_data (bl_object (ss_blender s)) with
              | Some ad => ad_action ad
              | None => None
              end) as [a|].
    + apply update_blender_inv in Hrun as (b' & Hset & ->).
      apply set_active_action_actions in Hset as (Hactions & _).
      eapply names_kept_actions; [done| |apply names_kept_refl]. done.
    + injection Hrun as <-. apply names_kept_refl.
Qed.
End ExportAnimationData.
End DispatchFacts.

(** ** The sample authoring tool meets the conditions *)

Lemma sample_bake_keeps_names : bake_keeps_names sample_bake_action.
Proof.
  intros args b baked b'. unfold sample_bake_action.
  destruct (ba_action args) as [target|].
  - case_bool_decide; [|done]. intros [= <- <-] id act Hid. by exists act.
  - intros [= <- <-] id act Hid. exists act. split; [|done]. cbn.
    rewrite lookup_insert_ne; [done|]. intros <-.
    apply (is_fresh (dom (bl_actions b))), elem_of_dom. by eexists.
Qed.

Lemma sample_bake_creates_action : bake_creates_action sample_bake_action.
Proof.
  intros args b baked b'. unfold sample_bake_action.
  intros Hrun Htarget. rewrite Htarget in Hrun. injection Hrun as <- <-.
  apply not_elem_of_dom, is_fresh.
Qed.

Lemma sample_remove_keeps_names : remove_keeps_names sample_actions_remove.
Proof.
  intros a b b' [= <-] id act Hne Hid. exists act. split; [|done]. cbn.
  by rewrite lookup_delete_ne.
Qed.

Lemma sample_bake_makes_active : bake_makes_active sample_bake_action.
Proof.
  intros args b baked b'. unfold sample_bake_action.
  destruct (ba_action args) as [target|].
  - case_bool_decide; [|done]. intros [= <- <-]. split; [done|].
    by intros ? [= <-].
  - intros [= <- <-]. split; [done|]. done.
Qed.

Lemma sample_remove_unlinks : remove_unlinks sample_actions_remove.
Proof.
  intros a b b' [= <-]. unfold active_action_of. cbn.
  destruct (ob_animation_data (bl_object b)) as [ad|]; [|done].
  intros [= Ha]. by rewrite Ha, bool_decide_true.
Qed.

Lemma active_action_restored_witness :
  (∃ s',
     sample_export_animation_data sample_settings sample_cube "transform"
       (sample_session ["Track To"]
          (Some (mkAnimData (Some 1%positive)
                   [[Some 1%positive; Some 2%positive]])))
       = Some s' ∧
     active_action_of (ss_blender s') = Some (Some 1%positive) ∧
     names_kept
       (ss_blender
          (sample_session ["Track To"]
             (Some (mkAnimData (Some 1%positive)
                      [[Some 1%positive; Some 2%positive]]))))
       (ss_blender s')) ∧
  (∃ s',
     sample_export_animation_data sample_settings sample_cube "transform"
       (sample_session ["Track To"]
          (Some (mkAnimData None [[Some 2%positive]])))
       = Some s' ∧
     length (ss_calls s') = 1%nat ∧
     current_action (ss_blender s') = None).
Proof.
  split.
  - destruct (sample_export_animation_data sample_settings sample_cube
                "transform"
                (sample_session ["Track To"]
                   (Some (mkAnimData (Some 1%positive)
                            [[Some 1%positive; Some 2%positive]]))))
      as [s'|] eqn:Hrun; [|vm_compute in Hrun; discriminate].
    destruct (active_action_restored _ _ _ _ _ _ _ _ _ _ _ _ Hrun)
      as (Hactive & _ & Hnames).
    exists s'. split; [done|]. split.
    + by apply Hactive.
    + apply Hnames.
      * apply sample_bake_keeps_names.
      * apply sample_bake_creates_action.
      * apply sample_remove_keeps_names.
  - destruct (sample_export_animation_data sample_settings sample_cube
                "transform"
                (sample_session ["Track To"]
                   (Some (mkAnimData None [[Some 2%positive]]))))
      as [s'|] eqn:Hrun; [|vm_compute in Hrun; discriminate].
    destruct (active_action_restored _ _ _ _ _ _ _ _ _ _ _ _ Hrun)
      as (_ & Hcurrent & _).
    exists s'. split; [done|]. split.
    + vm_compute in Hrun. by injection Hrun as <-.
    + rewrite Hcurrent; [done| |].
      * apply sample_bake_makes_active.
      * apply sample_remove_unlinks.
Defined.

Lemma nla_action_exported_once_witness :
  ∃ exported' s',
    export_nla_tracks sample_bake_action sample_actions_remove false
      false false false sample_exporter sample_cube [1%nat; 0%nat]
      [[Some 1%positive; Some 1%positive]; [Some 2%positive; Some 1%positive]]
      (∅, sample_session [] (Some (mkAnimData None []))) = Some (exported', s') ∧
    strips_to_export ∅
      [Some 1%positive; Some 1%positive; Some 2%positive; Some 1%positive]
      = [1%positive; 2%positive] ∧
    length (doc_resources (ss_doc s')) = 2%nat.
Proof.
  destruct (export_nla_tracks sample_bake_action sample_actions_remove false
              false false false sample_exporter sample_cube [1%nat; 0%nat]
              [[Some 1%positive; Some 1%positive];
               [Some 2%positive; Some 1%positive]]
              (∅, sample_session [] (Some (mkAnimData None []))))
    as [[exported' s']|] eqn:Hrun; [|vm_compute in Hrun; discriminate].
  destruct (nla_action_exported_once _ _ _ _ _ _ _ _ _ _ _ _ _ _ Hrun)
    as (_ & _ & _ & _ & Hlen & _).
  exists exported', s'. split; [done|]. split; [done|]. exact Hlen.
Defined.

(** C4 as stated fails when the action of the strips is also the active
    action. Without baking, the active action is exported into the default
    resource without being recorded, the first of the two strips exports
    it again, and two resources are created for the one action Walk. With
    baking, the active action is recorded before the loop, so no strip
    exports it: the one resource comes from the export of the active
    action. *)
Lemma active_action_exported_twice :
  (∃ s',
     sample_export_animation_data sample_settings sample_cube "transform"
       (sample_session []
          (Some (mkAnimData (Some 1%positive)
                   [[Some 1%positive; Some 1%positive]])))
       = Some s' ∧
     map res_name (doc_resources (ss_doc s')) = ["Walk"; "Walk"] ∧
     length (doc_resources (ss_doc s')) ≠ 1%nat) ∧
  (∃ s',
     sample_export_animation_data sample_settings sample_cube "transform"
       (sample_session ["Track To"]
          (Some (mkAnimData (Some 1%positive)
                   [[Some 1%positive; Some 1%positive]])))
       = Some s' ∧
     map res_name (doc_resources (ss_doc s')) = ["Walk"] ∧
     strips_to_export {[1%positive]} [Some 1%positive; Some 1%positive]
       = []).
Proof.
  split.
  - eexists. split; [vm_compute; reflexivity|]. split; [done|]. discriminate.
  - eexists. split; [vm_compute; reflexivity|]. split; done.
Qed.

(** * Further properties *)

(** ** Curve paths *)

Lemma rsplit_once_spec (sep : Ascii.ascii) (s : string) :
  match rsplit_once sep s with
  | Some (before, after) =>
      s = before +:+ String sep after ∧ has_char sep after = false
  | None => has_char sep s = false
  end.
Proof.
  induction s as [|c rest IH]; cbn [rsplit_once has_char]; [done|].
  destruct (rsplit_once sep rest) as [[before after]|].
  - destruct IH as [-> Hafter]. done.
  - rewrite IH, orb_false_r.
    destruct (Ascii.eqb c sep) eqn:Hc; [|done].
    apply Ascii.eqb_eq in Hc as ->. done.
Qed.

(** X1. [split_fcurve_data_path] cuts at the last dot: the attribute has
    no dot; a path with a dot is the object path, a dot and the attribute;
    a path without a dot is the attribute of the empty object path. *)
Theorem split_fcurve_data_path_join (data_path : string) :
  let '(object_path, attribute) := split_fcurve_data_path data_path in
  has_char "." attribute = false ∧
  if has_char "." data_path
  then data_path = object_path +:+ "." +:+ attribute
  else object_path = "" ∧ attribute = data_path.
Proof.
  unfold split_fcurve_data_path.
  pose proof (rsplit_once_spec "." data_path) as Hspec.
  destruct (rsplit_once "." data_path) as [[before after]|].
  - destruct Hspec as [-> Hafter]. split; [done|].
    destruct (has_char _ (before +:+ _)) eqn:Hdot; [done|].
    exfalso. clear Hafter.
    induction before as [|c before IH]; cbn in Hdot; [done|].
    apply orb_false_iff in Hdot as [_ Hdot]. auto.
  - by rewrite Hspec.
Qed.

Lemma has_char_app (c : Ascii.ascii) (s t : string) :
  has_char c (s +:+ t) = has_char c s || has_char c t.
Proof.
  induction s as [|c' s IH]; simpl; [done|]. by rewrite IH, orb_assoc.
Qed.

Lemma rsplit_once_app (sep : Ascii.ascii) (before after : string) :
  has_char sep after = false →
  rsplit_once sep (before +:+ String sep after) = Some (before, after).
Proof.
  intros Hafter.
  assert (rsplit_once sep after = None) as Hnone.
  { pose proof (rsplit_once_spec sep after) as Hspec.
    destruct (rsplit_once sep after) as [[b a]|]; [|done].
    destruct Hspec as [-> _]. exfalso.
    rewrite has_char_app in Hafter. simpl in Hafter.
    by rewrite Ascii.eqb_refl, orb_true_r in Hafter. }
  induction before as [|c before IH]; simpl.
  - by rewrite Hnone, Ascii.eqb_refl.
  - by rewrite IH.
Qed.

Lemma strip_prefix_app (p s : string) : strip_prefix p (p +:+ s) = Some s.
Proof.
  induction p as [|c p IH]; simpl; [by destruct s|].
  by rewrite Ascii.eqb_refl.
Qed.

Lemma strip_prefix_Some (p s rest : string) :
  strip_prefix p s = Some rest → s = p +:+ rest.
Proof.
  revert s. induction p as [|c p IH]; intros s; simpl.
  - destruct s; intros [= <-]; done.
  - destruct s as [|c' s]; [done|].
    destruct (Ascii.eqb c c') eqn:Hc; [|done].
    apply Ascii.eqb_eq in Hc as ->. intros H. by rewrite (IH _ H).
Qed.

Lemma span_unquoted_app (name rest : string) :
  has_char (Ascii.ascii_of_nat 34) name = false →
  span_unquoted (name +:+ String (Ascii.ascii_of_nat 34) rest)
    = (name, String (Ascii.ascii_of_nat 34) rest).
Proof.
  induction name as [|c name IH]; intros Hname.
  - done.
  - change (has_char (Ascii.ascii_of_nat 34) (String c name))
      with (Ascii.eqb c (Ascii.ascii_of_nat 34)
            || has_char (Ascii.ascii_of_nat 34) name) in Hname.
    apply orb_false_iff in Hname as [Hc Hname].
    change (span_unquoted (String c name +:+ String (Ascii.ascii_of_nat 34) rest))
      with (if Ascii.eqb c (Ascii.ascii_of_nat 34)
            then (EmptyString,
                  String c (name +:+ String (Ascii.ascii_of_nat 34) rest))
            else let '(n, tail) :=
                   span_unquoted
                     (name +:+ String (Ascii.ascii_of_nat 34) rest) in
                 (String c n, tail)).
    by rewrite Hc, (IH Hname).
Qed.

(** A string without a double quote has no bone name. *)
Lemma search_bone_pattern_unquoted (s : string) :
  has_char (Ascii.ascii_of_nat 34) s = false → search_bone_pattern s = None.
Proof.
  assert (∀ t, has_char (Ascii.ascii_of_nat 34) t = false →
               match_bone_pattern t = None) as Hmatch.
  { intros t Ht. unfold match_bone_pattern.
    destruct (strip_prefix "pose" t) as [s1|] eqn:H1; [|done].
    apply strip_prefix_Some in H1 as ->. cbn [mbind option_bind].
    destruct s1 as [|c s2]; [done|].
    destruct (Ascii.eqb c _); [done|].
    destruct (strip_prefix _ s2) as [s3|] eqn:H3; [|done].
    apply strip_prefix_Some in H3 as ->. exfalso.
    rewrite has_char_app in Ht. cbn in Ht.
    by rewrite !orb_true_r in Ht. }
  induction s as [|c s IH]; intros Hs; cbn [search_bone_pattern].
  - by rewrite Hmatch.
  - rewrite (Hmatch _ Hs). apply IH.
    cbn in Hs. by apply orb_false_iff in Hs as [_ Hs].
Qed.

(** The pattern at the start of a text: its dot stands for any character
    but a newline. *)
Lemma match_bone_pattern_here (c : Ascii.ascii) (bone tail : string) :
  Ascii.eqb c (Ascii.ascii_of_nat 10) = false →
  bone ≠ "" →
  has_char (Ascii.ascii_of_nat 34) bone = false →
  match_bone_pattern
    ("pose" +:+ String c (("bones[" +:+ dquote)
                          +:+ (bone +:+ String (Ascii.ascii_of_nat 34)
                                          ("]" +:+ tail))))
    = Some bone.
Proof.
  intros Hc Hbone Hquote. unfold match_bone_pattern.
  rewrite strip_prefix_app. cbn [mbind option_bind]. rewrite Hc.
  rewrite strip_prefix_app. cbn [mbind option_bind].
  rewrite span_unquoted_app by done.
  destruct bone as [|b bone]; [done|].
  change (String (Ascii.ascii_of_nat 34) ("]" +:+ tail))
    with ((dquote +:+ "]") +:+ tail).
  by rewrite strip_prefix_app.
Qed.

Lemma append_assoc (s t u : string) : (s +:+ t) +:+ u = s +:+ (t +:+ u).
Proof.
  induction s as [|c s IH]; [done|].
  change (String c ((s +:+ t) +:+ u) = String c (s +:+ (t +:+ u))).
  by rewrite IH.
Qed.

Lemma pose_bone_path_app (bone rest : string) :
  pose_bone_path bone +:+ rest
  = "pose" +:+ String "." (("bones[" +:+ dquote)
                           +:+ (bone +:+ String (Ascii.ascii_of_nat 34)
                                           ("]" +:+ rest))).
Proof.
  unfold pose_bone_path. by rewrite !append_assoc.
Qed.

(** X2. The bone name written into a pose path is read back: the path
    pose.bones["<bone>"], followed by anything, gives <bone>, for every
    bone name that is not empty and has no double quote, dots included; a
    curve path made of it, a dot and an attribute splits into that pose
    path and the attribute. A path without a double quote has no bone name:
    the call fails on the missing match. *)
Theorem bone_name_read_back (bone rest attribute : string)
    (Hnonempty : bone ≠ "")
    (Hquote : has_char (Ascii.ascii_of_nat 34) bone = false)
    (Hattr : has_char "." attribute = false) :
  blender_path_to_bone_name (pose_bone_path bone +:+ rest) = Some bone ∧
  split_fcurve_data_path (pose_bone_path bone +:+ "." +:+ attribute)
    = (pose_bone_path bone, attribute) ∧
  String.prefix "pose" (pose_bone_path bone) = true ∧
  ∀ path, has_char (Ascii.ascii_of_nat 34) path = false →
          blender_path_to_bone_name path = None.
Proof.
  split; [|split; [|split]].
  - unfold blender_path_to_bone_name. rewrite pose_bone_path_app.
    pose proof (match_bone_pattern_here "." bone rest eq_refl Hnonempty Hquote)
      as Hmatch.
    destruct ("pose" +:+ _) eqn:Hpath in Hmatch |- *;
      cbn [search_bone_pattern]; by rewrite Hmatch.
  - unfold split_fcurve_data_path.
    change ("." +:+ attribute) with (String "." attribute).
    by rewrite rsplit_once_app.
  - done.
  - intros path Hpath. by apply search_bone_pattern_unquoted.
Qed.

Lemma bone_name_read_back_witness :
  blender_path_to_bone_name (pose_bone_path "Hand.L") = Some "Hand.L" ∧
  split_fcurve_data_path (pose_bone_path "Hand.L" +:+ ".rotation_euler")
    = (pose_bone_path "Hand.L", "rotation_euler").
Proof.
  destruct (bone_name_read_back "Hand.L" "" "rotation_euler")
    as (Hname & Hsplit & _); [done..|].
  split; [exact Hname|exact Hsplit].
Defined.


(** ** Tracks with fewer values than frames *)

Section KeysErrors.
Context {V : Type}.
Variable veq : V → V → bool.
Variable fps : positive.
Variable transform_components : V → Vector * Quaternion * Vector.

Lemma same_as_previous_past_end value_list interp index :
  (length value_list ≤ index)%nat →
  same_as_previous veq value_list interp index = None ∨
  same_as_previous veq value_list interp index = Some false.
Proof.
  intros Hlen. unfold same_as_previous.
  destruct ((interp =? LINEAR_INTERPOLATION) && (0 <? index)%nat);
    [left|by right].
  by rewrite (lookup_ge_None_2 value_list index).
Qed.

Lemma value_keys_loop_short value_list interp frame_list :
  ∀ index tm tr vs,
    (index ≤ length value_list < index + length frame_list)%nat →
    value_keys_loop veq fps value_list interp index frame_list tm tr vs = None.
Proof.
  induction frame_list as [|frame rest IH]; intros index tm tr vs Hlen;
    [simpl in Hlen; lia|].
  cbn [value_keys_loop]. simpl in Hlen.
  destruct (decide (index = length value_list)) as [Hend|Hin].
  - destruct (same_as_previous_past_end value_list interp index) as [->| ->];
      [lia|done|].
    cbn [mbind option_bind].
    by rewrite (lookup_ge_None_2 value_list index) by lia.
  - assert (is_Some (value_list !! index)) as [cur Hcur].
    { apply lookup_lt_is_Some. lia. }
    rewrite (same_as_previous_prev_at _ _ _ _ _ Hcur), Hcur.
    cbn [mbind option_bind]. case_match; apply IH; lia.
Qed.

Lemma transform_keys_loop_short value_list interp frame_list :
  ∀ index array,
    (index ≤ length value_list < index + length frame_list)%nat →
    transform_keys_loop veq fps transform_components value_list interp
      index frame_list array = None.
Proof.
  induction frame_list as [|frame rest IH]; intros index array Hlen;
    [simpl in Hlen; lia|].
  cbn [transform_keys_loop]. simpl in Hlen.
  destruct (decide (index = length value_list)) as [Hend|Hin].
  - destruct (same_as_previous_past_end value_list interp index) as [->| ->];
      [lia|done|].
    cbn [mbind option_bind].
    by rewrite (lookup_ge_None_2 value_list index) by lia.
  - assert (is_Some (value_list !! index)) as [cur Hcur].
    { apply lookup_lt_is_Some. lia. }
    rewrite (same_as_previous_prev_at _ _ _ _ _ Hcur), Hcur.
    cbn [mbind option_bind]. case_match; apply IH; lia.
Qed.

(** X3. Both serialisers index the value list by the position in the
    frame list, whatever the interpolation: they return keys when there is
    a value for every frame, and raise (IndexError) when the value list is
    shorter than the frame list. Values past the last frame are ignored:
    cutting the value list to the number of frames gives the same keys. *)
Theorem keys_need_a_value_per_frame (frame_list : list Z)
    (value_list : list V) (interp : Z) :
  (is_Some (value_frames_to_keys veq fps frame_list value_list interp)
   ↔ (length frame_list ≤ length value_list)%nat) ∧
  (is_Some (transform_frames_to_keys veq fps transform_components
              frame_list value_list interp)
   ↔ (length frame_list ≤ length value_list)%nat) ∧
  value_frames_to_keys veq fps frame_list
      (take (length frame_list) value_list) interp
    = value_frames_to_keys veq fps frame_list value_list interp ∧
  transform_frames_to_keys veq fps transform_components frame_list
      (take (length frame_list) value_list) interp
    = transform_frames_to_keys veq fps transform_components frame_list
        value_list interp.
Proof.
  unfold value_frames_to_keys, transform_frames_to_keys.
  destruct (decide (length frame_list ≤ length value_list)%nat) as [Hle|Hgt].
  - rewrite !value_keys_loop_retained, !transform_keys_loop_retained
      by (rewrite ?length_take; simpl; lia).
    rewrite !drop_0. cbn [prev_at].
    assert (zip frame_list (take (length frame_list) value_list)
            = zip frame_list value_list) as ->.
    { by rewrite zip_with_take_r. }
    repeat split; eauto.
  - rewrite take_ge by lia.
    rewrite value_keys_loop_short, transform_keys_loop_short
      by (simpl; lia).
    repeat split; try done; intros H; try lia; by destruct H.
Qed.
End KeysErrors.


(** ** The entries of the tracks of a resource *)

Lemma append_inj_l (s x y : string) : s +:+ x = s +:+ y → x = y.
Proof.
  induction s as [|c s IH]; [done|].
  change (String c (s +:+ x) = String c (s +:+ y) → x = y).
  intros [= H]. by apply IH.
Qed.

Lemma pretty_N_go_slash (x : N) :
  ∀ s, has_char "/" (pretty_N_go x s) = has_char "/" s.
Proof.
  induction (N.lt_wf_0 x) as [x _ IH]; intros s.
  destruct (decide (x = 0)%N) as [->|Hx]; [done|].
  rewrite pretty_N_go_step by lia. rewrite IH by (apply N.div_lt; lia).
  change (has_char "/" (String ?c s))
    with (Ascii.eqb c "/" || has_char "/" s).
  assert (Ascii.eqb (pretty_N_char (x `mod` 10)) "/" = false) as ->; [|done].
  unfold pretty_N_char. by repeat case_match.
Qed.

Lemma pretty_nat_slash (n : nat) : has_char "/" (pretty n) = false.
Proof.
  unfold pretty, pretty_nat, pretty, pretty_N.
  case_decide; [done|]. by rewrite pretty_N_go_slash.
Qed.

(** Two texts that agree up to their first slash. *)
Lemma first_slash_unique (s1 s2 t1 t2 : string) :
  has_char "/" s1 = false → has_char "/" s2 = false →
  s1 +:+ String "/" t1 = s2 +:+ String "/" t2 → s1 = s2 ∧ t1 = t2.
Proof.
  revert s2. induction s1 as [|c1 s1 IH]; intros [|c2 s2] H1 H2.
  - by intros [= ->].
  - change (String "/" t1 = String c2 (s2 +:+ String "/" t2) → "" = String c2 s2 ∧ t1 = t2).
    intros [= <- _].
    change (has_char "/" (String "/" s2)) with (true || has_char "/" s2) in H2.
    done.
  - change (String c1 (s1 +:+ String "/" t1) = String "/" t2 → String c1 s1 = "" ∧ t1 = t2).
    intros [= -> _].
    change (has_char "/" (String "/" s1)) with (true || has_char "/" s1) in H1.
    done.
  - change (String c1 (s1 +:+ String "/" t1) = String c2 (s2 +:+ String "/" t2)
            → String c1 s1 = String c2 s2 ∧ t1 = t2).
    intros [= -> H].
    change (has_char "/" (String c2 ?s))
      with (Ascii.eqb c2 "/" || has_char "/" s) in H1, H2.
    apply orb_false_iff in H1 as [_ H1]. apply orb_false_iff in H2 as [_ H2].
    destruct (IH s2 H1 H2 H) as [-> ->]. done.
Qed.

(** The key of an entry of track number [n]. *)
Lemma track_key_inj (n m : nat) (sfx sfx' : string) :
  "tracks/" +:+ pretty n +:+ String "/" sfx
  = "tracks/" +:+ pretty m +:+ String "/" sfx' →
  n = m ∧ sfx = sfx'.
Proof.
  intros H. apply append_inj_l in H.
  apply first_slash_unique in H as [H ->]; [|apply pretty_nat_slash..].
  split; [|done]. by apply (inj pretty).
Qed.

Section ResourceEntries.
Context {V NodePath : Type}.
Variable veq : V → V → bool.
Variable fps : positive.
Variable transform_components : V → Vector * Quaternion * Vector.

Local Abbreviation Track := (@Track V NodePath).
Local Abbreviation AnimationResource := (@AnimationResource V NodePath).
Local Abbreviation add_track := (add_track veq fps transform_components).
Local Abbreviation add_tracks := (add_tracks veq fps transform_components).

(** What one call writes, and what it leaves alone. *)
Lemma add_track_entries (t : Track) (r r' : AnimationResource) :
  add_track t r = Some r' →
  let id := "tracks/" +:+ pretty (track_count r) in
  track_count r' = S (track_count r) ∧
  res_name r' = res_name r ∧
  res_contents r' !! (id +:+ "/type")
    = Some (PStr (dquote +:+ track_type t +:+ dquote)) ∧
  res_contents r' !! (id +:+ "/path") = Some (PPath (track_path t)) ∧
  res_contents r' !! (id +:+ "/interp") = Some (PInt (track_interp t)) ∧
  (∀ k, track_keys veq fps transform_components t = Some (Some k) →
        res_contents r' !! (id +:+ "/keys") = Some k) ∧
  ∀ key, key ≠ "length" →
         (∀ sfx, key ≠ id +:+ String "/" sfx) →
         res_contents r' !! key = res_contents r !! key.
Proof.
  intros Hadd id. unfold add_track in Hadd.
  destruct (res_length r) as [l|]; [|done]. cbn [mbind option_bind] in Hadd.
  destruct (track_keys veq fps transform_components t) as [keys|]; [|done].
  cbn [mbind option_bind] in Hadd.
  assert (track_count (if Qgt_bool (frame_time fps (frame_end t)) l
                       then res_set "length"
                              (PReal (frame_time fps (frame_end t))) r
                       else r) = track_count r) as Hcount.
  { by destruct (Qgt_bool _ l). }
  rewrite Hcount in Hadd. fold id in Hadd.
  assert (∀ sfx sfx', sfx ≠ sfx' →
            id +:+ String "/" sfx ≠ id +:+ String "/" sfx') as Hsfx.
  { intros sfx sfx' Hne H. apply append_inj_l in H. by injection H. }
  assert (∀ key, key ≠ "length" →
            res_contents (if Qgt_bool (frame_time fps (frame_end t)) l
                          then res_set "length"
                                 (PReal (frame_time fps (frame_end t))) r
                          else r) !! key = res_contents r !! key) as Hlen.
  { intros key Hkey. destruct (Qgt_bool _ l); [|done].
    cbn. by rewrite lookup_insert_ne. }
  assert (res_name (if Qgt_bool (frame_time fps (frame_end t)) l
                    then res_set "length"
                           (PReal (frame_time fps (frame_end t))) r
                    else r) = res_name r) as Hname.
  { by destruct (Qgt_bool _ l). }
  set (r0 := if Qgt_bool _ l then _ else r) in *. clearbody r0.
  change (id +:+ "/type") with (id +:+ String "/" "type") in *.
  change (id +:+ "/path") with (id +:+ String "/" "path") in *.
  change (id +:+ "/interp") with (id +:+ String "/" "interp") in *.
  change (id +:+ "/keys") with (id +:+ String "/" "keys") in *.
  destruct keys as [k|]; injection Hadd as <-; cbn [res_set res_contents
    track_count res_name]; (split; [done|]); (split; [done|]).
  - rewrite lookup_insert_ne, lookup_insert_ne, lookup_insert_ne,
      lookup_insert_eq by (by apply Hsfx).
    rewrite lookup_insert_ne, lookup_insert_ne, lookup_insert_eq
      by (by apply Hsfx).
    rewrite lookup_insert_ne, lookup_insert_eq by (by apply Hsfx).
    rewrite lookup_insert_eq.
    repeat split; try done; [by intros ? [= ->]|].
    intros key Hkey Hid. rewrite !lookup_insert_ne by (intros <-; by eapply Hid).
    by apply Hlen.
  - rewrite lookup_insert_ne, lookup_insert_ne, lookup_insert_eq
      by (by apply Hsfx).
    rewrite lookup_insert_ne, lookup_insert_eq by (by apply Hsfx).
    rewrite lookup_insert_eq.
    repeat split; try done.
    intros key Hkey Hid. rewrite !lookup_insert_ne by (intros <-; by eapply Hid).
    by apply Hlen.
Qed.

(** X4. Tracks are numbered in the order of the [add_track] calls, from
    the counter of the resource on: after a sequence of calls, the counter
    has advanced by the number of tracks, and the type (in double quotes),
    the path, the interpolation and the keys of the i-th added track stand
    under tracks/<counter + i>/...; no later call overwrites them. The
    name of the resource and its entry step are left as they were. *)
Theorem tracks_numbered_in_order (ts : list Track)
    (r0 r : AnimationResource)
    (Hrun : add_tracks ts r0 = Some r) :
  track_count r = (track_count r0 + length ts)%nat ∧
  res_name r = res_name r0 ∧
  res_contents r !! "step" = res_contents r0 !! "step" ∧
  ∀ i t, ts !! i = Some t →
    let id := "tracks/" +:+ pretty (track_count r0 + i)%nat in
    res_contents r !! (id +:+ "/type")
      = Some (PStr (dquote +:+ track_type t +:+ dquote)) ∧
    res_contents r !! (id +:+ "/path") = Some (PPath (track_path t)) ∧
    res_contents r !! (id +:+ "/interp") = Some (PInt (track_interp t)) ∧
    ∀ k, track_keys veq fps transform_components t = Some (Some k) →
         res_contents r !! (id +:+ "/keys") = Some k.
Proof.
  revert r0 Hrun. induction ts as [|t0 rest IH]; intros r0 Hrun.
  - injection Hrun as <-. split; [simpl; lia|]. by repeat split.
  - cbn [add_tracks] in Hrun.
    destruct (add_track t0 r0) as [r1|] eqn:Hadd; [|done].
    cbn [mbind option_bind] in Hrun.
    destruct (add_track_entries _ _ _ Hadd)
      as (Hcount & Hname & Htype & Hpath & Hinterp & Hkeys & Hother).
    destruct (IH r1 Hrun) as (Hcount' & Hname' & Hstep' & Hrest).
    (* entries of an earlier track survive the later calls *)
    assert (∀ (rs : list Track) (ra rb : AnimationResource) key,
              add_tracks rs ra = Some rb →
              key ≠ "length" →
              (∀ n sfx, (track_count ra ≤ n)%nat →
                        key ≠ "tracks/" +:+ pretty n +:+ String "/" sfx) →
              res_contents rb !! key = res_contents ra !! key) as Hkeep.
    { clear. induction rs as [|t rs IH]; intros ra rb key Hrun Hlen Hkey.
      - by injection Hrun as <-.
      - cbn [add_tracks] in Hrun.
        destruct (add_track t ra) as [r1|] eqn:Hadd; [|done].
        cbn [mbind option_bind] in Hrun.
        destruct (add_track_entries _ _ _ Hadd)
          as (Hcount & _ & _ & _ & _ & _ & Hother).
        rewrite (IH r1 rb key Hrun Hlen).
        + apply Hother; [done|]. intros sfx. by apply Hkey.
        + intros n sfx Hn. apply Hkey. lia. }
    assert (∀ sfx, res_contents r
                     !! ("tracks/" +:+ pretty (track_count r0)
                         +:+ String "/" sfx)
                   = res_contents r1
                       !! ("tracks/" +:+ pretty (track_count r0)
                           +:+ String "/" sfx)) as Hfirst.
    { intros sfx. apply (Hkeep rest); [done|done|].
      intros n sfx' Hn H. apply track_key_inj in H as [Heq _]. lia. }
    split; [rewrite Hcount', Hcount; simpl; lia|].
    split; [congruence|]. split.
    { rewrite Hstep'. apply Hother; [done|]. by intros sfx. }
    intros [|i] t Ht id.
    + injection Ht as <-. subst id. rewrite Nat.add_0_r.
      split; [etrans; [exact (Hfirst "type")|exact Htype]|].
      split; [etrans; [exact (Hfirst "path")|exact Hpath]|].
      split; [etrans; [exact (Hfirst "interp")|exact Hinterp]|].
      intros k Hk. etrans; [exact (Hfirst "keys")|exact (Hkeys k Hk)].
    + subst id. replace (track_count r0 + S i)%nat
        with (track_count r1 + i)%nat by lia.
      by apply Hrest.
Qed.
End ResourceEntries.

Lemma tracks_numbered_in_order_witness :
  ∃ r, sample_add_tracks [walk_track; short_track] = Some r ∧
       track_count r = 2%nat ∧
       res_contents r !! "tracks/1/path" = Some (PPath "Cube:energy").
Proof.
  destruct (sample_add_tracks [walk_track; short_track]) as [r|] eqn:Hr;
    [|vm_compute in Hr; discriminate].
  destruct (tracks_numbered_in_order Z.eqb 24 sample_components
              [walk_track; short_track] _ r Hr) as (Hcount & _ & _ & Hts).
  destruct (Hts 1%nat short_track eq_refl) as (_ & Hpath & _).
  exists r. split; [done|]. split; [exact Hcount|exact Hpath].
Defined.


(** ** Transform frames *)

Section FrameFacts.
Variable quaternion_to_matrix : Quaternion → Matrix3.
Variable euler_to_matrix : Euler → Matrix3.

Local Abbreviation to_matrix :=
  (TransformFrame_to_matrix quaternion_to_matrix euler_to_matrix).

Lemma update_rotation_mode attribute index value f f' :
  TransformFrame_update attribute index value f = Some f' →
  tf_rotation_mode f' = tf_rotation_mode f.
Proof.
  unfold TransformFrame_update. intros H.
  repeat case_match; simplify_option_eq; done.
Qed.

Lemma update_in_range attribute index value f :
  attribute ∈ TransformFrame_ATTRIBUTES →
  is_Some (TransformFrame_update attribute index value f)
  ↔ (index < attribute_size attribute)%nat.
Proof.
  intros Hattr. unfold TransformFrame_ATTRIBUTES in Hattr.
  rewrite !elem_of_cons, elem_of_nil in Hattr.
  destruct Hattr as [->|[->|[->|[->|[]]]]];
    unfold TransformFrame_update, attribute_size; cbn;
    unfold Vector_set, Quaternion_set, Euler_set;
    (split; [intros [f' Hf']|intros Hlt]).
  all: repeat (destruct index as [|index]; cbn in *; try lia; try done;
               try by eexists).
Qed.

(** X5. A frame keeps both rotations, and [to_matrix] reads only the one
    its rotation mode selects: in mode 'QUATERNION' an update of
    rotation_euler leaves the matrix as it is, in any other mode an update
    of rotation_quaternion does. An update never changes the rotation
    mode; an attribute outside [ATTRIBUTES] changes nothing; and an update
    of one of the four attributes raises (IndexError) exactly when the
    component index is 3 or more (4 or more for the quaternion). *)
Theorem unselected_rotation_is_ignored (f : TransformFrame) (index : nat)
    (value : Q) :
  (∀ f', TransformFrame_update "rotation_euler" index value f = Some f' →
         tf_rotation_mode f = "QUATERNION" → to_matrix f' = to_matrix f) ∧
  (∀ f', TransformFrame_update "rotation_quaternion" index value f
           = Some f' →
         tf_rotation_mode f ≠ "QUATERNION" → to_matrix f' = to_matrix f) ∧
  (∀ attribute f',
     TransformFrame_update attribute index value f = Some f' →
     tf_rotation_mode f' = tf_rotation_mode f) ∧
  (∀ attribute, attribute ∉ TransformFrame_ATTRIBUTES →
     TransformFrame_update attribute index value f = Some f) ∧
  (∀ attribute, attribute ∈ TransformFrame_ATTRIBUTES →
     (is_Some (TransformFrame_update attribute index value f)
      ↔ (index < attribute_size attribute)%nat)).
Proof.
  split; [|split; [|split; [|split]]].
  - intros f' Hupd Hmode. unfold TransformFrame_update in Hupd.
    cbn in Hupd. destruct (Euler_set _ _ _) as [e|]; [|done].
    injection Hupd as <-. unfold TransformFrame_to_matrix. cbn.
    by rewrite Hmode.
  - intros f' Hupd Hmode. unfold TransformFrame_update in Hupd.
    cbn in Hupd. destruct (Quaternion_set _ _ _) as [q|]; [|done].
    injection Hupd as <-. unfold TransformFrame_to_matrix. cbn.
    apply String.eqb_neq in Hmode. by rewrite Hmode.
  - intros attribute f'. apply update_rotation_mode.
  - intros attribute Hattr. unfold TransformFrame_ATTRIBUTES in Hattr.
    rewrite !not_elem_of_cons in Hattr.
    destruct Hattr as (H1 & H2 & H3 & H4 & _).
    unfold TransformFrame_update.
    apply String.eqb_neq in H1, H2, H3, H4. by rewrite H1, H2, H3, H4.
  - intros attribute. apply update_in_range.
Qed.
End FrameFacts.

Lemma unselected_rotation_is_ignored_witness :
  let f := mkTransformFrame (mkVector 0 0 0) (mkVector 1 1 1) "QUATERNION"
             (mkQuat 1 0 0 0) (mkEuler 0 0 0 "XYZ") in
  let f' := mkTransformFrame (mkVector 0 0 0) (mkVector 1 1 1) "QUATERNION"
              (mkQuat 1 0 0 0) (mkEuler 0 (1 # 2) 0 "XYZ") in
  TransformFrame_to_matrix (λ _, identity3)
      (λ e, mkMatrix3 (mkVector (eul_y e) 0 0) (mkVector 0 1 0)
                      (mkVector 0 0 1)) f'
  = TransformFrame_to_matrix (λ _, identity3)
      (λ e, mkMatrix3 (mkVector (eul_y e) 0 0) (mkVector 0 1 0)
                      (mkVector 0 0 1)) f.
Proof.
  intros f f'.
  exact (proj1 (unselected_rotation_is_ignored (λ _, identity3)
                  (λ e, mkMatrix3 (mkVector (eul_y e) 0 0) (mkVector 0 1 0)
                                  (mkVector 0 0 1)) f 1 (1 # 2))
           f' eq_refl eq_refl).
Defined.


(** ** Sampling the curves of an action *)

Section OrderedDictMore.
Context {A : Type}.
Implicit Types m : list (string * A).

Lemma od_lookup_set key key' (v : A) m :
  od_lookup key' (od_set key v m)
  = if String.eqb key key' then Some v else od_lookup key' m.
Proof.
  induction m as [|[k old] rest IH]; cbn [od_set od_lookup].
  - by destruct (String.eqb key key').
  - destruct (String.eqb k key) eqn:Hk; cbn [od_lookup].
    + apply String.eqb_eq in Hk as ->.
      by destruct (String.eqb key key').
    + rewrite IH. destruct (String.eqb k key') eqn:Hk'; [|done].
      apply String.eqb_eq in Hk' as ->.
      rewrite String.eqb_sym in Hk. by rewrite Hk.
Qed.

Lemma od_set_set key (v w : A) m :
  od_set key w (od_set key v m) = od_set key w m.
Proof.
  induction m as [|[k old] rest IH]; cbn [od_set].
  - by rewrite String.eqb_refl.
  - destruct (String.eqb k key) eqn:Hk; cbn [od_set]; rewrite Hk; [done|].
    by rewrite IH.
Qed.

Lemma od_set_same key (v : A) m :
  od_lookup key m = Some v → od_set key v m = m.
Proof.
  induction m as [|[k old] rest IH]; cbn [od_set od_lookup]; [done|].
  destruct (String.eqb k key); [by intros [= ->]|].
  intros H. by rewrite IH.
Qed.

(** Setting a key keeps the keys that are there, in their order. *)
Lemma od_set_keys key (v : A) m :
  is_Some (od_lookup key m) → (od_set key v m).*1 = m.*1.
Proof.
  induction m as [|[k old] rest IH]; cbn [od_set od_lookup].
  - by intros [? ?].
  - destruct (String.eqb k key); [done|].
    intros H. cbn. by rewrite IH.
Qed.
End OrderedDictMore.

Lemma update_each_length attribute fcurve :
  ∀ fs frame fs',
    update_each attribute fcurve frame fs = Some fs' →
    length fs' = length fs.
Proof.
  induction fs as [|f fs IH]; intros frame fs'; cbn [update_each].
  - by intros [= <-].
  - destruct (TransformFrame_update _ _ _ f) as [f'|]; [|done].
    cbn [mbind option_bind].
    destruct (update_each _ _ _ fs) as [rest'|] eqn:Hrest; [|done].
    intros [= <-]. cbn. by rewrite (IH _ _ Hrest).
Qed.

Lemma update_each_lookup attribute fcurve :
  ∀ fs frame fs' k f,
    update_each attribute fcurve frame fs = Some fs' →
    fs !! k = Some f →
    fs' !! k = TransformFrame_update attribute (array_index fcurve)
                 (evaluate fcurve (frame + Z.of_nat k)) f.
Proof.
  induction fs as [|f0 fs IH]; intros frame fs' k f; cbn [update_each];
    [done|].
  destruct (TransformFrame_update _ _ _ f0) as [f'|] eqn:Hf0; [|done].
  cbn [mbind option_bind].
  destruct (update_each _ _ _ fs) as [rest'|] eqn:Hrest; [|done].
  intros [= <-]. destruct k as [|k]; cbn.
  - intros [= <-]. by rewrite Z.add_0_r.
  - intros Hk. etrans; [exact (IH _ _ _ _ Hrest Hk)|]. do 2 f_equal. lia.
Qed.

Lemma update_each_total attribute fcurve :
  ∀ fs frame,
    (∀ k f, fs !! k = Some f →
            is_Some (TransformFrame_update attribute (array_index fcurve)
                       (evaluate fcurve (frame + Z.of_nat k)) f)) →
    is_Some (update_each attribute fcurve frame fs).
Proof.
  induction fs as [|f0 fs IH]; intros frame Hok; cbn [update_each];
    [by eexists|].
  destruct (Hok 0%nat f0 eq_refl) as [f' Hf']. rewrite Z.add_0_r in Hf'.
  rewrite Hf'. cbn [mbind option_bind].
  destruct (IH (frame + 1)) as [rest' ->]; [|by eexists].
  intros k f Hk. specialize (Hok (S k) f Hk).
  by replace (frame + 1 + Z.of_nat k) with (frame + Z.of_nat (S k)) by lia.
Qed.

(** The loop over the frames of the action, from position [j] on. *)
Lemma update_frames_from object_path attribute fcurve first :
  ∀ n j m frame_values,
    od_lookup object_path m = Some frame_values →
    length frame_values = (j + n)%nat →
    update_frames object_path attribute fcurve first
      (map (λ i, first + Z.of_nat i) (seq j n)) m
    = (rest' ← update_each attribute fcurve (first + Z.of_nat j)
                 (drop j frame_values);
       Some (od_set object_path (take j frame_values ++ rest') m)).
Proof.
  induction n as [|n IH]; intros j m frame_values Hm Hlen.
  - rewrite drop_ge by lia. cbn. rewrite app_nil_r, take_ge by lia.
    by rewrite od_set_same.
  - cbn [seq map update_frames]. rewrite Hm. cbn [mbind option_bind].
    replace (first + Z.of_nat j - first) with (Z.of_nat j) by lia.
    unfold py_index. rewrite (proj2 (Z.leb_le 0 (Z.of_nat j))) by lia.
    rewrite Nat2Z.id.
    assert (is_Some (frame_values !! j)) as [f Hf].
    { apply lookup_lt_is_Some. lia. }
    rewrite Hf, (drop_S _ _ _ Hf). cbn [mbind option_bind update_each].
    destruct (TransformFrame_update _ _ _ f) as [f'|]; [|done].
    cbn [mbind option_bind].
    rewrite (IH (S j) _ (<[j := f']> frame_values)).
    + rewrite drop_insert_lt by lia.
      replace (first + Z.of_nat (S j)) with (first + Z.of_nat j + 1) by lia.
      destruct (update_each _ _ _ (drop (S j) frame_values)) as [rest'|];
        [|done].
      cbn [mbind option_bind]. rewrite od_set_set. do 2 f_equal.
      rewrite (take_S_r _ _ f').
      * rewrite take_insert_ge by lia. by rewrite <- app_assoc.
      * rewrite list_lookup_insert_eq; [done|]. by eapply lookup_lt_Some.
    + by rewrite od_lookup_set, String.eqb_refl.
    + rewrite length_insert. lia.
Qed.

(** X6. The loop that samples one curve over the frames of the action
    updates, in the list of frames of the curve's object path, the frame
    at position k with the value of the curve at frame first + k, for
    every frame of the range, in the component the curve names; it raises
    when one of these updates does. The lists of the other object paths,
    the order of the paths and the number of frames are as before. *)
Theorem curve_sampled_at_every_frame (object_path attribute : string)
    (fcurve : FCurve) (first_frame last_frame : Z) (m : FrameMap)
    (frame_values : list TransformFrame)
    (Hm : od_lookup object_path m = Some frame_values)
    (Hlen : length frame_values = Z.to_nat (last_frame - first_frame)) :
  (is_Some (update_frames object_path attribute fcurve first_frame
              (py_range first_frame last_frame) m)
   ↔ ∀ k f, frame_values !! k = Some f →
            is_Some (TransformFrame_update attribute (array_index fcurve)
                       (evaluate fcurve (first_frame + Z.of_nat k)) f)) ∧
  ∀ m', update_frames object_path attribute fcurve first_frame
          (py_range first_frame last_frame) m = Some m' →
    ∃ frame_values',
      od_lookup object_path m' = Some frame_values' ∧
      length frame_values' = length frame_values ∧
      (∀ k f, frame_values !! k = Some f →
         frame_values' !! k
         = TransformFrame_update attribute (array_index fcurve)
             (evaluate fcurve (first_frame + Z.of_nat k)) f) ∧
      (∀ key, key ≠ object_path → od_lookup key m' = od_lookup key m) ∧
      m'.*1 = m.*1.
Proof.
  unfold py_range.
  rewrite (update_frames_from object_path attribute fcurve first_frame
             _ 0 m frame_values Hm) by (simpl; lia).
  rewrite drop_0, Z.add_0_r. cbn [take app]. split.
  - split.
    + intros [m' Hm'] k f Hk.
      destruct (update_each _ _ _ frame_values) as [fs'|] eqn:Hfs; [|done].
      assert (is_Some (fs' !! k)) as [f' Hf'].
      { apply lookup_lt_is_Some.
        rewrite (update_each_length _ _ _ _ _ Hfs).
        by eapply lookup_lt_Some. }
      rewrite <- (update_each_lookup _ _ _ _ _ _ _ Hfs Hk). by eexists.
    + intros Hok.
      destruct (update_each_total attribute fcurve frame_values first_frame
                  Hok) as [fs' ->].
      by eexists.
  - intros m' Hm'.
    destruct (update_each _ _ _ frame_values) as [fs'|] eqn:Hfs; [|done].
    injection Hm' as <-. exists fs'.
    split; [by rewrite od_lookup_set, String.eqb_refl|].
    split; [by eapply update_each_length|].
    split; [intros k f Hk; by eapply update_each_lookup|].
    split.
    + intros key Hkey. rewrite od_lookup_set.
      apply not_eq_sym, String.eqb_neq in Hkey. by rewrite Hkey.
    + apply od_set_keys. by eexists.
Qed.

Lemma curve_sampled_at_every_frame_witness :
  let f k := mkTransformFrame (mkVector k 0 0) (mkVector 1 1 1) "XYZ"
               (mkQuat 1 0 0 0) (mkEuler 0 0 0 "XYZ") in
  update_frames "" "location" (mkFCurve "location" 0 (λ frame, inject_Z frame))
    5 (py_range 5 7) [("", [f 0%Q; f 0%Q])]
  = Some [("", [f (inject_Z 5); f (inject_Z 6)])].
Proof.
  intros f.
  set (c := mkFCurve "location" 0 (λ frame, inject_Z frame)).
  destruct (curve_sampled_at_every_frame "" "location" c 5 7
              [("", [f 0%Q; f 0%Q])] [f 0%Q; f 0%Q] eq_refl eq_refl)
    as [[_ Htotal] _].
  destruct Htotal as [m' Hm'].
  { intros [|[|k]] f0 Hk; [by eexists..|done]. }
  rewrite Hm'. vm_compute in Hm'. by injection Hm' as <-.
Defined.


(** ** The transform track of an object *)

Lemma split_no_dot (data_path : string) :
  has_char "." data_path = false →
  split_fcurve_data_path data_path = ("", data_path).
Proof.
  intros Hdot. unfold split_fcurve_data_path.
  pose proof (rsplit_once_spec "." data_path) as Hspec.
  destruct (rsplit_once "." data_path) as [[before after]|]; [|done].
  destruct Hspec as [-> _]. rewrite has_char_app in Hdot.
  change (has_char "." (String "." after)) with (true || has_char "." after)
    in Hdot.
  by rewrite orb_true_r in Hdot.
Qed.

Lemma attribute_no_dot (attribute : string) :
  attribute ∈ TransformFrame_ATTRIBUTES → has_char "." attribute = false.
Proof.
  unfold TransformFrame_ATTRIBUTES.
  rewrite !elem_of_cons, elem_of_nil.
  by intros [->|[->|[->|[->|[]]]]].
Qed.

Lemma split_object_curve (fcurve : FCurve) :
  data_path fcurve ∈ TransformFrame_ATTRIBUTES →
  split_fcurve_data_path (data_path fcurve) = ("", data_path fcurve).
Proof. intros H. by apply split_no_dot, attribute_no_dot. Qed.

Section ObjectTransform.
Variable to_translation : Matrix → Vector.
Variable to_scale : Matrix → Vector.
Variable to_quaternion : Matrix → Quaternion.
Variable to_euler : Matrix → string → option Euler.
Variable quaternion_to_matrix : Quaternion → Matrix3.
Variable euler_to_matrix : Euler → Matrix3.
Variable fix_directional_transform : Matrix → Matrix.
Variable matrix_eq : Matrix → Matrix → bool.
Variable transform_components : Matrix → Vector * Quaternion * Vector.
Variable fps : positive.

Local Abbreviation to_matrix :=
  (TransformFrame_to_matrix quaternion_to_matrix euler_to_matrix).
Local Abbreviation collect_one :=
  (collect_fcurve to_translation to_scale to_quaternion to_euler).
Local Abbreviation collect_all :=
  (collect_fcurves to_translation to_scale to_quaternion to_euler).
Local Abbreviation emit_one :=
  (emit_track quaternion_to_matrix euler_to_matrix
     fix_directional_transform matrix_eq transform_components fps).
Local Abbreviation emit_all :=
  (emit_tracks quaternion_to_matrix euler_to_matrix
     fix_directional_transform matrix_eq transform_components fps).
Local Abbreviation export :=
  (export_transform_action to_translation to_scale to_quaternion to_euler
     quaternion_to_matrix euler_to_matrix fix_directional_transform matrix_eq
     transform_components fps).
Local Abbreviation default_of blender_object :=
  (TransformFrame_new to_translation to_scale to_quaternion to_euler
     (ob_matrix_basis blender_object) (ob_rotation_mode blender_object)).

(** A transform curve of the object, met when its frames are in the map. *)
Lemma collect_object_curve blender_object godot_node first last fcurve
    frame_values log :
  data_path fcurve ∈ TransformFrame_ATTRIBUTES →
  length frame_values = Z.to_nat (last - first) →
  collect_one blender_object godot_node first last fcurve
    ([("", frame_values)], log)
  = (frame_values' ← update_each (data_path fcurve) fcurve first
                        frame_values;
     Some ([("", frame_values')], log)).
Proof.
  intros Hattr Hlen. unfold collect_fcurve.
  rewrite (split_object_curve _ Hattr).
  rewrite (bool_decide_eq_true_2 _ Hattr).
  change (od_mem "" [("", frame_values)]) with true.
  cbn [negb andb mbind option_bind]. unfold py_range.
  rewrite (update_frames_from "" _ _ _ _ 0 _ frame_values)
    by (done || simpl; lia).
  rewrite drop_0, Z.add_0_r. cbn [take app].
  by destruct (update_each _ _ _ frame_values).
Qed.

(** The first transform curve of the object: the frames are created. *)
Lemma collect_first_object_curve blender_object godot_node first last
    fcurve log default_frame :
  data_path fcurve ∈ TransformFrame_ATTRIBUTES →
  first < last →
  default_of blender_object = Some default_frame →
  collect_one blender_object godot_node first last fcurve ([], log)
  = collect_one blender_object godot_node first last fcurve
      ([("", replicate (Z.to_nat (last - first)) default_frame)], log).
Proof.
  intros Hattr Hrange Hdefault. unfold collect_fcurve.
  rewrite (split_object_curve _ Hattr).
  rewrite (bool_decide_eq_true_2 _ Hattr).
  change (od_mem "" [("", ?fv)]) with true.
  change (od_mem "" []) with false.
  cbn [negb andb]. unfold init_transform_frame_values.
  change (String.prefix "pose" "") with false. cbn iota.
  rewrite Hdefault. cbn [mbind option_bind].
  destruct (Z.to_nat (last - first)) as [|n] eqn:Hn; [lia|].
  cbn [replicate mbind option_bind od_set]. by rewrite app_nil_r.
Qed.

(** The first transform curve of the object raises when the default
    frame cannot be built. *)
Lemma collect_first_object_curve_raises blender_object godot_node first
    last fcurve log :
  data_path fcurve ∈ TransformFrame_ATTRIBUTES →
  default_of blender_object = None →
  collect_one blender_object godot_node first last fcurve ([], log) = None.
Proof.
  intros Hattr Hdefault. unfold collect_fcurve.
  rewrite (split_object_curve _ Hattr).
  rewrite (bool_decide_eq_true_2 _ Hattr).
  change (od_mem "" []) with false.
  cbn [negb andb]. unfold init_transform_frame_values.
  change (String.prefix "pose" "") with false. cbn iota.
  by rewrite Hdefault.
Qed.

Lemma sampled_nil (default_frame : TransformFrame) first last :
  sampled default_frame first last []
    (replicate (Z.to_nat (last - first)) default_frame).
Proof.
  split; [by rewrite length_replicate|].
  intros k f Hk. apply lookup_replicate in Hk as [-> _]. done.
Qed.

Lemma sampled_snoc (default_frame : TransformFrame) first last curves
    fcurve frame_values :
  object_curve fcurve →
  sampled default_frame first last curves frame_values →
  ∃ frame_values',
    update_each (data_path fcurve) fcurve first frame_values
      = Some frame_values' ∧
    sampled default_frame first last (curves ++ [fcurve]) frame_values'.
Proof.
  intros [Hattr Hindex] [Hlen Hsampled].
  destruct (update_each_total (data_path fcurve) fcurve frame_values first)
    as [frame_values' Hupd].
  { intros k f _. by apply update_in_range. }
  exists frame_values'. split; [done|]. split.
  { by rewrite (update_each_length _ _ _ _ _ Hupd). }
  intros k f' Hk.
  assert (is_Some (frame_values !! k)) as [f Hf].
  { apply lookup_lt_is_Some.
    rewrite <- (update_each_length _ _ _ _ _ Hupd).
    by eapply lookup_lt_Some. }
  unfold sample_curves. rewrite foldl_app. cbn [foldl].
  fold (sample_curves curves (first + Z.of_nat k) default_frame).
  rewrite (Hsampled k f Hf). cbn [mbind option_bind].
  rewrite (split_object_curve _ Hattr). cbn [snd].
  by rewrite <- (update_each_lookup _ _ _ _ _ _ _ Hupd Hf).
Qed.

Lemma collect_all_object_curves blender_object godot_node first last
    (default_frame : TransformFrame) rest :
  ∀ curves frame_values log,
    Forall object_curve rest →
    sampled default_frame first last curves frame_values →
    ∃ frame_values',
      collect_all blender_object godot_node first last rest
        ([("", frame_values)], log) = Some ([("", frame_values')], log) ∧
      sampled default_frame first last (curves ++ rest) frame_values'.
Proof.
  induction rest as [|fcurve rest IH]; intros curves frame_values log
    Hvalid Hsampled.
  - exists frame_values. by rewrite app_nil_r.
  - apply Forall_cons in Hvalid as [Hcurve Hvalid].
    destruct (sampled_snoc _ _ _ _ _ _ Hcurve Hsampled)
      as (fv1 & Hupd & Hsampled1).
    destruct (IH (curves ++ [fcurve]) fv1 log Hvalid Hsampled1)
      as (fv' & Hrest & Hsampled').
    exists fv'. rewrite <- app_assoc in Hsampled'. split; [|done].
    cbn [collect_fcurves].
    rewrite collect_object_curve by (apply Hcurve || apply Hsampled).
    rewrite Hupd. done.
Qed.

(** X7. An action made of transform curves of the object itself
    (location, scale, rotation_quaternion, rotation_euler, with a
    component index in range) over a non-empty frame range, for a node
    whose parent is no BoneAttachment. When the default frame of the
    object can be built, the action is exported as one transform track,
    whatever the number of curves: its path leads from the parent of the
    player to the node, its frames are the frames of the action, and its
    value at a frame is matrix_parent_inverse times the matrix of the
    default frame updated by every curve, in order, with the value of the
    curve at that frame; for a spot light, a directional light or a
    camera the value is passed through fix_directional_transform; the
    track is added by [add_track], which compares the matrices with
    their [==]; nothing is logged. When the default frame cannot be built
    ([to_euler] raises for the rotation mode of the object), the export
    raises. *)
Theorem object_curves_give_one_track (godot_node : TargetNode)
    (player_parent_path : string) (blender_object : BlenderObject)
    (action : Action) (r : @AnimationResource Matrix NodePath)
    (parent_type : string)
    (Hcurves : action_fcurves action ≠ [])
    (Hvalid : Forall object_curve (action_fcurves action))
    (Hrange : (get_action_frame_range action).1
              < (get_action_frame_range action).2)
    (Hparent : gn_parent_type godot_node = Some parent_type)
    (Hattach : parent_type ≠ "BoneAttachment")
    (Hlength : is_Some (res_length r)) :
  let frame_range := py_range (get_action_frame_range action).1
                       (get_action_frame_range action).2 in
  let fix_mtx :=
    if bool_decide (gn_type godot_node
                      ∈ ["SpotLight"; "DirectionalLight"; "Camera"])
    then fix_directional_transform else (λ mtx, mtx) in
  match (if String.eqb (ob_rotation_mode blender_object) "QUATERNION"
         then to_euler (ob_matrix_basis blender_object) "XYZ"
         else to_euler (ob_matrix_basis blender_object)
                (ob_rotation_mode blender_object)) with
  | Some rotation_euler =>
      let default_frame :=
        mkTransformFrame
          (to_translation (ob_matrix_basis blender_object))
          (to_scale (ob_matrix_basis blender_object))
          (ob_rotation_mode blender_object)
          (to_quaternion (ob_matrix_basis blender_object))
          rotation_euler in
      ∃ frames r',
        Forall2 (λ frame f,
                   sample_curves (action_fcurves action) frame
                     default_frame = Some f)
                frame_range frames ∧
        add_track matrix_eq fps transform_components
          (Track_new "transform"
             (mkNodePath player_parent_path (gn_path godot_node) None)
             frame_range
             (map (λ f, fix_mtx (Matrix_mul
                                   (ob_matrix_parent_inverse blender_object)
                                   (to_matrix f)))
                  frames))
          r = Some r' ∧
        export godot_node player_parent_path blender_object action r
          = Some (r', [])
  | None =>
      export godot_node player_parent_path blender_object action r = None
  end.
Proof.
  intros frame_range fix_mtx. subst frame_range.
  unfold export_transform_action.
  destruct (get_action_frame_range action) as [first last] eqn:Hfr.
  cbn [fst snd] in *.
  destruct (action_fcurves action) as [|fcurve rest] eqn:Hfc; [done|].
  clear Hcurves.
  pose proof (Forall_inv Hvalid) as [Hattr _].
  pose proof (eq_refl (default_of blender_object)) as Hdefault.
  unfold TransformFrame_new in Hdefault at 2.
  destruct (if String.eqb (ob_rotation_mode blender_object) "QUATERNION"
            then _ else _) as [rotation_euler|];
    cbn [mbind option_bind] in Hdefault.
  2:{ cbn [collect_fcurves].
      by rewrite collect_first_object_curve_raises. }
  set (default_frame := mkTransformFrame _ _ _ _ rotation_euler) in *.
  destruct (collect_all_object_curves blender_object godot_node first last
              default_frame (fcurve :: rest) [] _ [] Hvalid
              (sampled_nil default_frame first last))
    as (frames & Hcollect & [Hlen Hsampled]).
  exists frames.
  set (t := Track_new "transform"
              (mkNodePath player_parent_path (gn_path godot_node) None)
              (py_range first last)
              (map (λ f, fix_mtx (Matrix_mul
                                    (ob_matrix_parent_inverse blender_object)
                                    (to_matrix f))) frames)).
  destruct (add_track_total matrix_eq fps transform_components t r)
    as [r' Hr']; [|done|].
  { unfold well_formed, t. cbn. unfold py_range.
    rewrite length_map, !length_map, length_seq. lia. }
  exists r'. split; [|split; [done|]].
  - apply Forall2_same_length_lookup. split.
    { unfold py_range. rewrite length_map, length_seq. lia. }
    intros k frame f Hframe Hf. unfold py_range in Hframe.
    rewrite list_lookup_fmap in Hframe.
    destruct (seq 0 (Z.to_nat (last - first)) !! k) as [i|] eqn:Hi; [|done].
    apply lookup_seq in Hi as [-> _]. injection Hframe as <-.
    by apply Hsampled.
  - cbn [collect_fcurves] in Hcollect |- *.
    rewrite (collect_first_object_curve _ _ _ _ _ _ default_frame) by done.
    rewrite Hcollect. cbn [mbind option_bind emit_tracks].
    unfold emit_track. change (String.eqb "" "") with true. cbn iota.
    rewrite Hparent. cbn [mbind option_bind].
    apply String.eqb_neq in Hattach. rewrite Hattach.
    cbn [mbind option_bind].
    assert ((if bool_decide (gn_type godot_node
                               ∈ ["SpotLight"; "DirectionalLight"; "Camera"])
             then map fix_directional_transform
                    (map (λ x, Matrix_mul
                                 (ob_matrix_parent_inverse blender_object)
                                 (to_matrix x)) frames)
             else map (λ x, Matrix_mul
                              (ob_matrix_parent_inverse blender_object)
                              (to_matrix x)) frames)
            = map (λ f, fix_mtx (Matrix_mul
                                   (ob_matrix_parent_inverse blender_object)
                                   (to_matrix f))) frames) as ->.
    { subst fix_mtx. case_bool_decide; [|done].
      by rewrite <- list_fmap_compose. }
    fold t. rewrite Hr'. done.
Qed.

Lemma od_lookup_nonempty (m : FrameMap) key frame_values :
  Forall (λ item, item.2 ≠ []) m →
  od_lookup key m = Some frame_values → frame_values ≠ [].
Proof.
  induction m as [|[k v] rest IH]; cbn [od_lookup]; [done|].
  intros Hok. apply Forall_cons in Hok as [Hv Hrest].
  destruct (String.eqb k key); [by intros [= <-]|by apply IH].
Qed.

Lemma od_set_nonempty (m : FrameMap) key frame_values :
  Forall (λ item, item.2 ≠ []) m → frame_values ≠ [] →
  Forall (λ item, item.2 ≠ []) (od_set key frame_values m).
Proof.
  intros Hok Hv. induction m as [|[k v] rest IH]; cbn [od_set].
  - by repeat constructor.
  - apply Forall_cons in Hok as [Hk Hrest].
    destruct (String.eqb k key); constructor; auto.
Qed.

(** The loop over the frames keeps the lists of the map non-empty. *)
Lemma update_frames_nonempty object_path attribute fcurve first frames :
  ∀ m m',
    update_frames object_path attribute fcurve first frames m = Some m' →
    Forall (λ item, item.2 ≠ []) m → Forall (λ item, item.2 ≠ []) m'.
Proof.
  induction frames as [|frame rest IH]; intros m m'; cbn [update_frames].
  - by intros [= <-].
  - destruct (od_lookup object_path m) as [frame_values|] eqn:Hm; [|done].
    cbn [mbind option_bind].
    destruct (py_index frame_values (frame - first)) as [f|]; [|done].
    cbn [mbind option_bind].
    destruct (TransformFrame_update _ _ _ f) as [f'|]; [|done].
    cbn [mbind option_bind]. intros Hrest Hok.
    apply (IH _ _ Hrest). apply od_set_nonempty; [done|].
    intros Hnil. apply (od_lookup_nonempty _ _ _ Hok Hm).
    apply (f_equal length) in Hnil. rewrite length_insert in Hnil.
    by destruct frame_values.
Qed.

(** One curve keeps the lists non-empty and the paths that are in the
    map; a transform curve of the object itself puts its path there when
    the frame range is not empty. *)
Lemma collect_one_map blender_object godot_node first last fcurve m log
    m' log' :
  collect_one blender_object godot_node first last fcurve (m, log)
    = Some (m', log') →
  Forall (λ item, item.2 ≠ []) m →
  Forall (λ item, item.2 ≠ []) m' ∧
  (∀ key, od_mem key m = true → od_mem key m' = true) ∧
  (data_path fcurve ∈ TransformFrame_ATTRIBUTES → first < last →
   od_mem "" m' = true).
Proof.
  unfold collect_fcurve. intros Hone Hok.
  destruct (split_fcurve_data_path (data_path fcurve))
    as [object_path attribute] eqn:Hsplit.
  destruct (negb (od_mem object_path m)
            && bool_decide (attribute ∈ TransformFrame_ATTRIBUTES))
    eqn:Hinit.
  - apply andb_true_iff in Hinit as [Hmem Hattr].
    apply negb_true_iff in Hmem. rewrite Hattr in Hone.
    destruct (init_transform_frame_values _ _ _ _ object_path blender_object
                godot_node first last)
      as [[frames warnings]|] eqn:Hframes; [|done].
    cbn [mbind option_bind] in Hone.
    destruct frames as [[|f fs]|]; cbn [mbind option_bind] in Hone.
    + injection Hone as <- <-. split; [done|]. split; [done|].
      intros Hattr' Hrange. rewrite (split_object_curve _ Hattr') in Hsplit.
      injection Hsplit as <- <-.
      unfold init_transform_frame_values in Hframes.
      change (String.prefix "pose" "") with false in Hframes.
      cbn iota in Hframes. bind_step Hframes as default_frame Hdefault.
      injection Hframes as Hframes _.
      destruct (Z.to_nat (last - first)) eqn:Hn; [lia|done].
    + destruct (update_frames _ _ _ _ _ _) as [m1|] eqn:Hupd; [|done].
      injection Hone as <- <-.
      split.
      { apply (update_frames_nonempty _ _ _ _ _ _ _ Hupd).
        by apply od_set_nonempty. }
      assert (∀ key, od_mem key m1
                     = (String.eqb object_path key || od_mem key m))
        as Hkeys.
      { intros key.
        by rewrite (update_frames_keys _ _ _ _ _ _ _ key Hupd), od_mem_set. }
      split.
      { intros key Hkey. rewrite Hkeys, Hkey. apply orb_true_r. }
      intros Hattr' _. rewrite (split_object_curve _ Hattr') in Hsplit.
      injection Hsplit as <- <-. by rewrite Hkeys.
    + injection Hone as <- <-. split; [done|]. split; [done|].
      intros Hattr' Hrange. rewrite (split_object_curve _ Hattr') in Hsplit.
      injection Hsplit as <- <-.
      unfold init_transform_frame_values in Hframes.
      change (String.prefix "pose" "") with false in Hframes.
      cbn iota in Hframes. by bind_step Hframes as default_frame Hdefault.
  - cbn [mbind option_bind] in Hone.
    destruct (bool_decide (attribute ∈ TransformFrame_ATTRIBUTES))
      eqn:Hattr.
    + rewrite andb_true_r in Hinit. apply negb_false_iff in Hinit.
      destruct (update_frames _ _ _ _ _ _) as [m1|] eqn:Hupd; [|done].
      injection Hone as <- <-.
      split; [by apply (update_frames_nonempty _ _ _ _ _ _ _ Hupd)|].
      split.
      { intros key Hkey.
        by rewrite (update_frames_keys _ _ _ _ _ _ _ key Hupd). }
      intros Hattr' _. rewrite (split_object_curve _ Hattr') in Hsplit.
      injection Hsplit as <- <-.
      by rewrite (update_frames_keys _ _ _ _ _ _ _ "" Hupd).
    + injection Hone as <- <-. split; [done|]. split; [done|].
      intros Hattr' _. rewrite (split_object_curve _ Hattr') in Hsplit.
      injection Hsplit as <- <-.
      apply bool_decide_eq_false in Hattr. done.
Qed.

Lemma collect_all_map blender_object godot_node first last fcurves :
  ∀ m log m' log',
    collect_all blender_object godot_node first last fcurves (m, log)
      = Some (m', log') →
    Forall (λ item, item.2 ≠ []) m →
    Forall (λ item, item.2 ≠ []) m' ∧
    (∀ key, od_mem key m = true → od_mem key m' = true) ∧
    (∀ fcurve, fcurve ∈ fcurves →
               data_path fcurve ∈ TransformFrame_ATTRIBUTES →
               first < last → od_mem "" m' = true).
Proof.
  induction fcurves as [|fcurve rest IH]; intros m log m' log';
    cbn [collect_fcurves].
  - intros [= <- <-] Hok. split; [done|]. split; [done|].
    intros fcurve Hin. by apply elem_of_nil in Hin.
  - destruct (collect_one _ _ _ _ fcurve (m, log)) as [[m1 log1]|] eqn:Hone;
      [|done].
    cbn [mbind option_bind]. intros Hrest Hok.
    destruct (collect_one_map _ _ _ _ _ _ _ _ _ Hone Hok)
      as (Hok1 & Hkeep1 & Hnew1).
    destruct (IH _ _ _ _ Hrest Hok1) as (Hok' & Hkeep' & Hnew').
    split; [done|]. split; [by auto|].
    intros c Hin Hattr Hrange. apply elem_of_cons in Hin as [->|Hin].
    + apply Hkeep'. by apply Hnew1.
    + by eapply Hnew'.
Qed.

(** Under a BoneAttachment, the frames of the object itself cannot be
    turned into matrices. *)
Lemma emit_all_attached player_parent_path blender_object godot_node
    first last items :
  ∀ st,
    gn_parent_type godot_node = Some "BoneAttachment" →
    Forall (λ item, item.2 ≠ []) items →
    od_mem "" items = true →
    emit_all player_parent_path blender_object godot_node first last
      items st = None.
Proof.
  induction items as [|[key frame_values] rest IH]; intros st Hparent Hok;
    [done|].
  apply Forall_cons in Hok as [Hv Hrest]. cbn [fst snd] in Hv.
  unfold od_mem. cbn [od_lookup emit_tracks].
  destruct (String.eqb key "") eqn:Hkey.
  - intros _. unfold emit_track. destruct st as [r bound].
    rewrite Hkey, Hparent. cbn [mbind option_bind].
    change (String.eqb "BoneAttachment" "BoneAttachment") with true.
    cbn iota. by destruct frame_values.
  - intros Hmem.
    destruct (emit_one _ _ _ _ _ (key, frame_values) st) as [st'|]; [|done].
    cbn [mbind option_bind]. by apply IH.
Qed.

(** X8. When the parent of the node is a BoneAttachment, an action with
    a transform curve of the object itself (a data path that is one of
    location, scale, rotation_quaternion, rotation_euler) over a non-empty
    frame range is never exported: the branch multiplies
    matrix_parent_inverse by the method [to_matrix] instead of its result,
    and the call raises. *)
Theorem bone_attachment_child_raises (godot_node : TargetNode)
    (player_parent_path : string) (blender_object : BlenderObject)
    (action : Action) (r : @AnimationResource Matrix NodePath)
    (fcurve : FCurve)
    (Hparent : gn_parent_type godot_node = Some "BoneAttachment")
    (Hcurve : fcurve ∈ action_fcurves action)
    (Hattr : data_path fcurve ∈ TransformFrame_ATTRIBUTES)
    (Hrange : (get_action_frame_range action).1
              < (get_action_frame_range action).2) :
  export godot_node player_parent_path blender_object action r = None.
Proof.
  unfold export_transform_action.
  destruct (get_action_frame_range action) as [first last].
  cbn [fst snd] in Hrange.
  destruct (collect_all _ _ _ _ _ ([], [])) as [[m log]|] eqn:Hcollect;
    [|done].
  cbn [mbind option_bind].
  destruct (collect_all_map _ _ _ _ _ _ _ _ _ Hcollect)
    as (Hok & _ & Hnew); [done|].
  rewrite emit_all_attached; [done|done|done|].
  by eapply Hnew.
Qed.
End ObjectTransform.

Lemma slide_action_curves : Forall object_curve (action_fcurves slide_action).
Proof. repeat constructor. Qed.

Lemma object_curves_give_one_track_witness :
  (∃ r', sample_export sample_mesh_node "." (sample_object [] None)
           slide_action (AnimationResource_new "CubeAction")
         = Some (r', []) ∧
         track_count r' = 1%nat) ∧
  sample_export sample_mesh_node "." axis_angle_object slide_action
    (AnimationResource_new "CubeAction") = None.
Proof.
  split.
  - pose proof (object_curves_give_one_track
                  (λ m, mkVector (e3 (row0 m)) (e3 (row1 m)) (e3 (row2 m)))
                  (λ _, mkVector 1 1 1) (λ _, mkQuat 1 0 0 0)
                  sample_to_euler
                  (λ _, identity3) (λ _, identity3) (λ m, m) Matrix_close
                  sample_components 24
                  sample_mesh_node "." (sample_object [] None) slide_action
                  (AnimationResource_new "CubeAction") "Spatial"
                  ltac:(done) slide_action_curves ltac:(by vm_compute)
                  eq_refl ltac:(done) ltac:(by eexists)) as Hexport.
    cbv zeta in Hexport.
    destruct (if String.eqb _ _ then _ else _) as [rotation_euler|] eqn:Hnew
      in Hexport; [|vm_compute in Hnew; discriminate].
    destruct Hexport as (frames & r' & _ & _ & Hexport).
    exists r'. split; [exact Hexport|].
    vm_compute in Hexport. by injection Hexport as <-.
  - exact (object_curves_give_one_track
             (λ m, mkVector (e3 (row0 m)) (e3 (row1 m)) (e3 (row2 m)))
             (λ _, mkVector 1 1 1) (λ _, mkQuat 1 0 0 0)
             sample_to_euler
             (λ _, identity3) (λ _, identity3) (λ m, m) Matrix_close
             sample_components 24
             sample_mesh_node "." axis_angle_object slide_action
             (AnimationResource_new "CubeAction") "Spatial"
             ltac:(done) slide_action_curves ltac:(by vm_compute)
             eq_refl ltac:(done) ltac:(by eexists)).
Defined.

Lemma bone_attachment_child_raises_witness :
  sample_export sample_attached_node "." (sample_object [] None)
    slide_action (AnimationResource_new "CubeAction") = None.
Proof.
  apply (bone_attachment_child_raises
           (λ m, mkVector (e3 (row0 m)) (e3 (row1 m)) (e3 (row2 m)))
           (λ _, mkVector 1 1 1) (λ _, mkQuat 1 0 0 0)
           sample_to_euler
           (λ _, identity3) (λ _, identity3) (λ m, m) Matrix_close sample_components 24
           sample_attached_node "." (sample_object [] None) slide_action
           (AnimationResource_new "CubeAction")
           (mkFCurve "location" 0 (λ frame, inject_Z frame))).
  - done.
  - by constructor.
  - by constructor.
  - by vm_compute.
Defined.


(** ** Baking with one kind of constraint, and the two interfaces *)

Section BakeMore.
Variable bake_action : BakeArgs → Blender → option (ActionId * Blender).
Variable legacy_interface : bool.

Local Abbreviation bake_constraint :=
  (bake_constraint_to_action bake_action legacy_interface).
Local Abbreviation baker := (action_baker bake_action legacy_interface).

(** X9. With constraints of one kind only, [action_baker] bakes once,
    into a new action, and always as a pose bake (do_pose, not
    do_object): the branch for an object that has only object constraints
    passes "POSE" as well. The action to bake is made active first;
    [bake_action] is called once, on that state, without target; the
    action it returns is named and returned, and the state that results
    is the one the bake left, with that name. Called without any
    constraint [action_baker] raises, on the unbound result. *)
Theorem single_constraint_bake_is_pose_bake (has_obj_cst has_pose_cst : bool)
    (action_to_bake : option ActionId) (b : Blender)
    (calls : list BakeCall)
    (Hone : has_obj_cst && has_pose_cst = false) :
  (∀ ret b' calls',
     baker has_obj_cst has_pose_cst action_to_bake (b, calls)
       = Some (ret, (b', calls')) →
     ∃ b_active first last baked b_out,
       match action_to_bake with
       | None => b_active = b ∧ first = 1 ∧ last = 250
       | Some base =>
           ∃ act, bl_actions b !! base = Some act ∧
                  set_active_action (Some base) b = Some b_active ∧
                  active_action_of b_active = Some (Some base) ∧
                  first = py_int (action_frame_range act).1 ∧
                  last = py_int (action_frame_range act).2 + 1
       end ∧
       let args :=
         mkBakeArgs
           (if legacy_interface then None
            else Some (ob_name (bl_object b)))
           first last 1 false None true false true in
       let b_back :=
         if legacy_interface
         then set_active_object (bl_active_object b) b_out
         else b_out in
       bake_action args
         (if legacy_interface
          then set_active_object (Some (ob_name (bl_object b))) b_active
          else b_active)
         = Some (baked, b_out) ∧
       calls' = calls ++ [mkBakeCall args (active_action_of b_active)] ∧
       ret = Some baked ∧
       ∃ name, baked_name action_to_bake b_back = Some name ∧
               set_action_name baked name b_back = Some b') ∧
  (has_obj_cst || has_pose_cst = false →
   baker has_obj_cst has_pose_cst action_to_bake (b, calls) = None).
Proof.
  unfold action_baker. rewrite Hone. split.
  - intros ret b' calls' Hrun.
    assert (bake_constraint action_to_bake "POSE" false (b, calls)
            = Some (ret, (b', calls'))) as Hbake.
    { destruct has_pose_cst; [done|]. by destruct has_obj_cst. }
    apply bake_constraint_to_action_steps in Hbake
      as (b_active & first & last & baked & b_out & Hbase & Hcall & Hlog
          & Hret & Hname).
    by exists b_active, first, last, baked, b_out.
  - intros Hnone. apply orb_false_iff in Hnone as [-> ->]. done.
Qed.

(** X10. One call of [bake_constraint_to_action] calls [bake_action]
    exactly once: on the state in which the base action is active, and
    the state that results is the one that call left, with the baked
    action named unless the bake is in place. Through the older interface
    the call has no [obj] argument: the object is made the active object
    of the scene for the call, and the active object is what it was
    before once the function returns, whatever the bake did to it.
    Through the newer interface the object is passed as [obj] and the
    active object is not written. *)
Theorem bake_restores_active_object (base_action : option ActionId)
    (bake_type : string) (in_place : bool) (b : Blender)
    (calls : list BakeCall) (ret : option ActionId) (b' : Blender)
    (calls' : list BakeCall)
    (Hrun : bake_constraint base_action bake_type in_place (b, calls)
            = Some (ret, (b', calls'))) :
  ∃ b_active args baked b_out,
    match base_action with
    | None => b_active = b
    | Some base => set_active_action (Some base) b = Some b_active
    end ∧
    calls' = calls ++ [mkBakeCall args (active_action_of b_active)] ∧
    if legacy_interface then
      ba_obj args = None ∧
      bake_action args
        (set_active_object (Some (ob_name (bl_object b))) b_active)
        = Some (baked, b_out) ∧
      bl_active_object b' = bl_active_object b ∧
      if in_place
      then b' = set_active_object (bl_active_object b) b_out
      else ∃ name,
             set_action_name baked name
               (set_active_object (bl_active_object b) b_out) = Some b'
    else
      ba_obj args = Some (ob_name (bl_object b)) ∧
      bake_action args b_active = Some (baked, b_out) ∧
      bl_active_object b' = bl_active_object b_out ∧
      if in_place then b' = b_out
      else ∃ name, set_action_name baked name b_out = Some b'.
Proof.
  apply bake_constraint_to_action_steps in Hrun
    as (b_active & first & last & baked & b_out & Hbase & Hcall & Hlog
        & Hret).
  eexists b_active, _, baked, b_out. split.
  { destruct base_action as [base|]; [|by destruct Hbase].
    by destruct Hbase as (act & _ & Hset & _). }
  split; [exact Hlog|].
  assert (∀ name x y, set_action_name baked name x = Some y →
                      bl_active_object y = bl_active_object x) as Hkeep.
  { intros name x y Hset. unfold set_action_name in Hset.
    bind_step Hset as act Hact. by injection Hset as <-. }
  destruct legacy_interface.
  - split; [done|]. split; [exact Hcall|].
    destruct in_place.
    + destruct Hret as [_ ->]. by split.
    + destruct Hret as (_ & name & _ & Hset). split; [|by exists name].
      by rewrite (Hkeep _ _ _ Hset).
  - split; [done|]. split; [exact Hcall|].
    destruct in_place.
    + destruct Hret as [_ ->]. by split.
    + destruct Hret as (_ & name & _ & Hset). split; [|by exists name].
      by rewrite (Hkeep _ _ _ Hset).
Qed.
End BakeMore.

Lemma single_constraint_bake_is_pose_bake_witness :
  ∃ baked b' call,
    action_baker sample_bake_action false true false (Some 1%positive)
      (sample_blender, []) = Some (Some baked, (b', [call])) ∧
    ba_do_pose (call_args call) = true ∧
    ba_do_object (call_args call) = false ∧
    is_Some (bl_actions b' !! baked).
Proof.
  destruct (action_baker sample_bake_action false true false
              (Some 1%positive) (sample_blender, []))
    as [[ret [b' calls']]|] eqn:Hrun; [|vm_compute in Hrun; discriminate].
  destruct (single_constraint_bake_is_pose_bake sample_bake_action false
              true false (Some 1%positive) sample_blender [] eq_refl)
    as [Hret _].
  destruct (Hret _ _ _ Hrun)
    as (b_active & first & last & baked & b_out & _ & _ & -> & -> & _).
  eexists baked, b', _. split; [reflexivity|]. split; [done|].
  split; [done|]. vm_compute in Hrun. simplify_eq. by eexists.
Defined.

Lemma bake_restores_active_object_witness :
  ∃ ret b' call,
    bake_constraint_to_action sample_bake_action true (Some 1%positive)
      "POSE" false (sample_blender, []) = Some (ret, (b', [call])) ∧
    ba_obj (call_args call) = None ∧
    bl_active_object b' = bl_active_object sample_blender.
Proof.
  destruct (bake_constraint_to_action sample_bake_action true
              (Some 1%positive) "POSE" false (sample_blender, []))
    as [[ret [b' calls']]|] eqn:Hrun; [|vm_compute in Hrun; discriminate].
  destruct (bake_restores_active_object sample_bake_action true _ _ _ _ _
              _ _ _ Hrun)
    as (b_active & args & baked & b_out & _ & -> & Hobj & _ & Hactive & _).
  by eexists ret, b', _.
Defined.


(** ** The dispatcher without baking *)

Section DispatchMore.
Context {V : Type}.
Variable bake_action : BakeArgs → Blender → option (ActionId * Blender).
Variable actions_remove : ActionId → Blender → option Blender.
Variable legacy_interface : bool.
Variable export_transform_action_ : @Exporter V.
Variable export_shapekey_action : @Exporter V.
Variable export_light_action : @Exporter V.
Variable export_camera_action : @Exporter V.

Local Abbreviation Session := (@Session V).
Local Abbreviation Exporter := (@Exporter V).
Local Abbreviation nla_action :=
  (export_nla_action bake_action actions_remove legacy_interface).
Local Abbreviation nla_strips :=
  (export_nla_strips bake_action actions_remove legacy_interface).
Local Abbreviation nla_tracks :=
  (export_nla_tracks bake_action actions_remove legacy_interface).
Local Abbreviation active_export :=
  (export_active_action bake_action actions_remove legacy_interface).
Local Abbreviation export_data :=
  (export_animation_data bake_action actions_remove legacy_interface
     export_transform_action_ export_shapekey_action export_light_action
     export_camera_action).

Lemma export_nla_strips_no_bake has_obj_cst has_pose_cst
    (exporter_func : Exporter) godot_node player strips :
  ∀ exported (s : Session) exported' (s' : Session),
    nla_strips false has_obj_cst has_pose_cst exporter_func godot_node
      player strips (exported, s) = Some (exported', s') →
    ss_blender s' = ss_blender s ∧ ss_calls s' = ss_calls s.
Proof.
  induction strips as [|strip rest IH]; intros exported s exported' s';
    cbn [export_nla_strips].
  - by intros [= <- <-].
  - intros H. bind_step H as [exported1 s1] Hone.
    destruct (IH _ _ _ _ H) as [-> ->].
    destruct strip as [a|]; [|by injection Hone as <- <-].
    cbn [fst] in Hone. case_bool_decide.
    + apply export_nla_action_inv in Hone as (_ & _ & Hone).
      cbn iota in Hone. by destruct Hone as [-> ->].
    + by injection Hone as <- <-.
Qed.

(** Making the active action active again changes nothing. *)
Lemma set_active_action_same (b : Blender) ad a :
  ob_animation_data (bl_object b) = Some ad → ad_action ad = Some a →
  set_active_action (Some a) b = Some b.
Proof.
  destruct b as [[] actions active]. cbn. intros -> Ha.
  destruct ad as [action tracks]. cbn in Ha. subst action. done.
Qed.

(** X11. Unless the action type is 'transform' and the object or one of
    its pose bones has a constraint, [export_animation_data] bakes
    nothing: a call that returns has made no call of [bake_action], and
    the state of the authoring tool (the object with its active action,
    the stored actions with their names, the active object) is the one it
    started from. *)
Theorem no_bake_leaves_blender_untouched (export_settings : ExportSettings)
    (godot_node : NodeRef) (action_type : string) (s s' : Session)
    (Hno : action_type ≠ "transform" ∨
           (has_object_constraint (bl_object (ss_blender s)) = false ∧
            has_pose_constraint (bl_object (ss_blender s)) = false))
    (Hrun : export_data export_settings godot_node action_type s = Some s') :
  ss_blender s' = ss_blender s ∧ ss_calls s' = ss_calls s.
Proof.
  unfold export_animation_data in Hrun.
  destruct (negb (use_export_animation export_settings));
    [by injection Hrun as <-|].
  assert (String.eqb action_type "transform"
          && (has_object_constraint (bl_object (ss_blender s))
              || has_pose_constraint (bl_object (ss_blender s))) = false)
    as Hneed.
  { destruct Hno as [Hne|[-> ->]].
    - apply String.eqb_neq in Hne. by rewrite Hne.
    - apply andb_false_r. }
  rewrite Hneed in Hrun. cbn [negb] in Hrun.
  destruct (ob_animation_data (bl_object (ss_blender s))) as [ad|] eqn:Had;
    [|by injection Hrun as <-].
  cbn [andb] in Hrun.
  bind_step Hrun as [animation_player d] Hplayer.
  bind_step Hrun as exporter_func Hexporter.
  bind_step Hrun as [exported1 s1] Hactive.
  assert (ss_blender s1 = ss_blender s ∧ ss_calls s1 = ss_calls s)
    as [Hb1 Hc1].
  { rewrite orb_false_r in Hactive. case_bool_decide.
    - apply export_active_action_inv in Hactive. cbn iota in Hactive.
      by destruct Hactive as (_ & Hb & Hc).
    - by injection Hactive as _ <-. }
  bind_step Hrun as animation_data Hdata.
  bind_step Hrun as [exported2 s2] Htracks.
  rewrite export_nla_tracks_concat in Htracks.
  apply export_nla_strips_no_bake in Htracks as [Hb2 Hc2].
  destruct (ad_action ad) as [a|] eqn:Ha.
  - unfold update_blender in Hrun.
    rewrite Hb2, Hb1, (set_active_action_same _ _ _ Had Ha) in Hrun.
    injection Hrun as <-. cbn. split; [done|congruence].
  - injection Hrun as <-. split; congruence.
Qed.
End DispatchMore.

Lemma no_bake_leaves_blender_untouched_witness :
  ∃ s',
    sample_export_animation_data sample_settings sample_cube "light"
      (sample_session ["Track To"]
         (Some (mkAnimData (Some 1%positive) [[Some 2%positive]])))
    = Some s' ∧
    ss_blender s'
    = ss_blender (sample_session ["Track To"]
                    (Some (mkAnimData (Some 1%positive) [[Some 2%positive]])))
    ∧ ss_calls s' = [].
Proof.
  destruct (sample_export_animation_data sample_settings sample_cube "light"
              (sample_session ["Track To"]
                 (Some (mkAnimData (Some 1%positive) [[Some 2%positive]]))))
    as [s'|] eqn:Hrun; [|vm_compute in Hrun; discriminate].
  exists s'. split; [done|].
  assert ("light" ≠ "transform") as Htype by done.
  exact (no_bake_leaves_blender_untouched sample_bake_action
           sample_actions_remove false sample_exporter sample_exporter
           sample_exporter sample_exporter sample_settings sample_cube
           "light" _ s' (or_introl Htype) Hrun).
Defined.


(** ** The resources of the exported actions *)

Section ResourceNames.
Context {V : Type}.
Variable bake_action : BakeArgs → Blender → option (ActionId * Blender).
Variable actions_remove : ActionId → Blender → option Blender.
Variable legacy_interface : bool.

Local Abbreviation Session := (@Session V).
Local Abbreviation Exporter := (@Exporter V).
Local Abbreviation bake_constraint :=
  (bake_constraint_to_action bake_action legacy_interface).
Local Abbreviation baker := (action_baker bake_action legacy_interface).
Local Abbreviation nla_action :=
  (export_nla_action bake_action actions_remove legacy_interface).
Local Abbreviation active_export :=
  (export_active_action bake_action actions_remove legacy_interface).

Lemma names_kept_name b b' a name :
  names_kept b b' → get_action_name a b = Some name →
  get_action_name a b' = Some name.
Proof.
  unfold get_action_name. intros Hkept Hname.
  destruct (bl_actions b !! a) as [act|] eqn:Hact; [|done].
  destruct (Hkept _ _ Hact) as (act' & -> & Hsame). cbn in *. congruence.
Qed.

(** A bake of a base action into a new action gives the new action the
    name of the base action without its last characters, as many as the
    suffix has. *)
Lemma bake_constraint_baked_name base bake_type b calls ret b' calls' name :
  bake_keeps_names bake_action →
  get_action_name base b = Some name →
  bake_constraint (Some base) bake_type false (b, calls)
    = Some (ret, (b', calls')) →
  ∃ baked, ret = Some baked ∧
           get_action_name baked b'
           = Some (drop_last (String.length BAKING_SUFFIX) name).
Proof.
  intros Hkeep Hname Hrun.
  apply bake_constraint_to_action_inv in Hrun
    as (args & b_in & baked & b_out & Hbake & _ & Hin & _ & _ & _ & _ & _
        & _ & -> & Hnamed).
  cbn iota in Hnamed. destruct Hnamed as (nm & b_named & Hnm & Hact & Hset).
  exists baked. split; [done|].
  assert (get_action_name base b_named = Some name) as Hbase.
  { apply (names_kept_name b); [|done].
    eapply names_kept_actions; [exact Hin|symmetry; exact Hact|].
    by eapply Hkeep. }
  unfold baked_name in Hnm. rewrite Hbase in Hnm. injection Hnm as <-.
  apply set_action_name_lookup in Hset as ((act' & Hact' & Hname') & _).
  unfold get_action_name. rewrite Hact'. cbn [fmap option_fmap option_map].
  f_equal. exact Hname'.
Qed.

Lemma baker_baked_name has_obj_cst has_pose_cst a b calls ret b' calls'
    name :
  bake_keeps_names bake_action →
  get_action_name a b = Some name →
  baker has_obj_cst has_pose_cst (Some a) (b, calls)
    = Some (ret, (b', calls')) →
  ∃ baked, ret = Some baked ∧
           get_action_name baked b'
           = Some (drop_last (String.length BAKING_SUFFIX) name).
Proof.
  intros Hkeep Hname. unfold action_baker.
  destruct (has_obj_cst && has_pose_cst).
  - intros H. bind_step H as [tmp [b1 calls1]] Hfirst.
    destruct (bake_constraint_baked_name _ _ _ _ _ _ _ _ Hkeep Hname Hfirst)
      as (baked & -> & Hbaked).
    apply bake_constraint_to_action_inv in H
      as (args & b_in & baked2 & b_out & Hbake & _ & Hin & _ & _ & _ & _
          & _ & _ & -> & Hout).
    cbn iota in Hout. exists baked. split; [done|].
    apply (names_kept_name b1); [|done].
    eapply names_kept_actions; [exact Hin|symmetry; exact Hout|].
    by eapply Hkeep.
  - destruct has_pose_cst; [by apply bake_constraint_baked_name|].
    destruct has_obj_cst; [by apply bake_constraint_baked_name|done].
Qed.

Lemma add_baking_suffix_name a b b1 name :
  get_action_name a b = Some name → add_baking_suffix a b = Some b1 →
  get_action_name a b1 = Some (name +:+ BAKING_SUFFIX).
Proof.
  unfold add_baking_suffix. intros -> Hset. cbn in Hset.
  apply set_action_name_lookup in Hset as ((act' & Hact' & Hname') & _).
  unfold get_action_name. by rewrite Hact', <- Hname'.
Qed.

(** What [create_animation_resource] does to the document. *)
Lemma create_animation_resource_doc player a (s s' : Session) resource :
  create_animation_resource player (Some a) s = Some (resource, s') →
  ∃ name,
    get_action_name a (ss_blender s) = Some name ∧
    resource = length (doc_resources (ss_doc s)) ∧
    ss_blender s' = ss_blender s ∧ ss_calls s' = ss_calls s ∧
    doc_resources (ss_doc s')
      = doc_resources (ss_doc s) ++ [AnimationResource_new name] ∧
    doc_nodes (ss_doc s') = doc_nodes (ss_doc s) ∧
    get_node (doc_root (ss_doc s')) player
      = (λ n, mkNode (node_name n) (node_type n) (node_default n)
                     (<[name := resource]> (node_anims n))
                     (node_children n))
        <$> get_node (doc_root (ss_doc s)) player.
Proof.
  unfold create_animation_resource. cbn [mbind option_bind]. intros H.
  bind_step H as name Hname. injection H as <- <-. exists name. cbn.
  repeat split; try done. apply get_node_update_node.
Qed.

Lemma run_exporter_doc (exporter_func : Exporter) godot_node player a
    resource (s s' : Session) :
  run_exporter exporter_func godot_node player (Some a) resource s
    = Some s' →
  ∃ r r',
    doc_resources (ss_doc s) !! resource = Some r ∧
    exporter_func godot_node player (ss_blender s) a r = Some r' ∧
    ss_blender s' = ss_blender s ∧ ss_calls s' = ss_calls s ∧
    doc_root (ss_doc s') = doc_root (ss_doc s) ∧
    doc_nodes (ss_doc s') = doc_nodes (ss_doc s) ∧
    doc_resources (ss_doc s')
      = <[resource := r']> (doc_resources (ss_doc s)).
Proof.
  unfold run_exporter. cbn [mbind option_bind]. intros H.
  bind_step H as r Hr. bind_step H as r' Hr'. injection H as <-.
  exists r, r'. by repeat split.
Qed.

Lemma update_blender_doc f (s s' : Session) :
  update_blender f s = Some s' → ss_doc s' = ss_doc s.
Proof.
  unfold update_blender. intros H. bind_step H as b Hb. by injection H as <-.
Qed.

Lemma insert_snoc {A} (l : list A) (x y : A) :
  <[length l := y]> (l ++ [x]) = l ++ [y].
Proof.
  rewrite insert_app_r_alt by lia. by rewrite Nat.sub_diag.
Qed.

(** X12. An action of the NLA tracks that needs baking is renamed with
    the baking suffix while it is baked, yet its resource carries the
    name the action had before the call: the exporter runs on the baked
    action, another action which bears that name by then, and on a new
    resource of that name; the result is appended to the resources of the
    file, and the player refers to it under that name. Baking keeps the
    names of the stored actions and bakes into an action that was not
    stored before. *)
Theorem baked_resource_named_after_action (has_obj_cst has_pose_cst : bool)
    (exporter_func : Exporter) (godot_node player : NodeRef) (a : ActionId)
    (exported : gset ActionId) (s : Session)
    (exported' : gset ActionId) (s' : Session) (name : string)
    (Hkeep : bake_keeps_names bake_action)
    (Hcreates : bake_creates_action bake_action)
    (Hname : get_action_name a (ss_blender s) = Some name)
    (Hrun : nla_action true has_obj_cst has_pose_cst exporter_func
              godot_node player a (exported, s) = Some (exported', s')) :
  let resource := length (doc_resources (ss_doc s)) in
  (∃ baked b_baked r',
     baked ≠ a ∧
     get_action_name a b_baked = Some (name +:+ BAKING_SUFFIX) ∧
     get_action_name baked b_baked = Some name ∧
     exporter_func godot_node player b_baked baked
       (AnimationResource_new name) = Some r' ∧
     doc_resources (ss_doc s') = doc_resources (ss_doc s) ++ [r']) ∧
  node_anims <$> get_node (doc_root (ss_doc s')) player
  = (λ n, <[name := resource]> (node_anims n))
    <$> get_node (doc_root (ss_doc s)) player.
Proof.
  intros resource. unfold export_nla_action in Hrun.
  bind_step Hrun as [to_export s2] Hbake.
  bind_step Hbake as s1 Hsuffix.
  pose proof (update_blender_doc _ _ _ Hsuffix) as Hdoc1.
  apply update_blender_inv in Hsuffix as (b1 & Hsuffix & ->).
  apply on_blender_inv in Hbake as (b2 & calls2 & Hbake & ->).
  cbn [ss_blender ss_calls ss_doc] in *.
  pose proof (add_baking_suffix_name _ _ _ _ Hname Hsuffix) as Hname1.
  destruct (baker_baked_name _ _ _ _ _ _ _ _ _ Hkeep Hname1 Hbake)
    as (baked & -> & Hbaked).
  destruct (action_baker_names _ _ _ _ _ _ _ _ _ _ Hkeep Hcreates Hbake)
    as (Hkept2 & baked' & [= <-] & Hfresh).
  rewrite drop_last_suffix in Hbaked.
  bind_step Hrun as [anim_resource s3] Hcreate.
  apply create_animation_resource_doc in Hcreate
    as (name' & Hname' & -> & Hb3 & Hc3 & Hres3 & Hnodes3 & Hroot3).
  cbn [ss_blender ss_calls ss_doc] in *.
  rewrite Hbaked in Hname'. injection Hname' as <-.
  bind_step Hrun as s4 Hexport.
  apply run_exporter_doc in Hexport
    as (r & r' & Hr & Hr' & Hb4 & Hc4 & Hroot4 & Hnodes4 & Hres4).
  bind_step Hrun as s6 Hclean. injection Hrun as _ <-.
  cbn [mbind option_bind] in Hclean. bind_step Hclean as s5 Hremove.
  apply update_blender_doc in Hremove, Hclean.
  rewrite Hclean, Hremove. rewrite Hres3 in Hr, Hres4.
  clear Hdoc1.
  rewrite lookup_app_r, Nat.sub_diag in Hr by lia. injection Hr as <-.
  rewrite insert_snoc in Hres4. rewrite Hb3 in Hr'. split.
  - exists baked, b2, r'. split.
    { intros ->. unfold get_action_name in Hname1.
      by rewrite Hfresh in Hname1. }
    split; [by apply (names_kept_name b1)|]. by repeat split.
  - rewrite Hroot4, Hroot3. rewrite <- option_fmap_compose.
    by destruct (get_node (doc_root (ss_doc s)) player).
Qed.

(** X13. [create_animation_resource] never looks for a resource that is
    already there: called twice for the same action, it adds two
    resources of the action's name to the file, at consecutive indices,
    and the player's entry for that name, first bound to the first,
    ends up bound to the second. The authoring tool is not touched. *)
Theorem resources_are_never_shared (player : NodeRef) (a : ActionId)
    (s s1 : Session) (resource : nat)
    (Hfirst : create_animation_resource player (Some a) s
              = Some (resource, s1)) :
  ∃ name s2,
    get_action_name a (ss_blender s) = Some name ∧
    resource = length (doc_resources (ss_doc s)) ∧
    create_animation_resource player (Some a) s1 = Some (S resource, s2) ∧
    doc_resources (ss_doc s2)
      = doc_resources (ss_doc s)
        ++ [AnimationResource_new name; AnimationResource_new name] ∧
    node_anims <$> get_node (doc_root (ss_doc s1)) player
      = (λ n, <[name := resource]> (node_anims n))
        <$> get_node (doc_root (ss_doc s)) player ∧
    node_anims <$> get_node (doc_root (ss_doc s2)) player
      = (λ n, <[name := S resource]> (node_anims n))
        <$> get_node (doc_root (ss_doc s)) player ∧
    ss_blender s2 = ss_blender s.
Proof.
  apply create_animation_resource_doc in Hfirst
    as (name & Hname & -> & Hb1 & Hc1 & Hres1 & Hnodes1 & Hroot1).
  destruct (create_animation_resource player (Some a) s1)
    as [[resource2 s2]|] eqn:Hsecond.
  2:{ unfold create_animation_resource in Hsecond.
      cbn [mbind option_bind] in Hsecond.
      by rewrite Hb1, Hname in Hsecond. }
  pose proof Hsecond as Hsecond'.
  apply create_animation_resource_doc in Hsecond'
    as (name2 & Hname2 & -> & Hb2 & Hc2 & Hres2 & Hnodes2 & Hroot2).
  rewrite Hb1, Hname in Hname2. injection Hname2 as <-.
  exists name, s2. split; [done|]. split; [done|].
  assert (length (doc_resources (ss_doc s1))
          = S (length (doc_resources (ss_doc s)))) as Hlen.
  { rewrite Hres1, length_app. cbn. lia. }
  split; [by rewrite Hlen|].
  split; [by rewrite Hres2, Hres1, <- app_assoc|].
  split.
  { rewrite Hroot1. by destruct (get_node (doc_root (ss_doc s)) player). }
  split; [|congruence].
  rewrite Hroot2, Hroot1, Hlen.
  destruct (get_node (doc_root (ss_doc s)) player); [|done].
  cbn. by rewrite insert_insert_eq.
Qed.

(** X14. The default animation of a player is created at the first
    active action exported to it and shared afterwards. Without baking:
    when the player has a default animation, the exporter runs on that
    resource, which is updated in place, and no resource and no entry is
    added; when it has none, a new resource named after the active action
    is added to the file and entered in the player under that name, it
    becomes the default animation, and the exporter runs on it. No action
    is recorded as exported. *)
Theorem default_animation_is_shared (has_obj_cst has_pose_cst : bool)
    (exporter_func : Exporter) (godot_node player : NodeRef) (a : ActionId)
    (exported : gset ActionId) (s : Session)
    (exported' : gset ActionId) (s' : Session) (n : GodotNode)
    (Hplayer : get_node (doc_root (ss_doc s)) player = Some n)
    (Hrun : active_export false has_obj_cst has_pose_cst exporter_func
              godot_node player (Some a) (exported, s)
            = Some (exported', s')) :
  exported' = exported ∧
  match node_default n with
  | Some resource =>
      doc_root (ss_doc s') = doc_root (ss_doc s) ∧
      ∃ r r',
        doc_resources (ss_doc s) !! resource = Some r ∧
        exporter_func godot_node player (ss_blender s) a r = Some r' ∧
        doc_resources (ss_doc s')
          = <[resource := r']> (doc_resources (ss_doc s))
  | None =>
      let resource := length (doc_resources (ss_doc s)) in
      ∃ name r' n',
        get_action_name a (ss_blender s) = Some name ∧
        exporter_func godot_node player (ss_blender s) a
          (AnimationResource_new name) = Some r' ∧
        doc_resources (ss_doc s') = doc_resources (ss_doc s) ++ [r'] ∧
        get_node (doc_root (ss_doc s')) player = Some n' ∧
        node_default n' = Some resource ∧
        node_anims n' = <[name := resource]> (node_anims n)
  end.
Proof.
  unfold export_active_action in Hrun.
  cbn [mbind option_bind] in Hrun. rewrite Hplayer in Hrun.
  cbn [mbind option_bind] in Hrun.
  destruct (node_default n) as [resource|] eqn:Hdefault.
  - cbn [mbind option_bind] in Hrun. rewrite Hplayer in Hrun.
    cbn [mbind option_bind] in Hrun. rewrite Hdefault in Hrun.
    cbn [mbind option_bind] in Hrun.
    bind_step Hrun as s1 Hexport. injection Hrun as <- <-.
    apply run_exporter_doc in Hexport
      as (r & r' & Hr & Hr' & _ & _ & Hroot & _ & Hres).
    split; [done|]. split; [done|]. by exists r, r'.
  - bind_step Hrun as s1 Hadd.
    unfold add_default_animation_resource in Hadd.
    bind_step Hadd as [resource s0] Hcreate. injection Hadd as <-.
    apply create_animation_resource_doc in Hcreate
      as (name & Hname & -> & Hb0 & Hc0 & Hres0 & Hnodes0 & Hroot0).
    cbn [ss_doc doc_root] in Hrun.
    rewrite get_node_update_node, Hroot0, Hplayer in Hrun.
    cbn [fmap option_fmap option_map mbind option_bind node_default]
      in Hrun.
    bind_step Hrun as s1 Hexport. injection Hrun as <- <-.
    apply run_exporter_doc in Hexport
      as (r & r' & Hr & Hr' & _ & _ & Hroot & _ & Hres).
    cbn [ss_doc ss_blender doc_root doc_resources] in *.
    rewrite Hres0 in Hr, Hres.
    rewrite lookup_app_r, Nat.sub_diag in Hr by lia. injection Hr as <-.
    rewrite insert_snoc in Hres. rewrite Hb0 in Hr'.
    split; [done|]. eexists name, r', _.
    split; [done|]. split; [done|]. split; [done|].
    rewrite Hroot, get_node_update_node, Hroot0, Hplayer.
    by repeat split.
Qed.
End ResourceNames.

Lemma baked_resource_named_after_action_witness :
  ∃ exported' s',
    export_nla_action sample_bake_action sample_actions_remove false true
      true false sample_exporter sample_cube sample_player 2%positive
      (∅, sample_player_session ["Track To"])
    = Some (exported', s') ∧
    doc_resources (ss_doc s') = [AnimationResource_new "Run"].
Proof.
  destruct (export_nla_action sample_bake_action sample_actions_remove
              false true true false sample_exporter sample_cube
              sample_player 2%positive
              (∅, sample_player_session ["Track To"]))
    as [[exported' s']|] eqn:Hrun; [|vm_compute in Hrun; discriminate].
  assert (get_action_name 2%positive
            (ss_blender (sample_player_session ["Track To"]))
          = Some "Run") as Hname by (vm_compute; reflexivity).
  destruct (baked_resource_named_after_action sample_bake_action
              sample_actions_remove false true false sample_exporter
              sample_cube sample_player 2%positive ∅
              (sample_player_session ["Track To"]) exported' s' "Run"
              sample_bake_keeps_names sample_bake_creates_action Hname Hrun)
    as [(baked & b_baked & r' & _ & _ & _ & Hr' & Hres) _].
  exists exported', s'. split; [done|].
  unfold sample_exporter in Hr'. injection Hr' as <-. exact Hres.
Defined.

Lemma resources_are_never_shared_witness :
  ∃ s1 s2,
    create_animation_resource sample_player (Some 1%positive)
      (sample_player_session []) = Some (0%nat, s1) ∧
    create_animation_resource sample_player (Some 1%positive) s1
      = Some (1%nat, s2) ∧
    doc_resources (ss_doc s2)
      = [AnimationResource_new "Walk"; AnimationResource_new "Walk"].
Proof.
  destruct (create_animation_resource sample_player (Some 1%positive)
              (sample_player_session []))
    as [[resource s1]|] eqn:Hfirst; [|vm_compute in Hfirst; discriminate].
  destruct (resources_are_never_shared _ _ _ _ _ Hfirst)
    as (name & s2 & Hname & -> & Hsecond & Hres & _).
  vm_compute in Hname. injection Hname as <-.
  exists s1, s2. split; [done|]. split; [exact Hsecond|exact Hres].
Defined.

Lemma default_animation_is_shared_witness :
  ∃ exported' s',
    export_active_action sample_bake_action sample_actions_remove false
      false false false sample_exporter sample_cube sample_player
      (Some 1%positive) (∅, sample_player_session [])
    = Some (exported', s') ∧
    exported' = ∅ ∧
    doc_resources (ss_doc s') = [AnimationResource_new "Walk"].
Proof.
  destruct (export_active_action sample_bake_action sample_actions_remove
              false false false false sample_exporter sample_cube
              sample_player (Some 1%positive) (∅, sample_player_session []))
    as [[exported' s']|] eqn:Hrun; [|vm_compute in Hrun; discriminate].
  assert (get_node (doc_root (ss_doc (sample_player_session [])))
            sample_player = Some AnimationPlayer_node) as Hplayer by done.
  destruct (default_animation_is_shared sample_bake_action
              sample_actions_remove false false false sample_exporter
              sample_cube sample_player 1%positive ∅
              (sample_player_session []) exported' s'
              AnimationPlayer_node Hplayer Hrun)
    as (Hexported & name & r' & n' & Hname & Hr' & Hres & _).
  vm_compute in Hname. injection Hname as <-.
  unfold sample_exporter in Hr'. injection Hr' as <-.
  exists exported', s'. split; [done|]. split; [exact Hexported|exact Hres].
Defined.


(** ** Value tracks *)

Section AddTracksTotal.
Context {V NodePath : Type}.
Variable veq : V → V → bool.
Variable fps : positive.
Variable transform_components : V → Vector * Quaternion * Vector.

(** Well-formed tracks are added without an exception to a resource that
    has a numeric length. *)
Lemma add_tracks_total (ts : list (@Track V NodePath)) :
  ∀ r : @AnimationResource V NodePath,
    Forall well_formed ts → is_Some (res_length r) →
    ∃ r', add_tracks veq fps transform_components ts r = Some r' ∧
          is_Some (res_length r') ∧
          track_count r' = (track_count r + length ts)%nat.
Proof.
  induction ts as [|t rest IH]; intros r Hwf Hlen.
  - exists r. cbn. repeat split; [done|lia].
  - apply Forall_cons in Hwf as [Hwf Hrest].
    destruct (add_track_total veq fps transform_components t r Hwf Hlen)
      as [r1 Hr1].
    destruct (add_track_effect _ _ _ _ _ _ Hr1) as (l & _ & Hl1 & Hcount).
    destruct (IH r1 Hrest) as (r' & Hrun & Hlen' & Hcount'); [by eexists|].
    exists r'. cbn [add_tracks]. rewrite Hr1. cbn [mbind option_bind].
    split; [done|]. split; [done|]. rewrite Hcount', Hcount. cbn. lia.
Qed.
End AddTracksTotal.

Section ValueTrackFacts.
Variable veq : TrackValue → TrackValue → bool.
Variable fps : positive.
Variable transform_components : TrackValue → Vector * Quaternion * Vector.

Local Abbreviation Track := (@Track TrackValue NodePath).
Local Abbreviation Resource := (@AnimationResource TrackValue NodePath).
Local Abbreviation add_track := (add_track veq fps transform_components).
Local Abbreviation add_tracks := (add_tracks veq fps transform_components).
Local Abbreviation add_simple :=
  (add_simple_value_track veq fps transform_components).
Local Abbreviation add_mapping :=
  (add_track_via_attr_mapping veq fps transform_components).

(** A loop of [add_frame_data] appends the frames and the values. *)
Lemma foldl_add_frame_data {A} (frame : A → Z) (value : A → TrackValue)
    (l : list A) :
  ∀ t : Track,
    foldl (λ track x, add_frame_data (frame x) (value x) track) t l
    = mkTrack (track_type t) (track_path t) (track_interp t)
        (track_frames t ++ map frame l) (track_values t ++ map value l).
Proof.
  induction l as [|x l IH]; intros t; cbn [foldl map].
  - rewrite !app_nil_r. by destruct t.
  - rewrite IH. cbn. by rewrite <- !app_assoc.
Qed.

Lemma build_linear_track track_path map_func fcurve :
  let frames := py_range (get_fcurve_frame_range fcurve).1
                  (get_fcurve_frame_range fcurve).2 in
  build_linear_interp_value_track track_path map_func fcurve
  = mkTrack "value" track_path LINEAR_INTERPOLATION frames
      (map (λ frame, converted map_func (evaluate (vc_curve fcurve) frame))
           frames).
Proof.
  unfold build_linear_interp_value_track.
  destruct map_func as [map_func|]; cbn zeta;
    by rewrite (foldl_add_frame_data (λ frame, frame)), list_fmap_id.
Qed.

Lemma build_const_track track_path map_func fcurve :
  build_const_interp_value_track track_path map_func fcurve
  = mkTrack "value" track_path NEAREST_INTERPOLATION
      (map (λ keyframe, py_int keyframe.1) (keyframe_points fcurve))
      (map (λ keyframe, converted map_func keyframe.2)
           (keyframe_points fcurve)).
Proof.
  unfold build_const_interp_value_track.
  destruct map_func as [map_func|]; cbn zeta;
    by rewrite (foldl_add_frame_data (λ keyframe, py_int keyframe.1)).
Qed.

Lemma build_linear_well_formed track_path map_func fcurve :
  well_formed (build_linear_interp_value_track track_path map_func fcurve).
Proof.
  rewrite build_linear_track. unfold well_formed. cbn.
  by rewrite length_map.
Qed.

Lemma build_const_well_formed track_path map_func fcurve :
  well_formed (build_const_interp_value_track track_path map_func fcurve).
Proof.
  rewrite build_const_track. unfold well_formed. cbn.
  by rewrite !length_map.
Qed.

(** X15. The two builders of value tracks. The linear one samples the
    curve at every integer frame of the range of the curve itself, from
    int(range[0]) to int(range[1]) included, and interpolates linearly;
    the constant one takes the keyframe points only, at the integer part
    of their frame, with nearest interpolation. Both pass the values
    through the converter when there is one. A constant track is
    serialised with a key for every keyframe point, equal neighbours
    included. *)
Theorem value_track_builders (track_path : NodePath)
    (map_func : option (Q → TrackValue)) (fcurve : ValueCurve) :
  let frames := py_range (py_int (fcurve_range fcurve).1)
                  (py_int (fcurve_range fcurve).2 + 1) in
  let points := keyframe_points fcurve in
  let const_track :=
    build_const_interp_value_track track_path map_func fcurve in
  build_linear_interp_value_track track_path map_func fcurve
  = mkTrack "value" track_path LINEAR_INTERPOLATION frames
      (map (λ frame, converted map_func (evaluate (vc_curve fcurve) frame))
           frames) ∧
  const_track
  = mkTrack "value" track_path NEAREST_INTERPOLATION
      (map (λ keyframe, py_int keyframe.1) points)
      (map (λ keyframe, converted map_func keyframe.2) points) ∧
  track_keys veq fps transform_components const_track
  = Some (Some (PKeys
       (mkKeys (map (λ keyframe, frame_time fps (py_int keyframe.1)) points)
               (map (λ _, 1%Q) points) 0
               (map (λ keyframe, converted map_func keyframe.2) points)))).
Proof.
  intros frames points const_track.
  split; [apply build_linear_track|].
  split; [apply build_const_track|].
  subst const_track. rewrite build_const_track.
  unfold track_keys, value_frames_to_keys. cbn.
  rewrite value_keys_loop_retained by (cbn; by rewrite !length_map).
  rewrite drop_0, retained_from_nearest by done. cbn.
  do 3 f_equal. fold points.
  assert (zip (map (λ keyframe, py_int keyframe.1) points)
              (map (λ keyframe, converted map_func keyframe.2) points)
          = map (λ keyframe, (py_int keyframe.1,
                              converted map_func keyframe.2)) points)
    as ->.
  { induction points as [|p ps IH]; [done|]. cbn. by rewrite IH. }
  rewrite <- !list_fmap_compose. f_equal.
Qed.

Lemma add_simple_total fcurves path (build : ValueCurve → Track)
    (r : Resource) :
  (∀ fcurve, well_formed (build fcurve)) → is_Some (res_length r) →
  is_Some (add_simple fcurves path build r).
Proof.
  intros Hwf Hlen. unfold add_simple_value_track.
  destruct (fcurves_find path fcurves); [|by eexists].
  by apply add_track_total.
Qed.

Lemma mapped_track_well_formed fcurves base_node_path items :
  Forall well_formed (omap (mapped_track fcurves base_node_path) items).
Proof.
  induction items as [|item rest IH]; [constructor|].
  cbn [omap list_omap]. unfold mapped_track at 1.
  destruct (attribute_type item =? CONVERT_AS_FLOAT).
  - destruct (fcurves_find _ _); cbn; [|done].
    constructor; [apply build_linear_well_formed|done].
  - destruct (attribute_type item =? CONVERT_AS_BOOL); [|done].
    destruct (fcurves_find _ _); cbn; [|done].
    constructor; [apply build_const_well_formed|done].
Qed.

(** X16. [add_track_via_attr_mapping] adds, in the order of the items,
    one track for every item that is a float or a bool and whose curve
    is among the curves (data path bl_name, array index 0): a linear
    track sampled over the range of the curve for a float, a constant
    track of the keyframe points for a bool, at the path of the base node
    with the attribute gd_name. Items of any other type, and items
    without a curve, add nothing. It does not raise on a resource that
    has a numeric length. *)
Theorem attr_mapping_adds_found_tracks (fcurves : list ValueCurve)
    (conv_quad_tuple_list : list AttributeConvertInfo)
    (base_node_path : NodePath) (r : Resource) :
  let tracks :=
    omap (mapped_track fcurves base_node_path) conv_quad_tuple_list in
  add_mapping fcurves conv_quad_tuple_list base_node_path r
  = add_tracks tracks r ∧
  (length tracks ≤ length conv_quad_tuple_list)%nat ∧
  (is_Some (res_length r) →
   ∃ r', add_mapping fcurves conv_quad_tuple_list base_node_path r = Some r' ∧
         track_count r' = (track_count r + length tracks)%nat).
Proof.
  intros tracks.
  assert (add_mapping fcurves conv_quad_tuple_list base_node_path r
          = add_tracks tracks r) as Heq.
  { subst tracks. revert r.
    induction conv_quad_tuple_list as [|item rest IH]; intros r; [done|].
    cbn [add_track_via_attr_mapping omap list_omap].
    unfold mapped_track at 1, add_simple_value_track.
    destruct (attribute_type item =? CONVERT_AS_FLOAT) eqn:Hfloat.
    - cbn [orb]. destruct (fcurves_find _ _) as [fcurve|]; cbn.
      + destruct (add_track _ r) as [r1|]; [|done]. cbn. apply IH.
      + apply IH.
    - cbn [orb].
      destruct (attribute_type item =? CONVERT_AS_BOOL) eqn:Hbool.
      + destruct (fcurves_find _ _) as [fcurve|]; cbn.
        * destruct (add_track _ r) as [r1|]; [|done]. cbn. apply IH.
        * apply IH.
      + cbn. apply IH. }
  split; [done|]. split.
  { subst tracks. clear Heq.
    induction conv_quad_tuple_list as [|item rest IH]; [done|].
    cbn [omap list_omap length].
    destruct (mapped_track fcurves base_node_path item); cbn [length];
      fold (omap (mapped_track fcurves base_node_path) rest); lia. }
  intros Hlen. rewrite Heq.
  destruct (add_tracks_total veq fps transform_components tracks r)
    as (r' & Hrun & _ & Hcount); [apply mapped_track_well_formed|done|].
  by exists r'.
Qed.
End ValueTrackFacts.


Lemma attr_mapping_adds_found_tracks_witness :
  ∃ r',
    add_track_via_attr_mapping sample_veq 24 sample_components
      [energy_curve; shadow_curve] sample_conversion
      (mkNodePath "." "Lamp" None) (AnimationResource_new "LampAction")
    = Some r' ∧
    track_count r' = 2%nat.
Proof.
  destruct (attr_mapping_adds_found_tracks sample_veq 24 sample_components
              [energy_curve; shadow_curve] sample_conversion
              (mkNodePath "." "Lamp" None)
              (AnimationResource_new "LampAction"))
    as (_ & _ & Htotal).
  destruct Htotal as (r' & Hrun & Hcount); [by eexists|].
  exists r'. split; [exact Hrun|exact Hcount].
Defined.

(** ** Shape keys *)

Lemma match_key_block_here (name tail : string) :
  name ≠ "" →
  has_char (Ascii.ascii_of_nat 34) name = false →
  match_key_block_pattern
    (("key_blocks[" +:+ dquote)
     +:+ (name +:+ String (Ascii.ascii_of_nat 34) ("]" +:+ tail)))
  = Some name.
Proof.
  intros Hname Hquote. unfold match_key_block_pattern.
  rewrite strip_prefix_app. cbn [mbind option_bind].
  rewrite span_unquoted_app by done.
  destruct name as [|c name]; [done|].
  change (String (Ascii.ascii_of_nat 34) ("]" +:+ tail))
    with ((dquote +:+ "]") +:+ tail).
  by rewrite strip_prefix_app.
Qed.

Lemma key_block_path_app (name rest : string) :
  key_block_path name +:+ rest
  = ("key_blocks[" +:+ dquote)
    +:+ (name +:+ String (Ascii.ascii_of_nat 34) ("]" +:+ rest)).
Proof. unfold key_block_path. by rewrite !append_assoc. Qed.

Lemma search_key_block_here (name rest : string) :
  name ≠ "" →
  has_char (Ascii.ascii_of_nat 34) name = false →
  search_key_block_pattern (key_block_path name +:+ rest) = Some name.
Proof.
  intros Hname Hquote. rewrite key_block_path_app.
  pose proof (match_key_block_here name rest Hname Hquote) as Hmatch.
  destruct (("key_blocks[" +:+ dquote) +:+ _) eqn:Hpath in Hmatch |- *;
    cbn [search_key_block_pattern]; by rewrite Hmatch.
Qed.

Lemma search_key_block_unquoted (s : string) :
  has_char (Ascii.ascii_of_nat 34) s = false →
  search_key_block_pattern s = None.
Proof.
  assert (∀ t, has_char (Ascii.ascii_of_nat 34) t = false →
               match_key_block_pattern t = None) as Hmatch.
  { intros t Ht. unfold match_key_block_pattern.
    destruct (strip_prefix _ t) as [s1|] eqn:H1; [|done].
    apply strip_prefix_Some in H1 as ->. exfalso.
    rewrite has_char_app in Ht.
    change (has_char _ ("key_blocks[" +:+ dquote)) with true in Ht.
    done. }
  induction s as [|c s IH]; intros Hs; cbn [search_key_block_pattern].
  - by rewrite Hmatch.
  - rewrite (Hmatch _ Hs). apply IH.
    cbn in Hs. by apply orb_false_iff in Hs as [_ Hs].
Qed.

Section ShapeKeys.
Variable veq : TrackValue → TrackValue → bool.
Variable fps : positive.
Variable transform_components : TrackValue → Vector * Quaternion * Vector.

Local Abbreviation Resource := (@AnimationResource TrackValue NodePath).
Local Abbreviation add_track := (add_track veq fps transform_components).
Local Abbreviation add_tracks := (add_tracks veq fps transform_components).
Local Abbreviation export_curve :=
  (export_shapekey_curve veq fps transform_components).
Local Abbreviation export_curves :=
  (export_shapekey_curves veq fps transform_components).
Local Abbreviation export :=
  (export_shapekey_action veq fps transform_components).

Lemma export_shapekey_curve_track godot_node player_parent_path first last
    fcurve (r : Resource) :
  ¬ unnamed_value_curve fcurve →
  export_curve godot_node player_parent_path first last fcurve r
  = match shapekey_track godot_node player_parent_path first last fcurve
    with
    | Some track => add_track track r
    | None => Some r
    end.
Proof.
  intros Hnamed.
  unfold export_shapekey_curve, shapekey_track, unnamed_value_curve in *.
  destruct (split_fcurve_data_path (data_path fcurve))
    as [object_path attribute].
  cbn [fst snd] in Hnamed.
  destruct (String.eqb attribute "value") eqn:Hattr; [|done].
  apply String.eqb_eq in Hattr as ->.
  destruct (search_key_block_pattern object_path) as [name|];
    [|by destruct Hnamed].
  cbn [mbind option_bind].
  by rewrite (foldl_add_frame_data (λ frame, frame)), list_fmap_id.
Qed.

Lemma shapekey_tracks_well_formed godot_node player_parent_path first last
    fcurves :
  Forall well_formed
    (omap (shapekey_track godot_node player_parent_path first last)
          fcurves).
Proof.
  induction fcurves as [|fcurve rest IH]; [constructor|].
  cbn [omap list_omap].
  destruct (shapekey_track _ _ _ _ fcurve) as [track|] eqn:Htrack; [|done].
  constructor; [|done].
  unfold shapekey_track in Htrack.
  destruct (split_fcurve_data_path _) as [object_path attribute].
  destruct (String.eqb attribute "value"); [|done].
  destruct (search_key_block_pattern object_path); [|done].
  injection Htrack as <-. unfold well_formed. cbn. by rewrite length_map.
Qed.

(** X17. [export_shapekey_action] adds one linear value track for every
    curve whose attribute is value, in the order of the curves: at the
    path of the node with the attribute blend_shapes/<name>, <name>
    being the key block that the object path of the curve names, with the
    value of the curve at every frame of the action; other curves add
    nothing. The key block of a path key_blocks["<name>"] is <name>. When
    a value curve names no key block, as a path without a double quote,
    the export raises. *)
Theorem shapekey_curves_give_value_tracks (godot_node : TargetNode)
    (player_parent_path : string) (action : Action) (r : Resource) :
  let first_frame := (get_action_frame_range action).1 in
  let last_frame := (get_action_frame_range action).2 in
  let tracks :=
    omap (shapekey_track godot_node player_parent_path first_frame
            last_frame) (action_fcurves action) in
  (Forall (λ fcurve, ¬ unnamed_value_curve fcurve) (action_fcurves action) →
   export godot_node player_parent_path action r = add_tracks tracks r ∧
   (is_Some (res_length r) →
    ∃ r', export godot_node player_parent_path action r = Some r' ∧
          track_count r' = (track_count r + length tracks)%nat)) ∧
  (Exists unnamed_value_curve (action_fcurves action) →
   export godot_node player_parent_path action r = None) ∧
  (∀ name rest,
     name ≠ "" → has_char (Ascii.ascii_of_nat 34) name = false →
     search_key_block_pattern (key_block_path name +:+ rest) = Some name) ∧
  (∀ object_path,
     has_char (Ascii.ascii_of_nat 34) object_path = false →
     search_key_block_pattern object_path = None).
Proof.
  intros first_frame last_frame tracks.
  unfold export_shapekey_action.
  destruct (get_action_frame_range action) as [first last] eqn:Hrange.
  cbn [fst snd] in *. subst first_frame last_frame.
  split; [|split; [|split]].
  - intros Hnamed.
    assert (export_curves godot_node player_parent_path first last
              (action_fcurves action) r = add_tracks tracks r) as Heq.
    { subst tracks. revert r.
      induction Hnamed as [|fcurve rest Hcurve Hrest IH]; intros r; [done|].
      cbn [export_shapekey_curves omap list_omap].
      rewrite export_shapekey_curve_track by done.
      destruct (shapekey_track _ _ _ _ fcurve) as [track|];
        cbn [add_tracks mbind option_bind].
      - destruct (add_track track r) as [r1|]; [|done]. cbn. apply IH.
      - apply IH. }
    split; [done|]. intros Hlen. rewrite Heq.
    destruct (add_tracks_total veq fps transform_components tracks r)
      as (r' & Hrun & _ & Hcount);
      [apply shapekey_tracks_well_formed|done|].
    by exists r'.
  - intros Hunnamed. clear tracks. revert r.
    induction Hunnamed as [fcurve rest [Hattr Hsearch]|fcurve rest _ IH];
      intros r; cbn [export_shapekey_curves].
    + unfold export_shapekey_curve.
      destruct (split_fcurve_data_path (data_path fcurve))
        as [object_path attribute].
      cbn [fst snd] in Hattr, Hsearch. subst attribute.
      by rewrite Hsearch.
    + destruct (export_curve _ _ _ _ fcurve r) as [r1|]; [|done].
      cbn [mbind option_bind]. apply IH.
  - apply search_key_block_here.
  - apply search_key_block_unquoted.
Qed.
End ShapeKeys.

Lemma shapekey_curves_give_value_tracks_witness :
  ∃ r',
    export_shapekey_action sample_veq 24 sample_components sample_mesh_node "."
      smile_action (AnimationResource_new "KeyAction") = Some r' ∧
    track_count r' = 1%nat.
Proof.
  destruct (shapekey_curves_give_value_tracks sample_veq 24 sample_components
              sample_mesh_node "." smile_action
              (AnimationResource_new "KeyAction"))
    as (Hnamed & _).
  destruct Hnamed as (_ & Htotal).
  { repeat constructor; intros [Hattr Hsearch]; vm_compute in Hattr, Hsearch;
      discriminate. }
  destruct Htotal as (r' & Hrun & Hcount); [by eexists|].
  exists r'. split; [exact Hrun|]. rewrite Hcount. by vm_compute.
Defined.


(** ** The field of view of a camera *)

Section CameraFov.
Variable veq : TrackValue → TrackValue → bool.
Variable fps : positive.
Variable transform_components : TrackValue → Vector * Quaternion * Vector.
Variable fov_of_ratio : Q → Q.

Local Abbreviation Resource := (@AnimationResource TrackValue NodePath).
Local Abbreviation add_track := (add_track veq fps transform_components).
Local Abbreviation add_simple :=
  (add_simple_value_track veq fps transform_components).
Local Abbreviation add_mapping :=
  (add_track_via_attr_mapping veq fps transform_components).
Local Abbreviation export :=
  (export_camera_action veq fps transform_components fov_of_ratio).

(** A list that is replaced when empty by a list that is empty as well. *)
Lemma map_or_default {A B} (f g : A → B) (l : list A) :
  match map f l with
  | [] => map g l
  | _ => map f l
  end = map f l.
Proof. by destruct l. Qed.

(** The loop over the focal lengths, on lists made frame by frame. *)
Lemma fov_values_frames (sensor lens : Z → Q) (frames : list Z) :
  ∀ done_frames,
    fov_values fov_of_ratio (map sensor (done_frames ++ frames))
      (length done_frames) (map lens frames)
    = if existsb (λ frame, Qeq_bool (lens frame) 0) frames then None
      else Some (map (λ frame, fov_of_ratio (sensor frame / 2 / lens frame))
                     frames).
Proof.
  induction frames as [|frame rest IH]; intros done_frames; [done|].
  cbn [map fov_values existsb].
  rewrite list_lookup_fmap, lookup_app_r, Nat.sub_diag by lia.
  cbn [lookup list_lookup fmap option_fmap option_map mbind option_bind].
  destruct (Qeq_bool (lens frame) 0); [done|]. cbn [orb].
  specialize (IH (done_frames ++ [frame])).
  rewrite <- app_assoc, length_app in IH. cbn [app length] in IH.
  replace (length done_frames + 1)%nat with (S (length done_frames)) in IH
    by lia.
  rewrite IH. by destruct (existsb _ rest).
Qed.

(** X18. [export_camera_action] adds the tracks of the attribute mapping
    and the projection track, and then a track of the field of view
    exactly when a curve lens or a curve sensor_width exists. That track
    has a key at every frame of the action, computed from the sensor
    width and the focal length at the frame, each taken from its curve
    when it has one and from the setting of the camera otherwise; the
    export raises (division by zero) when the focal length is zero at a
    frame of the action. *)
Theorem camera_fov_track (camera_node : TargetNode)
    (attribute_conversion : list AttributeConvertInfo)
    (player_parent_path : string) (blender_cam : Camera)
    (action : ValueAction) (r : Resource) :
  let fcurves := va_fcurves action in
  let frames := py_range (get_action_frame_range (plain_action action)).1
                  (get_action_frame_range (plain_action action)).2 in
  let base_node_path :=
    mkNodePath player_parent_path (gn_path camera_node) None in
  let lens := lens_at blender_cam fcurves in
  let sensor_width := sensor_width_at blender_cam fcurves in
  export camera_node attribute_conversion player_parent_path blender_cam
    action r
  = (r ← add_mapping fcurves attribute_conversion base_node_path r;
     r ← add_simple fcurves "type"
           (build_const_interp_value_track
              (new_copy "projection" base_node_path)
              (Some (λ x, VInt (if Qeq_bool x 0 then 0 else 1)))) r;
     match fcurves_find "lens" fcurves,
           fcurves_find "sensor_width" fcurves with
     | None, None => Some r
     | _, _ =>
         if existsb (λ frame, Qeq_bool (lens frame) 0) frames then None
         else add_track
                (mkTrack "value" (new_copy "fov" base_node_path)
                   LINEAR_INTERPOLATION frames
                   (map (λ frame,
                           VFloat (fov_of_ratio
                                     (sensor_width frame / 2 / lens frame)))
                        frames)) r
     end).
Proof.
  intros fcurves frames base_node_path lens sensor_width.
  unfold export_camera_action.
  destruct (get_action_frame_range (plain_action action)) as [first last].
  cbn [fst snd] in frames. fold fcurves base_node_path frames.
  destruct (add_mapping fcurves attribute_conversion base_node_path r)
    as [r1|]; [|done].
  cbn [mbind option_bind].
  destruct (add_simple fcurves "type" _ r1) as [r2|]; [|done].
  cbn [mbind option_bind].
  subst lens sensor_width. unfold lens_at, sensor_width_at.
  fold fcurves.
  assert (∀ sensor lens,
            fov_values fov_of_ratio (map sensor frames) 0 (map lens frames)
            = if existsb (λ frame, Qeq_bool (lens frame) 0) frames then None
              else Some (map (λ frame,
                                fov_of_ratio (sensor frame / 2 / lens frame))
                             frames)) as Hfov.
  { intros sensor lens. exact (fov_values_frames sensor lens frames []). }
  destruct (fcurves_find "lens" fcurves) as [lens_curve|],
           (fcurves_find "sensor_width" fcurves) as [sensor_curve|];
    [| | |done].
  - rewrite !map_or_default, Hfov.
    destruct (existsb _ frames); [done|]. cbn [mbind option_bind].
    by rewrite <- list_fmap_compose.
  - rewrite map_or_default.
    rewrite (Hfov (λ _, cam_sensor_width blender_cam)).
    destruct (existsb _ frames); [done|]. cbn [mbind option_bind].
    by rewrite <- list_fmap_compose.
  - rewrite map_or_default.
    rewrite (Hfov _ (λ _, cam_lens blender_cam)).
    destruct (existsb _ frames); [done|]. cbn [mbind option_bind].
    by rewrite <- list_fmap_compose.
Qed.
End CameraFov.


(** ** The colours of a light *)

Lemma od_mem_keys {A} key (m : list (string * A)) :
  od_mem key m = bool_decide (key ∈ m.*1).
Proof.
  unfold od_mem. induction m as [|[k v] rest IH]; cbn [od_lookup].
  - by rewrite bool_decide_eq_false_2 by apply not_elem_of_nil.
  - cbn [fmap list_fmap fst]. destruct (String.eqb k key) eqn:Hk.
    + apply String.eqb_eq in Hk as ->. symmetry.
      apply bool_decide_eq_true_2, list_elem_of_here.
    + rewrite IH. apply String.eqb_neq in Hk.
      apply bool_decide_ext. rewrite elem_of_cons.
      split; [by right|]. intros [Heq|Hin]; [by subst|done].
Qed.

Lemma od_set_new_key {A} key (v : A) (m : list (string * A)) :
  od_mem key m = false → (od_set key v m).*1 = m.*1 ++ [key].
Proof.
  unfold od_mem. induction m as [|[k old] rest IH];
    cbn [od_set od_lookup]; [done|].
  destruct (String.eqb k key); [done|].
  intros H. cbn. by rewrite IH.
Qed.

Lemma first_seen_snoc (l : list string) (a : string) :
  first_seen (l ++ [a])
  = if bool_decide (a ∈ first_seen l) then first_seen l
    else first_seen l ++ [a].
Proof. unfold first_seen. by rewrite foldl_app. Qed.

Lemma elem_of_first_seen (l : list string) (a : string) :
  a ∈ first_seen l ↔ a ∈ l.
Proof.
  revert a. induction l as [|b l IH] using rev_ind; intros a; [done|].
  rewrite first_seen_snoc, elem_of_app, list_elem_of_singleton.
  case_bool_decide as Hb.
  - rewrite IH. split; [by left|]. intros [Hin| ->]; [done|]. by apply IH.
  - by rewrite elem_of_app, list_elem_of_singleton, IH.
Qed.

(** The colour of an attribute that no curve animates is black. *)
Lemma colour_at_unseen attribute curves frame :
  attribute ∉ omap color_attribute curves →
  colour_at attribute curves frame = Some (mkVector 0 0 0).
Proof.
  unfold colour_at.
  induction curves as [|fcurve rest IH] using rev_ind; [done|].
  rewrite omap_app, foldl_app. cbn [foldl omap list_omap].
  intros Hnew. apply not_elem_of_app in Hnew as [Hrest Hcurve].
  rewrite (IH Hrest). cbn [mbind option_bind].
  case_bool_decide as Hattr; [|done].
  rewrite Hattr in Hcurve. exfalso. apply Hcurve. apply list_elem_of_here.
Qed.

Lemma colour_at_snoc attribute curves fcurve frame :
  colour_at attribute (curves ++ [fcurve]) frame
  = (c ← colour_at attribute curves frame;
     if bool_decide (color_attribute fcurve = Some attribute)
     then Vector_set (array_index fcurve) (evaluate fcurve frame) c
     else Some c).
Proof. unfold colour_at. by rewrite foldl_app. Qed.

(** The loop over the frames of the action, on the colours of one
    attribute, from position [j] on. *)
Lemma update_colors_from fcurve first :
  ∀ n j color_list,
    length color_list = (j + n)%nat →
    (array_index fcurve < 3)%nat →
    ∃ color_list',
      update_colors fcurve first
        (map (λ i, first + Z.of_nat i) (seq j n)) color_list
      = Some color_list' ∧
      length color_list' = length color_list ∧
      ∀ k c, color_list !! k = Some c →
        color_list' !! k
        = if bool_decide (j ≤ k)%nat
          then Vector_set (array_index fcurve)
                 (evaluate fcurve (first + Z.of_nat k)) c
          else Some c.
Proof.
  induction n as [|n IH]; intros j color_list Hlen Hindex.
  - exists color_list. split; [done|]. split; [done|].
    intros k c Hk. apply lookup_lt_Some in Hk as Hlt.
    by rewrite bool_decide_eq_false_2 by lia.
  - cbn [seq map update_colors].
    replace (first + Z.of_nat j - first) with (Z.of_nat j) by lia.
    unfold py_index. rewrite (proj2 (Z.leb_le 0 (Z.of_nat j))) by lia.
    rewrite Nat2Z.id.
    assert (is_Some (color_list !! j)) as [c0 Hc0].
    { apply lookup_lt_is_Some. lia. }
    rewrite Hc0. cbn [mbind option_bind].
    assert (is_Some (Vector_set (array_index fcurve)
                       (evaluate fcurve (first + Z.of_nat j)) c0))
      as [c0' Hc0'].
    { unfold Vector_set.
      destruct (array_index fcurve) as [|[|[|i]]]; eauto. lia. }
    rewrite Hc0'. cbn [mbind option_bind].
    destruct (IH (S j) (<[j := c0']> color_list))
      as (color_list' & Hrun & Hlen' & Hlookup);
      [rewrite length_insert; lia|done|].
    exists color_list'. split; [done|].
    rewrite length_insert in Hlen'. split; [done|].
    intros k c Hk. destruct (decide (k = j)) as [->|Hne].
    + rewrite (Hlookup j c0').
      * rewrite bool_decide_eq_false_2 by lia.
        rewrite bool_decide_eq_true_2 by lia. congruence.
      * apply list_lookup_insert_eq. by eapply lookup_lt_Some.
    + rewrite (Hlookup k c) by (by rewrite list_lookup_insert_ne).
      by rewrite (bool_decide_ext (S j ≤ k)%nat (j ≤ k)%nat) by lia.
Qed.

Lemma color_attribute_Some fcurve attribute :
  color_attribute fcurve = Some attribute →
  (split_fcurve_data_path (data_path fcurve)).2 = attribute ∧
  attribute ∈ ["color"; "shadow_color"].
Proof.
  unfold color_attribute. case_bool_decide; [|done]. by intros [= <-].
Qed.

(** One curve of a light action. *)
Lemma collect_color_sampled first last curves fcurve m :
  (is_Some (color_attribute fcurve) → (array_index fcurve < 3)%nat) →
  colours_sampled first last curves m →
  ∃ m', collect_color first last fcurve m = Some m' ∧
        colours_sampled first last (curves ++ [fcurve]) m'.
Proof.
  intros Hindex [Hkeys Hlists]. unfold collect_color.
  destruct (color_attribute fcurve) as [attribute|] eqn:Hattr.
  - pose proof (color_attribute_Some _ _ Hattr) as [Hsplit Hcolor].
    destruct (split_fcurve_data_path (data_path fcurve))
      as [object_path attribute0].
    cbn [snd] in Hsplit. subst attribute0.
    rewrite (bool_decide_eq_true_2 _ Hcolor).
    set (n := Z.to_nat (last - first)).
    set (m1 := if negb (od_mem attribute m)
               then od_set attribute (replicate n (mkVector 0 0 0)) m
               else m).
    assert (∃ color_list,
              od_lookup attribute m1 = Some color_list ∧
              length color_list = n ∧
              (∀ k c, color_list !! k = Some c →
                 colour_at attribute curves (first + Z.of_nat k) = Some c) ∧
              m1.*1 = first_seen (omap color_attribute (curves ++ [fcurve]))
              ∧ ∀ a, a ≠ attribute → od_lookup a m1 = od_lookup a m)
      as (color_list & Hm1 & Hlen & Hsampled & Hkeys1 & Hother1).
    { rewrite omap_app. cbn [omap list_omap]. rewrite Hattr.
      rewrite first_seen_snoc, <- Hkeys, <- od_mem_keys. subst m1.
      destruct (od_mem attribute m) eqn:Hmem; cbn [negb].
      - unfold od_mem in Hmem.
        destruct (od_lookup attribute m) as [color_list|] eqn:Hl; [|done].
        destruct (Hlists _ _ Hl) as [Hlen Hsampled].
        exists color_list. by repeat split.
      - exists (replicate n (mkVector 0 0 0)).
        rewrite od_lookup_set, String.eqb_refl.
        split; [done|]. split; [apply length_replicate|]. split.
        { intros k c Hk. apply lookup_replicate in Hk as [-> _].
          apply colour_at_unseen. rewrite <- elem_of_first_seen, <- Hkeys.
          intros Hin. rewrite od_mem_keys in Hmem.
          by apply bool_decide_eq_false in Hmem. }
        split; [by apply od_set_new_key|].
        intros a Ha. rewrite od_lookup_set.
        apply not_eq_sym, String.eqb_neq in Ha. by rewrite Ha. }
    rewrite Hm1. cbn [mbind option_bind]. unfold py_range. fold n.
    destruct (update_colors_from fcurve first n 0 color_list)
      as (color_list' & -> & Hlen' & Hlookup); [lia|by auto|].
    cbn [mbind option_bind]. eexists. split; [done|]. split.
    + rewrite od_set_keys by (by eexists). done.
    + intros a l. rewrite od_lookup_set.
      destruct (String.eqb attribute a) eqn:Ha.
      * apply String.eqb_eq in Ha as <-. intros [= <-].
        split; [lia|]. intros k c' Hk.
        assert (is_Some (color_list !! k)) as [c Hc].
        { apply lookup_lt_is_Some. rewrite <- Hlen'.
          by eapply lookup_lt_Some. }
        rewrite (Hlookup k c Hc), bool_decide_eq_true_2 in Hk by lia.
        rewrite colour_at_snoc, (Hsampled k c Hc). cbn [mbind option_bind].
        by rewrite Hattr, bool_decide_eq_true_2.
      * apply String.eqb_neq in Ha. rewrite Hother1 by done. intros Hl.
        destruct (Hlists _ _ Hl) as [Hlen0 Hsampled0].
        split; [done|]. intros k c Hk.
        rewrite colour_at_snoc, (Hsampled0 k c Hk). cbn [mbind option_bind].
        rewrite Hattr, bool_decide_eq_false_2; [done|]. by intros [= ->].
  - assert ((split_fcurve_data_path (data_path fcurve)).2
            ∉ ["color"; "shadow_color"]) as Hother.
    { unfold color_attribute in Hattr. by case_bool_decide. }
    destruct (split_fcurve_data_path (data_path fcurve))
      as [object_path attribute0].
    cbn [snd] in Hother. rewrite (bool_decide_eq_false_2 _ Hother).
    exists m. split; [done|]. split.
    + rewrite omap_app. cbn [omap list_omap]. rewrite Hattr.
      by rewrite app_nil_r.
    + intros a l Hl. destruct (Hlists _ _ Hl) as [Hlen Hsampled].
      split; [done|]. intros k c Hk.
      rewrite colour_at_snoc, (Hsampled k c Hk). cbn [mbind option_bind].
      by rewrite Hattr, bool_decide_eq_false_2.
Qed.

Lemma collect_colors_sampled first last rest :
  ∀ curves m,
    Forall (λ fcurve, is_Some (color_attribute fcurve) →
                      (array_index fcurve < 3)%nat) rest →
    colours_sampled first last curves m →
    ∃ m', collect_colors first last rest m = Some m' ∧
          colours_sampled first last (curves ++ rest) m'.
Proof.
  induction rest as [|fcurve rest IH]; intros curves m Hindex Hm.
  - exists m. by rewrite app_nil_r.
  - apply Forall_cons in Hindex as [Hcurve Hrest].
    destruct (collect_color_sampled _ _ _ _ _ Hcurve Hm) as (m1 & Hone & Hm1).
    destruct (IH _ _ Hrest Hm1) as (m' & Hrun & Hm').
    exists m'. cbn [collect_colors]. rewrite Hone. cbn [mbind option_bind].
    split; [done|]. by rewrite <- app_assoc in Hm'.
Qed.

Section LightColours.
Variable veq : TrackValue → TrackValue → bool.
Variable fps : positive.
Variable transform_components : TrackValue → Vector * Quaternion * Vector.

Local Abbreviation Resource := (@AnimationResource TrackValue NodePath).
Local Abbreviation add_tracks := (add_tracks veq fps transform_components).
Local Abbreviation add_simple :=
  (add_simple_value_track veq fps transform_components).
Local Abbreviation add_mapping :=
  (add_track_via_attr_mapping veq fps transform_components).
Local Abbreviation emit :=
  (emit_color_tracks veq fps transform_components).
Local Abbreviation export :=
  (export_light_action veq fps transform_components).

Lemma emit_color_tracks_add_tracks base_node_path first last items :
  ∀ r : Resource,
    emit base_node_path first last items r
    = add_tracks (map (color_track base_node_path (py_range first last))
                      items) r.
Proof.
  induction items as [|[attribute color_list] rest IH]; intros r; [done|].
  cbn [emit_color_tracks map add_tracks]. unfold color_track at 1.
  cbn [fst snd].
  destruct (add_track _ _ _ _ r) as [r1|]; [|done].
  cbn [mbind option_bind]. apply IH.
Qed.

(** X19. [export_light_action] adds the track of use_negative and the
    tracks of the attribute mapping, then one colour track for each of
    the attributes color and shadow_color that has a curve, in the order
    in which the curves first name them, at light_color or shadow_color
    of the node, with a colour at every frame of the action. The colour
    at a frame starts as black, and gets from every curve of the
    attribute, in order, the component the curve names: a component
    without a curve is 0 at every frame, whatever the lamp has there.
    The component index of every colour curve is below 3. *)
Theorem light_colour_tracks (light_node : TargetNode)
    (attribute_conversion : list AttributeConvertInfo)
    (player_parent_path : string) (action : ValueAction) (r : Resource)
    (Hindex : Forall (λ fcurve, is_Some (color_attribute fcurve) →
                                (array_index fcurve < 3)%nat)
                     (map vc_curve (va_fcurves action))) :
  let curves := map vc_curve (va_fcurves action) in
  let first_frame := (get_action_frame_range (plain_action action)).1 in
  let last_frame := (get_action_frame_range (plain_action action)).2 in
  let frames := py_range first_frame last_frame in
  let base_node_path :=
    mkNodePath player_parent_path (gn_path light_node) None in
  ∃ color_frame_values_map : ColorMap,
    color_frame_values_map.*1 = first_seen (omap color_attribute curves) ∧
    (∀ attribute color_list,
       od_lookup attribute color_frame_values_map = Some color_list →
       Forall2 (λ frame c, colour_at attribute curves frame = Some c)
               frames color_list) ∧
    export light_node attribute_conversion player_parent_path action r
    = (r ← add_simple (va_fcurves action) "use_negative"
             (build_const_interp_value_track
                (new_copy "light_negative" base_node_path)
                (Some (λ x, VBool (Qgt_bool x 0)))) r;
       r ← add_mapping (va_fcurves action) attribute_conversion
             base_node_path r;
       add_tracks (map (color_track base_node_path frames)
                       color_frame_values_map) r).
Proof.
  intros curves first_frame last_frame frames base_node_path.
  unfold export_light_action.
  destruct (get_action_frame_range (plain_action action)) as [first last].
  cbn [fst snd] in first_frame, last_frame.
  subst first_frame last_frame. fold curves base_node_path.
  destruct (collect_colors_sampled first last curves [] [] Hindex)
    as (m & Hcollect & Hkeys & Hlists).
  { split; [done|]. intros a l Hl. done. }
  cbn [app] in Hkeys, Hlists. exists m. split; [done|]. split.
  - intros attribute color_list Hl.
    destruct (Hlists _ _ Hl) as [Hlen Hsampled].
    apply Forall2_same_length_lookup. split.
    { subst frames. unfold py_range. rewrite length_map, length_seq. lia. }
    intros k frame c Hframe Hc. subst frames. unfold py_range in Hframe.
    rewrite list_lookup_fmap in Hframe.
    destruct (seq 0 (Z.to_nat (last - first)) !! k) as [i|] eqn:Hi; [|done].
    apply lookup_seq in Hi as [-> _]. injection Hframe as <-.
    by apply Hsampled.
  - destruct (add_simple (va_fcurves action) "use_negative" _ r) as [r1|];
      [|done].
    cbn [mbind option_bind].
    destruct (add_mapping (va_fcurves action) attribute_conversion
                base_node_path r1) as [r2|]; [|done].
    cbn [mbind option_bind]. rewrite Hcollect. cbn [mbind option_bind].
    apply emit_color_tracks_add_tracks.
Qed.
End LightColours.

Lemma light_colour_tracks_witness :
  ∃ color_frame_values_map : ColorMap,
    color_frame_values_map.*1 = ["color"] ∧
    ∀ color_list,
      od_lookup "color" color_frame_values_map = Some color_list →
      Forall2 (λ frame c,
                 colour_at "color" (map vc_curve (va_fcurves redden_action))
                   frame = Some c)
              [1; 2] color_list.
Proof.
  destruct (light_colour_tracks sample_veq 24 sample_components sample_lamp_node
              sample_conversion "." redden_action
              (AnimationResource_new "LampAction"))
    as (m & Hkeys & Hlists & _).
  { repeat constructor. }
  exists m. split; [exact Hkeys|].
  intros color_list Hl. exact (Hlists "color" color_list Hl).
Defined.


(** ** The transform track of a pose bone *)

Lemma append_nil_r (s : string) : s +:+ "" = s.
Proof.
  induction s as [|c s IH]; [done|].
  change (String c (s +:+ "") = String c s). by rewrite IH.
Qed.

Lemma bone_name_of_pose_path (bone : string) :
  bone ≠ "" → has_char (Ascii.ascii_of_nat 34) bone = false →
  blender_path_to_bone_name (pose_bone_path bone) = Some bone.
Proof.
  intros Hbone Hquote. unfold blender_path_to_bone_name.
  rewrite <- (append_nil_r (pose_bone_path bone)), pose_bone_path_app.
  pose proof (match_bone_pattern_here "." bone "" eq_refl Hbone Hquote)
    as Hmatch.
  destruct ("pose" +:+ _) eqn:Hpath in Hmatch |- *;
    cbn [search_bone_pattern]; by rewrite Hmatch.
Qed.

Lemma bone_curve_keyed (bone : string) (fcurve : FCurve) :
  bone_curve bone fcurve → keyed_curve (pose_bone_path bone) fcurve.
Proof.
  intros (attribute & Hpath & Hattr & Hindex). exists attribute.
  split; [|done]. rewrite Hpath. unfold split_fcurve_data_path.
  change ("." +:+ attribute) with (String "." attribute).
  by rewrite rsplit_once_app by (by apply attribute_no_dot).
Qed.

Section BoneTransform.
Variable to_translation : Matrix → Vector.
Variable to_scale : Matrix → Vector.
Variable to_quaternion : Matrix → Quaternion.
Variable to_euler : Matrix → string → option Euler.
Variable quaternion_to_matrix : Quaternion → Matrix3.
Variable euler_to_matrix : Euler → Matrix3.
Variable fix_directional_transform : Matrix → Matrix.
Variable matrix_eq : Matrix → Matrix → bool.
Variable transform_components : Matrix → Vector * Quaternion * Vector.
Variable fps : positive.

Local Abbreviation to_matrix :=
  (TransformFrame_to_matrix quaternion_to_matrix euler_to_matrix).
Local Abbreviation collect_one :=
  (collect_fcurve to_translation to_scale to_quaternion to_euler).
Local Abbreviation collect_all :=
  (collect_fcurves to_translation to_scale to_quaternion to_euler).
Local Abbreviation export :=
  (export_transform_action to_translation to_scale to_quaternion to_euler
     quaternion_to_matrix euler_to_matrix fix_directional_transform matrix_eq
     transform_components fps).
Local Abbreviation default_of pose_bone :=
  (TransformFrame_new to_translation to_scale to_quaternion to_euler
     (bone_matrix_basis pose_bone) (bone_rotation_mode pose_bone)).

(** A transform curve met when the frames of its path are in the map. *)
Lemma collect_keyed_curve blender_object godot_node first last fcurve
    object_path attribute frame_values log :
  split_fcurve_data_path (data_path fcurve) = (object_path, attribute) →
  attribute ∈ TransformFrame_ATTRIBUTES →
  length frame_values = Z.to_nat (last - first) →
  collect_one blender_object godot_node first last fcurve
    ([(object_path, frame_values)], log)
  = (frame_values' ← update_each attribute fcurve first frame_values;
     Some ([(object_path, frame_values')], log)).
Proof.
  intros Hsplit Hattr Hlen. unfold collect_fcurve. rewrite Hsplit.
  rewrite (bool_decide_eq_true_2 _ Hattr).
  unfold od_mem. cbn [od_lookup]. rewrite String.eqb_refl.
  cbn [negb andb mbind option_bind]. unfold py_range.
  rewrite (update_frames_from object_path _ _ _ _ 0 _ frame_values).
  - rewrite drop_0, Z.add_0_r. cbn [take app].
    destruct (update_each _ _ _ frame_values); [|done].
    cbn [mbind option_bind od_set]. by rewrite String.eqb_refl.
  - cbn [od_lookup]. by rewrite String.eqb_refl.
  - cbn. lia.
Qed.

Lemma sampled_snoc_keyed default_frame first last curves fcurve object_path
    frame_values :
  keyed_curve object_path fcurve →
  sampled default_frame first last curves frame_values →
  ∃ attribute frame_values',
    split_fcurve_data_path (data_path fcurve) = (object_path, attribute) ∧
    attribute ∈ TransformFrame_ATTRIBUTES ∧
    update_each attribute fcurve first frame_values = Some frame_values' ∧
    sampled default_frame first last (curves ++ [fcurve]) frame_values'.
Proof.
  intros (attribute & Hsplit & Hattr & Hindex) [Hlen Hsampled].
  destruct (update_each_total attribute fcurve frame_values first)
    as [frame_values' Hupd].
  { intros k f _. by apply update_in_range. }
  exists attribute, frame_values'. split; [done|]. split; [done|].
  split; [done|]. split.
  { by rewrite (update_each_length _ _ _ _ _ Hupd). }
  intros k f' Hk.
  assert (is_Some (frame_values !! k)) as [f Hf].
  { apply lookup_lt_is_Some.
    rewrite <- (update_each_length _ _ _ _ _ Hupd).
    by eapply lookup_lt_Some. }
  unfold sample_curves. rewrite foldl_app. cbn [foldl].
  fold (sample_curves curves (first + Z.of_nat k) default_frame).
  rewrite (Hsampled k f Hf). cbn [mbind option_bind].
  rewrite Hsplit. cbn [snd].
  by rewrite <- (update_each_lookup _ _ _ _ _ _ _ Hupd Hf).
Qed.

Lemma collect_all_keyed_curves blender_object godot_node first last
    default_frame object_path rest :
  ∀ curves frame_values log,
    Forall (keyed_curve object_path) rest →
    sampled default_frame first last curves frame_values →
    ∃ frame_values',
      collect_all blender_object godot_node first last rest
        ([(object_path, frame_values)], log)
      = Some ([(object_path, frame_values')], log) ∧
      sampled default_frame first last (curves ++ rest) frame_values'.
Proof.
  induction rest as [|fcurve rest IH]; intros curves frame_values log
    Hvalid Hsampled.
  - exists frame_values. by rewrite app_nil_r.
  - apply Forall_cons in Hvalid as [Hcurve Hvalid].
    destruct (sampled_snoc_keyed _ _ _ _ _ _ _ Hcurve Hsampled)
      as (attribute & fv1 & Hsplit & Hattr & Hupd & Hsampled1).
    destruct (IH (curves ++ [fcurve]) fv1 log Hvalid Hsampled1)
      as (fv' & Hrest & Hsampled').
    exists fv'. rewrite <- app_assoc in Hsampled'. split; [|done].
    cbn [collect_fcurves].
    rewrite (collect_keyed_curve _ _ _ _ _ _ _ _ _ Hsplit Hattr)
      by apply Hsampled.
    by rewrite Hupd.
Qed.

(** X21. An action made of transform curves of one pose bone, over a
    non-empty frame range, on a Skeleton that has the bone. The pose bone
    is the one at the index that pose.bones.find returns for the bone
    name. When the default frame of the pose bone (its matrix_basis, in
    its rotation mode) can be built, the action is exported as one
    transform track: its path leads from the parent of the player to the
    node and names the bone as the Skeleton does, its frames are the
    frames of the action, and its value at a frame is the matrix of the
    default frame updated by every curve, in order, with the value of the
    curve at that frame; the track is added by [add_track], which
    compares the matrices with their [==]; nothing is logged. When the
    default frame cannot be built ([to_euler] raises for the rotation mode
    of the bone), the export raises. *)
Theorem bone_curves_give_one_track (godot_node : TargetNode)
    (player_parent_path : string) (blender_object : BlenderObject)
    (action : Action) (r : @AnimationResource Matrix NodePath)
    (bone : string) (pose_bone : PoseBone)
    (Hcurves : action_fcurves action ≠ [])
    (Hvalid : Forall (bone_curve bone) (action_fcurves action))
    (Hbone : bone ≠ "")
    (Hquote : has_char (Ascii.ascii_of_nat 34) bone = false)
    (Hrange : (get_action_frame_range action).1
              < (get_action_frame_range action).2)
    (Hskeleton : gn_type godot_node = "Skeleton")
    (Hid : gn_find_bone_id godot_node bone ≠ -1)
    (Hpose : py_index (ob_pose_bones blender_object)
               (bones_find bone (ob_pose_bones blender_object))
             = Some pose_bone)
    (Hlength : is_Some (res_length r)) :
  let frame_range := py_range (get_action_frame_range action).1
                       (get_action_frame_range action).2 in
  match (if String.eqb (bone_rotation_mode pose_bone) "QUATERNION"
         then to_euler (bone_matrix_basis pose_bone) "XYZ"
         else to_euler (bone_matrix_basis pose_bone)
                (bone_rotation_mode pose_bone)) with
  | Some rotation_euler =>
      let default_frame :=
        mkTransformFrame
          (to_translation (bone_matrix_basis pose_bone))
          (to_scale (bone_matrix_basis pose_bone))
          (bone_rotation_mode pose_bone)
          (to_quaternion (bone_matrix_basis pose_bone))
          rotation_euler in
      ∃ frames r',
        Forall2 (λ frame f,
                   sample_curves (action_fcurves action) frame
                     default_frame = Some f)
                frame_range frames ∧
        add_track matrix_eq fps transform_components
          (Track_new "transform"
             (mkNodePath player_parent_path (gn_path godot_node)
                (Some (gn_find_bone_name godot_node bone)))
             frame_range (map to_matrix frames))
          r = Some r' ∧
        export godot_node player_parent_path blender_object action r
          = Some (r', [])
  | None =>
      export godot_node player_parent_path blender_object action r = None
  end.
Proof.
  intros frame_range. subst frame_range.
  unfold export_transform_action.
  destruct (get_action_frame_range action) as [first last] eqn:Hfr.
  cbn [fst snd] in *.
  assert (Forall (keyed_curve (pose_bone_path bone)) (action_fcurves action))
    as Hkeyed.
  { eapply Forall_impl; [exact Hvalid|]. apply bone_curve_keyed. }
  destruct (action_fcurves action) as [|fcurve rest] eqn:Hfc; [done|].
  clear Hcurves.
  pose proof (Forall_inv Hkeyed) as (attribute & Hsplit & Hattr & _).
  set (n := Z.to_nat (last - first)).
  assert (collect_one blender_object godot_node first last fcurve ([], [])
          = match default_of pose_bone with
            | Some default_frame =>
                collect_one blender_object godot_node first last fcurve
                  ([(pose_bone_path bone, replicate n default_frame)], [])
            | None => None
            end) as Hfirst.
  { unfold collect_fcurve at 1. rewrite Hsplit.
    rewrite (bool_decide_eq_true_2 _ Hattr).
    unfold od_mem. cbn [od_lookup].
    cbn [negb andb]. unfold init_transform_frame_values.
    change (String.prefix "pose" (pose_bone_path bone)) with true.
    cbn iota. rewrite (bone_name_of_pose_path bone Hbone Hquote).
    cbn [mbind option_bind]. rewrite Hskeleton.
    change (String.eqb "Skeleton" "Skeleton") with true. cbn [negb].
    apply Z.eqb_neq in Hid. rewrite Hid, Hpose.
    cbn [mbind option_bind]. fold n.
    destruct (default_of pose_bone) as [default_frame|]; [|done].
    cbn [mbind option_bind].
    unfold collect_fcurve. rewrite Hsplit.
    rewrite (bool_decide_eq_true_2 _ Hattr).
    unfold od_mem. cbn [od_lookup]. rewrite String.eqb_refl.
    cbn [negb andb].
    destruct n as [|n'] eqn:Hn; [lia|].
    cbn [replicate mbind option_bind od_set]. by rewrite app_nil_r. }
  pose proof (eq_refl (default_of pose_bone)) as Hdefault.
  unfold TransformFrame_new in Hdefault at 2.
  destruct (if String.eqb (bone_rotation_mode pose_bone) "QUATERNION"
            then _ else _) as [rotation_euler|];
    cbn [mbind option_bind] in Hdefault; rewrite Hdefault in Hfirst.
  2:{ cbn [collect_fcurves]. by rewrite Hfirst. }
  set (default_frame := mkTransformFrame _ _ _ _ rotation_euler) in *.
  destruct (collect_all_keyed_curves blender_object godot_node first last
              default_frame (pose_bone_path bone) (fcurve :: rest) []
              (replicate n default_frame) [] Hkeyed)
    as (frames & Hcollect & [Hlen Hsampled]).
  { split; [apply length_replicate|].
    intros k f Hk. by apply lookup_replicate in Hk as [-> _]. }
  exists frames.
  set (t := Track_new "transform"
              (mkNodePath player_parent_path (gn_path godot_node)
                 (Some (gn_find_bone_name godot_node bone)))
              (py_range first last) (map to_matrix frames)).
  destruct (add_track_total matrix_eq fps transform_components t r)
    as [r' Hr']; [|done|].
  { unfold well_formed, t. cbn. unfold py_range.
    rewrite !length_map, length_seq. lia. }
  exists r'. split; [|split; [done|]].
  - apply Forall2_same_length_lookup. split.
    { unfold py_range. rewrite length_map, length_seq. lia. }
    intros k frame f Hframe Hf. unfold py_range in Hframe.
    rewrite list_lookup_fmap in Hframe.
    destruct (seq 0 (Z.to_nat (last - first)) !! k) as [i|] eqn:Hi; [|done].
    apply lookup_seq in Hi as [-> _]. injection Hframe as <-.
    by apply Hsampled.
  - cbn [collect_fcurves] in Hcollect |- *. rewrite Hfirst, Hcollect.
    cbn [mbind option_bind emit_tracks]. unfold emit_track.
    change (String.eqb (pose_bone_path bone) "") with false.
    change (String.prefix "pose" (pose_bone_path bone)) with true.
    cbn iota. rewrite (bone_name_of_pose_path bone Hbone Hquote).
    cbn [mbind option_bind]. fold t. by rewrite Hr'.
Qed.
End BoneTransform.

Lemma spine_action_curves :
  Forall (bone_curve "Spine") (action_fcurves spine_action).
Proof.
  repeat constructor. exists "location". repeat split; [|cbn; lia].
  repeat constructor.
Qed.

Lemma bone_curves_give_one_track_witness :
  (∃ r', sample_export sample_skeleton "." sample_armature spine_action
           (AnimationResource_new "ArmatureAction")
         = Some (r', []) ∧
         track_count r' = 1%nat) ∧
  sample_export sample_skeleton "." axis_angle_armature spine_action
    (AnimationResource_new "ArmatureAction") = None.
Proof.
  split.
  - pose proof (bone_curves_give_one_track
                  (λ m, mkVector (e3 (row0 m)) (e3 (row1 m)) (e3 (row2 m)))
                  (λ _, mkVector 1 1 1) (λ _, mkQuat 1 0 0 0)
                  sample_to_euler
                  (λ _, identity3) (λ _, identity3) (λ m, m) Matrix_close
                  sample_components 24
                  sample_skeleton "." sample_armature spine_action
                  (AnimationResource_new "ArmatureAction") "Spine"
                  (mkPoseBone "Spine" [] (to_4x4 identity3) "QUATERNION")
                  ltac:(done) spine_action_curves ltac:(done) eq_refl
                  ltac:(by vm_compute) eq_refl ltac:(done) eq_refl
                  ltac:(by eexists)) as Hexport.
    cbv zeta in Hexport.
    destruct (if String.eqb _ _ then _ else _) as [rotation_euler|] eqn:Hnew
      in Hexport; [|vm_compute in Hnew; discriminate].
    destruct Hexport as (frames & r' & _ & _ & Hexport).
    exists r'. split; [exact Hexport|].
    vm_compute in Hexport. by injection Hexport as <-.
  - exact (bone_curves_give_one_track
             (λ m, mkVector (e3 (row0 m)) (e3 (row1 m)) (e3 (row2 m)))
             (λ _, mkVector 1 1 1) (λ _, mkQuat 1 0 0 0)
             sample_to_euler
             (λ _, identity3) (λ _, identity3) (λ m, m) Matrix_close
             sample_components 24
             sample_skeleton "." axis_angle_armature spine_action
             (AnimationResource_new "ArmatureAction") "Spine"
             (mkPoseBone "Spine" [] (to_4x4 identity3) "AXIS_ANGLE")
             ltac:(done) spine_action_curves ltac:(done) eq_refl
             ltac:(by vm_compute) eq_refl ltac:(done) eq_refl
             ltac:(by eexists)).
Defined.


(** ** Which player the lookup returns *)

Lemma find_player_child_first (children : list GodotNode) i :
  find_player_child children = Some i →
  ∀ j child, (j < i)%nat → children !! j = Some child →
             node_type child ≠ "AnimationPlayer".
Proof.
  unfold find_player_child. intros H.
  apply fmap_Some in H as ([k child] & Hfind & ->).
  apply list_find_Some in Hfind as (_ & _ & Hfirst).
  intros j c Hj Hc. by eapply Hfirst.
Qed.

Lemma nearest_player_first root (node_ptr player : NodeRef) :
  nearest_player root node_ptr = Some (Some player) →
  ∃ i base before after n,
    player = i :: base ∧
    ancestors node_ptr = before ++ base :: after ∧
    Forall (λ ref, ∀ k, node_type <$> get_node root (k :: ref)
                        ≠ Some "AnimationPlayer") before ∧
    get_node root base = Some n ∧
    find_player_child (node_children n) = Some i.
Proof.
  induction node_ptr as [|j up IH]; cbn [nearest_player]; intros H.
  - cbn [get_node] in H.
    destruct (find_player_child _) as [i|] eqn:Hfind; [|done].
    injection H as <-. by exists i, [], [], [], root.
  - destruct (get_node root (j :: up)) as [n|] eqn:Hn; [|done].
    destruct (find_player_child _) as [i|] eqn:Hfind.
    + injection H as <-. exists i, (j :: up), [], (ancestors up), n.
      by repeat split.
    + destruct (IH H) as (i & base & before & after & n' & -> & Hanc
                          & Hbefore & Hbase & Hfirst).
      exists i, base, ((j :: up) :: before), after, n'.
      split; [done|]. split.
      { cbn [ancestors app]. by rewrite Hanc. }
      split; [|done]. constructor; [|done].
      intros k. change (get_node root (k :: j :: up)) with
        (match get_node root (j :: up) with
         | Some parent => node_children parent !! k
         | None => None
         end).
      rewrite Hn. destruct (node_children n !! k) as [child|] eqn:Hchild;
        [|done].
      cbn. intros [= Htype].
      by eapply find_player_child_None in Hfind.
Qed.

Section NearestPlayer.
Context {V NodePath : Type}.
Local Abbreviation Document := (@Document V NodePath).

(** X20. In the modes that search, a player that is found is the nearest
    one and the first one: the node it hangs under is the first node of
    the search path (the scene root in mode SCENE_ANIMATION, the node
    itself and then its ancestors otherwise) that has an AnimationPlayer
    among its children, and it is the first such child of that node;
    the scene is left as it was. A player that is created becomes the
    last child of the first node of the search path: the scene gets that
    one node, registered last, and is otherwise as it was. *)
Theorem nearest_player_is_returned (mode : string) (godot_node : NodeRef)
    (d d' : Document) (player : NodeRef)
    (Hmode : mode ≠ "ACTIONS")
    (Hrun : get_animation_player mode godot_node d = Some (player, d')) :
  (Exists (has_player_child d) (search_path mode godot_node) →
   ∃ i base before after,
     player = i :: base ∧
     search_path mode godot_node = before ++ base :: after ∧
     Forall (λ ref, ¬ has_player_child d ref) before ∧
     is_player d player ∧
     (∀ j, (j < i)%nat → ¬ is_player d (j :: base)) ∧
     d' = d) ∧
  (¬ Exists (has_player_child d) (search_path mode godot_node) →
   ∃ base rest n,
     search_path mode godot_node = base :: rest ∧
     get_node (doc_root d) base = Some n ∧
     player = length (node_children n) :: base ∧
     doc_nodes d' = doc_nodes d ++ [player] ∧
     get_node (doc_root d') base
       = Some (set_children (node_children n ++ [AnimationPlayer_node]) n) ∧
     player_created base player d d').
Proof.
  assert (∀ base n i,
            get_node (doc_root d) base = Some n →
            find_player_child (node_children n) = Some i →
            is_player d (i :: base) ∧
            ∀ j, (j < i)%nat → ¬ is_player d (j :: base)) as Hchild.
  { intros base n i Hn Hfind. unfold is_player. cbn [get_node].
    rewrite Hn. split.
    - apply find_player_child_Some in Hfind as (child & -> & Htype).
      cbn. by rewrite Htype.
    - intros j Hj.
      destruct (node_children n !! j) as [child|] eqn:Hc; [|done].
      cbn. intros [= Htype].
      by eapply (find_player_child_first _ _ Hfind j child). }
  assert (∀ base n,
            get_node (doc_root d) base = Some n →
            find_player_child (node_children n) = None →
            ¬ has_player_child d base) as Hnone.
  { intros base n Hn Hfind [i Hi]. unfold is_player in Hi.
    cbn [get_node] in Hi. rewrite Hn in Hi.
    destruct (node_children n !! i) as [child|] eqn:Hc; [|done].
    cbn in Hi. injection Hi as Htype.
    by eapply find_player_child_None in Hfind. }
  unfold get_animation_player, search_path in *.
  apply String.eqb_neq in Hmode. rewrite Hmode in *.
  destruct (String.eqb mode "SCENE_ANIMATION").
  - rewrite walk_to_root_nil in *. cbn [get_node mbind option_bind] in Hrun.
    destruct (find_player_child (node_children (doc_root d)))
      as [i|] eqn:Hfind; cbn [fmap option_fmap option_map] in Hrun.
    + injection Hrun as <- <-. split.
      * intros _. destruct (Hchild [] (doc_root d) i eq_refl Hfind).
        by exists i, [], [], [].
      * intros Hnex. exfalso. apply Hnex. constructor.
        exists i. by apply (Hchild [] (doc_root d) i).
    + bind_step Hrun as [player0 root'] Hnew. injection Hrun as <- <-.
      pose proof (new_player_created _ _ _ _ Hnew) as Hcreated.
      apply new_child_lookup in Hnew as (n & Hn & -> & Hbase & _).
      split.
      * intros Hex. apply Exists_cons in Hex as [Hex|Hex].
        -- by apply (Hnone [] (doc_root d)) in Hex.
        -- by apply Exists_nil in Hex.
      * intros _. by exists [], [], n.
  - bind_step Hrun as [found base0] Hsearch.
    bind_step Hsearch as found0 Hnearest. injection Hsearch as <- <-.
    destruct found0 as [player0|].
    + injection Hrun as <- <-.
      apply nearest_player_first in Hnearest
        as (i & base & before & after & n & -> & Hanc & Hbefore & Hn
            & Hfind).
      destruct (Hchild base n i Hn Hfind) as [Hplayer Hfirst].
      split.
      * intros _. exists i, base, before, after.
        repeat split; try done.
        eapply Forall_impl; [exact Hbefore|].
        intros ref Href [k Hk]. by apply (Href k).
      * intros Hnex. exfalso. apply Hnex. rewrite Hanc.
        apply Exists_app. right. constructor. by exists i.
    + bind_step Hrun as [player0 root'] Hnew. injection Hrun as <- <-.
      pose proof (new_player_created _ _ _ _ Hnew) as Hcreated.
      apply new_child_lookup in Hnew as (n & Hn & -> & Hbase & _).
      split.
      * intros Hex. apply Exists_exists in Hex as (ref & Hin & k & Hk).
        by eapply nearest_player_none in Hk.
      * intros _. exists godot_node, (match godot_node with
                                      | [] => []
                                      | _ :: up => ancestors up
                                      end), n.
        split; [by destruct godot_node|]. done.
Qed.
End NearestPlayer.

Lemma nearest_player_is_returned_witness :
  get_animation_player "SQUASHED_ACTIONS" sample_lamp scene_with_two_players
  = Some ([1%nat; 0%nat], scene_with_two_players) ∧
  ∃ before after,
    search_path "SQUASHED_ACTIONS" sample_lamp
    = before ++ sample_cube :: after ∧
    Forall (λ ref, ¬ has_player_child scene_with_two_players ref) before.
Proof.
  assert (get_animation_player "SQUASHED_ACTIONS" sample_lamp
            scene_with_two_players
          = Some ([1%nat; 0%nat], scene_with_two_players)) as Hrun by done.
  split; [exact Hrun|].
  assert ("SQUASHED_ACTIONS" ≠ "ACTIONS") as Hmode by done.
  destruct (nearest_player_is_returned "SQUASHED_ACTIONS" sample_lamp
              scene_with_two_players scene_with_two_players
              [1%nat; 0%nat] Hmode Hrun) as [Hfound _].
  destruct Hfound as (i & base & before & after & [= <- <-] & Hpath
                      & Hbefore & _).
  { apply Exists_cons. right. apply Exists_cons. left. by exists 1%nat. }
  by exists before, after.
Defined.


(** ** Action types without an exporter *)

Section UnknownActionType.
Context {V : Type}.
Variable bake_action : BakeArgs → Blender → option (ActionId * Blender).
Variable actions_remove : ActionId → Blender → option Blender.
Variable legacy_interface : bool.
Variable export_transform_action_ : @Exporter V.
Variable export_shapekey_action : @Exporter V.
Variable export_light_action : @Exporter V.
Variable export_camera_action : @Exporter V.

Local Abbreviation export_data :=
  (export_animation_data bake_action actions_remove legacy_interface
     export_transform_action_ export_shapekey_action export_light_action
     export_camera_action).

(** X22. For an action type that is none of transform, shapekey, light
    and camera, [export_animation_data] returns at once, leaving
    everything as it is, when the export of animations is switched off or
    the object has no animation data; in every other case it raises, on
    the missing key of [ACTION_EXPORTER_MAP]. *)
Theorem unknown_action_type_raises (export_settings : ExportSettings)
    (godot_node : NodeRef) (action_type : string) (s : @Session V)
    (Htype : action_type ∉ ["transform"; "shapekey"; "light"; "camera"]) :
  export_data export_settings godot_node action_type s
  = if negb (use_export_animation export_settings) then Some s
    else match ob_animation_data (bl_object (ss_blender s)) with
         | None => Some s
         | Some _ => None
         end.
Proof.
  rewrite !not_elem_of_cons in Htype.
  destruct Htype as (Ht & Hs & Hl & Hc & _).
  assert (ACTION_EXPORTER_MAP export_transform_action_
            export_shapekey_action export_light_action export_camera_action
            !! action_type = None) as Hmap.
  { unfold ACTION_EXPORTER_MAP.
    rewrite !lookup_insert_ne by (by apply not_eq_sym).
    apply lookup_empty. }
  unfold export_animation_data.
  destruct (negb (use_export_animation export_settings)); [done|].
  apply String.eqb_neq in Ht. rewrite Ht. cbn [andb negb].
  destruct (ob_animation_data (bl_object (ss_blender s))); [|done].
  cbn [andb].
  destruct (get_animation_player _ _ _) as [[animation_player d]|]; [|done].
  cbn [mbind option_bind]. by rewrite Hmap.
Qed.
End UnknownActionType.

Lemma unknown_action_type_raises_witness :
  sample_export_animation_data sample_settings sample_cube "material"
    (sample_session [] (Some (mkAnimData (Some 1%positive) []))) = None.
Proof.
  assert ("material" ∉ ["transform"; "shapekey"; "light"; "camera"])
    as Htype.
  { rewrite !not_elem_of_cons. repeat split; try done. apply not_elem_of_nil. }
  exact (unknown_action_type_raises sample_bake_action
           sample_actions_remove false sample_exporter sample_exporter
           sample_exporter sample_exporter sample_settings sample_cube
           "material"
           (sample_session [] (Some (mkAnimData (Some 1%positive) [])))
           Htype).
Defined.

(** ** Curves under another object path *)

Lemma collect_fcurves_app
    (to_translation : Matrix → Vector) (to_scale : Matrix → Vector)
    (to_quaternion : Matrix → Quaternion)
    (to_euler : Matrix → string → option Euler)
    blender_object godot_node first last l1 l2 :
  ∀ st,
    collect_fcurves to_translation to_scale to_quaternion to_euler
      blender_object godot_node first last (l1 ++ l2) st
    = collect_fcurves to_translation to_scale to_quaternion to_euler
        blender_object godot_node first last l1 st
      ≫= collect_fcurves to_translation to_scale to_quaternion to_euler
           blender_object godot_node first last l2.
Proof.
  induction l1 as [|fcurve rest IH]; intros st; [done|].
  cbn [app collect_fcurves].
  destruct (collect_fcurve _ _ _ _ _ _ _ _ fcurve st) as [st1|]; [|done].
  cbn [mbind option_bind]. apply IH.
Qed.

Lemma od_set_first_path key frame_values (m : FrameMap) :
  m ≠ [] → first_path (od_set key frame_values m) = first_path m ∧
           od_set key frame_values m ≠ [].
Proof.
  destruct m as [|[k v] rest]; [done|]. intros _. cbn [od_set].
  by destruct (String.eqb k key).
Qed.

Lemma update_frames_first_path object_path attribute fcurve first frames :
  ∀ m m',
    update_frames object_path attribute fcurve first frames m = Some m' →
    m ≠ [] → first_path m' = first_path m ∧ m' ≠ [].
Proof.
  induction frames as [|frame rest IH]; intros m m'; cbn [update_frames].
  - by intros [= <-].
  - destruct (od_lookup object_path m) as [frame_values|]; [|done].
    cbn [mbind option_bind].
    destruct (py_index frame_values (frame - first)) as [f|]; [|done].
    cbn [mbind option_bind].
    destruct (TransformFrame_update _ _ _ f) as [f'|]; [|done].
    cbn [mbind option_bind]. intros Hrest Hm.
    destruct (od_set_first_path object_path
                (<[(if 0 <=? frame - first
                    then Z.to_nat (frame - first)
                    else Z.to_nat (frame - first
                                   + Z.of_nat (length frame_values)))
                   := f']> frame_values) m Hm) as [Hfirst Hne].
    destruct (IH _ _ Hrest Hne) as [Hfirst' Hne']. split; [|done].
    by rewrite Hfirst'.
Qed.

Section ForeignPaths.
Variable to_translation : Matrix → Vector.
Variable to_scale : Matrix → Vector.
Variable to_quaternion : Matrix → Quaternion.
Variable to_euler : Matrix → string → option Euler.
Variable quaternion_to_matrix : Quaternion → Matrix3.
Variable euler_to_matrix : Euler → Matrix3.
Variable fix_directional_transform : Matrix → Matrix.
Variable matrix_eq : Matrix → Matrix → bool.
Variable transform_components : Matrix → Vector * Quaternion * Vector.
Variable fps : positive.

Local Abbreviation to_matrix :=
  (TransformFrame_to_matrix quaternion_to_matrix euler_to_matrix).
Local Abbreviation collect_one :=
  (collect_fcurve to_translation to_scale to_quaternion to_euler).
Local Abbreviation collect_all :=
  (collect_fcurves to_translation to_scale to_quaternion to_euler).
Local Abbreviation emit_all :=
  (emit_tracks quaternion_to_matrix euler_to_matrix
     fix_directional_transform matrix_eq transform_components fps).
Local Abbreviation export :=
  (export_transform_action to_translation to_scale to_quaternion to_euler
     quaternion_to_matrix euler_to_matrix fix_directional_transform matrix_eq
     transform_components fps).
Local Abbreviation default_of blender_object :=
  (TransformFrame_new to_translation to_scale to_quaternion to_euler
     (ob_matrix_basis blender_object) (ob_rotation_mode blender_object)).

(** One curve leaves the first path of a map that is not empty. *)
Lemma collect_one_first_path blender_object godot_node first last fcurve
    m log m' log' :
  collect_one blender_object godot_node first last fcurve (m, log)
    = Some (m', log') →
  m ≠ [] → first_path m' = first_path m ∧ m' ≠ [].
Proof.
  unfold collect_fcurve. intros Hone Hm.
  destruct (split_fcurve_data_path (data_path fcurve))
    as [object_path attribute].
  destruct (negb (od_mem object_path m)
            && bool_decide (attribute ∈ TransformFrame_ATTRIBUTES)).
  - destruct (init_transform_frame_values _ _ _ _ object_path blender_object
                godot_node first last) as [[frames warnings]|]; [|done].
    cbn [mbind option_bind] in Hone.
    destruct frames as [[|f fs]|]; cbn [mbind option_bind] in Hone;
      try (by injection Hone as <- <-).
    destruct (bool_decide (attribute ∈ TransformFrame_ATTRIBUTES));
      [|injection Hone as <- <-; by apply od_set_first_path].
    destruct (update_frames _ _ _ _ _ _) as [m1|] eqn:Hupd; [|done].
    injection Hone as <- <-.
    destruct (od_set_first_path object_path (f :: fs) m Hm) as [Hfirst Hne].
    destruct (update_frames_first_path _ _ _ _ _ _ _ Hupd Hne)
      as [Hfirst' Hne'].
    split; [|done]. by rewrite Hfirst'.
  - cbn [mbind option_bind] in Hone.
    destruct (bool_decide (attribute ∈ TransformFrame_ATTRIBUTES));
      [|by injection Hone as <- <-].
    destruct (update_frames _ _ _ _ _ _) as [m1|] eqn:Hupd; [|done].
    injection Hone as <- <-.
    by apply (update_frames_first_path _ _ _ _ _ _ _ Hupd).
Qed.

Lemma collect_all_first_path blender_object godot_node first last fcurves :
  ∀ m log m' log',
    collect_all blender_object godot_node first last fcurves (m, log)
      = Some (m', log') →
    m ≠ [] → first_path m' = first_path m.
Proof.
  induction fcurves as [|fcurve rest IH]; intros m log m' log';
    cbn [collect_fcurves].
  - by intros [= <- <-].
  - destruct (collect_one _ _ _ _ fcurve (m, log)) as [[m1 log1]|] eqn:Hone;
      [|done].
    cbn [mbind option_bind]. intros Hrest Hm.
    destruct (collect_one_first_path _ _ _ _ _ _ _ _ _ Hone Hm)
      as [Hfirst Hne].
    by rewrite (IH _ _ _ _ Hrest Hne).
Qed.

(** X23. When the first curve of an action is a transform curve under an
    object path that is neither empty nor a pose path, over a non-empty
    frame range, [export_transform_action] raises: the frames of that
    path come first in the map, and for them neither the track path nor
    the list of matrices is assigned before the track is built. *)
Theorem foreign_first_path_raises (godot_node : TargetNode)
    (player_parent_path : string) (blender_object : BlenderObject)
    (action : Action) (r : @AnimationResource Matrix NodePath)
    (object_path : string) (fcurve : FCurve) (rest : list FCurve)
    (Hcurves : action_fcurves action = fcurve :: rest)
    (Hforeign : foreign_curve object_path fcurve)
    (Hrange : (get_action_frame_range action).1
              < (get_action_frame_range action).2) :
  export godot_node player_parent_path blender_object action r = None.
Proof.
  unfold export_transform_action.
  destruct (get_action_frame_range action) as [first last].
  cbn [fst snd] in Hrange. rewrite Hcurves. cbn [collect_fcurves].
  destruct Hforeign as (attribute & Hsplit & Hattr & Hpath & Hpose).
  destruct (collect_one _ _ _ _ fcurve ([], [])) as [[m1 log1]|] eqn:Hone;
    [|done].
  cbn [mbind option_bind].
  assert (first_path m1 = Some object_path ∧ m1 ≠ []) as [Hfirst Hne].
  { unfold collect_fcurve in Hone. rewrite Hsplit in Hone.
    rewrite (bool_decide_eq_true_2 _ Hattr) in Hone.
    change (od_mem object_path []) with false in Hone.
    cbn [negb andb] in Hone. unfold init_transform_frame_values in Hone.
    rewrite Hpose in Hone.
    destruct (TransformFrame_new _ _ _ _ _ _) as [default_frame|] in Hone;
      [|done].
    destruct (Z.to_nat (last - first)) as [|n] eqn:Hn; [lia|].
    cbn [replicate mbind option_bind od_set] in Hone.
    destruct (update_frames _ _ _ _ _ _) as [m2|] eqn:Hupd; [|done].
    injection Hone as <- _.
    by apply (update_frames_first_path _ _ _ _ _ _ _ Hupd). }
  destruct (collect_all _ _ _ _ rest (m1, log1)) as [[m log]|] eqn:Hrest;
    [|done].
  cbn [mbind option_bind].
  rewrite <- (collect_all_first_path _ _ _ _ _ _ _ _ _ Hrest Hne) in Hfirst.
  destruct m as [|[key frame_values] items]; [done|].
  injection Hfirst as ->. cbn [emit_tracks]. unfold emit_track.
  apply String.eqb_neq in Hpath. by rewrite Hpath, Hpose.
Qed.
End ForeignPaths.

Lemma foreign_first_path_raises_witness :
  sample_export sample_mesh_node "." (sample_object [] None)
    stray_first_action (AnimationResource_new "CubeAction") = None.
Proof.
  apply (foreign_first_path_raises
           (λ m, mkVector (e3 (row0 m)) (e3 (row1 m)) (e3 (row2 m)))
           (λ _, mkVector 1 1 1) (λ _, mkQuat 1 0 0 0)
           sample_to_euler
           (λ _, identity3) (λ _, identity3) (λ m, m) Matrix_close sample_components 24
           sample_mesh_node "." (sample_object [] None) stray_first_action
           (AnimationResource_new "CubeAction") "constraints[0]"
           stray_curve
           [mkFCurve "location" 0 (λ frame, inject_Z frame)]).
  - done.
  - exists "scale". split; [by vm_compute|]. split; [|done].
    unfold TransformFrame_ATTRIBUTES. rewrite !elem_of_cons. tauto.
  - by vm_compute.
Defined.


Section RepeatedTrack.
Variable to_translation : Matrix → Vector.
Variable to_scale : Matrix → Vector.
Variable to_quaternion : Matrix → Quaternion.
Variable to_euler : Matrix → string → option Euler.
Variable quaternion_to_matrix : Quaternion → Matrix3.
Variable euler_to_matrix : Euler → Matrix3.
Variable fix_directional_transform : Matrix → Matrix.
Variable matrix_eq : Matrix → Matrix → bool.
Variable transform_components : Matrix → Vector * Quaternion * Vector.
Variable fps : positive.

Local Abbreviation to_matrix :=
  (TransformFrame_to_matrix quaternion_to_matrix euler_to_matrix).
Local Abbreviation collect_one :=
  (collect_fcurve to_translation to_scale to_quaternion to_euler).
Local Abbreviation collect_all :=
  (collect_fcurves to_translation to_scale to_quaternion to_euler).
Local Abbreviation export :=
  (export_transform_action to_translation to_scale to_quaternion to_euler
     quaternion_to_matrix euler_to_matrix fix_directional_transform matrix_eq
     transform_components fps).
Local Abbreviation default_of blender_object :=
  (TransformFrame_new to_translation to_scale to_quaternion to_euler
     (ob_matrix_basis blender_object) (ob_rotation_mode blender_object)).

(** A curve under another object path, met after the curves of the
    object: its frames are put behind those of the object. *)
Lemma collect_foreign_curve blender_object godot_node first last fcurve
    object_path frame_values log default_frame :
  foreign_curve object_path fcurve →
  (array_index fcurve
   < attribute_size (split_fcurve_data_path (data_path fcurve)).2)%nat →
  first < last →
  default_of blender_object = Some default_frame →
  ∃ foreign_values,
    collect_one blender_object godot_node first last fcurve
      ([("", frame_values)], log)
    = Some ([("", frame_values); (object_path, foreign_values)], log).
Proof.
  intros (attribute & Hsplit & Hattr & Hpath & Hpose) Hindex Hrange
    Hdefault.
  rewrite Hsplit in Hindex. cbn [snd] in Hindex.
  unfold collect_fcurve. rewrite Hsplit.
  rewrite (bool_decide_eq_true_2 _ Hattr).
  assert (String.eqb "" object_path = false) as Hkey.
  { apply String.eqb_neq. by apply not_eq_sym. }
  unfold od_mem. cbn [od_lookup]. rewrite Hkey. cbn [negb andb].
  unfold init_transform_frame_values. rewrite Hpose, Hdefault.
  destruct (Z.to_nat (last - first)) as [|n] eqn:Hn; [lia|].
  cbn [replicate mbind option_bind od_set]. rewrite Hkey, app_nil_r.
  unfold py_range. rewrite Hn.
  rewrite (update_frames_from object_path _ _ _ _ 0 _
             (default_frame :: replicate n default_frame)).
  - rewrite drop_0, Z.add_0_r. cbn [take app].
    destruct (update_each_total attribute fcurve
                (default_frame :: replicate n default_frame) first)
      as [foreign_values ->].
    { intros k f _. by apply update_in_range. }
    exists foreign_values. cbn [mbind option_bind od_set].
    by rewrite Hkey, String.eqb_refl.
  - cbn [od_lookup]. by rewrite Hkey, String.eqb_refl.
  - cbn. by rewrite length_replicate.
Qed.

(** X24. A transform curve under an object path that is neither empty
    nor a pose path, met after the curves of the object itself, does not
    get a track of its own: its values are dropped, and the track of the
    object is added a second time, with the same path and the same
    matrices, because the loop over the object paths assigns neither for
    such a path and builds the track from what the round before left.
    The curves of the object come first, the frame range is not empty and
    the parent of the node is no BoneAttachment. This is when the default
    frame of the object can be built; when it cannot ([to_euler] raises
    for the rotation mode of the object), the export raises. *)
Theorem foreign_path_repeats_object_track (godot_node : TargetNode)
    (player_parent_path : string) (blender_object : BlenderObject)
    (action : Action) (r : @AnimationResource Matrix NodePath)
    (parent_type object_path : string) (curves : list FCurve)
    (fcurve : FCurve)
    (Hcurves : action_fcurves action = curves ++ [fcurve])
    (Hnonempty : curves ≠ [])
    (Hvalid : Forall object_curve curves)
    (Hforeign : foreign_curve object_path fcurve)
    (Hindex : (array_index fcurve
               < attribute_size
                   (split_fcurve_data_path (data_path fcurve)).2)%nat)
    (Hrange : (get_action_frame_range action).1
              < (get_action_frame_range action).2)
    (Hparent : gn_parent_type godot_node = Some parent_type)
    (Hattach : parent_type ≠ "BoneAttachment")
    (Hlength : is_Some (res_length r)) :
  let frame_range := py_range (get_action_frame_range action).1
                       (get_action_frame_range action).2 in
  let fix_mtx :=
    if bool_decide (gn_type godot_node
                      ∈ ["SpotLight"; "DirectionalLight"; "Camera"])
    then fix_directional_transform else (λ mtx, mtx) in
  match (if String.eqb (ob_rotation_mode blender_object) "QUATERNION"
         then to_euler (ob_matrix_basis blender_object) "XYZ"
         else to_euler (ob_matrix_basis blender_object)
                (ob_rotation_mode blender_object)) with
  | Some rotation_euler =>
      let default_frame :=
        mkTransformFrame
          (to_translation (ob_matrix_basis blender_object))
          (to_scale (ob_matrix_basis blender_object))
          (ob_rotation_mode blender_object)
          (to_quaternion (ob_matrix_basis blender_object))
          rotation_euler in
      ∃ frames r1 r2,
        Forall2 (λ frame f,
                   sample_curves curves frame default_frame = Some f)
                frame_range frames ∧
        let track :=
          Track_new "transform"
            (mkNodePath player_parent_path (gn_path godot_node) None)
            frame_range
            (map (λ f, fix_mtx (Matrix_mul
                                  (ob_matrix_parent_inverse blender_object)
                                  (to_matrix f)))
                 frames) in
        add_track matrix_eq fps transform_components track r = Some r1 ∧
        add_track matrix_eq fps transform_components track r1 = Some r2 ∧
        track_count r2 = S (S (track_count r)) ∧
        export godot_node player_parent_path blender_object action r
          = Some (r2, [])
  | None =>
      export godot_node player_parent_path blender_object action r = None
  end.
Proof.
  intros frame_range fix_mtx. subst frame_range.
  unfold export_transform_action.
  destruct (get_action_frame_range action) as [first last] eqn:Hfr.
  cbn [fst snd] in *. rewrite Hcurves.
  destruct curves as [|first_curve rest] eqn:Hcs; [done|].
  clear Hnonempty.
  pose proof (Forall_inv Hvalid) as [Hattr _].
  pose proof (eq_refl (default_of blender_object)) as Hdefault.
  unfold TransformFrame_new in Hdefault at 2.
  destruct (if String.eqb (ob_rotation_mode blender_object) "QUATERNION"
            then _ else _) as [rotation_euler|];
    cbn [mbind option_bind] in Hdefault.
  2:{ cbn [app collect_fcurves].
      by rewrite (collect_first_object_curve_raises to_translation to_scale
                    to_quaternion to_euler). }
  set (default_frame := mkTransformFrame _ _ _ _ rotation_euler) in *.
  destruct (collect_all_object_curves to_translation to_scale to_quaternion
              to_euler blender_object godot_node first last default_frame
              (first_curve :: rest) [] _ [] Hvalid
              (sampled_nil default_frame first last))
    as (frames & Hcollect & [Hlen Hsampled]).
  destruct (collect_foreign_curve blender_object godot_node first last
              fcurve object_path frames [] default_frame Hforeign Hindex
              Hrange Hdefault)
    as (foreign_values & Hforeign_run).
  exists frames.
  set (t := Track_new "transform"
              (mkNodePath player_parent_path (gn_path godot_node) None)
              (py_range first last)
              (map (λ f, fix_mtx (Matrix_mul
                                    (ob_matrix_parent_inverse blender_object)
                                    (to_matrix f))) frames)).
  assert (well_formed t) as Hwf.
  { unfold well_formed, t. cbn. unfold py_range.
    rewrite !length_map, length_seq. lia. }
  destruct (add_track_total matrix_eq fps transform_components t r Hwf
              Hlength) as [r1 Hr1].
  destruct (add_track_effect _ _ _ _ _ _ Hr1) as (l & _ & Hl1 & Hcount1).
  destruct (add_track_total matrix_eq fps transform_components t r1 Hwf)
    as [r2 Hr2]; [by eexists|].
  destruct (add_track_effect _ _ _ _ _ _ Hr2) as (l2 & _ & _ & Hcount2).
  exists r1, r2. split; [|split; [done|split; [done|split]]].
  - apply Forall2_same_length_lookup. split.
    { unfold py_range. rewrite length_map, length_seq. lia. }
    intros k frame f Hframe Hf. unfold py_range in Hframe.
    rewrite list_lookup_fmap in Hframe.
    destruct (seq 0 (Z.to_nat (last - first)) !! k) as [i|] eqn:Hi; [|done].
    apply lookup_seq in Hi as [-> _]. injection Hframe as <-.
    by apply Hsampled.
  - by rewrite Hcount2, Hcount1.
  - rewrite collect_fcurves_app.
    cbn [collect_fcurves] in Hcollect |- *.
    rewrite (collect_first_object_curve to_translation to_scale
               to_quaternion to_euler _ _ _ _ _ _ default_frame) by done.
    rewrite Hcollect. cbn [mbind option_bind]. rewrite Hforeign_run.
    cbn [mbind option_bind emit_tracks]. unfold emit_track.
    change (String.eqb "" "") with true. cbn iota.
    rewrite Hparent. cbn [mbind option_bind].
    apply String.eqb_neq in Hattach. rewrite Hattach.
    cbn [mbind option_bind].
    assert ((if bool_decide (gn_type godot_node
                               ∈ ["SpotLight"; "DirectionalLight"; "Camera"])
             then map fix_directional_transform
                    (map (λ x, Matrix_mul
                                 (ob_matrix_parent_inverse blender_object)
                                 (to_matrix x)) frames)
             else map (λ x, Matrix_mul
                              (ob_matrix_parent_inverse blender_object)
                              (to_matrix x)) frames)
            = map (λ f, fix_mtx (Matrix_mul
                                   (ob_matrix_parent_inverse blender_object)
                                   (to_matrix f))) frames) as ->.
    { subst fix_mtx. case_bool_decide; [|done].
      by rewrite <- list_fmap_compose. }
    fold t. rewrite Hr1. cbn [mbind option_bind].
    destruct Hforeign as (attribute & _ & _ & Hpath & Hpose).
    apply String.eqb_neq in Hpath. rewrite Hpath, Hpose.
    cbn [mbind option_bind]. fold t. by rewrite Hr2.
Qed.
End RepeatedTrack.

Lemma foreign_path_repeats_object_track_witness :
  ∃ r2, sample_export sample_mesh_node "." (sample_object [] None)
          stray_action (AnimationResource_new "CubeAction")
        = Some (r2, []) ∧
        track_count r2 = 2%nat.
Proof.
  assert (foreign_curve "constraints[0]" stray_curve) as Hforeign.
  { exists "scale". split; [by vm_compute|]. split; [|done].
    unfold TransformFrame_ATTRIBUTES. rewrite !elem_of_cons. tauto. }
  assert (Forall object_curve
            [mkFCurve "location" 0 (λ frame, inject_Z frame)]) as Hvalid.
  { exact slide_action_curves. }
  assert ((array_index stray_curve
           < attribute_size
               (split_fcurve_data_path (data_path stray_curve)).2)%nat)
    as Hindex by (vm_compute; lia).
  assert ((get_action_frame_range stray_action).1
          < (get_action_frame_range stray_action).2) as Hrange
    by (by vm_compute).
  assert (is_Some (res_length (AnimationResource_new "CubeAction"
                               : @AnimationResource Matrix NodePath)))
    as Hlength by (by eexists).
  assert ("Spatial" ≠ "BoneAttachment") as Hattach by done.
  assert ([mkFCurve "location" 0 (λ frame, inject_Z frame)] ≠ [])
    as Hnonempty by done.
  pose proof (foreign_path_repeats_object_track
                (λ m, mkVector (e3 (row0 m)) (e3 (row1 m)) (e3 (row2 m)))
                (λ _, mkVector 1 1 1) (λ _, mkQuat 1 0 0 0)
                sample_to_euler
                (λ _, identity3) (λ _, identity3) (λ m, m) Matrix_close
                sample_components 24
                sample_mesh_node "." (sample_object [] None) stray_action
                (AnimationResource_new "CubeAction") "Spatial"
                "constraints[0]"
                [mkFCurve "location" 0 (λ frame, inject_Z frame)] stray_curve
                eq_refl Hnonempty Hvalid Hforeign Hindex Hrange eq_refl
                Hattach Hlength) as Hexport.
  cbv zeta in Hexport.
  destruct (if String.eqb _ _ then _ else _) as [rotation_euler|] eqn:Hnew
    in Hexport; [|vm_compute in Hnew; discriminate].
  destruct Hexport as (frames & r1 & r2 & _ & _ & _ & Hcount & Hexport).
  exists r2. by split.
Defined.
